(* ===== verification/_CoqProject ===== *)
-Q . S2P
Prelude.v
Bytes.v
Runtime.v
Codec.v
Fixed.v
Property.v
Macro.v
MacroFacts.v
MacroSyntax.v
MacroExpand.v
MacroMeaning.v
MacroErrors.v
MacroCorrect.v
MacroCodecs.v
Subscriptions.v
Acks.v
Publish.v
Connect.v
PacketSyntax.v
Expanded.v
MacroTests.v
Packet.v
Decoded.v
CodecTests.v
Topic.v
Stream.v
Tasks.v
ClientSession.v
Connection.v
Client.v
ClientFacts.v
ClientInvariant.v
ClientRuns.v
Relay.v
ClientExamples.v
Sessions.v
Broker.v
BrokerTests.v
BrokerLogic.v
BrokerFacts.v
BrokerSamples.v
BrokerWills.v
BrokerRun.v
BrokerTasks.v
BrokerLocks.v
BrokerInterleaved.v
BrokerRely.v
BrokerExclusion.v
BrokerConcurrent.v
BrokerRaces.v
BrokerDeadlock.v
BrokerSchedules.v
EndToEnd.v
ClientSamples.v
ExampleSamples.v
