(* ===== verification/Prelude.v ===== *)
(** * vaux: an MQTT v5 codec, broker and client

    The repository is a workspace of Rust crates: [vaux-macro] derives encoders
    and decoders from annotated structs, [vaux-mqtt] defines the control packets
    with them, [vaux-async] carries packets over a byte stream, [vaux-broker] is
    a server, started by [vaux], and [vaux-client] a client.  This library models
    them from the macros and the codec up to the two programs talking to each
    other.

    ** The files

    - [Prelude]: outcomes ([Ok], [Err], panic, out of fuel), the state and error
      monad [M], record update, machine integers, UTF-8, automation.
    - [Bytes]: [BytesMut] and [Buf] of the [bytes] crate, as a class with laws
      and a list instance.  [Runtime]: tokio channels and cancellation tokens,
      likewise.
    - [Codec], [Fixed], [Property]: vaux-mqtt/src/codec/mod.rs, codec/fixed.rs,
      property.rs.  Enumerations with their wire values, strings, variable byte
      integers, the fixed header, user properties.
    - [Macro], [MacroFacts]: vaux-macro.  A struct with its attributes is a value
      of the type [struct]; [encode_of], [decode_of], [codec_size_of] interpret
      it as the generated code does.  [MacroFacts] proves size and round trip for
      every struct that is declared consistently.
    - [MacroSyntax], [MacroExpand]: the macros themselves (lib.rs, size.rs,
      encode.rs, decode.rs, util.rs), as functions from the syntax of a struct to
      the statements of the generated methods, with their compile errors and
      panics.  [MacroMeaning] runs generated statements; [MacroErrors],
      [MacroCorrect] and [MacroCodecs] relate the generators to each other and
      the generated code to the interpreters of [Macro].  [PacketSyntax]: the
      struct declarations of vaux-mqtt as syntax.  [Expanded]: the derived
      methods of vaux-mqtt/output.rs, a kept expansion of the macros, as a
      regression check of the generators.
    - [Subscriptions], [Acks], [Publish], [Connect]: the packets of vaux-mqtt/src
      with constructors, setters and codecs.  [Packet]: the packet enumeration
      and the framing decoder of codec/mod.rs.  [Decoded]: what is known of a
      packet that the decoder returned.
    - [MacroTests], [CodecTests], [BrokerTests]: the unit tests of vaux-macro,
      vaux-mqtt and vaux-broker as statements about the model.
    - [Topic]: vaux-broker/src/topic.rs, the tree of subscriptions, against an
      abstract table of filters and sessions.
    - [Stream]: vaux-async/src/stream/packet.rs, [PacketStream] over an arbitrary
      [Transport].  [Connection]: vaux-async/src/stream/mod.rs and
      vaux-client/src/connection.rs, the transports there are and how a client
      opens one.
    - [Sessions]: vaux-broker/src/session.rs and config.rs, sessions in a store
      and the session pool.  [Broker]: vaux-broker/src/lib.rs, the handlers over
      the shared state, the branches of the connection task, and the step
      relation [step] of the whole broker.  [BrokerLogic]: its invariant, with a
      small program logic.  [BrokerFacts], [BrokerSamples]: its theorems, and the
      runs they are applied to.  [BrokerWills]: when wills are published, delayed,
      cancelled and discarded.  [BrokerRun]: the handle [Broker] with its command
      channel, the accept loop of [run], and vaux/src/main.rs, which refine the
      step relation.
    - [Tasks]: [async] functions as programs that wait for read-write locks and
      are interrupted there, with a rely-guarantee logic.  [BrokerTasks]: the
      handlers of vaux-broker as such programs, with the locks of the pool, the
      topic tree and each session, and the step relation [fine_step] of the tasks
      that interrupt each other.  [BrokerLocks]: what each lock protects, and
      that every handler touches only what it has locked.  [BrokerInterleaved]:
      the runs of [step] are runs of [fine_step].  [BrokerRely],
      [BrokerExclusion], [BrokerConcurrent]: what the tasks may do with and
      without the pool, that every handler keeps to it, and the invariant of all
      interleavings.  [BrokerRaces]: the tasks do not race.  [BrokerDeadlock]: a
      takeover that blocks the broker.  [BrokerSchedules]: an executable
      scheduler and its runs.
    - [ClientSession]: vaux-client/src/session.rs and lib.rs.  [Client]: client.rs
      and builder.rs, the builder, the handle and the task of [start] with the
      step relation [client_step] of application, handle and task.
      [ClientFacts], [ClientInvariant], [ClientRuns]: their theorems.
    - [Relay], [ClientExamples]: vaux-client/examples, the relay of the
      round-trip test and the three programs.
    - [EndToEnd]: a message through client and broker.  [ClientSamples],
      [ExampleSamples]: runs of the client and of the examples.

    ** How code is modelled

    A Rust function on [&mut self] is a function in [M S E]: the state is kept on
    every path, also after [Err] and a panic.  [?] is the bind of the monad,
    [attempt] is a [match] on a result.  Integers are [Z] with the wrap-around or
    the panic of their width written out.  [Arc<RwLock<..>>] data that several
    tasks use lies in a store (sessions and channels of the broker in [World],
    channels of the client in [Channels]), so that sharing is visible.  A [select!]
    loop is a step relation with a constructor for every branch: which branch
    runs is arbitrary and a branch that waits is not taken.  In [step] and
    [client_step] a branch is one step; in [fine_step] a branch of the broker is
    interrupted wherever it awaits a lock, a channel or its stream, and a lock is
    granted to several readers or one writer, in any order.  A task may be delayed
    for any time wherever it waits, so that the sleep of 500 ms in a takeover is
    not a step of its own.  What the sources take from other crates is a class
    with the documented behaviour as laws and an instance that shows they can be
    met: buffers ([Buf]), the order of a [HashMap] ([HashIter]), transports
    ([Transport]), the runtime ([Runtime]), name resolution, TCP and TLS
    ([Network]).  Random UUIDs, the clock and the build profile ([Build]) are
    arguments.

    ** What is proved

    - Codec: packets of all fourteen types round trip, and every proper prefix is
      reported as insufficient data, for bodies of at most 2097151 bytes and up to
      the fields the decoder misreads ([packet_exact] excludes them; theorems on
      the departures below show what becomes of them); the decoder terminates on
      all bytes, and a packet it returns is well typed and fits the wire format,
      which is what the handlers of client and broker rely on.
    - Macros: for every declaration of the supported form the macros expand, and
      the generated methods compute what the interpreters do, so that their
      sizes are exact and values round trip; the packets of vaux-mqtt are such
      declarations; the generators accept the same types, and reproduce the kept
      expansion as it is transcribed, up to the changes made since.
    - Stream: packets that round trip and have no user properties ([sendable])
      arrive complete and in order for any chunking of the connection; a read can
      be cancelled and repeated; oversized packets are refused; the TCP and TLS
      streams behave alike.
    - Topic tree and session pool: they refine a table of subscriptions and a map
      of sessions.  Matching finds every entry that the wildcard rules of MQTT
      4.7.1 select exactly once; the rule of 4.7.2 on topics that begin with [$]
      is not implemented.
    - Broker: an invariant of all reachable states; what subscribing,
      unsubscribing, publishing and connecting do, on the abstract table; the will
      of a lost client reaches its subscribers, a normal DISCONNECT discards it, a
      delayed one is published at most once and cancelled by a client that comes
      back; the program, with its accept loop, refines the step relation.
    - Broker, interleaved: in every interleaving of the tasks locks exclude each
      other, the limit on connected sessions holds at every moment and the pool is
      consistent whenever no task is changing it; uninterrupted runs are among the
      interleavings; every handler, uninterrupted, is the atomic one, gives back
      its locks and touches only what it has locked, so that no task changes what
      another has locked; a takeover can block the broker for good.
    - Examples: the relay writes to the subscriber exactly the messages of the
      publisher, in order and renumbered, and counts the acknowledgements; the
      publisher waits for exactly the acknowledgements of its QoS level; when the
      subscriber panics and what it acknowledges.
    - Client: [handle_packet] does what MQTT 4.3 and 4.9 ask for ([receive]) with
      all packets but the few that [regular] excludes, and theorems state what it
      does with those; sending and the handshake; an invariant of all reachable
      states; under back-pressure the packets for a consumer form a queue that no
      step loses from, and in a fair run a packet held back is handed over; QoS 1
      from a publisher to the broker and from the broker to a subscriber, with the
      acknowledgements on both sides.
    - Departures from MQTT or from the documentation, each as a theorem about the
      code as it is: four-byte variable byte integers, over-counted user
      properties, panics of the decoder, a read that never ends, topics that begin
      with [$] delivered to wildcards, corrupted downgraded messages, sessions lost after a clean start, wills fired by a
      takeover, a takeover that deadlocks, a broker that cannot be stopped, QoS 2
      in broker and client, irregular responses, messages refused instead of
      queued, restarting a client, acknowledgements of the subscriber example.

    ** Bounds and fuel

    Loops whose recursion is not structural take fuel, and theorems state how much
    is enough: one more than the bytes of the packet for [read_loop], the length of
    the buffer for the property loop, 65537 for the search of a packet identifier.
    Running out of fuel is the outcome [OutOfFuel], never a value.  In the step
    relations it stands for a branch that waits.  Packets are limited to 2097151
    bytes where a statement needs the decoder of variable byte integers.

    ** Not modelled

    Display and Debug texts, and the texts of errors; sockets, TLS and
    certificates; the parsing of command-line arguments and output to a terminal.
    The parts of vaux-mqtt/output.rs that copy hand-written code or implement
    standard traits: no build includes that file, and the hand-written code is
    modelled where it is compiled.  The integration tests, which start a broker
    and talk to it over sockets: what they check follows from the theorems on the
    broker.  The interleaved model has no preference of a lock for one of the tasks
    that wait for it, and the tasks of the client, which share no locks with each
    other, are interleaved by branches.  Of the macros, the meaning of generated
    code is given for the field types the packets and tests use; the generators
    themselves are modelled for all types.  The capacity of the topic tree is a
    machine word there and a bound in the model ([overgrown] marks states past
    it). *)

From Stdlib Require Export ZArith Lia.
From stdpp Require Export prelude strings gmap countable.

#[export] Set Default Goal Selector "!".
#[global] Open Scope Z_scope.

(** ** Outcomes *)

(** The result of running a piece of Rust code: a value, an [Err], a panic
    (an [unwrap] on [None], a read past the end of a buffer), or the marker of
    a model that ran out of fuel, which the termination theorems exclude. *)
Inductive outcome (E A : Type) : Type :=
| Ok (a : A)
| Err (e : E)
| Panic
| OutOfFuel.
Arguments Ok {E A} a.
Arguments Err {E A} e.
Arguments Panic {E A}.
Arguments OutOfFuel {E A}.

#[export] Instance outcome_eq_dec {E A} `{EqDecision E, EqDecision A} :
  EqDecision (outcome E A).
Proof. solve_decision. Defined.

(** Code that works on a mutable state [S] and may fail: the state is kept on
    every path, as a Rust function leaves what it wrote behind [&mut]. *)
Definition M (S E A : Type) : Type := S -> outcome E A * S.

#[export] Instance M_ret {S E} : MRet (M S E) := fun A a s => (Ok a, s).

#[export] Instance M_bind {S E} : MBind (M S E) := fun A B f m s =>
  match m s with
  | (Ok a, s') => f a s'
  | (Err e, s') => (Err e, s')
  | (Panic, s') => (Panic, s')
  | (OutOfFuel, s') => (OutOfFuel, s')
  end.

Definition raise {S E A} (e : E) : M S E A := fun s => (Err e, s).
Definition panic {S E A} : M S E A := fun s => (Panic, s).
Definition no_fuel {S E A} : M S E A := fun s => (OutOfFuel, s).
Definition lift {S E A} (o : outcome E A) : M S E A := fun s => (o, s).
Definition get {S E} : M S E S := fun s => (Ok s, s).
Definition gets {S E A} (f : S -> A) : M S E A := fun s => (Ok (f s), s).
Definition modify {S E} (f : S -> S) : M S E unit := fun s => (Ok tt, f s).

(** [Option::ok_or] and the [?] operator on an [Option]. *)
Definition ok_or {E A} (o : option A) (e : E) : outcome E A :=
  match o with Some a => Ok a | None => Err e end.

(** [Option::unwrap]. *)
Definition unwrap {E A} (o : option A) : outcome E A :=
  match o with Some a => Ok a | None => Panic end.

(** [Result::map_err]. *)
Definition map_err {E E' A} (f : E -> E') (o : outcome E A) : outcome E' A :=
  match o with Ok a => Ok a | Err e => Err (f e) | Panic => Panic | OutOfFuel => OutOfFuel end.

(** [let _ = r] and [r.ok()] on an operation that updates [a] when it succeeds. *)
Definition or_keep {E E' A} (a : A) (o : outcome E A) : outcome E' A :=
  match o with Ok b => Ok b | Err _ => Ok a | Panic => Panic | OutOfFuel => OutOfFuel end.

(** A fallible operation that is not expected to fail. *)
Definition or_panic {E E' A} (o : outcome E A) : outcome E' A :=
  match o with Ok a => Ok a | OutOfFuel => OutOfFuel | _ => Panic end.

(** [match r { Ok(a) => .., Err(e) => .. }] on the result of an operation. *)
Definition attempt {S E E' A} (m : M S E A) : M S E' (E + A) := fun s =>
  match m s with
  | (Ok a, s') => (Ok (inr a), s')
  | (Err e, s') => (Ok (inl e), s')
  | (Panic, s') => (Panic, s')
  | (OutOfFuel, s') => (OutOfFuel, s')
  end.

Lemma bind_ok {S E A B} (m : M S E A) (f : A -> M S E B) s a s' :
  m s = (Ok a, s') -> (m ≫= f) s = f a s'.
Proof. intros H. unfold mbind, M_bind. by rewrite H. Qed.

Lemma bind_ret {S E A B} (a : A) (f : A -> M S E B) : mret a ≫= f = f a.
Proof. reflexivity. Qed.

Lemma bind_get {S E A} (f : S -> M S E A) s : (get ≫= f) s = f s s.
Proof. reflexivity. Qed.

Lemma bind_ok_inv {S E A B} (m : M S E A) (f : A -> M S E B) s b s' :
  (m ≫= f) s = (Ok b, s') -> exists a s1, m s = (Ok a, s1) /\ f a s1 = (Ok b, s').
Proof.
  unfold mbind, M_bind. destruct (m s) as [[a|e| |] s1]; intros H; simplify_eq. eauto.
Qed.

(** ** Functional record update *)

(** [x <| field := v |>] stands for a Rust field assignment.  An [Eta]
    instance lists the projections of a record in constructor order. *)
Class Eta (R : Type) := eta_record : R -> R.
Class Setter {R T : Type} (proj : R -> T) := set_field : (T -> T) -> R -> R.
Arguments set_field {R T} proj {Setter} f x : rename.

Ltac find_setter :=
  match goal with
  | |- @Setter ?R ?T ?proj =>
      let e := eval hnf in (_ : Eta R) in
      lazymatch eval pattern proj in e with
      | ?F _ =>
          let upd := eval cbv beta in (fun f : T -> T => F (fun x : R => f (proj x))) in
          exact upd
      end
  end.

#[export] Hint Extern 0 (Setter _) => find_setter : typeclass_instances.

Declare Scope record_scope.
Delimit Scope record_scope with record.
Notation "x <| proj := v |>" := (set_field proj (fun _ => v) x)
  (at level 1, left associativity, proj at level 99, v at level 200) : record_scope.
#[global] Open Scope record_scope.

(** ** Machine integers and bytes *)

Abbreviation len l := (Z.of_nat (length l)).

(** A Rust [String] is its sequence of UTF-8 bytes. *)
Abbreviation rstring := (list Z).

Definition u8_max : Z := 255.
Definition u16_max : Z := 65535.
Definition u32_max : Z := 4294967295.

(** [as u16] and [as u32], and the additions of those widths. *)
Definition u8 (z : Z) : Z := z mod 256.
Definition u16 (z : Z) : Z := z mod 65536.
Definition u32 (z : Z) : Z := z mod 4294967296.
Definition add_u32 (a b : Z) : Z := u32 (a + b).
Definition not_u8 (z : Z) : Z := 255 - z.

Definition is_u8 (z : Z) : Prop := 0 <= z < 256.
Definition is_u16 (z : Z) : Prop := 0 <= z < 65536.
Definition is_u32 (z : Z) : Prop := 0 <= z < 4294967296.

(** Big-endian digits, the network order of MQTT integers. *)
Definition be16 (v : Z) : list Z := [v / 256 mod 256; v mod 256].
Definition be32 (v : Z) : list Z :=
  [v / 16777216 mod 256; v / 65536 mod 256; v / 256 mod 256; v mod 256].
Definition of_be16 (x y : Z) : Z := x * 256 + y.
Definition of_be32 (x y z w : Z) : Z := x * 16777216 + y * 65536 + z * 256 + w.

Lemma of_be16_be16 v : is_u16 v -> of_be16 (v / 256 mod 256) (v mod 256) = v.
Proof.
  unfold is_u16, of_be16. intros H. rewrite (Z.mod_small (v / 256)).
  - pose proof (Z.div_mod v 256). lia.
  - split; [apply Z.div_pos; lia | apply Z.div_lt_upper_bound; lia].
Qed.

Lemma of_be32_be32 v :
  is_u32 v ->
  of_be32 (v / 16777216 mod 256) (v / 65536 mod 256) (v / 256 mod 256) (v mod 256) = v.
Proof.
  unfold is_u32, of_be32. intros H.
  pose proof (Z.div_mod v 256). pose proof (Z.div_mod (v / 256) 256).
  pose proof (Z.div_mod (v / 65536) 256).
  assert (v / 65536 = v / 256 / 256) by (rewrite Z.div_div by lia; reflexivity).
  assert (v / 16777216 = v / 65536 / 256) by (rewrite Z.div_div by lia; reflexivity).
  rewrite (Z.mod_small (v / 16777216)); [lia |].
  split; [apply Z.div_pos; lia | apply Z.div_lt_upper_bound; lia].
Qed.

Lemma u32_small z : 0 <= z < 4294967296 -> u32 z = z.
Proof. apply Z.mod_small. Qed.

Lemma add_u32_u32_l a b : add_u32 (u32 a) b = u32 (a + b).
Proof. apply Zplus_mod_idemp_l. Qed.

Lemma u32_u32_l a b : u32 (u32 a + b) = u32 (a + b).
Proof. apply Zplus_mod_idemp_l. Qed.

Lemma u32_u32_r a b : u32 (a + u32 b) = u32 (a + b).
Proof. apply Zplus_mod_idemp_r. Qed.

Lemma add_u32_u32_r a b : add_u32 a (u32 b) = u32 (a + b).
Proof. apply Zplus_mod_idemp_r. Qed.

Lemma len_nonneg {A} (l : list A) : 0 <= len l.
Proof. lia. Qed.

Lemma len_app {A} (l k : list A) : len (l ++ k) = len l + len k.
Proof. rewrite length_app. lia. Qed.

(** ** Strings *)

(** The bytes of an ASCII literal. *)
Definition str (s : String.string) : list Z :=
  (fun a => Z.of_N (Ascii.N_of_ascii a)) <$> String.list_ascii_of_string s.

Definition between (lo hi b : Z) : bool := (lo <=? b) && (b <=? hi).

(** What [String::from_utf8] accepts: the well-formed sequences of the Unicode
    standard, which exclude overlong forms, surrogates and values above
    U+10FFFF. *)
Fixpoint utf8_valid (l : list Z) : bool :=
  match l with
  | [] => true
  | b0 :: r0 =>
      if between 0 0x7f b0 then utf8_valid r0 else
      match r0 with
      | [] => false
      | b1 :: r1 =>
          if between 0xc2 0xdf b0 then between 0x80 0xbf b1 && utf8_valid r1 else
          match r1 with
          | [] => false
          | b2 :: r2 =>
              if between 0xe0 0xef b0 then
                let lo := if b0 =? 0xe0 then 0xa0 else 0x80 in
                let hi := if b0 =? 0xed then 0x9f else 0xbf in
                between lo hi b1 && between 0x80 0xbf b2 && utf8_valid r2
              else
              match r2 with
              | [] => false
              | b3 :: r3 =>
                  let lo := if b0 =? 0xf0 then 0x90 else 0x80 in
                  let hi := if b0 =? 0xf4 then 0x8f else 0xbf in
                  between 0xf0 0xf4 b0 && between lo hi b1 && between 0x80 0xbf b2
                    && between 0x80 0xbf b3 && utf8_valid r3
              end
          end
      end
  end.

(** A value of the Rust type [String] that fits an MQTT length prefix. *)
Definition mqtt_string (s : list Z) : Prop := utf8_valid s = true /\ len s <= u16_max.

(** ** Proof automation *)

Create HintDb codec.

(** Case analysis on the [match]es and [if]s of a goal. *)
Ltac destruct_matches :=
  repeat match goal with
  | |- context [match ?x with _ => _ end] => destruct x eqn:?
  end.

Ltac deex :=
  repeat match goal with
  | H : exists _, _ |- _ => destruct H
  | H : _ /\ _ |- _ => destruct H
  end.

(** ** Facts about bytes, by enumeration *)

(** A decidable property of a byte holds of every byte when it holds of the
    256 of them: bit-level facts are checked by running them. *)
Lemma byte_cases (P : Z -> bool) :
  forallb P (seqZ 0 256) = true -> forall v, is_u8 v -> P v = true.
Proof.
  intros H v Hv. rewrite forallb_forall in H. apply H.
  apply list_elem_of_In, elem_of_seqZ. unfold is_u8 in Hv. lia.
Qed.

(** Closes a decidable fact about a byte [v] and finitely many booleans. *)
Ltac by_bytes v :=
  let H := fresh in
  match goal with
  | Hv : is_u8 v |- ?P =>
      pose proof (byte_cases (fun v' => ltac:(let q := eval pattern v in (bool_decide P) in
        match q with ?F _ => exact (F v') end)) ltac:(vm_compute; reflexivity) v Hv) as H;
      cbv beta in H; exact (bool_decide_eq_true_1 _ H)
  end.

Lemma lor_128 x : 0 <= x < 128 -> Z.lor x 128 = x + 128.
Proof.
  intros H. enough (P : ((128 <=? x) || (Z.lor x 128 =? x + 128)) = true).
  { destruct (Z.leb_spec 128 x); [lia |]. by apply Z.eqb_eq. }
  apply (byte_cases (fun x => (128 <=? x) || (Z.lor x 128 =? x + 128))); [by vm_compute |].
  unfold is_u8. lia.
Qed.

Lemma land_127 x : 0 <= x -> Z.land x 127 = x mod 128.
Proof. intros. change 127 with (Z.ones 7). by rewrite Z.land_ones by lia. Qed.

Lemma land_128_small x : 0 <= x < 128 -> Z.land x 128 = 0.
Proof.
  intros H. enough (P : ((128 <=? x) || (Z.land x 128 =? 0)) = true).
  { destruct (Z.leb_spec 128 x); [lia |]. by apply Z.eqb_eq. }
  apply (byte_cases (fun x => (128 <=? x) || (Z.land x 128 =? 0))); [by vm_compute |].
  unfold is_u8. lia.
Qed.

Lemma land_128_big x : 128 <= x < 256 -> Z.land x 128 = 128.
Proof.
  intros H. enough (P : ((x <? 128) || (Z.land x 128 =? 128)) = true).
  { destruct (Z.ltb_spec x 128); [lia |]. by apply Z.eqb_eq. }
  apply (byte_cases (fun x => (x <? 128) || (Z.land x 128 =? 128))); [by vm_compute |].
  unfold is_u8. lia.
Qed.

(** Case analysis on integer comparisons. *)
Ltac case_leb :=
  repeat match goal with
  | |- context [?a <=? ?b] => destruct (Z.leb_spec a b)
  | |- context [?a <? ?b] => destruct (Z.ltb_spec a b)
  end.
