(* ===== verification/Bytes.v ===== *)
(** * The byte buffers of the [bytes] crate *)
(** The codec reads from and appends to [bytes::BytesMut].  The crate is not
    part of the repository, so its operations are the fields of the class
    [Buf], with the documented behaviour the codec relies on as its laws; the
    value of a buffer is the sequence of its readable bytes.  The file also
    holds the monadic forms of the operations and the three predicates the
    codec proofs are built from:
    - [writes m bs]: the encoder [m] appends exactly [bs];
    - [reads m bs a]: the decoder [m] consumes exactly [bs] and returns [a];
    - [tame m]: on a buffer of bytes, [m] always returns and never lengthens it. *)

From S2P Require Import Prelude.

Abbreviation BytesMut := (list Z).

(** A partial operation panics where its documentation says so ([None]). *)
Class Buf := {
  buf_remaining : BytesMut -> Z;
  buf_get_u8 : BytesMut -> option (Z * BytesMut);
  buf_get_u16 : BytesMut -> option (Z * BytesMut);
  buf_get_u32 : BytesMut -> option (Z * BytesMut);
  buf_try_copy : Z -> BytesMut -> option (list Z * BytesMut);
  buf_split_to : Z -> BytesMut -> option (list Z * BytesMut);
  buf_split_off : Z -> BytesMut -> option (list Z * BytesMut);
  buf_index : BytesMut -> Z -> option Z;
  buf_put_u8 : Z -> BytesMut -> BytesMut;
  buf_put_u16 : Z -> BytesMut -> BytesMut;
  buf_put_u32 : Z -> BytesMut -> BytesMut;
  buf_put_slice : list Z -> BytesMut -> BytesMut;

  remaining_len b : buf_remaining b = len b;
  get_u8_nil : buf_get_u8 [] = None;
  get_u8_cons x b : buf_get_u8 (x :: b) = Some (x, b);
  get_u16_short b : len b < 2 -> buf_get_u16 b = None;
  get_u16_cons x y b : buf_get_u16 (x :: y :: b) = Some (of_be16 x y, b);
  get_u32_short b : len b < 4 -> buf_get_u32 b = None;
  get_u32_cons x y z w b :
    buf_get_u32 (x :: y :: z :: w :: b) = Some (of_be32 x y z w, b);
  (** [try_copy_to_slice] fails without reading when there are too few bytes *)
  try_copy_short n b : len b < n -> buf_try_copy n b = None;
  try_copy_app c b : buf_try_copy (len c) (c ++ b) = Some (c, b);
  (** [split_to] returns the first bytes and keeps the rest, [split_off]
      returns the rest and keeps the first bytes *)
  split_to_app c b : buf_split_to (len c) (c ++ b) = Some (c, b);
  split_to_short n b : len b < n -> buf_split_to n b = None;
  split_off_app c b : buf_split_off (len c) (c ++ b) = Some (b, c);
  index_lookup b i : 0 <= i -> buf_index b i = b !! Z.to_nat i;
  put_u8_app v b : buf_put_u8 v b = b ++ [v];
  put_u16_app v b : buf_put_u16 v b = b ++ be16 v;
  put_u32_app v b : buf_put_u32 v b = b ++ be32 v;
  put_slice_app c b : buf_put_slice c b = b ++ c;
}.

(** Lists with the functions the laws describe: the instance the witnesses and
    the examples run on. *)
Definition split_at (n : Z) (b : list Z) : option (list Z * list Z) :=
  if (n <? 0) || (len b <? n) then None
  else Some (take (Z.to_nat n) b, drop (Z.to_nat n) b).

Lemma split_at_short n b : len b < n -> split_at n b = None.
Proof. intros H. unfold split_at. rewrite (proj2 (Z.ltb_lt _ _) H). by rewrite orb_true_r. Qed.

Lemma split_at_app c b : split_at (len c) (c ++ b) = Some (c, b).
Proof.
  unfold split_at. rewrite len_app.
  destruct (Z.ltb_spec (len c) 0), (Z.ltb_spec (len c + len b) (len c)); try lia.
  simpl. by rewrite Nat2Z.id, take_app_length, drop_app_length.
Qed.

Definition list_get_u16 (b : list Z) : option (Z * list Z) :=
  match b with x :: y :: b' => Some (of_be16 x y, b') | _ => None end.
Definition list_get_u32 (b : list Z) : option (Z * list Z) :=
  match b with x :: y :: z :: w :: b' => Some (of_be32 x y z w, b') | _ => None end.

#[refine, export] Instance list_buf : Buf := {|
  buf_remaining b := len b;
  buf_get_u8 b := match b with x :: b' => Some (x, b') | [] => None end;
  buf_get_u16 := list_get_u16;
  buf_get_u32 := list_get_u32;
  buf_try_copy := split_at;
  buf_split_to := split_at;
  buf_split_off n b := match split_at n b with Some (c, d) => Some (d, c) | None => None end;
  buf_index b i := b !! Z.to_nat i;
  buf_put_u8 v b := b ++ [v];
  buf_put_u16 v b := b ++ be16 v;
  buf_put_u32 v b := b ++ be32 v;
  buf_put_slice c b := b ++ c;
|}.
Proof.
  all: try reflexivity.
  - intros [|? [|]]; simpl; (reflexivity || lia).
  - intros [|? [|? [|? [|]]]]; simpl; (reflexivity || lia).
  - apply split_at_short.
  - apply split_at_app.
  - apply split_at_app.
  - apply split_at_short.
  - intros. by rewrite split_at_app.
Defined.

Section ops.
Context {B : Buf} {E : Type}.

Definition remaining : M BytesMut E Z := gets buf_remaining.
Definition has_remaining : M BytesMut E bool := gets (fun b => 0 <? buf_remaining b).

Definition of_partial {A} (f : BytesMut -> option (A * BytesMut)) : M BytesMut E A :=
  fun b => match f b with Some (a, b') => (Ok a, b') | None => (Panic, b) end.

Definition get_u8 : M BytesMut E Z := of_partial buf_get_u8.
Definition get_u16 : M BytesMut E Z := of_partial buf_get_u16.
Definition get_u32 : M BytesMut E Z := of_partial buf_get_u32.
Definition split_to (n : Z) : M BytesMut E (list Z) := of_partial (buf_split_to n).
Definition split_off (n : Z) : M BytesMut E (list Z) := of_partial (buf_split_off n).

(** [try_copy_to_slice] into a slice of [n] bytes, its error mapped by the
    caller, who sees the bytes that remain. *)
Definition try_copy_to_slice (n : Z) (err : Z -> E) : M BytesMut E (list Z) :=
  fun b => match buf_try_copy n b with
           | Some (c, b') => (Ok c, b')
           | None => (Err (err (buf_remaining b)), b)
           end.

Definition put_u8 (v : Z) : M BytesMut E unit := modify (buf_put_u8 v).
Definition put_u16 (v : Z) : M BytesMut E unit := modify (buf_put_u16 v).
Definition put_u32 (v : Z) : M BytesMut E unit := modify (buf_put_u32 v).
Definition put_slice (c : list Z) : M BytesMut E unit := modify (buf_put_slice c).
End ops.

(** Running the operations at the head of a bind. *)
Section steps.
Context {B : Buf} {E A : Type}.

Lemma bind_remaining (f : Z -> M BytesMut E A) b : (remaining ≫= f) b = f (len b) b.
Proof. unfold remaining, gets, mbind, M_bind. by rewrite remaining_len. Qed.

Lemma bind_has_remaining (f : bool -> M BytesMut E A) b :
  (has_remaining ≫= f) b = f (0 <? len b) b.
Proof. unfold has_remaining, gets, mbind, M_bind. by rewrite remaining_len. Qed.

Lemma bind_get_u8 (f : Z -> M BytesMut E A) x b : (get_u8 ≫= f) (x :: b) = f x b.
Proof. unfold get_u8, of_partial, mbind, M_bind. by rewrite get_u8_cons. Qed.

Lemma bind_get_u8_nil (f : Z -> M BytesMut E A) : (get_u8 ≫= f) [] = (Panic, []).
Proof. unfold get_u8, of_partial, mbind, M_bind. by rewrite get_u8_nil. Qed.

Lemma bind_lift_ok {C} (f : C -> M BytesMut E A) o c b :
  o = Ok c -> (lift o ≫= f) b = f c b.
Proof. by intros ->. Qed.
End steps.

(** ** Encoders *)

Definition writes {E} (m : M BytesMut E unit) (bs : list Z) : Prop :=
  forall d, m d = (Ok tt, d ++ bs).

(** ** Decoders *)

Definition reads {E A} (m : M BytesMut E A) (bs : list Z) (a : A) : Prop :=
  forall t, m (bs ++ t) = (Ok a, t).

Definition bytes (b : BytesMut) : Prop := Forall is_u8 b.

Definition tame {E A} (m : M BytesMut E A) : Prop :=
  forall b r b', bytes b -> m b = (r, b') ->
  r <> OutOfFuel /\ bytes b' /\ (length b' <= length b)%nat.

(** A decoder that returns a value only after consuming a byte. *)
Definition eats {E A} (m : M BytesMut E A) : Prop :=
  forall b a b', bytes b -> m b = (Ok a, b') -> (length b' < length b)%nat.

Section predicates.
Context {B : Buf} {E : Type}.
Implicit Types m : M BytesMut E unit.

Lemma writes_ret : writes (mret tt : M BytesMut E unit) [].
Proof. intros d. by rewrite app_nil_r. Qed.

Lemma writes_bind m1 m2 b1 b2 :
  writes m1 b1 -> writes m2 b2 -> writes (m1 ≫= fun _ => m2) (b1 ++ b2).
Proof. intros H1 H2 d. rewrite (bind_ok _ _ _ _ _ (H1 d)), H2. by rewrite app_assoc. Qed.

Lemma writes_put_u8 v : writes (put_u8 v : M BytesMut E unit) [v].
Proof. intros d. unfold put_u8, modify. by rewrite put_u8_app. Qed.
Lemma writes_put_u16 v : writes (put_u16 v : M BytesMut E unit) (be16 v).
Proof. intros d. unfold put_u16, modify. by rewrite put_u16_app. Qed.
Lemma writes_put_u32 v : writes (put_u32 v : M BytesMut E unit) (be32 v).
Proof. intros d. unfold put_u32, modify. by rewrite put_u32_app. Qed.
Lemma writes_put_slice c : writes (put_slice c : M BytesMut E unit) c.
Proof. intros d. unfold put_slice, modify. by rewrite put_slice_app. Qed.

Lemma writes_inj m bs cs : writes m bs -> writes m cs -> bs = cs.
Proof. intros H1 H2. specialize (H1 []). specialize (H2 []). simpl in *. congruence. Qed.

Lemma reads_ret {A} (a : A) : reads (mret a : M BytesMut E A) [] a.
Proof. by intros t. Qed.

Lemma reads_bind {A C} (m : M BytesMut E A) (f : A -> M BytesMut E C) b1 b2 a c :
  reads m b1 a -> reads (f a) b2 c -> reads (m ≫= f) (b1 ++ b2) c.
Proof. intros H1 H2 t. rewrite <- app_assoc, (bind_ok _ _ _ _ _ (H1 _)). apply H2. Qed.

Lemma reads_bind_nil {A C} (m : M BytesMut E A) (f : A -> M BytesMut E C) bs a c :
  reads m bs a -> reads (f a) [] c -> reads (m ≫= f) bs c.
Proof. intros H1 H2. rewrite <- (app_nil_r bs). by eapply reads_bind. Qed.

Lemma reads_get_u8 v : reads (get_u8 : M BytesMut E Z) [v] v.
Proof. intros t. unfold get_u8, of_partial. simpl. by rewrite get_u8_cons. Qed.

Lemma reads_get_u16 v : is_u16 v -> reads (get_u16 : M BytesMut E Z) (be16 v) v.
Proof.
  intros H t. unfold get_u16, of_partial, be16. simpl. by rewrite get_u16_cons, of_be16_be16.
Qed.

Lemma reads_get_u32 v : is_u32 v -> reads (get_u32 : M BytesMut E Z) (be32 v) v.
Proof.
  intros H t. unfold get_u32, of_partial, be32. simpl. by rewrite get_u32_cons, of_be32_be32.
Qed.

Lemma reads_try_copy c n err :
  n = len c -> reads (try_copy_to_slice n err : M BytesMut E _) c c.
Proof. intros -> t. unfold try_copy_to_slice. by rewrite try_copy_app. Qed.

(** *** Termination of decoders *)

Lemma tame_ret {A} (a : A) : tame (mret a : M BytesMut E A).
Proof. intros b r b' Hb H. injection H as <- <-. done. Qed.

Lemma tame_raise {A} (e : E) : tame (raise e : M BytesMut E A).
Proof. intros b r b' Hb H. injection H as <- <-. done. Qed.

Lemma tame_gets {A} (f : BytesMut -> A) : tame (gets f : M BytesMut E A).
Proof. intros b r b' Hb H. injection H as <- <-. done. Qed.

Lemma tame_lift {A} (o : outcome E A) : o <> OutOfFuel -> tame (lift o : M BytesMut E A).
Proof. intros ? b r b' Hb H. injection H as <- <-. done. Qed.

Lemma tame_bind {A C} (m : M BytesMut E A) (f : A -> M BytesMut E C) :
  tame m -> (forall a, tame (f a)) -> tame (m ≫= f).
Proof.
  intros Hm Hf b r b' Hb H. unfold mbind, M_bind in H.
  destruct (m b) as [r1 b1] eqn:E1. apply Hm in E1 as (N1 & B1 & L1); [| done].
  destruct r1; simplify_eq; auto.
  apply Hf in H as (? & ? & ?); [| done]. split_and!; (done || lia).
Qed.

Lemma eats_bind_l {A C} (m : M BytesMut E A) (f : A -> M BytesMut E C) :
  eats m -> tame m -> (forall a, tame (f a)) -> eats (m ≫= f).
Proof.
  intros Hm Ht Hf b c b' Hb (a & b1 & H1 & H2)%bind_ok_inv.
  pose proof (Ht _ _ _ Hb H1) as (_ & B1 & _).
  apply Hm in H1; [| done]. apply Hf in H2 as (_ & _ & ?); [lia | done].
Qed.

Lemma eats_bind_r {A C} (m : M BytesMut E A) (f : A -> M BytesMut E C) :
  tame m -> (forall a, eats (f a)) -> eats (m ≫= f).
Proof.
  intros Hm Hf b c b' Hb (a & b1 & H1 & H2)%bind_ok_inv.
  apply Hm in H1 as (_ & ? & ?); [| done]. apply Hf in H2; [lia | done].
Qed.

(** A partial read either panics and leaves the buffer, or drops bytes from
    its front. *)
Lemma of_partial_shortens {A} (f : BytesMut -> option (A * BytesMut)) :
  (forall b a b', f b = Some (a, b') -> exists x c, b = x :: c ++ b') ->
  tame (of_partial f : M BytesMut E A) /\ eats (of_partial f : M BytesMut E A).
Proof.
  intros Hf. split.
  - intros b r b' Hb. unfold of_partial. destruct (f b) as [[a b1]|] eqn:E1;
      intros [= <- <-]; [| done].
    apply Hf in E1 as (x & c & ->). rewrite app_comm_cons in *.
    apply Forall_app in Hb as [_ Hb]. split_and!; [done | done |]. rewrite length_app. lia.
  - intros b a b' Hb. unfold of_partial. destruct (f b) as [[a1 b1]|] eqn:E1;
      intros [= <- <-]. apply Hf in E1 as (x & c & ->). simpl. rewrite length_app. lia.
Qed.

Lemma get_u8_shortens : tame (get_u8 : M BytesMut E Z) /\ eats (get_u8 : M BytesMut E Z).
Proof.
  apply of_partial_shortens. intros [|x b] a b'; [by rewrite get_u8_nil |].
  rewrite get_u8_cons. intros [= <- <-]. by exists x, [].
Qed.

Lemma get_u16_shortens : tame (get_u16 : M BytesMut E Z) /\ eats (get_u16 : M BytesMut E Z).
Proof.
  apply of_partial_shortens. intros [|x [|y b]] a b';
    [rewrite get_u16_short; [done | simpl; lia] .. |].
  rewrite get_u16_cons. intros [= <- <-]. by exists x, [y].
Qed.

Lemma get_u32_shortens : tame (get_u32 : M BytesMut E Z) /\ eats (get_u32 : M BytesMut E Z).
Proof.
  apply of_partial_shortens. intros [|x [|y [|z [|w b]]]] a b';
    [rewrite get_u32_short; [done | simpl; lia] .. |].
  rewrite get_u32_cons. intros [= <- <-]. by exists x, [y; z; w].
Qed.

Lemma tame_get_u8 : tame (get_u8 : M BytesMut E Z).
Proof. apply get_u8_shortens. Qed.
Lemma eats_get_u8 : eats (get_u8 : M BytesMut E Z).
Proof. apply get_u8_shortens. Qed.
Lemma tame_get_u16 : tame (get_u16 : M BytesMut E Z).
Proof. apply get_u16_shortens. Qed.
Lemma eats_get_u16 : eats (get_u16 : M BytesMut E Z).
Proof. apply get_u16_shortens. Qed.
Lemma tame_get_u32 : tame (get_u32 : M BytesMut E Z).
Proof. apply get_u32_shortens. Qed.

(** A split at a length the buffer has. *)
Lemma split_len n (b : list Z) :
  0 <= n <= len b -> exists c d, b = c ++ d /\ n = len c.
Proof.
  intros H. exists (take (Z.to_nat n) b), (drop (Z.to_nat n) b).
  rewrite take_drop, length_take. split; [done | lia].
Qed.

Lemma tame_try_copy n err : 0 <= n -> tame (try_copy_to_slice n err : M BytesMut E _).
Proof.
  intros Hn b r b' Hb. unfold try_copy_to_slice.
  destruct (decide (n <= len b)) as [Hl|Hl].
  - destruct (split_len n b) as (c & d & -> & ->); [lia |].
    rewrite try_copy_app. intros [= <- <-]. apply Forall_app in Hb as [_ Hb].
    split_and!; [done | done |]. rewrite length_app. lia.
  - rewrite try_copy_short by lia. intros [= <- <-]. done.
Qed.

(** [get_u16] on a buffer of bytes yields a length. *)
Lemma get_u16_nonneg b v b' :
  bytes b -> (get_u16 : M BytesMut E Z) b = (Ok v, b') -> 0 <= v.
Proof.
  unfold get_u16, of_partial. intros Hb.
  destruct b as [|x [|y b]]; [rewrite get_u16_short by (simpl; lia); done .. |].
  rewrite get_u16_cons. intros [= <- _]. apply Forall_cons_1 in Hb as [Hx Hb].
  apply Forall_cons_1 in Hb as [Hy _]. unfold is_u8, of_be16 in *. lia.
Qed.

(** What the two readers of a length-prefixed field have consumed. *)
Lemma get_u16_inv b v b' :
  bytes b -> (get_u16 : M BytesMut E Z) b = (Ok v, b') -> b = be16 v ++ b' /\ is_u16 v.
Proof.
  unfold get_u16, of_partial. intros Hb.
  destruct b as [|x [|y b]]; [rewrite get_u16_short by (simpl; lia); done .. |].
  rewrite get_u16_cons. intros [= <- <-]. apply Forall_cons_1 in Hb as [Hx Hb].
  apply Forall_cons_1 in Hb as [Hy _]. unfold is_u8, is_u16, of_be16, be16 in *.
  split; [| lia]. rewrite Z.div_add_l, (Z.div_small y), Z.add_0_r, (Z.mod_small x) by lia.
  rewrite Z.add_comm, Z_mod_plus_full, Z.mod_small by lia. done.
Qed.

Lemma try_copy_inv n err b c b' :
  0 <= n -> (try_copy_to_slice n err : M BytesMut E _) b = (Ok c, b') -> b = c ++ b' /\ len c = n.
Proof.
  unfold try_copy_to_slice. intros Hn. destruct (decide (n <= len b)) as [Hl|Hl].
  - destruct (split_len n b) as (d & e & -> & ->); [lia |]. rewrite try_copy_app.
    by intros [= <- <-].
  - by rewrite try_copy_short by lia.
Qed.
End predicates.

#[export] Hint Resolve writes_ret writes_bind writes_put_u8 writes_put_u16 writes_put_u32
  writes_put_slice : codec.
#[export] Hint Resolve tame_ret tame_raise tame_gets tame_bind tame_get_u8 tame_get_u16
  tame_get_u32 eats_get_u8 eats_get_u16 : codec.
#[export] Hint Extern 1 (tame (lift _)) => apply tame_lift : codec.
#[export] Hint Extern 1 (tame remaining) => apply tame_gets : codec.
#[export] Hint Extern 1 (tame has_remaining) => apply tame_gets : codec.
