(* ===== verification/Runtime.v ===== *)
(** * The tokio runtime *)
(** What the broker and the client use of the [tokio] and [tokio_util] crates,
    which are not part of the repository: bounded channels and cancellation
    tokens, as the class [Runtime] with their documented behaviour as laws.
    Instants and durations are nanoseconds. *)

From S2P Require Import Prelude.

(** [Duration::from_secs] and [Duration::as_secs]. *)
Definition secs (n : Z) : Z := n * 1000000000.
Definition as_secs (d : Z) : Z := d / 1000000000.

(** [mpsc::channel(n)] is a bounded queue; [try_send] fails when it is full or
    its receiver is gone, and [recv] makes room.  A cancelled
    [CancellationToken] stays cancelled. *)
Class Runtime := {
  chan : Type -> Type;
  chan_new {A} : Z -> chan A;
  chan_try_send {A} : A -> chan A -> option (chan A);
  chan_recv {A} : chan A -> option (A * chan A);
  chan_close {A} : chan A -> chan A;
  chan_queue {A} : chan A -> list A;
  chan_free {A} : chan A -> Z;
  chan_closed {A} : chan A -> bool;

  chan_new_law {A} n : 0 < n ->
    chan_queue (chan_new (A := A) n) = [] /\ chan_free (chan_new (A := A) n) = n
    /\ chan_closed (chan_new (A := A) n) = false;
  chan_try_send_law {A} (m : A) c :
    if 0 <? chan_free c then
      exists c', chan_try_send m c = Some c' /\ chan_queue c' = chan_queue c ++ [m]
        /\ chan_free c' = chan_free c - 1 /\ chan_closed c' = chan_closed c
    else chan_try_send m c = None;
  chan_recv_law {A} (c : chan A) :
    match chan_queue c with
    | [] => chan_recv c = None
    | m :: q => exists c', chan_recv c = Some (m, c') /\ chan_queue c' = q
        /\ chan_free c' = (if chan_closed c then 0 else chan_free c + 1)
        /\ chan_closed c' = chan_closed c
    end;
  chan_close_law {A} (c : chan A) :
    chan_free (chan_close c) = 0 /\ chan_closed (chan_close c) = true
    /\ chan_queue (chan_close c) = chan_queue c;

  tokens : Type;
  no_tokens : tokens;
  cancel : Z -> tokens -> tokens;
  is_cancelled : Z -> tokens -> bool;
  no_tokens_law t : is_cancelled t no_tokens = false;
  cancel_law t t' ts : is_cancelled t' (cancel t ts) = bool_decide (t' = t) || is_cancelled t' ts;
}.

(** The instance the witnesses run on: a queue with its free space, and the
    finite set of cancelled tokens. *)
Record queue A := Queue { q_items : list A; q_free : Z; q_closed : bool }.
Arguments Queue {A}.
Arguments q_items {A}.
Arguments q_free {A}.
Arguments q_closed {A}.

Definition queue_try_send {A} (m : A) (c : queue A) : option (queue A) :=
  if 0 <? q_free c then Some (Queue (q_items c ++ [m]) (q_free c - 1) (q_closed c)) else None.

Definition queue_recv {A} (c : queue A) : option (A * queue A) :=
  match q_items c with
  | [] => None
  | m :: q => Some (m, Queue q (if q_closed c then 0 else q_free c + 1) (q_closed c))
  end.

#[refine, export] Instance queue_runtime : Runtime := {|
  chan := queue;
  chan_new A n := Queue [] n false;
  chan_try_send A := queue_try_send;
  chan_recv A := queue_recv;
  chan_close A c := Queue (q_items c) 0 true;
  chan_queue A := q_items;
  chan_free A := q_free;
  chan_closed A := q_closed;
  tokens := gset Z;
  no_tokens := ∅;
  cancel t ts := {[t]} ∪ ts;
  is_cancelled t ts := bool_decide (t ∈ ts);
|}.
Proof.
  - done.
  - intros A m c. unfold queue_try_send. destruct (0 <? q_free c); [| done]. by eexists.
  - intros A [[|m q] n b]; simpl; [done |]. by eexists.
  - done.
  - intros t. by apply bool_decide_eq_false, not_elem_of_empty.
  - intros t t' ts. apply Bool.eq_iff_eq_true.
    by rewrite orb_true_iff, !bool_decide_eq_true, elem_of_union, elem_of_singleton.
Defined.
