(* ===== verification/Codec.v ===== *)
(** * vaux-mqtt/src/codec/mod.rs: the codec primitives *)
(** Control packet types, reason codes and QoS levels with their wire values,
    the error type, the codec traits as classes, and the readers and writers of
    the MQTT primitive types: variable byte integers, length-prefixed strings
    and binary data, booleans and fixed-width integers. *)

From S2P Require Import Prelude Bytes.

(** ** Control packet types *)

Module PacketType.
Inductive PacketType :=
| Connect | ConnAck | Publish | PubAck | PubRec | PubRel | PubComp | Subscribe
| SubAck | Unsubscribe | UnsubAck | PingReq | PingResp | Disconnect | Auth.
End PacketType.
Abbreviation PacketType := PacketType.PacketType.

#[export] Instance PacketType_eq_dec : EqDecision PacketType.
Proof. solve_decision. Defined.

(** The discriminants, [packet_type as u8]. *)
Definition PacketType_as_u8 (p : PacketType) : Z :=
  match p with
  | PacketType.Connect => 0x10
  | PacketType.ConnAck => 0x20
  | PacketType.Publish => 0x30
  | PacketType.PubAck => 0x40
  | PacketType.PubRec => 0x50
  | PacketType.PubRel => 0x60
  | PacketType.PubComp => 0x70
  | PacketType.Subscribe => 0x80
  | PacketType.SubAck => 0x90
  | PacketType.Unsubscribe => 0xa0
  | PacketType.UnsubAck => 0xb0
  | PacketType.PingReq => 0xc0
  | PacketType.PingResp => 0xd0
  | PacketType.Disconnect => 0xe0
  | PacketType.Auth => 0xf0
  end.

(** [impl From<u8> for PacketType]: total, everything else is [Auth]. *)
Definition PacketType_from (val : Z) : PacketType :=
  match Z.land val 0xf0 with
  | 0x10 => PacketType.Connect
  | 0x20 => PacketType.ConnAck
  | 0x30 => PacketType.Publish
  | 0x40 => PacketType.PubAck
  | 0x50 => PacketType.PubRec
  | 0x60 => PacketType.PubRel
  | 0x70 => PacketType.PubComp
  | 0x80 => PacketType.Subscribe
  | 0x90 => PacketType.SubAck
  | 0xa0 => PacketType.Unsubscribe
  | 0xb0 => PacketType.UnsubAck
  | 0xc0 => PacketType.PingReq
  | 0xd0 => PacketType.PingResp
  | 0xe0 => PacketType.Disconnect
  | _ => PacketType.Auth
  end.

(** ** Errors *)

Inductive ErrorKind :=
| InsufficientData (expected actual : Z)
| MalformedPacket
| InvalidPacket
| UnsupportedQosLevel
| UnsupportedResponseType
| UnsupportedReason (r : Z)
| UnsupportedProperty (p : Z)
| InvalidUTF8
| InvalidPacketIdentifier.

#[export] Instance ErrorKind_eq_dec : EqDecision ErrorKind.
Proof. solve_decision. Defined.

(** The error without its human-readable message, which no code inspects. *)
Record MqttCodecError := CodecError { kind : ErrorKind }.

#[export] Instance MqttCodecError_eq_dec : EqDecision MqttCodecError.
Proof. solve_decision. Defined.

(** [MqttCodecError::new] uses the default kind. *)
Definition MqttCodecError_new : MqttCodecError := CodecError MalformedPacket.
Definition new_with_kind (k : ErrorKind) : MqttCodecError := CodecError k.

Abbreviation Codec := (M BytesMut MqttCodecError).

(** ** The codec traits *)

Class Encode (A : Type) := encode : A -> Codec unit.
(** [decode(&mut self, src)] returns the updated [self] and the byte count. *)
Class Decode (A : Type) := decode : A -> Codec (A * Z).
Class CodecSize (A : Type) := codec_size : A -> Z.
Class PropertyCodecSize (A : Type) := property_size : A -> Z.
Class Default (A : Type) := dflt : A.

(** ** Reason codes *)

Module Reason.
Inductive Reason :=
| Success | GrantedQoS1 | GrantedQoS2 | DisconnectWillMsg | NoSubscribers
| NoSubscriptionExisted | ContinueAuth | Reauthenticate | UnspecifiedErr
| MalformedPacket | ProtocolErr | ImplementationErr | UnsupportedProtocolVersion
| InvalidClientId | AuthenticationErr | NotAuthorized | ServerUnavailable
| ServerBusy | Banned | ServerShutdown | AuthMethodErr | KeepAliveTimeout
| SessionTakeOver | InvalidTopicFilter | InvalidTopicName | PacketIdInUse
| PacketIdNotFound | ReceiveMaxExceeded | InvalidTopicAlias | PacketTooLarge
| MessageRate | QuotaExceeded | AdminAction | PayloadFormatErr
| RetainUnsupported | QoSUnsupported | UseDiffServer | ServerMoved
| SharedSubUnsupported | ConnRateExceeded | MaxConnectTime | SubIdUnsupported
| WildcardSubUnsupported.

Definition NormalDisconnect : Reason := Success.
Definition GrantedQoS0 : Reason := Success.
End Reason.
Abbreviation Reason := Reason.Reason.

#[export] Instance Reason_eq_dec : EqDecision Reason.
Proof. solve_decision. Defined.

(** The [repr(u8)] discriminants: an unmarked variant is one above the
    variant before it. *)
Definition Reason_as_u8 (r : Reason) : Z :=
  match r with
  | Reason.Success => 0x00
  | Reason.GrantedQoS1 => 0x01
  | Reason.GrantedQoS2 => 0x02
  | Reason.DisconnectWillMsg => 0x04
  | Reason.NoSubscribers => 0x10
  | Reason.NoSubscriptionExisted => 0x11
  | Reason.ContinueAuth => 0x18
  | Reason.Reauthenticate => 0x19
  | Reason.UnspecifiedErr => 0x80
  | Reason.MalformedPacket => 0x81
  | Reason.ProtocolErr => 0x82
  | Reason.ImplementationErr => 0x83
  | Reason.UnsupportedProtocolVersion => 0x84
  | Reason.InvalidClientId => 0x85
  | Reason.AuthenticationErr => 0x86
  | Reason.NotAuthorized => 0x87
  | Reason.ServerUnavailable => 0x88
  | Reason.ServerBusy => 0x89
  | Reason.Banned => 0x8a
  | Reason.ServerShutdown => 0x8b
  | Reason.AuthMethodErr => 0x8c
  | Reason.KeepAliveTimeout => 0x8d
  | Reason.SessionTakeOver => 0x8e
  | Reason.InvalidTopicFilter => 0x8f
  | Reason.InvalidTopicName => 0x90
  | Reason.PacketIdInUse => 0x91
  | Reason.PacketIdNotFound => 0x92
  | Reason.ReceiveMaxExceeded => 0x93
  | Reason.InvalidTopicAlias => 0x94
  | Reason.PacketTooLarge => 0x95
  | Reason.MessageRate => 0x96
  | Reason.QuotaExceeded => 0x97
  | Reason.AdminAction => 0x98
  | Reason.PayloadFormatErr => 0x99
  | Reason.RetainUnsupported => 0x9a
  | Reason.QoSUnsupported => 0x9b
  | Reason.UseDiffServer => 0x9c
  | Reason.ServerMoved => 0x9d
  | Reason.SharedSubUnsupported => 0x9e
  | Reason.ConnRateExceeded => 0x9f
  | Reason.MaxConnectTime => 0xa0
  | Reason.SubIdUnsupported => 0xa1
  | Reason.WildcardSubUnsupported => 0xa2
  end.

(** [impl TryFrom<u8> for Reason]. *)
Definition Reason_try_from (value : Z) : outcome MqttCodecError Reason :=
  match value with
  | 0x00 => Ok Reason.Success
  | 0x01 => Ok Reason.GrantedQoS1
  | 0x02 => Ok Reason.GrantedQoS2
  | 0x04 => Ok Reason.DisconnectWillMsg
  | 0x10 => Ok Reason.NoSubscribers
  | 0x11 => Ok Reason.NoSubscriptionExisted
  | 0x18 => Ok Reason.ContinueAuth
  | 0x19 => Ok Reason.Reauthenticate
  | 0x80 => Ok Reason.UnspecifiedErr
  | 0x81 => Ok Reason.MalformedPacket
  | 0x82 => Ok Reason.ProtocolErr
  | 0x83 => Ok Reason.ImplementationErr
  | 0x84 => Ok Reason.UnsupportedProtocolVersion
  | 0x85 => Ok Reason.InvalidClientId
  | 0x86 => Ok Reason.AuthenticationErr
  | 0x87 => Ok Reason.NotAuthorized
  | 0x88 => Ok Reason.ServerUnavailable
  | 0x89 => Ok Reason.ServerBusy
  | 0x8a => Ok Reason.Banned
  | 0x8b => Ok Reason.ServerShutdown
  | 0x8c => Ok Reason.AuthMethodErr
  | 0x8d => Ok Reason.KeepAliveTimeout
  | 0x8e => Ok Reason.SessionTakeOver
  | 0x8f => Ok Reason.InvalidTopicFilter
  | 0x90 => Ok Reason.InvalidTopicName
  | 0x91 => Ok Reason.PacketIdInUse
  | 0x92 => Ok Reason.PacketIdNotFound
  | 0x93 => Ok Reason.ReceiveMaxExceeded
  | 0x94 => Ok Reason.InvalidTopicAlias
  | 0x95 => Ok Reason.PacketTooLarge
  | 0x96 => Ok Reason.MessageRate
  | 0x97 => Ok Reason.QuotaExceeded
  | 0x98 => Ok Reason.AdminAction
  | 0x99 => Ok Reason.PayloadFormatErr
  | 0x9a => Ok Reason.RetainUnsupported
  | 0x9b => Ok Reason.QoSUnsupported
  | 0x9c => Ok Reason.UseDiffServer
  | 0x9d => Ok Reason.ServerMoved
  | 0x9e => Ok Reason.SharedSubUnsupported
  | 0x9f => Ok Reason.ConnRateExceeded
  | 0xa0 => Ok Reason.MaxConnectTime
  | 0xa1 => Ok Reason.SubIdUnsupported
  | 0xa2 => Ok Reason.WildcardSubUnsupported
  | _ => Err MqttCodecError_new
  end.

#[export] Instance Reason_default : Default Reason := Reason.Success.

(** ** Quality of service *)

Module QoSLevel.
Inductive QoSLevel := AtMostOnce | AtLeastOnce | ExactlyOnce.
End QoSLevel.
Abbreviation QoSLevel := QoSLevel.QoSLevel.

#[export] Instance QoSLevel_eq_dec : EqDecision QoSLevel.
Proof. solve_decision. Defined.

Definition QoSLevel_as_u8 (q : QoSLevel) : Z :=
  match q with
  | QoSLevel.AtMostOnce => 0
  | QoSLevel.AtLeastOnce => 1
  | QoSLevel.ExactlyOnce => 2
  end.

Definition QoSLevel_try_from (value : Z) : outcome MqttCodecError QoSLevel :=
  match value with
  | 0x00 => Ok QoSLevel.AtMostOnce
  | 0x01 => Ok QoSLevel.AtLeastOnce
  | 0x02 => Ok QoSLevel.ExactlyOnce
  | _ => Err MqttCodecError_new
  end.

#[export] Instance QoSLevel_default : Default QoSLevel := QoSLevel.AtMostOnce.

(** ** Trait implementations and primitive codecs *)

Section primitives.
Context {B : Buf}.

#[export] Instance Reason_codec_size : CodecSize Reason := fun _ => 1.

#[export] Instance Reason_encode : Encode Reason := fun r => put_u8 (Reason_as_u8 r).

#[export] Instance Reason_decode : Decode Reason := fun _ =>
  val ← get_u8;
  r ← lift (Reason_try_from val);
  mret (r, 1).

Definition codec_size_vec_reason (reason_codes : list Reason) : Z := u32 (len reason_codes).

(** [impl Encode for Vec<Reason>]. *)
Fixpoint encode_vec_reason (rs : list Reason) : Codec unit :=
  match rs with
  | [] => mret tt
  | r :: rs => put_u8 (Reason_as_u8 r) ≫= fun _ => encode_vec_reason rs
  end.

(** [impl Decode for Vec<Reason>]: one reason for each byte that remains. *)
Fixpoint decode_vec_reason_loop (n : nat) (acc : list Reason) : Codec (list Reason) :=
  match n with
  | O => mret acc
  | S n =>
      b ← get_u8;
      reason ← lift (Reason_try_from b);
      decode_vec_reason_loop n (acc ++ [reason])
  end.

Definition decode_vec_reason (self : list Reason) : Codec (list Reason * Z) :=
  n ← remaining;
  rs ← decode_vec_reason_loop (Z.to_nat n) self;
  mret (rs, n).

#[export] Instance QoSLevel_encode : Encode QoSLevel := fun q => put_u8 (QoSLevel_as_u8 q).

#[export] Instance QoSLevel_decode : Decode QoSLevel := fun _ =>
  val ← get_u8;
  q ← lift (QoSLevel_try_from val);
  mret (q, 1).

#[export] Instance QoSLevel_codec_size : CodecSize QoSLevel := fun _ => 1.
#[export] Instance QoSLevel_property_size : PropertyCodecSize QoSLevel := fun _ => 2.

(** [impl CodecSize for &String]. *)
Definition string_codec_size (s : rstring) : Z := add_u32 2 (u32 (len s)).

Definition encode_string (src : rstring) : Codec unit :=
  if u16_max <? len src then raise MqttCodecError_new
  else
    put_u16 (u16 (len src)) ≫= fun _ =>
    put_slice src.

(** [impl Decode for String]. *)
Definition String_decode (self : rstring) : Codec (rstring * Z) :=
  n ← remaining;
  if n <? 2 then raise MqttCodecError_new
  else
    l ← get_u16;
    dest_vec ← try_copy_to_slice l (fun rem => new_with_kind (InsufficientData l rem));
    if utf8_valid dest_vec then mret (dest_vec, l + 2) else raise MqttCodecError_new.

Definition decode_string : Codec (rstring * Z) := String_decode [].

(** [impl Encode for Vec<String>]. *)
Fixpoint encode_vec_string (ss : list rstring) : Codec unit :=
  match ss with
  | [] => mret tt
  | s :: ss => encode_string s ≫= fun _ => encode_vec_string ss
  end.

(** The [while src.has_remaining()] loops over repeated items: fuel one above
    the buffer length, since every item takes at least a byte. *)
Fixpoint decode_while_remaining {A} (fuel : nat) (item : Codec (A * Z))
    (acc : list A) (bytes_read : Z) : Codec (list A * Z) :=
  more ← has_remaining;
  if negb more then mret (acc, bytes_read)
  else
    match fuel with
    | O => no_fuel
    | S fuel =>
        '(a, n) ← item;
        decode_while_remaining fuel item (acc ++ [a]) (bytes_read + n)
    end.

Definition decode_items {A} (item : Codec (A * Z)) (acc : list A) : Codec (list A * Z) :=
  b ← get;
  decode_while_remaining (S (length b)) item acc 0.

(** [impl Decode for Vec<String>]. *)
Definition decode_vec_string (self : list rstring) : Codec (list rstring * Z) :=
  decode_items (String_decode []) self.

Definition encode_array_field (src : list Z) : Codec unit :=
  if u16_max <? len src then raise MqttCodecError_new
  else
    put_u16 (u16 (len src)) ≫= fun _ =>
    put_slice src.

(** [impl Decode for Vec<u8>]. *)
Definition VecU8_decode (self : list Z) : Codec (list Z * Z) :=
  n ← remaining;
  if n <? 2 then raise MqttCodecError_new
  else
    l ← get_u16;
    data ← try_copy_to_slice l (fun rem => new_with_kind (InsufficientData l rem));
    mret (data, l + 2).

Definition decode_array_field : Codec (list Z * Z) := VecU8_decode [].

(** [impl Decode for bool]: strict, unlike the macro's reader of plain fields. *)
Definition bool_decode (self : bool) : Codec (bool * Z) :=
  b ← get_u8;
  match b with
  | 0 => mret (false, 1)
  | 1 => mret (true, 1)
  | _ => raise MqttCodecError_new
  end.

Definition u8_decode (self : Z) : Codec (Z * Z) := v ← get_u8; mret (v, 1).
Definition u16_decode (self : Z) : Codec (Z * Z) := v ← get_u16; mret (v, 2).
Definition u32_decode (self : Z) : Codec (Z * Z) := v ← get_u32; mret (v, 4).

(** *** Variable byte integers *)

Definition MIN_VARIABLE_BYTE_INT : Z := 0.
Definition MAX_VARIABLE_BYTE_INT : Z := 268435455.

Definition variable_byte_int_size (value : Z) : Z :=
  if value <=? 127 then 1
  else if value <=? 16383 then 2
  else if value <=? 2097151 then 3
  else 4.

Definition codec_size_opt_variable_byte_int_ref (src : option Z) : Z :=
  match src with Some val => variable_byte_int_size val | None => 0 end.

(** The encoder's loop: a [u32] has at most five groups of seven bits. *)
Fixpoint encode_variable_byte_int_loop (fuel : nat) (input_val : Z) : Codec unit :=
  match fuel with
  | O => no_fuel
  | S fuel =>
      let next_byte := u8 (input_val mod 0x80) in
      let input_val := Z.shiftr input_val 7 in
      if 0 <? input_val then
        put_u8 (Z.lor next_byte 0x80) ≫= fun _ =>
        encode_variable_byte_int_loop fuel input_val
      else put_u8 next_byte
  end.

Definition encode_variable_byte_int (val : Z) : Codec unit :=
  encode_variable_byte_int_loop 5 val.

Definition encode_opt_variable_byte_int (val : option Z) : Codec unit :=
  match val with Some v => encode_variable_byte_int v | None => mret tt end.

Definition encode_opt_variable_byte_int_ref (val : option Z) : Codec unit :=
  match val with Some v => encode_variable_byte_int v | None => mret tt end.

Definition need_one_byte : MqttCodecError := new_with_kind (InsufficientData 1 0).

(** The decoder's loop: the guard on [shift] stops it in the fourth round. *)
Fixpoint decode_variable_byte_int_loop (fuel : nat) (result shift next_byte : Z)
    : Codec (Z * Z) :=
  match fuel with
  | O => no_fuel
  | S fuel =>
      let result := result + Z.shiftl (Z.land next_byte 0x7f) shift in
      let shift := shift + 7 in
      if Z.land next_byte 0x80 =? 0 then
        if 21 <? shift then raise MqttCodecError_new else mret (result, shift / 7)
      else
        more ← has_remaining;
        if negb more then raise need_one_byte
        else
          next_byte ← get_u8;
          if 21 <? shift then raise MqttCodecError_new
          else decode_variable_byte_int_loop fuel result shift next_byte
  end.

Definition decode_variable_byte_int : Codec (Z * Z) :=
  more ← has_remaining;
  if negb more then raise need_one_byte
  else
    next_byte ← get_u8;
    decode_variable_byte_int_loop 4 0 0 next_byte.

Definition decode_opt_variable_byte_int : Codec (option Z * Z) :=
  '(val, bytes_read) ← decode_variable_byte_int;
  mret (Some val, bytes_read).

(** *** Raw payloads *)

Definition codec_size_vec_u8_raw (src : list Z) : Z := u32 (len src).
Definition encode_vec_u8_raw (src : list Z) : Codec unit := put_slice src.

Definition decode_vec_u8_raw : Codec (option (list Z) * Z) :=
  n ← remaining;
  dest ← try_copy_to_slice n (fun rem => new_with_kind (InsufficientData n rem));
  mret (Some dest, n).

Definition decode_opt_vec_u8_raw : Codec (option (list Z) * Z) :=
  n ← remaining;
  bytes ← split_to n;
  mret (Some bytes, n).

Definition codec_size_opt_vec_u8_raw (src : option (list Z)) : Z :=
  match src with Some bytes => u32 (len bytes) | None => 0 end.

Definition encode_opt_vec_u8_raw_ref (src : option (list Z)) : Codec unit :=
  match src with Some bytes => put_slice bytes | None => mret tt end.

End primitives.

(** ** Facts about the enumerations *)

Lemma PacketType_from_as_u8 p : PacketType_from (PacketType_as_u8 p) = p.
Proof. by destruct p. Qed.

(** The low nibble, the flags, does not take part in the packet type. *)
Lemma PacketType_from_flags p f :
  0 <= f < 16 -> PacketType_from (Z.lor (PacketType_as_u8 p) f) = p.
Proof.
  intros Hf.
  enough (P : forallb (fun f => bool_decide (PacketType_from (Z.lor (PacketType_as_u8 p) f) = p))
              (seqZ 0 16) = true).
  { rewrite forallb_forall in P. eapply bool_decide_eq_true_1, P.
    apply list_elem_of_In, elem_of_seqZ. lia. }
  destruct p; by vm_compute.
Qed.

Lemma Reason_try_from_as_u8 r : Reason_try_from (Reason_as_u8 r) = Ok r.
Proof. by destruct r. Qed.

Lemma Reason_as_u8_try_from v r : is_u8 v -> Reason_try_from v = Ok r -> Reason_as_u8 r = v.
Proof.
  intros Hv Hr.
  pose proof (byte_cases (fun v => match Reason_try_from v with
                                   | Ok r => Reason_as_u8 r =? v
                                   | _ => true end) eq_refl v Hv) as H.
  cbv beta in H. rewrite Hr in H. by apply Z.eqb_eq.
Qed.

Lemma Reason_try_from_total v : Reason_try_from v <> OutOfFuel.
Proof. unfold Reason_try_from. repeat case_match; done. Qed.

Lemma QoSLevel_try_from_as_u8 q : QoSLevel_try_from (QoSLevel_as_u8 q) = Ok q.
Proof. by destruct q. Qed.

Lemma QoSLevel_try_from_total v : QoSLevel_try_from v <> OutOfFuel.
Proof. unfold QoSLevel_try_from. repeat case_match; done. Qed.

(** ** Variable byte integers *)

(** The encoding of section 1.5.5 of the MQTT specification: groups of seven
    bits, least significant first, the top bit set on all but the last. *)
Definition vbi (v : Z) : list Z :=
  if v <=? 127 then [v]
  else if v <=? 16383 then [v mod 128 + 128; v / 128]
  else if v <=? 2097151 then [v mod 128 + 128; v / 128 mod 128 + 128; v / 16384]
  else if v <=? 268435455 then
    [v mod 128 + 128; v / 128 mod 128 + 128; v / 16384 mod 128 + 128; v / 2097152]
  else
    [v mod 128 + 128; v / 128 mod 128 + 128; v / 16384 mod 128 + 128;
     v / 2097152 mod 128 + 128; v / 268435456].

#[global] Arguments vbi : simpl never.

Section vbi_facts.
Context {B : Buf}.

Lemma vbi_loop_last n v :
  0 <= v < 128 -> writes (encode_variable_byte_int_loop (S n) v) [v].
Proof.
  intros Hv. simpl. rewrite Z.shiftr_div_pow2 by lia. change (2 ^ 7) with 128.
  rewrite Z.div_small by lia. simpl. unfold u8. rewrite !Z.mod_small by (rewrite ?Z.mod_small; lia).
  apply writes_put_u8.
Qed.

Lemma vbi_loop_more n v bs :
  128 <= v -> writes (encode_variable_byte_int_loop n (v / 128)) bs ->
  writes (encode_variable_byte_int_loop (S n) v) ((v mod 128 + 128) :: bs).
Proof.
  intros Hv Hbs. simpl. rewrite Z.shiftr_div_pow2 by lia. change (2 ^ 7) with 128.
  assert (1 <= v / 128) by (apply Z.div_le_lower_bound; lia).
  destruct (Z.ltb_spec 0 (v / 128)); [| lia].
  pose proof (Z.mod_pos_bound v 128). unfold u8. rewrite (Z.mod_small (v mod 128)) by lia.
  rewrite lor_128 by lia. apply (writes_bind _ _ [_] bs); [apply writes_put_u8 | done].
Qed.

Lemma writes_vbi v : is_u32 v -> writes (encode_variable_byte_int v) (vbi v).
Proof.
  unfold is_u32. intros Hv. unfold encode_variable_byte_int, vbi.
  assert (E2 : v / 128 / 128 = v / 16384) by (rewrite Z.div_div by lia; done).
  assert (E3 : v / 16384 / 128 = v / 2097152) by (rewrite Z.div_div by lia; done).
  assert (E4 : v / 2097152 / 128 = v / 268435456) by (rewrite Z.div_div by lia; done).
  case_leb;
    repeat (apply vbi_loop_more; [rewrite ?E2, ?E3, ?E4; try apply Z.div_le_lower_bound; lia |];
            rewrite ?E2, ?E3, ?E4);
    apply vbi_loop_last; rewrite ?E2, ?E3, ?E4;
    (lia || (split; [apply Z.div_pos | apply Z.div_lt_upper_bound]; lia)).
Qed.

Lemma len_vbi v : 0 <= v <= MAX_VARIABLE_BYTE_INT -> len (vbi v) = variable_byte_int_size v.
Proof.
  unfold MAX_VARIABLE_BYTE_INT, vbi, variable_byte_int_size. intros Hv.
  case_leb; (done || lia).
Qed.

(** One round of the decoder on a final and on a continuation byte. *)
Lemma decode_vbi_last n r s x t :
  0 <= x < 128 ->
  decode_variable_byte_int_loop (S n) r s x t =
  (if 21 <? s + 7 then Err MqttCodecError_new else Ok (r + Z.shiftl x s, (s + 7) / 7), t).
Proof.
  intros Hx. simpl. rewrite land_128_small, land_127, Z.mod_small by lia. simpl.
  by destruct (21 <? s + 7).
Qed.

Lemma decode_vbi_more n r s x y t :
  0 <= x < 128 ->
  decode_variable_byte_int_loop (S n) r s (x + 128) (y :: t) =
  (if 21 <? s + 7 then (Err MqttCodecError_new, t)
   else decode_variable_byte_int_loop n (r + Z.shiftl x s) (s + 7) y t).
Proof.
  intros Hx. simpl. rewrite land_128_big, land_127 by lia. simpl.
  replace ((x + 128) mod 128) with x.
  2: { replace (x + 128) with (x + 1 * 128) by lia. rewrite Z_mod_plus_full, Z.mod_small; lia. }
  rewrite bind_has_remaining. simpl. rewrite bind_get_u8. by destruct (21 <? s + 7).
Qed.

Lemma decode_vbi_start x t :
  decode_variable_byte_int (x :: t) = decode_variable_byte_int_loop 4 0 0 x t.
Proof.
  unfold decode_variable_byte_int. rewrite bind_has_remaining. simpl. by rewrite bind_get_u8.
Qed.

(** The decoder undoes the encoder on one, two and three byte values ... *)
Lemma reads_vbi v :
  0 <= v <= 2097151 ->
  reads decode_variable_byte_int (vbi v) (v, variable_byte_int_size v).
Proof.
  intros Hv t. unfold vbi, variable_byte_int_size.
  pose proof (Z.div_mod v 128). pose proof (Z.div_mod (v / 128) 128).
  pose proof (Z.mod_pos_bound v 128). pose proof (Z.mod_pos_bound (v / 128) 128).
  assert (v / 128 / 128 = v / 16384) by (rewrite Z.div_div by lia; done).
  case_leb; try lia; simpl app; rewrite decode_vbi_start.
  - rewrite decode_vbi_last by lia. simpl. by rewrite Z.shiftl_0_r.
  - rewrite decode_vbi_more, decode_vbi_last by lia. simpl.
    rewrite Z.shiftl_0_r, Z.shiftl_mul_pow2 by lia.
    change (2 ^ 7) with 128. do 3 f_equal. lia.
  - rewrite !decode_vbi_more, decode_vbi_last by lia. simpl.
    rewrite Z.shiftl_0_r, !Z.shiftl_mul_pow2 by lia.
    change (2 ^ 7) with 128. change (2 ^ 14) with 16384. do 3 f_equal. lia.
Qed.

(** ... and refuses every four byte value, which the encoder produces and
    [variable_byte_int_size] counts. *)
Lemma decode_vbi_four v t :
  2097152 <= v <= MAX_VARIABLE_BYTE_INT ->
  decode_variable_byte_int (vbi v ++ t) = (Err MqttCodecError_new, t).
Proof.
  unfold MAX_VARIABLE_BYTE_INT. intros Hv. unfold vbi.
  case_leb; try lia. simpl app.
  pose proof (Z.mod_pos_bound v 128). pose proof (Z.mod_pos_bound (v / 128) 128).
  pose proof (Z.mod_pos_bound (v / 16384) 128).
  assert (0 <= v / 2097152 < 128)
    by (split; [apply Z.div_pos | apply Z.div_lt_upper_bound]; lia).
  rewrite decode_vbi_start, !decode_vbi_more, decode_vbi_last by lia. done.
Qed.

Lemma tame_decode_vbi_loop n r s x :
  21 < s + 7 * Z.of_nat n ->
  tame (decode_variable_byte_int_loop n r s x) \/ n = O.
Proof.
  revert r s x. induction n as [|n IH]; intros r s x Hs; [by right | left].
  simpl. destruct (_ =? 0).
  - destruct (21 <? s + 7); auto with codec.
  - apply tame_bind; [auto with codec |]. intros []; simpl; [| auto with codec].
    apply tame_bind; [auto with codec |]. intros y.
    destruct (Z.ltb_spec 21 (s + 7)); [auto with codec |].
    destruct (IH (r + Z.shiftl (Z.land x 0x7f) s) (s + 7) y) as [| ->]; [lia | done | lia].
Qed.

Lemma tame_decode_vbi : tame decode_variable_byte_int.
Proof.
  unfold decode_variable_byte_int. apply tame_bind; [auto with codec |].
  intros []; simpl; [| auto with codec].
  apply tame_bind; [auto with codec |]. intros x.
  destruct (tame_decode_vbi_loop 4 0 0 x) as [|]; [lia | done | done].
Qed.

(** A decoded value is not negative, whatever the bytes are. *)
Lemma decode_vbi_loop_nonneg n r s x b v k b' :
  0 <= r -> decode_variable_byte_int_loop n r s x b = (Ok (v, k), b') -> 0 <= v.
Proof.
  revert r s x b. induction n as [|n IH]; intros r s x b Hr H; [done |]. simpl in H.
  assert (0 <= r + Z.shiftl (Z.land x 127) s).
  { assert (0 <= Z.shiftl (Z.land x 127) s); [| lia].
    apply Z.shiftl_nonneg, Z.land_nonneg. by right. }
  destruct (_ =? 0).
  - destruct (21 <? s + 7); [done |]. by injection H as <- _ _.
  - rewrite bind_has_remaining in H. destruct (negb _); [done |].
    apply bind_ok_inv in H as (y & b1 & _ & H). destruct (21 <? s + 7); [done |].
    by apply IH in H.
Qed.

Lemma decode_vbi_nonneg b v k b' :
  decode_variable_byte_int b = (Ok (v, k), b') -> 0 <= v.
Proof.
  unfold decode_variable_byte_int. rewrite bind_has_remaining. destruct (negb _); [done |].
  intros (x & b1 & _ & H)%bind_ok_inv. by apply decode_vbi_loop_nonneg in H.
Qed.

Lemma eats_decode_vbi : eats decode_variable_byte_int.
Proof.
  unfold decode_variable_byte_int. apply eats_bind_r; [auto with codec |].
  intros []; simpl; [| by intros b a b' _ H]. apply eats_bind_l; [auto with codec .. |].
  intros x. destruct (tame_decode_vbi_loop 4 0 0 x) as [|]; [lia | done | done].
Qed.
End vbi_facts.

(** ** Strings, binary data and fixed-width values *)

Section primitive_facts.
Context {B : Buf}.

(** A length-prefixed field on the wire. *)
Definition prefixed (c : list Z) : list Z := be16 (len c) ++ c.
#[global] Arguments prefixed : simpl never.

Lemma len_prefixed c : len (prefixed c) = 2 + len c.
Proof. unfold prefixed. rewrite len_app. simpl. lia. Qed.

Lemma writes_prefixed c :
  len c <= u16_max ->
  writes (put_u16 (u16 (len c)) ≫= fun _ => put_slice c : Codec unit) (prefixed c).
Proof.
  unfold u16_max, prefixed. intros H. unfold u16. rewrite Z.mod_small by lia.
  apply writes_bind; auto with codec.
Qed.

Lemma writes_string s : len s <= u16_max -> writes (encode_string s) (prefixed s).
Proof.
  intros H. unfold encode_string. destruct (Z.ltb_spec u16_max (len s)); [lia |].
  by apply writes_prefixed.
Qed.

Lemma writes_array c : len c <= u16_max -> writes (encode_array_field c) (prefixed c).
Proof.
  intros H. unfold encode_array_field. destruct (Z.ltb_spec u16_max (len c)); [lia |].
  by apply writes_prefixed.
Qed.

(** Strings that do not fit the length prefix are refused, not truncated. *)
Lemma encode_string_too_long s d :
  u16_max < len s -> encode_string s d = (Err MqttCodecError_new, d).
Proof. intros H. unfold encode_string. by rewrite (proj2 (Z.ltb_lt _ _) H). Qed.

Lemma remaining_prefixed c t {A} (k : Z -> Codec A) :
  (n ← remaining; if n <? 2 then raise MqttCodecError_new else k n) (prefixed c ++ t)
  = k (len (prefixed c ++ t)) (prefixed c ++ t).
Proof.
  rewrite bind_remaining.
  destruct (Z.ltb_spec (len (prefixed c ++ t)) 2); [| done].
  rewrite len_app, len_prefixed in *. lia.
Qed.

Lemma reads_string s0 s : mqtt_string s -> reads (String_decode s0) (prefixed s) (s, len s + 2).
Proof.
  intros [Hu Hl] t. unfold String_decode.
  rewrite (remaining_prefixed s t (fun _ => _)).
  unfold prefixed. rewrite <- app_assoc.
  rewrite (bind_ok _ _ _ (len s) (s ++ t)).
  2: { apply reads_get_u16. unfold is_u16, u16_max in *. lia. }
  rewrite (bind_ok _ _ _ s t) by (by apply reads_try_copy).
  by rewrite Hu.
Qed.

Lemma reads_vec_u8 c0 c : len c <= u16_max -> reads (VecU8_decode c0) (prefixed c) (c, len c + 2).
Proof.
  intros Hl t. unfold VecU8_decode.
  rewrite (remaining_prefixed c t (fun _ => _)).
  unfold prefixed. rewrite <- app_assoc.
  rewrite (bind_ok _ _ _ (len c) (c ++ t)).
  2: { apply reads_get_u16. unfold is_u16, u16_max in *. lia. }
  by rewrite (bind_ok _ _ _ c t) by (by apply reads_try_copy).
Qed.

Lemma reads_prefixed_string s0 s :
  mqtt_string s -> reads (String_decode s0) (prefixed s) (s, len (prefixed s)).
Proof. intros Hs. rewrite len_prefixed, Z.add_comm. by apply reads_string. Qed.

Lemma reads_prefixed_vec c0 c :
  len c <= u16_max -> reads (VecU8_decode c0) (prefixed c) (c, len (prefixed c)).
Proof. intros Hc. rewrite len_prefixed, Z.add_comm. by apply reads_vec_u8. Qed.

(** What the decoder accepts as a string is well-formed UTF-8. *)
Lemma String_decode_utf8 s0 b s n b' :
  String_decode s0 b = (Ok (s, n), b') -> utf8_valid s = true.
Proof.
  unfold String_decode. intros H. apply bind_ok_inv in H as (? & ? & _ & H).
  destruct (_ <? 2); [done |].
  apply bind_ok_inv in H as (? & ? & _ & H). apply bind_ok_inv in H as (v & ? & _ & H).
  destruct (utf8_valid v) eqn:E; [| done]. by injection H as <- _ _.
Qed.

Lemma reads_u8 v0 v : reads (u8_decode v0) [v] (v, 1).
Proof. eapply reads_bind_nil; [apply reads_get_u8 | apply reads_ret]. Qed.
Lemma reads_u16 v0 v : is_u16 v -> reads (u16_decode v0) (be16 v) (v, 2).
Proof. intros. eapply reads_bind_nil; [by apply reads_get_u16 | apply reads_ret]. Qed.
Lemma reads_u32 v0 v : is_u32 v -> reads (u32_decode v0) (be32 v) (v, 4).
Proof. intros. eapply reads_bind_nil; [by apply reads_get_u32 | apply reads_ret]. Qed.

Definition bool_byte (b : bool) : Z := if b then 1 else 0.

Lemma reads_bool v0 b : reads (bool_decode v0) [bool_byte b] (b, 1).
Proof. eapply reads_bind_nil; [apply reads_get_u8 | destruct b; apply reads_ret]. Qed.

Lemma writes_reason r : writes (encode r) [Reason_as_u8 r].
Proof. apply writes_put_u8. Qed.

Lemma reads_reason r0 r : reads (Reason_decode r0) [Reason_as_u8 r] (r, 1).
Proof.
  eapply reads_bind_nil; [apply reads_get_u8 |]. intros t.
  unfold lift, mbind, M_bind. by rewrite Reason_try_from_as_u8.
Qed.

Lemma reads_qos q0 q : reads (QoSLevel_decode q0) [QoSLevel_as_u8 q] (q, 1).
Proof.
  eapply reads_bind_nil; [apply reads_get_u8 |]. intros t.
  unfold lift, mbind, M_bind. by rewrite QoSLevel_try_from_as_u8.
Qed.

(** *** Repeated items *)

(** A loop over items that are written one after another returns them in
    order and stops at the end of the buffer. *)
Lemma decode_while_remaining_app {A} (item : Codec (A * Z)) (enc : A -> list Z)
    fuel acc n (xs : list A) :
  (forall x, x ∈ xs -> enc x <> [] /\ reads item (enc x) (x, len (enc x))) ->
  (length (concat (enc <$> xs)) <= fuel)%nat ->
  decode_while_remaining fuel item acc n (concat (enc <$> xs))
  = (Ok (acc ++ xs, n + len (concat (enc <$> xs))), []).
Proof.
  revert fuel acc n. induction xs as [|x xs IH]; intros fuel acc n Hx Hf.
  { simpl. destruct fuel; simpl; rewrite bind_has_remaining; simpl;
      by rewrite app_nil_r, Z.add_0_r. }
  destruct (Hx x) as [Hne Hr]; [left |].
  rewrite fmap_cons in *. simpl concat in *. rewrite length_app in Hf.
  assert (0 < length (enc x))%nat by (destruct (enc x); [done | simpl; lia]).
  destruct fuel as [|fuel]; [lia |]. simpl decode_while_remaining.
  rewrite bind_has_remaining, len_app.
  destruct (Z.ltb_spec 0 (len (enc x) + len (concat (enc <$> xs)))); [simpl | lia].
  rewrite (bind_ok _ _ _ _ _ (Hr _)).
  rewrite IH; [| intros; apply Hx; by right | lia].
  rewrite <- app_assoc. do 3 f_equal. lia.
Qed.

Lemma reads_items {A} (item : Codec (A * Z)) (enc : A -> list Z) (xs : list A) :
  (forall x, x ∈ xs -> enc x <> [] /\ reads item (enc x) (x, len (enc x))) ->
  decode_items item [] (concat (enc <$> xs)) = (Ok (xs, len (concat (enc <$> xs))), []).
Proof.
  intros H. unfold decode_items. rewrite bind_get.
  rewrite (decode_while_remaining_app _ enc _ _ _ _ H); [done | lia].
Qed.

(** *** Termination *)

Lemma tame_prefixed_reader {A} (f : Z -> list Z -> Codec A) :
  (forall l d, tame (f l d)) ->
  let m := n ← remaining;
           if n <? 2 then raise MqttCodecError_new
           else l ← get_u16;
                d ← try_copy_to_slice l (fun rem => new_with_kind (InsufficientData l rem));
                f l d in
  tame m /\ eats m.
Proof.
  intros Hf m.
  assert (T : forall b l b', bytes b -> (get_u16 : Codec Z) b = (Ok l, b') ->
    tame (d ← try_copy_to_slice l (fun rem => new_with_kind (InsufficientData l rem)); f l d)).
  { intros b l b' Hb Hl. apply get_u16_nonneg in Hl; [| done].
    apply tame_bind; [by apply tame_try_copy | auto]. }
  split.
  - apply tame_bind; [auto with codec |]. intros n. destruct (n <? 2); [auto with codec |].
    intros b r b' Hb H. destruct ((get_u16 : Codec Z) b) as [r1 b1] eqn:E1.
    pose proof (tame_get_u16 _ _ _ Hb E1) as (? & B1 & ?).
    unfold mbind at 1, M_bind at 1 in H. rewrite E1 in H. destruct r1; simplify_eq; auto.
    destruct (T _ _ _ Hb E1 _ _ _ B1 H) as (? & ? & ?). split_and!; (done || lia).
  - intros b a b' Hb (n & b0 & [= <- <-] & H)%bind_ok_inv. destruct (_ <? 2); [done |].
    apply bind_ok_inv in H as (l & b1 & H1 & H2).
    pose proof (tame_get_u16 _ _ _ Hb H1) as (_ & B1 & _).
    destruct (T _ _ _ Hb H1 _ _ _ B1 H2) as (_ & _ & ?).
    apply eats_get_u16 in H1; [lia | done].
Qed.

Lemma String_decode_shortens s0 : tame (String_decode s0) /\ eats (String_decode s0).
Proof. apply tame_prefixed_reader. intros l d. destruct (utf8_valid d); auto with codec. Qed.

Lemma VecU8_decode_shortens c0 : tame (VecU8_decode c0) /\ eats (VecU8_decode c0).
Proof. apply tame_prefixed_reader. auto with codec. Qed.

Lemma tame_string s0 : tame (String_decode s0).
Proof. apply String_decode_shortens. Qed.
Lemma tame_vec_u8 c0 : tame (VecU8_decode c0).
Proof. apply VecU8_decode_shortens. Qed.
Lemma tame_bool v0 : tame (bool_decode v0).
Proof. apply tame_bind; [auto with codec |]. intros [|[]|]; auto with codec. Qed.
Lemma tame_u8 v0 : tame (u8_decode v0).
Proof. apply tame_bind; auto with codec. Qed.
Lemma tame_u16 v0 : tame (u16_decode v0).
Proof. apply tame_bind; auto with codec. Qed.
Lemma tame_u32 v0 : tame (u32_decode v0).
Proof. apply tame_bind; auto with codec. Qed.

Lemma Reason_decode_shortens r0 : tame (Reason_decode r0) /\ eats (Reason_decode r0).
Proof.
  assert (T : forall v, tame (r ← lift (Reason_try_from v); mret (r, 1) : Codec (Reason * Z))).
  { intros v. apply tame_bind; [| auto with codec]. apply tame_lift, Reason_try_from_total. }
  split; [apply tame_bind | apply eats_bind_l]; auto with codec.
Qed.

Lemma tame_qos q0 : tame (QoSLevel_decode q0).
Proof.
  apply tame_bind; [auto with codec |]. intros v.
  apply tame_bind; [apply tame_lift, QoSLevel_try_from_total | auto with codec].
Qed.

(** The loop over repeated items ends when every item takes a byte. *)
Lemma tame_decode_while_remaining {A} (item : Codec (A * Z)) fuel acc n b r b' :
  tame item -> eats item -> bytes b -> (length b < fuel)%nat ->
  decode_while_remaining fuel item acc n b = (r, b') ->
  r <> OutOfFuel /\ bytes b' /\ (length b' <= length b)%nat.
Proof.
  intros Ht He. revert acc n b. induction fuel as [|fuel IH]; intros acc n b Hb Hf H; [lia |].
  simpl in H. rewrite bind_has_remaining in H.
  destruct (negb _); [by injection H as <- <- |].
  unfold mbind, M_bind in H. destruct (item b) as [r1 b1] eqn:E1.
  pose proof (Ht _ _ _ Hb E1) as (? & ? & ?).
  destruct r1 as [[a k]|? | |]; simplify_eq; auto.
  pose proof (He _ _ _ Hb E1).
  apply IH in H as (? & ? & ?); [| done | lia]. split_and!; (done || lia).
Qed.

Lemma tame_items {A} (item : Codec (A * Z)) acc :
  tame item -> eats item -> tame (decode_items item acc).
Proof.
  intros Ht He b r b' Hb H. unfold decode_items in H.
  rewrite bind_get in H.
  eapply tame_decode_while_remaining in H; (done || lia).
Qed.

End primitive_facts.

#[export] Hint Resolve writes_vbi writes_string writes_array writes_reason : codec.
#[export] Hint Resolve tame_string tame_vec_u8 tame_bool tame_u8 tame_u16 tame_u32 tame_qos
  tame_decode_vbi : codec.

(** ** The contract of the primitive codecs *)

Section contract.
Context {B : Buf}.

(** Variable byte integers up to 2 097 151 round trip: the encoder appends
    [variable_byte_int_size] bytes, and the decoder reads the value back from
    exactly those bytes, whatever follows them. *)
Theorem vbi_roundtrip (v : Z) (d : list Z) :
  0 <= v <= 2097151 ->
  exists bs,
    encode_variable_byte_int v d = (Ok tt, d ++ bs)
    /\ len bs = variable_byte_int_size v
    /\ forall t, decode_variable_byte_int (bs ++ t) = (Ok (v, len bs), t).
Proof.
  intros Hv. exists (vbi v). assert (L : len (vbi v) = variable_byte_int_size v).
  { apply len_vbi. unfold MAX_VARIABLE_BYTE_INT. lia. }
  split_and!; [apply writes_vbi; unfold is_u32; lia | done |].
  rewrite L. by apply reads_vbi.
Qed.

(** The values between 2 097 152 and [MAX_VARIABLE_BYTE_INT], which take four
    bytes, are encoded but refused by the decoder. *)
Theorem vbi_four_bytes_refused (v : Z) (d t : list Z) :
  2097152 <= v <= MAX_VARIABLE_BYTE_INT ->
  exists bs,
    encode_variable_byte_int v d = (Ok tt, d ++ bs)
    /\ len bs = 4
    /\ decode_variable_byte_int (bs ++ t) = (Err MqttCodecError_new, t).
Proof.
  intros Hv. exists (vbi v). split_and!.
  - apply writes_vbi. unfold is_u32, MAX_VARIABLE_BYTE_INT in *. lia.
  - rewrite len_vbi by lia. unfold variable_byte_int_size. case_leb; lia.
  - by apply decode_vbi_four.
Qed.

(** UTF-8 strings of at most 65 535 bytes round trip, and longer ones are
    refused without writing anything. *)
Theorem string_roundtrip (s0 s : rstring) (d : list Z) :
  utf8_valid s = true ->
  if u16_max <? len s then encode_string s d = (Err MqttCodecError_new, d)
  else exists bs,
    encode_string s d = (Ok tt, d ++ bs)
    /\ forall t, String_decode s0 (bs ++ t) = (Ok (s, len bs), t).
Proof.
  intros Hs. destruct (Z.ltb_spec u16_max (len s)); [by apply encode_string_too_long |].
  exists (prefixed s). split; [by apply writes_string |].
  apply reads_prefixed_string. by split.
Qed.

(** The string decoder accepts nothing but the encoding of the string it
    returns: the bytes it consumed are those the encoder writes, the count is
    their number, and the string is well-formed UTF-8. *)
Theorem string_decode_sound (s0 s : rstring) (n : Z) (b b' : list Z) :
  Forall is_u8 b -> String_decode s0 b = (Ok (s, n), b') ->
  exists bs, b = bs ++ b' /\ n = len bs /\ encode_string s [] = (Ok tt, bs) /\ mqtt_string s.
Proof.
  intros Hb H. exists (prefixed s). unfold String_decode in H. rewrite bind_remaining in H.
  destruct (_ <? 2); [done |].
  apply bind_ok_inv in H as (l & b1 & H1 & H). apply get_u16_inv in H1 as [-> Hl]; [| done].
  apply bind_ok_inv in H as (c & b2 & H2 & H). apply try_copy_inv in H2 as [-> Hc]; [| apply Hl].
  destruct (utf8_valid c) eqn:Hu; [| done]. injection H as <- <- <-. subst l.
  unfold is_u16, u16_max in *. rewrite len_prefixed. unfold prefixed. rewrite <- app_assoc.
  split_and!; [done | lia | | by split; [| unfold u16_max; lia]].
  apply (writes_string c). unfold u16_max. lia.
Qed.
End contract.

Lemma vbi_roundtrip_witness :
  exists bs, encode_variable_byte_int 2097151 [] = (Ok tt, [] ++ bs)
    /\ len bs = 3 /\ forall t, decode_variable_byte_int (bs ++ t) = (Ok (2097151, len bs), t).
Proof. apply (vbi_roundtrip 2097151 []). lia. Defined.

Lemma vbi_four_bytes_refused_witness :
  exists bs, encode_variable_byte_int 2097152 [] = (Ok tt, [] ++ bs)
    /\ len bs = 4 /\ decode_variable_byte_int (bs ++ [1]) = (Err MqttCodecError_new, [1]).
Proof. apply (vbi_four_bytes_refused 2097152 [] [1]). unfold MAX_VARIABLE_BYTE_INT. lia. Defined.

Lemma string_roundtrip_witness :
  exists bs, encode_string (str "mqtt") [] = (Ok tt, [] ++ bs)
    /\ forall t, String_decode [] (bs ++ t) = (Ok (str "mqtt", len bs), t).
Proof. apply (string_roundtrip [] (str "mqtt") []). reflexivity. Defined.

Lemma string_decode_sound_witness :
  exists bs, [0; 2; 104; 105; 7] = bs ++ [7] /\ 4 = len bs
    /\ encode_string (str "hi") [] = (Ok tt, bs) /\ mqtt_string (str "hi").
Proof.
  apply (string_decode_sound [] (str "hi") 4 [0; 2; 104; 105; 7] [7]); [| reflexivity].
  repeat constructor; unfold is_u8; lia.
Defined.
