(* ===== verification/Fixed.v ===== *)
(** * vaux-mqtt/src/codec/fixed.rs: the fixed header *)
(** The first byte of every packet: the packet type in the high nibble and the
    flags (DUP, QoS and RETAIN for PUBLISH, reserved bits otherwise) in the low
    nibble. *)

From S2P Require Import Prelude Bytes Codec.

Definition PACKET_RESERVED_NONE : Z := 0x00.
Definition PACKET_RESERVED_BIT1 : Z := 0x02.
Definition QOS_MASK : Z := 6.
Definition RETAIN_MASK : Z := 1.
Definition DUP_MASK : Z := 8.

Record FixedHeader := mkFixedHeader { packet_type : PacketType; flags : Z }.

#[export] Instance FixedHeader_eta : Eta FixedHeader :=
  fun h => mkFixedHeader (packet_type h) (flags h).
#[export] Instance FixedHeader_eq_dec : EqDecision FixedHeader.
Proof. solve_decision. Defined.

(** The derived [Default]: CONNECT with no flags. *)
#[export] Instance FixedHeader_default : Default FixedHeader :=
  mkFixedHeader PacketType.Connect 0.

Definition FixedHeader_new (p : PacketType) : FixedHeader :=
  match p with
  | PacketType.PubRel | PacketType.Subscribe | PacketType.Unsubscribe =>
      mkFixedHeader p PACKET_RESERVED_BIT1
  | _ => mkFixedHeader p PACKET_RESERVED_NONE
  end.

Definition header_dup (h : FixedHeader) : bool := negb (Z.land (flags h) DUP_MASK =? 0).

Definition header_set_dup (dup : bool) (h : FixedHeader) : FixedHeader :=
  h <| flags := Z.lor (Z.land (flags h) (not_u8 DUP_MASK)) (Z.shiftl (bool_byte dup) 3) |>.

Definition header_retain (h : FixedHeader) : bool := negb (Z.land (flags h) RETAIN_MASK =? 0).

Definition header_set_retain (retain : bool) (h : FixedHeader) : FixedHeader :=
  h <| flags := Z.lor (Z.land (flags h) (not_u8 RETAIN_MASK)) (bool_byte retain) |>.

(** [qos()] unwraps: both QoS bits set is a panic. *)
Definition header_qos (h : FixedHeader) : outcome MqttCodecError QoSLevel :=
  match QoSLevel_try_from (Z.shiftr (Z.land (flags h) QOS_MASK) 1) with
  | Ok q => Ok q
  | _ => Panic
  end.

Definition header_set_qos (qos : QoSLevel) (h : FixedHeader) : FixedHeader :=
  h <| flags := Z.lor (Z.land (flags h) (not_u8 QOS_MASK)) (Z.shiftl (QoSLevel_as_u8 qos) 1) |>.

Definition header_set_flags (fl : Z) (h : FixedHeader) : outcome MqttCodecError FixedHeader :=
  if Z.land fl QOS_MASK =? QOS_MASK then Err (new_with_kind UnsupportedQosLevel)
  else Ok (h <| flags := fl |>).

Definition header_clear_flags (h : FixedHeader) : FixedHeader := h <| flags := 0 |>.

Section codec.
Context {B : Buf}.

#[export] Instance FixedHeader_encode : Encode FixedHeader := fun h =>
  put_u8 (Z.lor (PacketType_as_u8 (packet_type h)) (Z.land (flags h) 0x0f)).

(** The flags the decoder lets through for a packet type. *)
Definition flags_accepted (p : PacketType) (fl : Z) : bool :=
  match p with
  | PacketType.PubRel | PacketType.Subscribe | PacketType.Unsubscribe =>
      fl =? PACKET_RESERVED_BIT1
  | PacketType.Publish => true
  | _ => fl =? PACKET_RESERVED_NONE
  end.

#[export] Instance FixedHeader_decode : Decode FixedHeader := fun self =>
  n ← remaining;
  if n <? 2 then raise (new_with_kind (InsufficientData 2 n))
  else
    first_byte ← get_u8;
    let fl := Z.land first_byte 0x0f in
    let p := PacketType_from (Z.land first_byte 0xf0) in
    if flags_accepted p fl then mret (self <| packet_type := p |> <| flags := fl |>, 1)
    else raise MqttCodecError_new.
End codec.

(** ** The flags behave as independent fields *)

(** A header whose flags are the ones its type allows. *)
Definition header_ok (h : FixedHeader) : Prop :=
  0 <= flags h < 16 /\ flags_accepted (packet_type h) (flags h) = true.

Lemma header_new_ok p : header_ok (FixedHeader_new p).
Proof. destruct p; split; simpl; (done || lia). Qed.

Definition flag_view (h : FixedHeader) : bool * outcome MqttCodecError QoSLevel * bool :=
  (header_dup h, header_qos h, header_retain h).

(** Setting a flag is observed by its getter and by no other. *)
Lemma flag_view_set_dup h d :
  is_u8 (flags h) -> flag_view (header_set_dup d h) = (d, header_qos h, header_retain h).
Proof. destruct h as [p f]. simpl. intros Hf. destruct d; by_bytes f. Qed.

Lemma flag_view_set_retain h r :
  is_u8 (flags h) -> flag_view (header_set_retain r h) = (header_dup h, header_qos h, r).
Proof. destruct h as [p f]. simpl. intros Hf. destruct r; by_bytes f. Qed.

Lemma flag_view_set_qos h q :
  is_u8 (flags h) -> flag_view (header_set_qos q h) = (header_dup h, Ok q, header_retain h).
Proof. destruct h as [p f]. simpl. intros Hf. destruct q; by_bytes f. Qed.

Lemma header_set_small h d r q :
  0 <= flags h < 16 ->
  0 <= flags (header_set_dup d h) < 16 /\ 0 <= flags (header_set_retain r h) < 16
  /\ 0 <= flags (header_set_qos q h) < 16.
Proof.
  destruct h as [p f]. simpl. intros Hf.
  enough (16 <= f \/ (0 <= flags (header_set_dup d (mkFixedHeader p f)) < 16
    /\ 0 <= flags (header_set_retain r (mkFixedHeader p f)) < 16
    /\ 0 <= flags (header_set_qos q (mkFixedHeader p f)) < 16)) as [?|?]; [lia | done |].
  assert (Hv : is_u8 f) by (unfold is_u8; lia). clear Hf.
  destruct d, r, q; by_bytes f.
Qed.

(** ** Wire format *)

Definition header_byte (h : FixedHeader) : Z :=
  Z.lor (PacketType_as_u8 (packet_type h)) (Z.land (flags h) 0x0f).

(** The byte splits back into the two nibbles. *)
Lemma header_byte_split h :
  0 <= flags h < 16 ->
  Z.land (header_byte h) 0x0f = flags h
  /\ PacketType_from (Z.land (header_byte h) 0xf0) = packet_type h
  /\ is_u8 (header_byte h).
Proof.
  destruct h as [p f]. unfold header_byte, is_u8. simpl. intros Hf.
  enough (16 <= f \/ (Z.land (Z.lor (PacketType_as_u8 p) (Z.land f 15)) 15 = f
    /\ PacketType_from (Z.land (Z.lor (PacketType_as_u8 p) (Z.land f 15)) 240) = p
    /\ 0 <= Z.lor (PacketType_as_u8 p) (Z.land f 15) < 256)) as [?|?]; [lia | done |].
  assert (Hv : is_u8 f) by (unfold is_u8; lia). clear Hf.
  destruct p; by_bytes f.
Qed.

Section wire.
Context {B : Buf}.

Lemma writes_header h : writes (FixedHeader_encode h) [header_byte h].
Proof. apply writes_put_u8. Qed.

Lemma decode_header h0 h x t :
  header_ok h -> FixedHeader_decode h0 (header_byte h :: x :: t) = (Ok (h, 1), x :: t).
Proof.
  intros [Hf Ha]. destruct (header_byte_split h Hf) as (E1 & E2 & _).
  unfold FixedHeader_decode. rewrite bind_remaining.
  rewrite (proj2 (Z.ltb_ge _ _)) by (simpl; lia).
  rewrite bind_get_u8. cbv zeta. rewrite E1, E2, Ha. by destruct h, h0.
Qed.

Lemma tame_header h0 : tame (FixedHeader_decode h0).
Proof.
  apply tame_bind; [auto with codec |]. intros n. destruct (n <? 2); [auto with codec |].
  apply tame_bind; [auto with codec |]. intros b. simpl. destruct (flags_accepted _ _); auto with codec.
Qed.

(** A decoded header is the header of its first byte. *)
Lemma decode_header_inv h0 b h n b' :
  FixedHeader_decode h0 b = (Ok (h, n), b') ->
  exists x, b = x :: b' /\ n = 1 /\ 1 <= len b' /\ flags h = Z.land x 0x0f
    /\ packet_type h = PacketType_from (Z.land x 0xf0)
    /\ flags_accepted (packet_type h) (flags h) = true.
Proof.
  unfold FixedHeader_decode. rewrite bind_remaining.
  destruct (Z.ltb_spec (len b) 2) as [|Hl]; [done |].
  destruct b as [|x b]; [simpl in Hl; lia |]. rewrite bind_get_u8. cbv zeta.
  destruct (flags_accepted _ _) eqn:Ha; intros [= <- <- <-].
  exists x. simpl in *. split_and!; (done || lia).
Qed.
End wire.

#[export] Hint Resolve writes_header tame_header : codec.

(** ** The contract of the fixed header *)

(** DUP, QoS and RETAIN are independent: setting one of them is seen by its
    own getter and by no other, whatever the header's flags were. *)
Theorem header_flags_independent (h : FixedHeader) (d r : bool) (q : QoSLevel) :
  is_u8 (flags h) ->
  let view h := (header_dup h, header_qos h, header_retain h) in
  view (header_set_dup d h) = (d, header_qos h, header_retain h)
  /\ view (header_set_qos q h) = (header_dup h, Ok q, header_retain h)
  /\ view (header_set_retain r h) = (header_dup h, header_qos h, r).
Proof.
  intros Hf view.
  split_and!; [by apply flag_view_set_dup | by apply flag_view_set_qos | by apply flag_view_set_retain].
Qed.

(** The fixed header decoder, on a buffer with a first byte [x] and at least
    one more, accepts exactly the flags its packet type allows, consumes one
    byte, and the header it returns encodes back to [x] (the reserved type 0 is
    read as AUTH and is the exception). *)
Theorem header_decode_sound {B : Buf} (h0 : FixedHeader) (x y : Z) (t : list Z) :
  is_u8 x -> 16 <= x ->
  let h := mkFixedHeader (PacketType_from (Z.land x 0xf0)) (Z.land x 0x0f) in
  (if flags_accepted (packet_type h) (flags h)
   then FixedHeader_decode h0 (x :: y :: t) = (Ok (h, 1), y :: t)
   else FixedHeader_decode h0 (x :: y :: t) = (Err MqttCodecError_new, y :: t))
  /\ FixedHeader_encode h [] = (Ok tt, [x]).
Proof.
  intros Hx Hx16 h. assert (E : header_byte h = x).
  { enough (x < 16 \/ header_byte h = x) as [?|?]; [lia | done |]. unfold h. by_bytes x. }
  split; [| rewrite <- E; apply (writes_header h [])].
  unfold FixedHeader_decode. rewrite bind_remaining.
  rewrite (proj2 (Z.ltb_ge _ _)) by (simpl; lia). rewrite bind_get_u8. cbv zeta.
  unfold h. destruct h0. cbn [packet_type flags]. by destruct (flags_accepted _ _).
Qed.

(** Setting any other flag keeps the QoS; setting the QoS makes it valid. *)
Lemma header_qos_set h q : header_qos (header_set_qos q h) = Ok q.
Proof.
  destruct h as [p f]. unfold header_qos, header_set_qos. simpl.
  rewrite Z.land_lor_distr_l, <- Z.land_assoc. change (Z.land (not_u8 QOS_MASK) QOS_MASK) with 0.
  rewrite Z.land_0_r. by destruct q.
Qed.

Lemma header_qos_set_dup h d : header_qos (header_set_dup d h) = header_qos h.
Proof.
  destruct h as [p f]. unfold header_qos, header_set_dup. simpl.
  rewrite Z.land_lor_distr_l, <- Z.land_assoc.
  change (Z.land (not_u8 DUP_MASK) QOS_MASK) with QOS_MASK.
  destruct d; simpl; by rewrite Z.lor_0_r.
Qed.

Lemma header_flags_independent_witness :
  let h := mkFixedHeader PacketType.Publish 0x0b in
  let view h := (header_dup h, header_qos h, header_retain h) in
  view (header_set_dup false h) = (false, header_qos h, header_retain h)
  /\ view (header_set_qos QoSLevel.ExactlyOnce h) = (header_dup h, Ok QoSLevel.ExactlyOnce, header_retain h)
  /\ view (header_set_retain false h) = (header_dup h, header_qos h, false).
Proof.
  apply (header_flags_independent (mkFixedHeader PacketType.Publish 0x0b)).
  unfold is_u8. simpl. lia.
Defined.

Lemma header_decode_sound_witness :
  FixedHeader_decode dflt [0x82; 5; 0] = (Ok (mkFixedHeader PacketType.Subscribe 2, 1), [5; 0])
  /\ FixedHeader_encode (mkFixedHeader PacketType.Subscribe 2) [] = (Ok tt, [0x82]).
Proof. apply (header_decode_sound dflt 0x82 5 [0]); unfold is_u8; lia. Defined.
