(* ===== verification/Property.v ===== *)
(** * vaux-mqtt/src/property.rs: property identifiers and user properties *)
(** The identifiers of the MQTT v5 properties, and the multimap of user
    properties.  [UserProperty] wraps a [HashMap], whose iteration order is
    unspecified: the class [HashIter] is an iteration order, any listing of the
    entries, and every theorem that encodes a map holds for all of them. *)

From S2P Require Import Prelude Bytes Codec.

Module PropertyType.
Inductive PropertyType :=
| PayloadFormat | MessageExpiry | ContentType | ResponseTopic | CorrelationData
| SubscriptionIdentifier | SessionExpiryInterval | AssignedClientId | KeepAlive
| AuthMethod | AuthData | ReqProblemInfo | WillDelay | ReqRespInfo | RespInfo
| ServerReference | ReasonString | RecvMax | TopicAliasMax | TopicAlias | MaxQoS
| RetainAvail | UserProperty | MaxPacketSize | WildcardSubAvail | SubIdAvail
| ShardSubAvail.
End PropertyType.
Abbreviation PropertyType := PropertyType.PropertyType.

#[export] Instance PropertyType_eq_dec : EqDecision PropertyType.
Proof. solve_decision. Defined.

Definition PropertyType_as_u8 (p : PropertyType) : Z :=
  match p with
  | PropertyType.PayloadFormat => 0x01
  | PropertyType.MessageExpiry => 0x02
  | PropertyType.ContentType => 0x03
  | PropertyType.ResponseTopic => 0x08
  | PropertyType.CorrelationData => 0x09
  | PropertyType.SubscriptionIdentifier => 0x0b
  | PropertyType.SessionExpiryInterval => 0x11
  | PropertyType.AssignedClientId => 0x12
  | PropertyType.KeepAlive => 0x13
  | PropertyType.AuthMethod => 0x15
  | PropertyType.AuthData => 0x16
  | PropertyType.ReqProblemInfo => 0x17
  | PropertyType.WillDelay => 0x18
  | PropertyType.ReqRespInfo => 0x19
  | PropertyType.RespInfo => 0x1a
  | PropertyType.ServerReference => 0x1c
  | PropertyType.ReasonString => 0x1f
  | PropertyType.RecvMax => 0x21
  | PropertyType.TopicAliasMax => 0x22
  | PropertyType.TopicAlias => 0x23
  | PropertyType.MaxQoS => 0x24
  | PropertyType.RetainAvail => 0x25
  | PropertyType.UserProperty => 0x26
  | PropertyType.MaxPacketSize => 0x27
  | PropertyType.WildcardSubAvail => 0x28
  | PropertyType.SubIdAvail => 0x29
  | PropertyType.ShardSubAvail => 0x2a
  end.

Definition PropertyType_try_from (value : Z) : outcome MqttCodecError PropertyType :=
  match value with
  | 0x01 => Ok PropertyType.PayloadFormat
  | 0x02 => Ok PropertyType.MessageExpiry
  | 0x03 => Ok PropertyType.ContentType
  | 0x08 => Ok PropertyType.ResponseTopic
  | 0x09 => Ok PropertyType.CorrelationData
  | 0x0b => Ok PropertyType.SubscriptionIdentifier
  | 0x11 => Ok PropertyType.SessionExpiryInterval
  | 0x12 => Ok PropertyType.AssignedClientId
  | 0x13 => Ok PropertyType.KeepAlive
  | 0x15 => Ok PropertyType.AuthMethod
  | 0x16 => Ok PropertyType.AuthData
  | 0x17 => Ok PropertyType.ReqProblemInfo
  | 0x18 => Ok PropertyType.WillDelay
  | 0x19 => Ok PropertyType.ReqRespInfo
  | 0x1a => Ok PropertyType.RespInfo
  | 0x1c => Ok PropertyType.ServerReference
  | 0x1f => Ok PropertyType.ReasonString
  | 0x21 => Ok PropertyType.RecvMax
  | 0x22 => Ok PropertyType.TopicAliasMax
  | 0x23 => Ok PropertyType.TopicAlias
  | 0x24 => Ok PropertyType.MaxQoS
  | 0x25 => Ok PropertyType.RetainAvail
  | 0x26 => Ok PropertyType.UserProperty
  | 0x27 => Ok PropertyType.MaxPacketSize
  | 0x28 => Ok PropertyType.WildcardSubAvail
  | 0x29 => Ok PropertyType.SubIdAvail
  | 0x2a => Ok PropertyType.ShardSubAvail
  | _ => Err MqttCodecError_new
  end.

(** ** HashMap iteration *)

Class HashIter := {
  hash_iter : gmap rstring (list rstring) -> list (rstring * list rstring);
  hash_iter_perm m : hash_iter m ≡ₚ map_to_list m;
}.

#[export] Instance map_to_list_iter : HashIter :=
  {| hash_iter := map_to_list; hash_iter_perm m := reflexivity _ |}.

(** ** User properties *)

(** [struct UserProperty(HashMap<String, Vec<String>>)]. *)
Abbreviation UserProperty := (gmap rstring (list rstring)).

Definition UserProperty_new : UserProperty := ∅.
Definition UserProperty_clear (m : UserProperty) : UserProperty := ∅.
(** [clear_codec] removes one key. *)
Definition UserProperty_clear_codec (key : rstring) (m : UserProperty) : UserProperty :=
  delete key m.
(** [self.0.entry(key).or_default().push(value)]. *)
Definition UserProperty_add (key value : rstring) (m : UserProperty) : UserProperty :=
  <[key := (m !!! key) ++ [value]]> m.
Definition UserProperty_get (key : rstring) (m : UserProperty) : option (list rstring) :=
  m !! key.
Definition UserProperty_is_empty (m : UserProperty) : bool := bool_decide (size m = 0%nat).
Definition UserProperty_len (m : UserProperty) : Z := Z.of_nat (size m).

#[export] Instance UserProperty_default : Default UserProperty := UserProperty_new.

Section user_property.
Context {B : Buf} {H : HashIter}.

(** The pairs in the order in which the two nested loops visit them. *)
Definition flat_pairs (l : list (rstring * list rstring)) : list (rstring * rstring) :=
  l ≫= fun kv => (fun v => (kv.1, v)) <$> kv.2.

Definition pairs (m : UserProperty) : list (rstring * rstring) := flat_pairs (hash_iter m).

Fixpoint pairs_size (l : list (rstring * rstring)) (size : Z) : Z :=
  match l with
  | [] => size
  | (key, value) :: l =>
      let size := add_u32 size 1 in
      let size := add_u32 size (add_u32 2 (u32 (len key))) in
      let size := add_u32 size (add_u32 2 (u32 (len value))) in
      pairs_size l size
  end.

#[export] Instance UserProperty_property_size : PropertyCodecSize UserProperty :=
  fun m => pairs_size (pairs m) 0.

Fixpoint encode_pairs (l : list (rstring * rstring)) : Codec unit :=
  match l with
  | [] => mret tt
  | (key, value) :: l =>
      put_u8 (PropertyType_as_u8 PropertyType.UserProperty) ≫= fun _ =>
      encode_string key ≫= fun _ =>
      encode_string value ≫= fun _ =>
      encode_pairs l
  end.

#[export] Instance UserProperty_encode : Encode UserProperty := fun m => encode_pairs (pairs m).

(** [decode_string] already counts its length prefix; the two extra 2s are in
    the source. *)
#[export] Instance UserProperty_decode : Decode UserProperty := fun self =>
  '(key_value, key_len) ← decode_string;
  '(value, l) ← decode_string;
  let bytes_read := 2 + key_len + 2 + l in
  mret (UserProperty_add key_value value self, bytes_read).
End user_property.

(** ** Facts *)

Lemma PropertyType_try_from_as_u8 p : PropertyType_try_from (PropertyType_as_u8 p) = Ok p.
Proof. by destruct p. Qed.

Lemma PropertyType_as_u8_try_from v p :
  is_u8 v -> PropertyType_try_from v = Ok p -> PropertyType_as_u8 p = v.
Proof.
  intros Hv Hp.
  pose proof (byte_cases (fun v => match PropertyType_try_from v with
                                   | Ok p => PropertyType_as_u8 p =? v
                                   | _ => true end) eq_refl v Hv) as H.
  cbv beta in H. rewrite Hp in H. by apply Z.eqb_eq.
Qed.

Lemma PropertyType_try_from_total v : PropertyType_try_from v <> OutOfFuel.
Proof. unfold PropertyType_try_from. repeat case_match; done. Qed.

(** [add] appends to the values of its key and leaves the other keys alone. *)
Lemma UserProperty_get_add k v m k' :
  UserProperty_get k' (UserProperty_add k v m)
  = if decide (k' = k) then Some (m !!! k ++ [v]) else UserProperty_get k' m.
Proof.
  unfold UserProperty_get, UserProperty_add. case_decide; subst; by simplify_map_eq.
Qed.

Section user_property_facts.
Context {B : Buf} {H : HashIter}.

Definition pair_bytes (kv : rstring * rstring) : list Z :=
  PropertyType_as_u8 PropertyType.UserProperty :: prefixed kv.1 ++ prefixed kv.2.

Definition pair_ok (kv : rstring * rstring) : Prop := mqtt_string kv.1 /\ mqtt_string kv.2.

Lemma pairs_empty : pairs ∅ = [].
Proof.
  unfold pairs. pose proof (hash_iter_perm ∅) as P. rewrite map_to_list_empty in P.
  apply Permutation_nil_r in P. by rewrite P.
Qed.

Lemma pair_bytes_cons kv l :
  concat (pair_bytes <$> kv :: l)
  = [PropertyType_as_u8 PropertyType.UserProperty] ++ prefixed kv.1 ++ prefixed kv.2
    ++ concat (pair_bytes <$> l).
Proof. simpl. by rewrite <- app_assoc. Qed.

Lemma writes_pairs l :
  Forall pair_ok l -> writes (encode_pairs l) (concat (pair_bytes <$> l)).
Proof.
  induction 1 as [|[k v] l [[_ Hk] [_ Hv]] _ IH]; [apply writes_ret |].
  rewrite pair_bytes_cons. cbn [fst snd encode_pairs].
  apply writes_bind; [apply writes_put_u8 |].
  apply writes_bind; [by apply writes_string |].
  apply writes_bind; [by apply writes_string | done].
Qed.

Lemma pairs_size_bytes l n :
  pairs_size l (u32 n) = u32 (n + len (concat (pair_bytes <$> l))).
Proof.
  revert n. induction l as [|[k v] l IH]; intros n; [simpl; by rewrite Z.add_0_r |].
  rewrite pair_bytes_cons, !len_app, !len_prefixed. simpl.
  rewrite !add_u32_u32_r, !add_u32_u32_l, !u32_u32_l, <- Z.add_assoc, u32_u32_l, IH. f_equal. lia.
Qed.

(** The size announced for the user properties is the size they take. *)
Lemma UserProperty_size m :
  property_size m = u32 (len (concat (pair_bytes <$> pairs m))).
Proof. apply (pairs_size_bytes (pairs m) 0). Qed.

(** Decoding a pair adds it to the map, but reports four bytes too many. *)
Lemma reads_pair m0 k v :
  mqtt_string k -> mqtt_string v ->
  reads (UserProperty_decode m0) (prefixed k ++ prefixed v)
    (UserProperty_add k v m0, len (prefixed k ++ prefixed v) + 4).
Proof.
  intros Hk Hv t. unfold UserProperty_decode, decode_string. rewrite <- app_assoc.
  rewrite (bind_ok _ _ _ _ _ (reads_string _ _ Hk _)).
  rewrite (bind_ok _ _ _ _ _ (reads_string _ _ Hv _)).
  rewrite len_app, !len_prefixed. unfold mret, M_ret. do 3 f_equal. lia.
Qed.

Lemma UserProperty_decode_shortens m0 :
  tame (UserProperty_decode m0) /\ eats (UserProperty_decode m0).
Proof.
  assert (T : forall k n, tame ('(v, l) ← decode_string;
    let bytes_read := 2 + n + 2 + l in
    mret (UserProperty_add k v m0, bytes_read))).
  { intros k n. apply tame_bind; [apply tame_string |]. intros []. auto with codec. }
  split; [apply tame_bind | apply eats_bind_l]; try (intros []; auto);
    apply String_decode_shortens.
Qed.

(** *** Rebuilding the map *)

Definition add_pair (m : UserProperty) (kv : rstring * rstring) : UserProperty :=
  UserProperty_add kv.1 kv.2 m.

(** The pairs of one key are appended to the values it has. *)
Lemma add_pairs_of_key (k : rstring) (vs : list rstring) (m : UserProperty) :
  vs <> [] ->
  foldl add_pair m ((fun v => (k, v)) <$> vs) = <[k := m !!! k ++ vs]> m.
Proof.
  revert m. induction vs as [|v vs IH]; intros m; [done |]. intros _. simpl.
  destruct (decide (vs = [])) as [->|Hne]; [done |].
  rewrite IH by done. unfold add_pair, UserProperty_add. simpl.
  rewrite insert_insert_eq. f_equal.
  rewrite lookup_total_insert_eq, <- app_assoc. done.
Qed.

Lemma add_flat_pairs (l : list (rstring * list rstring)) (m : UserProperty) :
  NoDup l.*1 -> Forall (fun kv => kv.2 <> []) l -> (forall k, k ∈ l.*1 -> m !! k = None) ->
  foldl add_pair m (flat_pairs l) = list_to_map l ∪ m.
Proof.
  revert m. induction l as [|[k vs] l IH]; intros m Hnd Hne Hm.
  { simpl. by rewrite map_empty_union. }
  apply list.NoDup_cons in Hnd as [Hk Hnd]. apply Forall_cons_1 in Hne as [Hvs Hne]. simpl in *.
  unfold flat_pairs. simpl. rewrite foldl_app, add_pairs_of_key by done.
  assert (Hmk : m !! k = None) by (apply Hm; left).
  rewrite lookup_total_alt, Hmk. simpl. fold (flat_pairs l).
  rewrite IH; [| done | done |].
  - rewrite <- insert_union_r, insert_union_l; [done |].
    apply not_elem_of_list_to_map_1. done.
  - intros k' Hk'. rewrite lookup_insert_ne; [apply Hm; by right |]. by intros ->.
Qed.

(** A map without empty value lists, as [add] builds them, is recovered from
    its pairs whatever order the hash map lists its keys in. *)
Lemma add_pairs_of_map (m : UserProperty) :
  map_Forall (fun _ vs => vs <> []) m -> foldl add_pair ∅ (pairs m) = m.
Proof.
  intros Hm. unfold pairs. pose proof (hash_iter_perm m) as P.
  assert (Hnd : NoDup (hash_iter m).*1) by (rewrite P; apply NoDup_fst_map_to_list).
  rewrite add_flat_pairs; [| done | | by intros; apply lookup_empty].
  - rewrite map_union_empty, (list_to_map_proper _ _ Hnd P). apply list_to_map_to_list.
  - rewrite P. apply list.Forall_forall. intros [k vs] Hin%elem_of_map_to_list. by apply (Hm k).
Qed.

End user_property_facts.
