(* ===== verification/Macro.v ===== *)
(** * vaux-macro: the code the [packet], [Encode], [Decode] and size macros generate *)
(** The procedural macros turn a struct and its [#[codec(...)]] attributes into
    trait implementations.  Here a struct is described by the list of its fields
    in declaration order ([field]: type, accessors and attributes), and the
    generated code is the meaning of the description: [codec_size_of],
    [property_size_of], [property_encode_of], [encode_of] and [decode_of] follow
    the token streams of [lib.rs], [size.rs], [encode.rs] and [decode.rs] branch
    by branch.  The types the packets use are the ones covered: fixed-width
    integers, [bool], [String], [Vec<u8>], [Vec<T>], types with their own trait
    implementations, [Option]s of those, and [Option] fields with the three
    [*_with] attributes.

    [MacroFacts] proves, once for every struct, that the announced sizes are the
    encoded lengths and that decoding undoes encoding. *)

From S2P Require Import Prelude Bytes Codec Fixed Property.

(** ** Types of fields *)

(** What a type promises about its trait implementations: [type_ok] values are
    written as [type_bytes], and [type_exact] values are read back, with an
    exact byte count, into a default value. *)
Class CodecLaws (A : Type) `{Buf, Encode A, Decode A, Default A} := {
  type_ok : A -> Prop;
  type_exact : A -> Prop;
  type_bytes : A -> list Z;
  type_writes v : type_ok v -> writes (encode v) (type_bytes v);
  type_exact_ok v : type_exact v -> type_ok v;
  type_reads v : type_exact v -> reads (decode dflt) (type_bytes v) (v, len (type_bytes v));
  type_tame (v : A) : tame (decode v);
  type_eats (v : A) : eats (decode v);
}.

(** The size traits announce the encoded length, a property with its identifier. *)
Class SizeLaw (A : Type) `{CodecLaws A, CodecSize A} :=
  type_size v : type_ok v -> codec_size v = u32 (len (type_bytes v)).
Class PropertySizeLaw (A : Type) `{CodecLaws A, PropertyCodecSize A} :=
  type_property_size v : type_ok v -> property_size v = u32 (1 + len (type_bytes v)).

Section field_types.
Context {B : Buf} {HI : HashIter}.

Inductive sty : Type -> Type :=
| SU8 : sty Z
| SU16 : sty Z
| SU32 : sty Z
| SBool : sty bool
| SString : sty rstring
(** a type with its own trait implementations, outside the properties ... *)
| SType {A} `{Encode A, Decode A, Default A, CodecSize A, !CodecLaws A, !SizeLaw A} : sty A
(** ... and as a property, where the size is that of [PropertyCodecSize] *)
| SPropType {A} `{Encode A, Decode A, Default A, PropertyCodecSize A, !CodecLaws A,
                  !PropertySizeLaw A} : sty A.

(** The functions named by [size_with], [encode_with] and [decode_with]. *)
Record with_fns (A : Type) := WithFns {
  with_size : option A -> Z;
  with_encode : option A -> Codec unit;
  with_decode : Codec (option A * Z);
}.
#[global] Arguments WithFns {A}.
#[global] Arguments with_size {A}.
#[global] Arguments with_encode {A}.
#[global] Arguments with_decode {A}.

Inductive fty : Type -> Type :=
| Scalar {A} (t : sty A) : fty A
| Opt {A} (t : sty A) : fty (option A)
| VecU8 : fty (list Z)
| Vec {A} `{Encode A, Decode A, Default A, CodecSize A, !CodecLaws A, !SizeLaw A} : fty (list A)
| OptWith {A} (w : with_fns A) : fty (option A)
(** the complex type whose [Encode] writes the property identifiers itself *)
| Props : fty UserProperty.

(** [payload_type = "remaining"] and [payload_type = "field"]. *)
Inductive payload := PayloadRemaining | PayloadField.

Record field (S : Type) := Field {
  f_type : Type;
  f_ty : fty f_type;
  f_get : S -> f_type;
  f_set : f_type -> S -> S;
  f_property_type : option PropertyType;
  f_payload_type : option payload;
  f_skip_if : option (f_type -> bool);
  f_size_with : option (f_type -> Z);
  f_non_abbreviated : bool;
}.
#[global] Arguments Field {S f_type}.
#[global] Arguments f_type {S}.
#[global] Arguments f_ty {S}.
#[global] Arguments f_get {S}.
#[global] Arguments f_set {S}.
#[global] Arguments f_property_type {S}.
#[global] Arguments f_payload_type {S}.
#[global] Arguments f_skip_if {S}.
#[global] Arguments f_size_with {S}.
#[global] Arguments f_non_abbreviated {S}.

(** The attribute combinations of the packet structs. *)
Definition plain {S A} (t : fty A) (get : S -> A) `{!Setter get} : field S :=
  Field t get (fun v => set_field get (fun _ => v)) None None None None false.
Definition property {S A} (p : PropertyType) (t : fty A) (get : S -> A) `{!Setter get}
    : field S :=
  Field t get (fun v => set_field get (fun _ => v)) (Some p) None None None false.
Definition property_skip_if {S A} (p : PropertyType) (skip : A -> bool) (t : fty A)
    (get : S -> A) `{!Setter get} : field S :=
  Field t get (fun v => set_field get (fun _ => v)) (Some p) None (Some skip) None false.
Definition payload_field {S A} (t : fty A) (get : S -> A) `{!Setter get} : field S :=
  Field t get (fun v => set_field get (fun _ => v)) None (Some PayloadField) None None false.
Definition payload_field_skip_if {S A} (skip : A -> bool) (t : fty A) (get : S -> A)
    `{!Setter get} : field S :=
  Field t get (fun v => set_field get (fun _ => v)) None (Some PayloadField) (Some skip) None false.
Definition payload_remaining {S A} (t : fty A) (get : S -> A) `{!Setter get} : field S :=
  Field t get (fun v => set_field get (fun _ => v)) None (Some PayloadRemaining) None None false.
Definition payload_remaining_size_with {S A} (size : A -> Z) (t : fty A) (get : S -> A)
    `{!Setter get} : field S :=
  Field t get (fun v => set_field get (fun _ => v)) None (Some PayloadRemaining) None
    (Some size) false.
Definition non_abbreviated {S A} (t : fty A) (get : S -> A) `{!Setter get} : field S :=
  Field t get (fun v => set_field get (fun _ => v)) None None None None true.

(** [Vec::is_empty] and [String::is_empty]. *)
Definition is_empty {A} (l : list A) : bool := match l with [] => true | _ => false end.

(** A struct with its attributes; fields marked [skip] are left out of the
    list, [as_packet] is the fixed header of a packet struct. *)
Record struct (S : Type) := Struct {
  s_fields : list (field S);
  s_as_packet : option (S -> FixedHeader);
  s_abbreviated_when : option (S -> bool);
  s_min_decode : option Z;
}.
#[global] Arguments Struct {S}.
#[global] Arguments s_fields {S}.
#[global] Arguments s_as_packet {S}.
#[global] Arguments s_abbreviated_when {S}.
#[global] Arguments s_min_decode {S}.

Section macro.
Context {S : Type}.
Implicit Types (f : field S) (s : S).

Definition is_property_field f : bool := bool_decide (is_Some (f_property_type f)).
Definition is_payload_field f : bool := bool_decide (is_Some (f_payload_type f)).
Definition is_header_field f : bool := negb (is_property_field f) && negb (is_payload_field f).

Definition has_properties (fs : list (field S)) : bool := existsb is_property_field fs.

(** [if !skip_if(&self.field)]. *)
Definition skipped f s : bool :=
  match f_skip_if f with Some g => g (f_get f s) | None => false end.

(** *** Sizes: size.rs, [derive_codec_size], [derive_codec_property_size] *)

(** [size_for_primitive_internal], [size_for_string] and, for types with their
    own implementation, [size_for_codec_size]; a property adds its identifier. *)
Definition sty_size (is_property : bool) {A} (t : sty A) : A -> Z :=
  let ident := if is_property then 1 else 0 in
  match t with
  | SU8 => fun _ => ident + 1
  | SU16 => fun _ => ident + 2
  | SU32 => fun _ => ident + 4
  | SBool => fun _ => ident + 1
  | SString => fun v => add_u32 ident (add_u32 (u32 (len v)) 2)
  | SType => fun v => codec_size v
  | SPropType => fun v => property_size v
  end.

Definition sum_u32 (l : list Z) : Z := foldl add_u32 0 l.

(** [field_size]: what a field adds to [total_size] or [property_size]. *)
Definition field_size f s : Z :=
  let is_property := is_property_field f in
  let ident := if is_property then 1 else 0 in
  match f_size_with f with
  | Some size => add_u32 ident (size (f_get f s))
  | None =>
      match f_ty f in fty A return A -> Z with
      | Scalar t => sty_size is_property t
      | Opt t => fun o => match o with Some v => sty_size is_property t v | None => 0 end
      | VecU8 => fun v =>
          if bool_decide (v = []) then 0 else add_u32 ident (add_u32 2 (u32 (len v)))
      | Vec => fun v =>
          if bool_decide (v = []) then 0
          else sum_u32 ((fun item => add_u32 ident (codec_size item)) <$> v)
      | OptWith w => fun o =>
          match o with Some _ => add_u32 ident (with_size w o) | None => 0 end
      | Props => fun m => property_size m
      end (f_get f s)
  end.

Definition add_field_size s (size : Z) f : Z :=
  if skipped f s then size else add_u32 size (field_size f s).

Definition sizes_of (fs : list (field S)) s (size : Z) : Z := foldl (add_field_size s) size fs.

Definition property_size_of (fs : list (field S)) s : Z :=
  sizes_of (List.filter is_property_field fs) s 0.

(** The size loop treats payload fields as header fields. *)
Definition codec_size_of (d : struct S) s : Z :=
  let fs := List.filter (fun f => negb (is_property_field f)) (s_fields d) in
  let total_size := sizes_of (List.filter (fun f => negb (f_non_abbreviated f)) fs) s 0 in
  let rest := List.filter f_non_abbreviated fs in
  if has_properties (s_fields d) then
    let full :=
      let total_size := sizes_of rest s total_size in
      let property_size := property_size_of (s_fields d) s in
      add_u32 (add_u32 total_size property_size) (variable_byte_int_size property_size) in
    match s_abbreviated_when d with
    | Some abbreviated => if abbreviated s : bool then total_size else full
    | None => full
    end
  else sizes_of rest s total_size.

(** *** Encoding: encode.rs *)

(** [encode_for_primitive], [encode_for_string], or the type's own [encode]. *)
Definition sty_encode {A} (t : sty A) : A -> Codec unit :=
  match t with
  | SU8 => fun v => put_u8 v
  | SU16 => fun v => put_u16 v
  | SU32 => fun v => put_u32 v
  | SBool => fun v => put_u8 (if v then 1 else 0)
  | SString => fun v => encode_string v
  | SType => fun v => encode v
  | SPropType => fun v => encode v
  end.

Definition prop_ident_encode f : Codec unit :=
  match f_property_type f with
  | Some p => put_u8 (PropertyType_as_u8 p)
  | None => mret tt
  end.

Fixpoint encode_each {A} (enc : A -> Codec unit) (l : list A) : Codec unit :=
  match l with
  | [] => mret tt
  | item :: l => enc item ≫= fun _ => encode_each enc l
  end.

(** [encode_field].  A plain field of a type with its own [encode] is written
    without an identifier, also as a property. *)
Definition encode_field f s : Codec unit :=
  match f_ty f in fty A return A -> Codec unit with
  | Scalar t =>
      match t in sty A return A -> Codec unit with
      | SType => fun v => encode v
      | SPropType => fun v => encode v
      | t => fun v => prop_ident_encode f ≫= fun _ => sty_encode t v
      end
  | Opt t => fun o =>
      match o with
      | Some v => prop_ident_encode f ≫= fun _ => sty_encode t v
      | None => mret tt
      end
  | VecU8 => fun v => prop_ident_encode f ≫= fun _ => encode_array_field v
  | Vec => fun v => encode_each (fun item => prop_ident_encode f ≫= fun _ => encode item) v
  | OptWith w => fun o =>
      match o with
      | Some _ => prop_ident_encode f ≫= fun _ => with_encode w o
      | None => mret tt
      end
  | Props => fun m => encode m
  end (f_get f s).

Definition encode_unskipped s f : Codec unit :=
  if skipped f s then mret tt else encode_field f s.

Definition encode_fields (fs : list (field S)) s : Codec unit :=
  encode_each (encode_unskipped s) fs.

(** [property_encode_internal]. *)
Definition property_encode_of (fs : list (field S)) s : Codec unit :=
  if has_properties fs then
    encode_variable_byte_int (property_size_of fs s) ≫= fun _ =>
    encode_fields (List.filter is_property_field fs) s
  else mret tt.

(** [encode_internal] after the packet header. *)
Definition encode_body_of (d : struct S) s : Codec unit :=
  let header := List.filter is_header_field (s_fields d) in
  encode_fields (List.filter (fun f => negb (f_non_abbreviated f)) header) s ≫= fun _ =>
  if match s_abbreviated_when d with Some a => a s | None => false end then mret tt
  else
    encode_fields (List.filter f_non_abbreviated header) s ≫= fun _ =>
    property_encode_of (s_fields d) s ≫= fun _ =>
    encode_fields (List.filter is_payload_field (s_fields d)) s.

(** [encode_internal]. *)
Definition encode_of (d : struct S) s : Codec unit :=
  match s_as_packet d with
  | Some fixed_header =>
      FixedHeader_encode (fixed_header s) ≫= fun _ =>
      encode_variable_byte_int (codec_size_of d s) ≫= fun _ =>
      encode_body_of d s
  | None => encode_body_of d s
  end.

(** *** Decoding: decode.rs *)

(** The locals of a generated [decode]: [self] and the two byte counts. *)
Record dstate := DState { d_self : S; d_bytes_read : Z; d_property_bytes_read : Z }.

Definition count_read (as_property : bool) (n : Z) (st : dstate) : dstate :=
  if as_property then DState (d_self st) (d_bytes_read st) (d_property_bytes_read st + n)
  else DState (d_self st) (d_bytes_read st + n) (d_property_bytes_read st).

Definition set_self (f : S -> S) (st : dstate) : dstate :=
  DState (f (d_self st)) (d_bytes_read st) (d_property_bytes_read st).

(** The [Decode] implementation of a scalar type, through which every [Option]
    field goes ([decode_for_type]: the outer type name is ["Option"]). *)
Definition sty_trait_decode {A} (t : sty A) : A -> Codec (A * Z) :=
  match t with
  | SU8 => u8_decode
  | SU16 => u16_decode
  | SU32 => u32_decode
  | SBool => bool_decode
  | SString => String_decode
  | SType => fun v => decode v
  | SPropType => fun v => decode v
  end.

Definition sty_default {A} (t : sty A) : A :=
  match t with
  | SU8 | SU16 | SU32 => 0
  | SBool => false
  | SString => []
  | SType => dflt
  | SPropType => dflt
  end.

(** [decode_for_primitive] reads a plain [bool] as [get_u8() != 0]. *)
Definition sty_plain_decode {A} (t : sty A) : A -> Codec (A * Z) :=
  match t with
  | SBool => fun _ => b ← get_u8; mret (negb (b =? 0), 1)
  | t => sty_trait_decode t
  end.

(** [decode_field]: [decode_for_vec] counts into [bytes_read] whatever the
    field is. *)
Definition decode_field f (st : dstate) : Codec dstate :=
  let is_property := is_property_field f in
  let assign (as_property : bool) (v : f_type f) (n : Z) : dstate :=
    count_read as_property n (set_self (f_set f v) st) in
  match f_ty f in fty A return A -> (bool -> A -> Z -> dstate) -> Codec dstate with
  | Scalar t => fun self assign =>
      '(v, n) ← sty_plain_decode t self; mret (assign is_property v n)
  | Opt t => fun _ assign =>
      '(v, n) ← sty_trait_decode t (sty_default t); mret (assign is_property (Some v) n)
  | VecU8 => fun _ assign =>
      '(v, n) ← VecU8_decode []; mret (assign false v n)
  | Vec => fun _ assign =>
      '(v, n) ← decode_items (decode dflt) []; mret (assign false v n)
  | OptWith w => fun _ assign =>
      '(v, n) ← with_decode w; mret (assign is_property v n)
  | Props => fun self assign =>
      '(v, n) ← decode self; mret (assign is_property v n)
  end (f_get f (d_self st)) assign.

Fixpoint decode_fields (fs : list (field S)) (st : dstate) : Codec dstate :=
  match fs with
  | [] => mret st
  | f :: fs => st ← decode_field f st; decode_fields fs st
  end.

(** The [match property_type] of the property loop: an arm for each property
    field, an error for the other properties. *)
Definition decode_property (fs : list (field S)) (p : PropertyType) (st : dstate)
    : Codec dstate :=
  match list_find (fun f => f_property_type f = Some p) fs with
  | Some (_, f) => decode_field f st
  | None => raise (new_with_kind (UnsupportedProperty (PropertyType_as_u8 p)))
  end.

(** [while property_bytes_read < property_length]: every round takes the
    identifier, so one more than the buffer length is enough fuel. *)
Fixpoint property_loop (fuel : nat) (arm : PropertyType -> dstate -> Codec dstate)
    (property_length : Z) (st : dstate) : Codec dstate :=
  if d_property_bytes_read st <? property_length then
    match fuel with
    | O => no_fuel
    | Datatypes.S fuel =>
        b ← get_u8;
        p ← lift (PropertyType_try_from b);
        st ← arm p (count_read true 1 st);
        property_loop fuel arm property_length st
    end
  else mret st.

(** The property section, the same code in the generated and in the two
    hand-written decoders. *)
Definition decode_properties (arm : PropertyType -> dstate -> Codec dstate) (st : dstate)
    : Codec dstate :=
  '(property_length, var_bytes_read) ← decode_variable_byte_int;
  b ← get;
  st ← property_loop (Datatypes.S (length b)) arm property_length
         (DState (d_self st) (d_bytes_read st + var_bytes_read) 0);
  mret (DState (d_self st) (d_bytes_read st + d_property_bytes_read st)
          (d_property_bytes_read st)).

(** [min_size_check]: [true] stands for the early [return Ok(bytes_read)]. *)
Definition min_size_check (min_decode : option Z) (bytes_read : Z) : Codec bool :=
  match min_decode with
  | None => mret false
  | Some min_size =>
      let required_remaining := if bytes_read <? min_size then min_size - bytes_read else 0 in
      rem ← remaining;
      if rem <? required_remaining then
        raise (new_with_kind (InsufficientData required_remaining rem))
      else mret ((rem =? 0) && (bytes_read =? min_size))
  end.

Definition is_field_payload f : bool :=
  match f_payload_type f with Some PayloadField => true | _ => false end.
Definition is_remaining_payload f : bool :=
  match f_payload_type f with Some PayloadRemaining => true | _ => false end.

(** [decode_internal]. *)
Definition decode_of (d : struct S) (self : S) : Codec (S * Z) :=
  let fs := s_fields d in
  let header := List.filter is_header_field fs in
  let done (st : dstate) : Codec (S * Z) := mret (d_self st, d_bytes_read st) in
  let st := DState self 0 0 in
  stop ← min_size_check (s_min_decode d) (d_bytes_read st);
  if stop : bool then done st
  else
    st ← decode_fields (List.filter (fun f => negb (f_non_abbreviated f)) header) st;
    more ← has_remaining;
    if bool_decide (is_Some (s_abbreviated_when d)) && negb more then done st
    else
      st ← decode_fields (List.filter f_non_abbreviated header) st;
      stop ← min_size_check (s_min_decode d) (d_bytes_read st);
      if stop : bool then done st
      else
        st ← (if has_properties fs then decode_properties (decode_property fs) st else mret st);
        st ← decode_fields (List.filter is_field_payload fs) st;
        st ← decode_fields (List.filter is_remaining_payload fs) st;
        done st.

(** The [new_with_fixed_header] the [packet] macro generates. *)
Definition packet_new_with_fixed_header (packet_type' : PacketType)
    (fixed_header : S -> FixedHeader) `{!Setter fixed_header} (default : S) (h : FixedHeader)
    : outcome MqttCodecError S :=
  if bool_decide (packet_type h = packet_type') then Ok (default <| fixed_header := h |>)
  else Err MqttCodecError_new.
End macro.
End field_types.

#[global] Arguments dstate S : clear implicits.
#[global] Arguments DState {S}.
