(* ===== verification/MacroFacts.v ===== *)
(** * Correctness of the generated codecs *)
(** For every struct description: what [encode_of] writes, that [codec_size_of]
    and [property_size_of] announce exactly that many bytes, that [decode_of]
    rebuilds the value, and that decoding terminates on every input.  The
    packets of vaux-mqtt instantiate these theorems. *)

From S2P Require Import Prelude Bytes Codec Fixed Property Macro.

Section wire.
Context {B : Buf} {HI : HashIter} {S : Type}.
Implicit Types (f : field S) (fs : list (field S)) (s x : S) (d : struct S).

(** ** The bytes of a field *)

Definition sty_ok (is_property : bool) {A} (t : sty A) : A -> Prop :=
  match t with
  | SU8 => is_u8
  | SU16 => is_u16
  | SU32 => is_u32
  | SBool => fun _ => True
  | SString => mqtt_string
  | SType => fun v => is_property = false /\ type_ok v
  | SPropType => fun v => is_property = true /\ type_ok v
  end.

Definition sty_bytes {A} (t : sty A) : A -> list Z :=
  match t with
  | SU8 => fun v => [v]
  | SU16 => be16
  | SU32 => be32
  | SBool => fun v => [bool_byte v]
  | SString => prefixed
  | SType => type_bytes
  | SPropType => type_bytes
  end.

Definition ident f : list Z :=
  match f_property_type f with Some p => [PropertyType_as_u8 p] | None => [] end.

(** The output of an encoder on an empty buffer. *)
Definition bytes_of (m : Codec unit) : list Z := (m []).2.

Lemma bytes_of_writes (m : Codec unit) bs : writes m bs -> bytes_of m = bs.
Proof. intros H. unfold bytes_of. by rewrite H. Qed.

Definition field_bytes f s : list Z :=
  match f_ty f in fty A return A -> list Z with
  | Scalar t =>
      match t in sty A return A -> list Z with
      | SType => type_bytes
      | SPropType => type_bytes
      | t => fun v => ident f ++ sty_bytes t v
      end
  | Opt t => fun o => match o with Some v => ident f ++ sty_bytes t v | None => [] end
  | VecU8 => fun v => ident f ++ prefixed v
  | Vec => fun v => concat ((fun item => ident f ++ type_bytes item) <$> v)
  | OptWith w => fun o =>
      match o with Some _ => ident f ++ bytes_of (with_encode w o) | None => [] end
  | Props => fun m => concat (pair_bytes <$> pairs m)
  end (f_get f s).

(** The values of a field that fit the wire format. *)
Definition field_ok f s : Prop :=
  match f_size_with f with
  | Some size =>
      (if is_property_field f then False else size (f_get f s) = u32 (len (field_bytes f s)))
  | None => True
  end /\
  match f_ty f in fty A return A -> Prop with
  | Scalar t =>
      match t in sty A return A -> Prop with
      | SPropType => fun _ => False
      | t => sty_ok (is_property_field f) t
      end
  | Opt t => fun o => match o with Some v => sty_ok (is_property_field f) t v | None => True end
  | VecU8 => fun v => v <> [] /\ len v <= u16_max
  | Vec => Forall type_ok
  | OptWith w => fun o =>
      match o with
      | Some _ => writes (with_encode w o) (bytes_of (with_encode w o))
                  /\ with_size w o = u32 (len (bytes_of (with_encode w o)))
      | None => True
      end
  | Props => fun m => Forall pair_ok (pairs m)
  end (f_get f s).

Definition unskipped_ok s f : Prop := skipped f s = true \/ field_ok f s.
Definition unskipped_bytes s f : list Z := if skipped f s then [] else field_bytes f s.
Definition fields_bytes fs s : list Z := concat (unskipped_bytes s <$> fs).

Lemma len_ident f : len (ident f) = if is_property_field f then 1 else 0.
Proof. unfold ident, is_property_field. by destruct (f_property_type f). Qed.

Lemma writes_ident f : writes (prop_ident_encode f) (ident f).
Proof.
  unfold prop_ident_encode, ident. destruct (f_property_type f); [apply writes_put_u8 | apply writes_ret].
Qed.

Lemma writes_sty is_property {A} (t : sty A) v :
  sty_ok is_property t v -> writes (sty_encode t v) (sty_bytes t v).
Proof.
  destruct t; simpl; intros Hok.
  - apply writes_put_u8.
  - apply writes_put_u16.
  - apply writes_put_u32.
  - apply writes_put_u8.
  - apply writes_string, Hok.
  - apply type_writes, Hok.
  - apply type_writes, Hok.
Qed.

Lemma size_sty (is_property : bool) {A} (t : sty A) v :
  sty_ok is_property t v ->
  sty_size is_property t v = u32 ((if is_property then 1 else 0) + len (sty_bytes t v)).
Proof.
  destruct t; cbn [sty_ok sty_size sty_bytes]; try (by destruct is_property).
  - intros _. rewrite len_prefixed, add_u32_u32_l, add_u32_u32_r. f_equal. lia.
  - intros [-> Hv]. by apply type_size.
  - intros [-> Hv]. by apply type_property_size.
Qed.

Lemma writes_each {A} (enc : A -> Codec unit) (bs : A -> list Z) l :
  Forall (fun a => writes (enc a) (bs a)) l ->
  writes (encode_each enc l) (concat (bs <$> l)).
Proof.
  induction 1 as [|a l Ha _ IH]; [apply writes_ret |]. simpl. by apply writes_bind.
Qed.

Lemma sum_u32_len {A} (g : A -> Z) (bs : A -> list Z) l n :
  Forall (fun a => g a = u32 (len (bs a))) l ->
  foldl add_u32 (u32 n) (g <$> l) = u32 (n + len (concat (bs <$> l))).
Proof.
  intros H. revert n. induction H as [|a l Ha _ IH]; intros n.
  - simpl. by rewrite Z.add_0_r.
  - rewrite !fmap_cons. cbn [foldl concat]. rewrite len_app, Ha.
    rewrite add_u32_u32_l, u32_u32_r, IH. f_equal. lia.
Qed.

Lemma writes_field f s : field_ok f s -> writes (encode_field f s) (field_bytes f s).
Proof.
  unfold field_ok, encode_field, field_bytes. intros [_ Hok].
  generalize dependent (f_get f s). destruct (f_ty f) as [A t|A t| |A| A w|]; intros v Hok.
  - destruct t; try (apply writes_bind; [apply writes_ident | by eapply writes_sty]); try done.
    apply type_writes, Hok.
  - destruct v; [| apply writes_ret]. apply writes_bind; [apply writes_ident |].
    by eapply writes_sty.
  - apply writes_bind; [apply writes_ident | apply writes_array, Hok].
  - apply writes_each. eapply Forall_impl; [| exact Hok]. intros a Ha.
    apply writes_bind; [apply writes_ident | by apply type_writes].
  - destruct v; [| apply writes_ret]. apply writes_bind; [apply writes_ident | apply Hok].
  - by apply writes_pairs.
Qed.

Lemma size_field f s : field_ok f s -> field_size f s = u32 (len (field_bytes f s)).
Proof.
  unfold field_ok, field_size. intros [Hw Hok].
  destruct (f_size_with f) as [g|].
  { destruct (is_property_field f); [done |]. rewrite Hw. by rewrite add_u32_u32_r. }
  clear Hw. unfold field_bytes. pose proof (len_ident f) as Hi.
  generalize dependent (f_get f s). destruct (f_ty f) as [A t|A t| |A| A w|]; intros v Hok.
  - destruct t; try (rewrite len_app, Hi; by apply size_sty); try done.
    apply type_size, Hok.
  - destruct v; [| done]. rewrite len_app, Hi. by apply size_sty.
  - rewrite bool_decide_false by apply Hok. rewrite len_app, Hi, len_prefixed.
    by rewrite !add_u32_u32_r.
  - case_bool_decide as Hv; [by subst |]. unfold sum_u32.
    rewrite (sum_u32_len _ (fun item => ident f ++ type_bytes item) _ 0); [done |].
    eapply Forall_impl; [| exact Hok]. intros a Ha. simpl.
    by rewrite (type_size a Ha), add_u32_u32_r, len_app, Hi.
  - destruct v; [| done]. rewrite len_app, Hi. destruct Hok as [_ ->]. by rewrite add_u32_u32_r.
  - apply UserProperty_size.
Qed.

Lemma writes_fields fs s :
  Forall (unskipped_ok s) fs -> writes (encode_fields fs s) (fields_bytes fs s).
Proof.
  intros H. apply writes_each. eapply Forall_impl; [| exact H]. intros f Hf.
  unfold encode_unskipped, unskipped_bytes. destruct (skipped f s) eqn:E; [apply writes_ret |].
  destruct Hf as [|Hf]; [congruence | by apply writes_field].
Qed.

Lemma sizes_fields fs s n :
  Forall (unskipped_ok s) fs -> sizes_of fs s (u32 n) = u32 (n + len (fields_bytes fs s)).
Proof.
  intros H. revert n. induction H as [|f fs Hf _ IH]; intros n.
  - simpl. by rewrite Z.add_0_r.
  - unfold sizes_of, fields_bytes in *. rewrite fmap_cons. cbn [foldl concat].
    unfold add_field_size at 2, unskipped_bytes at 1.
    destruct (skipped f s) eqn:E; [apply IH |].
    destruct Hf as [|Hf]; [congruence |].
    rewrite (size_field _ _ Hf), add_u32_u32_l, u32_u32_r, IH, len_app. f_equal. lia.
Qed.

(** ** The bytes of a struct *)

Definition abbreviated d s : bool :=
  match s_abbreviated_when d with Some a => a s | None => false end.

Definition property_bytes fs s : list Z := fields_bytes (List.filter is_property_field fs) s.

Definition property_section fs s : list Z :=
  if has_properties fs then vbi (len (property_bytes fs s)) ++ property_bytes fs s else [].

Definition header_fields d : list (field S) := List.filter is_header_field (s_fields d).
Definition short_header d : list (field S) :=
  List.filter (fun f => negb (f_non_abbreviated f)) (header_fields d).
Definition rest_header d : list (field S) := List.filter f_non_abbreviated (header_fields d).
Definition payload_fields d : list (field S) := List.filter is_payload_field (s_fields d).

Definition body_bytes d s : list Z :=
  fields_bytes (short_header d) s ++
  if abbreviated d s then []
  else fields_bytes (rest_header d) s ++ property_section (s_fields d) s
       ++ fields_bytes (payload_fields d) s.

(** What a struct declaration must satisfy for the size loop, which does not
    separate payload from header, to agree with the encoder: a field is not
    both payload and property or deferred, and a struct with an abbreviated
    form has properties and no payload. *)
Definition well_formed d : bool :=
  forallb (fun f => negb (is_payload_field f && (is_property_field f || f_non_abbreviated f)))
    (s_fields d)
  && match s_abbreviated_when d with
     | Some _ => has_properties (s_fields d) && forallb (fun f => negb (is_payload_field f)) (s_fields d)
     | None => true
     end.

Definition struct_ok d s : Prop :=
  Forall (unskipped_ok s) (s_fields d)
  /\ len (property_bytes (s_fields d) s) <= MAX_VARIABLE_BYTE_INT.

Lemma fields_bytes_app fs1 fs2 s :
  fields_bytes (fs1 ++ fs2) s = fields_bytes fs1 s ++ fields_bytes fs2 s.
Proof. unfold fields_bytes. by rewrite fmap_app, concat_app. Qed.

Lemma fields_bytes_perm_len fs1 fs2 s :
  fs1 ≡ₚ fs2 -> len (fields_bytes fs1 s) = len (fields_bytes fs2 s).
Proof.
  induction 1; unfold fields_bytes in *; rewrite ?fmap_cons in *; cbn [concat] in *;
    rewrite ?len_app in *; lia.
Qed.

Lemma filter_ok (P : field S -> bool) fs s :
  Forall (unskipped_ok s) fs -> Forall (unskipped_ok s) (List.filter P fs).
Proof. induction 1; simpl; [done |]. destruct (P x); [by constructor | done]. Qed.

Lemma property_size_of_ok d s :
  struct_ok d s -> property_size_of (s_fields d) s = len (property_bytes (s_fields d) s).
Proof.
  intros [H Hl]. unfold property_size_of. change 0 with (u32 0).
  rewrite sizes_fields by by apply filter_ok. apply u32_small.
  unfold MAX_VARIABLE_BYTE_INT, property_bytes in *. simpl. lia.
Qed.

(** The size loop visits the short header and the payload together. *)
Lemma short_fields_perm d :
  well_formed d = true ->
  List.filter (fun f => negb (f_non_abbreviated f))
    (List.filter (fun f => negb (is_property_field f)) (s_fields d))
  ≡ₚ short_header d ++ payload_fields d
  /\ List.filter f_non_abbreviated (List.filter (fun f => negb (is_property_field f)) (s_fields d))
     = rest_header d.
Proof.
  intros [Hw _]%andb_prop. unfold short_header, rest_header, header_fields, payload_fields.
  induction (s_fields d) as [|f fs IH]; [done |].
  simpl in Hw. apply andb_prop in Hw as [Hf Hw]. destruct (IH Hw) as [IH1 IH2].
  simpl. assert (Hh : is_header_field f = negb (is_property_field f) && negb (is_payload_field f))
    by done. rewrite !Hh. clear Hh.
  destruct (is_property_field f), (is_payload_field f); simpl in *;
    destruct (f_non_abbreviated f); simpl in *; try done; split;
    rewrite ?IH1, ?IH2; try done. apply Permutation_middle.
Qed.

Lemma payload_fields_nil d :
  forallb (fun f => negb (is_payload_field f)) (s_fields d) = true -> payload_fields d = [].
Proof.
  unfold payload_fields. induction (s_fields d) as [|f fs IH]; [done |]. simpl.
  by destruct (is_payload_field f).
Qed.

Lemma property_section_len d s :
  struct_ok d s ->
  len (property_section (s_fields d) s)
  = if has_properties (s_fields d)
    then len (property_bytes (s_fields d) s)
         + variable_byte_int_size (len (property_bytes (s_fields d) s))
    else 0.
Proof.
  intros [_ Hl]. unfold property_section. destruct (has_properties _); [| done].
  rewrite len_app, len_vbi by lia. lia.
Qed.

(** The announced size is the number of bytes of the body. *)
Lemma codec_size_of_ok d s :
  well_formed d = true -> struct_ok d s -> codec_size_of d s = u32 (len (body_bytes d s)).
Proof.
  intros Hw Hok. pose proof Hok as [Hf _].
  destruct (short_fields_perm d Hw) as [P1 P2].
  pose proof (property_section_len d s Hok) as Hp.
  pose proof (property_size_of_ok d s Hok) as Hps.
  unfold codec_size_of, body_bytes, abbreviated. rewrite P2.
  change 0 with (u32 0). rewrite sizes_fields by by apply filter_ok, filter_ok.
  rewrite (fields_bytes_perm_len _ _ s P1), fields_bytes_app, len_app.
  apply andb_prop in Hw as [_ Hw].
  destruct (s_abbreviated_when d) as [a|].
  - apply andb_prop in Hw as [Hw1 Hw2]. rewrite Hw1 in *.
    rewrite (payload_fields_nil d Hw2). destruct (a s).
    { rewrite app_nil_r. simpl. f_equal. lia. }
    rewrite sizes_fields by by apply filter_ok, filter_ok.
    rewrite !add_u32_u32_l, Hps, !len_app, Hp. f_equal. simpl. lia.
  - rewrite sizes_fields by by apply filter_ok, filter_ok.
    destruct (has_properties _).
    + rewrite !add_u32_u32_l, Hps, !len_app, Hp. f_equal. lia.
    + rewrite !len_app, Hp. f_equal. lia.
Qed.

(** ** What the generated encoder writes *)

Lemma writes_property_section d s :
  struct_ok d s ->
  writes (property_encode_of (s_fields d) s) (property_section (s_fields d) s).
Proof.
  intros Hok. pose proof (property_size_of_ok d s Hok) as Hps. destruct Hok as [Hf Hl].
  unfold property_encode_of, property_section. destruct (has_properties _); [| apply writes_ret].
  rewrite Hps. apply writes_bind; [| by apply writes_fields, filter_ok].
  apply writes_vbi. unfold is_u32, MAX_VARIABLE_BYTE_INT in *. lia.
Qed.

Lemma writes_body d s :
  struct_ok d s -> writes (encode_body_of d s) (body_bytes d s).
Proof.
  intros Hok. pose proof Hok as [Hf _]. unfold encode_body_of, body_bytes.
  apply writes_bind; [by apply writes_fields, filter_ok, filter_ok |].
  fold (abbreviated d s). destruct (abbreviated d s); [apply writes_ret |].
  apply writes_bind; [by apply writes_fields, filter_ok, filter_ok |].
  apply writes_bind; [by apply writes_property_section | by apply writes_fields, filter_ok].
Qed.

(** A packet: fixed header, remaining length, body. *)
Definition packet_bytes (h : FixedHeader) (body : list Z) : list Z :=
  [header_byte h] ++ vbi (len body) ++ body.

Lemma writes_packet d s header :
  s_as_packet d = Some header -> well_formed d = true -> struct_ok d s ->
  len (body_bytes d s) <= MAX_VARIABLE_BYTE_INT ->
  writes (encode_of d s) (packet_bytes (header s) (body_bytes d s)).
Proof.
  intros Hp Hw Hok Hl. unfold encode_of, packet_bytes. rewrite Hp, codec_size_of_ok by done.
  unfold MAX_VARIABLE_BYTE_INT in Hl. rewrite u32_small by lia.
  apply writes_bind; [apply writes_header |].
  apply writes_bind; [| by apply writes_body]. apply writes_vbi. unfold is_u32. lia.
Qed.
End wire.

(** ** The property loop *)

(** A property as it appears on the wire: the bytes after its identifier, what
    reading it does to the struct, and by how much the decoder's count exceeds
    the bytes read. *)
Record item (S : Type) := Item {
  i_prop : PropertyType;
  i_bytes : list Z;
  i_excess : Z;
  i_update : S -> S;
}.
#[global] Arguments Item {S}.
#[global] Arguments i_prop {S}.
#[global] Arguments i_bytes {S}.
#[global] Arguments i_excess {S}.
#[global] Arguments i_update {S}.

(** A user property: the decoder counts four bytes too many. *)
Definition pair_item {S} (get : S -> UserProperty) (set : UserProperty -> S -> S)
    (kv : rstring * rstring) : item S :=
  Item PropertyType.UserProperty (prefixed kv.1 ++ prefixed kv.2) 4
    (fun x => set (UserProperty_add kv.1 kv.2 (get x)) x).

Definition i_wire {S} (it : item S) : list Z := PropertyType_as_u8 (i_prop it) :: i_bytes it.
Definition i_cost {S} (it : item S) : Z := len (i_wire it) + i_excess it.

Definition apply_items {S} (its : list (item S)) (x : S) : S :=
  foldl (fun x it => i_update it x) x its.
Definition items_cost {S} (its : list (item S)) : Z :=
  foldr (fun it n => i_cost it + n) 0 its.
Definition items_bytes {S} (its : list (item S)) : list Z := concat (i_wire <$> its).

(** The loop compares its count, excess included, with the announced length
    before every property: it reads all of them when no count reaches the
    length too early. *)
Fixpoint within_budget {S} (property_length count : Z) (its : list (item S)) : bool :=
  match its with
  | [] => property_length <=? count
  | it :: its =>
      (count <? property_length) && within_budget property_length (count + i_cost it) its
  end.

Section property_loop.
Context {B : Buf} {S : Type} (arm : PropertyType -> dstate S -> Codec (dstate S)).

Definition item_reads (it : item S) : Prop :=
  forall x br pr, reads (arm (i_prop it) (DState x br pr)) (i_bytes it)
    (DState (i_update it x) br (pr + len (i_bytes it) + i_excess it)).

Lemma property_loop_items its fuel L x br pr :
  Forall item_reads its -> within_budget L pr its = true -> (length its <= fuel)%nat ->
  reads (property_loop fuel arm L (DState x br pr)) (items_bytes its)
    (DState (apply_items its x) br (pr + items_cost its)).
Proof.
  intros Hi. revert fuel x pr. induction Hi as [|it its Hit _ IH]; intros fuel x pr Hb Hf t.
  - simpl in Hb. apply Z.leb_le in Hb. simpl. rewrite Z.add_0_r.
    destruct fuel; simpl; by rewrite (proj2 (Z.ltb_ge _ _)) by lia.
  - cbn [within_budget] in Hb. apply andb_prop in Hb as [Hlt Hb].
    destruct fuel as [|fuel]; [simpl in Hf; lia |].
    unfold items_bytes in *. rewrite fmap_cons. cbn [concat property_loop].
    cbn [d_property_bytes_read]. rewrite Hlt. unfold i_wire at 1.
    rewrite <- !app_assoc, <- app_comm_cons, bind_get_u8.
    rewrite (bind_lift_ok _ _ _ _ (PropertyType_try_from_as_u8 _)).
    cbn [count_read d_self d_bytes_read d_property_bytes_read].
    rewrite (bind_ok _ _ _ _ _ (Hit _ _ _ _)).
    replace (pr + 1 + len (i_bytes it) + i_excess it) with (pr + i_cost it)
      by (unfold i_cost, i_wire; simpl; lia).
    rewrite IH; [| done | simpl in Hf; lia].
    simpl. do 3 f_equal. lia.
Qed.

Lemma length_items_bytes (its : list (item S)) : (length its <= length (items_bytes its))%nat.
Proof.
  induction its as [|it its IH]; [done |]. unfold items_bytes in *. rewrite fmap_cons. simpl.
  rewrite length_app. simpl in *. lia.
Qed.

(** Reading the whole property section. *)
Lemma decode_properties_items its x br pr :
  Forall item_reads its -> len (items_bytes its) <= 2097151 ->
  within_budget (len (items_bytes its)) 0 its = true ->
  reads (decode_properties arm (DState x br pr)) (vbi (len (items_bytes its)) ++ items_bytes its)
    (DState (apply_items its x)
       (br + variable_byte_int_size (len (items_bytes its)) + items_cost its) (items_cost its)).
Proof.
  intros Hi Hl Hb t. unfold decode_properties. rewrite <- app_assoc.
  rewrite (bind_ok _ _ _ _ _ (reads_vbi (len (items_bytes its)) ltac:(lia) _)).
  rewrite bind_get. cbn [d_self d_bytes_read].
  assert (Hf : (length its <= Datatypes.S (length (items_bytes its ++ t)))%nat).
  { pose proof (length_items_bytes its). rewrite length_app. lia. }
  by rewrite (bind_ok _ _ _ _ _ (property_loop_items its _ _ _ _ _ Hi Hb Hf t)).
Qed.

(** The arms of the hand-written decoders: a value read through a trait
    implementation, or by a fixed-width reader. *)
Lemma item_reads_trait {A} p (dec : Codec (A * Z)) (g : A -> S -> S) bs v :
  (forall st, arm p st = ('(v, n) ← dec; mret (set_self (g v) (count_read true n st)))) ->
  reads dec bs (v, len bs) -> item_reads (Item p bs 0 (g v)).
Proof.
  intros Ha Hr x br pr. cbn [i_prop i_bytes i_excess i_update]. rewrite Ha, Z.add_0_r.
  eapply reads_bind_nil; [exact Hr | apply reads_ret].
Qed.

Lemma item_reads_get {A C} p (dec : Codec C) (c : C -> A) (g : A -> S -> S) bs v n :
  (forall st, arm p st = (v ← dec; mret (count_read true n (set_self (g (c v)) st)))) ->
  reads dec bs v -> n = len bs -> item_reads (Item p bs 0 (g (c v))).
Proof.
  intros Ha Hr -> x br pr. cbn [i_prop i_bytes i_excess i_update]. rewrite Ha, Z.add_0_r.
  eapply reads_bind_nil; [exact Hr | apply reads_ret].
Qed.

Lemma item_reads_pair `{HashIter} get set k v :
  (forall st, arm PropertyType.UserProperty st
   = ('(m, n) ← UserProperty_decode (get (d_self st));
      mret (set_self (set m) (count_read true n st)))) ->
  mqtt_string k -> mqtt_string v -> item_reads (pair_item get set (k, v)).
Proof.
  intros Ha Hk Hv x br pr. cbn [i_prop i_bytes i_excess i_update pair_item fst snd]. rewrite Ha.
  eapply reads_bind_nil; [by apply reads_pair |].
  rewrite <- Z.add_assoc. apply reads_ret.
Qed.

Lemma items_read_opt {A} (mk : A -> item S) (o : option A) :
  match o with Some v => item_reads (mk v) | None => True end ->
  Forall item_reads (match o with Some v => [mk v] | None => [] end).
Proof. destruct o; [intros; by apply Forall_singleton | constructor]. Qed.

(** When every count is exact, the loop reads everything. *)
Lemma within_budget_exact (its : list (item S)) L n :
  Forall (fun it => i_excess it = 0) its -> L = n + len (items_bytes its) ->
  within_budget L n its = true /\ items_cost its = len (items_bytes its).
Proof.
  intros H. revert n. induction H as [|it its Hit _ IH]; intros n HL.
  { split; [apply Z.leb_le; simpl in HL; lia | done]. }
  unfold items_bytes in *. rewrite fmap_cons in *. cbn [concat within_budget] in *.
  rewrite len_app in *.
  assert (i_cost it = len (i_wire it)) as Hc by (unfold i_cost; rewrite Hit; lia).
  assert (0 < len (i_wire it)) by (unfold i_wire; simpl; lia).
  destruct (IH (n + i_cost it)) as [IH1 IH2]; [lia |].
  rewrite IH1. split; [| change (items_cost (it :: its)) with (i_cost it + items_cost its); lia].
  rewrite andb_true_r. apply Z.ltb_lt. lia.
Qed.
End property_loop.

(** ** Decoding undoes encoding *)

Section decode_facts.
Context {B : Buf} {HI : HashIter} {S : Type}.
Implicit Types (f : field S) (fs : list (field S)) (s x : S) (d : struct S).

(** A field's accessors behave like those of a record field. *)
Record lawful f : Prop := {
  get_set v x : f_get f (f_set f v x) = v;
  set_get x : f_set f (f_get f x) x = x;
  set_set v w x : f_set f v (f_set f w x) = f_set f v x;
}.

Definition f_default f : f_type f :=
  match f_ty f in fty A return A with
  | Scalar t => sty_default t
  | Opt _ => None
  | VecU8 => []
  | Vec => []
  | OptWith _ => None
  | Props => ∅
  end.

(** Copying the fields [fs] of [s] into [x], each of them at its default
    before it is copied. *)
Definition copy_fields fs s x : S := foldl (fun x f => f_set f (f_get f s) x) x fs.

Fixpoint fresh fs s x : Prop :=
  match fs with
  | [] => True
  | f :: fs => f_get f x = f_default f /\ fresh fs s (f_set f (f_get f s) x)
  end.

Lemma copy_fields_app fs1 fs2 s x :
  copy_fields (fs1 ++ fs2) s x = copy_fields fs2 s (copy_fields fs1 s x).
Proof. apply foldl_app. Qed.

Lemma fresh_app fs1 fs2 s x :
  fresh (fs1 ++ fs2) s x <-> fresh fs1 s x /\ fresh fs2 s (copy_fields fs1 s x).
Proof. revert x. induction fs1 as [|f fs1 IH]; intros x; simpl; [tauto |]. rewrite IH. tauto. Qed.

(** Values that are read back exactly. *)
Definition sty_exact (is_property : bool) {A} (t : sty A) : A -> Prop :=
  match t with
  | SU8 => is_u8
  | SU16 => is_u16
  | SU32 => is_u32
  | SBool => fun _ => True
  | SString => mqtt_string
  | SType => fun v => is_property = false /\ type_exact v
  | SPropType => fun v => is_property = true /\ type_exact v
  end.

Lemma reads_sty (is_property : bool) {A} (t : sty A) v :
  sty_exact is_property t v ->
  reads (sty_trait_decode t (sty_default t)) (sty_bytes t v) (v, len (sty_bytes t v)).
Proof.
  destruct t; cbn [sty_exact sty_trait_decode sty_bytes sty_default]; intros Hv.
  - apply reads_u8.
  - by apply reads_u16.
  - by apply reads_u32.
  - apply reads_bool.
  - rewrite len_prefixed, Z.add_comm. by apply reads_string.
  - apply type_reads, Hv.
  - apply type_reads, Hv.
Qed.

Lemma reads_sty_plain (is_property : bool) {A} (t : sty A) v :
  sty_exact is_property t v ->
  reads (sty_plain_decode t (sty_default t)) (sty_bytes t v) (v, len (sty_bytes t v)).
Proof.
  intros Hv. destruct t; try by apply (reads_sty is_property).
  simpl. eapply reads_bind_nil; [apply reads_get_u8 |]. destruct v; apply reads_ret.
Qed.

(** *** Header fields *)

Definition header_exact s f : Prop :=
  f_property_type f = None /\ f_skip_if f = None /\
  match f_ty f in fty A return A -> Prop with
  | Scalar t => sty_exact false t
  | Opt t => fun o => match o with Some v => sty_exact false t v | None => False end
  | _ => fun _ => False
  end (f_get f s).

Lemma reads_header_field f s x br pr :
  header_exact s f -> f_get f x = f_default f ->
  reads (decode_field f (DState x br pr)) (unskipped_bytes s f)
    (DState (f_set f (f_get f s) x) (br + len (unskipped_bytes s f)) pr).
Proof.
  intros (Hp & Hs & H) Hd.
  assert (Hi : ident f = []) by (unfold ident; by rewrite Hp).
  unfold unskipped_bytes, skipped. rewrite Hs. unfold decode_field, field_bytes, is_property_field.
  cbn [d_self]. rewrite Hd. unfold f_default. rewrite Hp, Hi. clear Hd.
  rewrite bool_decide_false by (by intros []).
  generalize (f_set f). generalize dependent (f_get f s).
  destruct (f_ty f) as [A t|A t| |A| A w|]; intros v Hv set; try done.
  - assert (E : (match t in sty A return A -> list Z with
                 | SType => type_bytes | SPropType => type_bytes
                 | t => fun v => [] ++ sty_bytes t v end) v = sty_bytes t v) by by destruct t.
    rewrite E. eapply reads_bind_nil; [by apply (reads_sty_plain false) | apply reads_ret].
  - destruct v as [v|]; [| done].
    eapply reads_bind_nil; [by apply (reads_sty false) | apply reads_ret].
Qed.

Lemma reads_header_fields fs s x br pr :
  Forall (header_exact s) fs -> fresh fs s x ->
  reads (decode_fields fs (DState x br pr)) (fields_bytes fs s)
    (DState (copy_fields fs s x) (br + len (fields_bytes fs s)) pr).
Proof.
  intros H. revert x br. induction H as [|f fs Hf _ IH]; intros x br Hx.
  { simpl. rewrite Z.add_0_r. apply reads_ret. }
  destruct Hx as [Hd Hx]. unfold fields_bytes in *. rewrite fmap_cons. cbn [concat decode_fields].
  eapply reads_bind; [by apply reads_header_field |].
  rewrite len_app, Z.add_assoc. by apply IH.
Qed.

(** *** Properties *)

(** The properties a field contributes. *)
Definition field_items s f : list (item S) :=
  match f_property_type f with
  | None => []
  | Some p =>
      match f_ty f in fty A return (S -> A) -> (A -> S -> S) -> list (item S) with
      | Scalar t => fun get set => [Item p (sty_bytes t (get s)) 0 (set (get s))]
      | Opt t => fun get set =>
          match get s with Some v => [Item p (sty_bytes t v) 0 (set (Some v))] | None => [] end
      | OptWith w => fun get set =>
          match get s with
          | Some v => [Item p (bytes_of (with_encode w (Some v))) 0 (set (Some v))]
          | None => []
          end
      | VecU8 => fun get set =>
          if is_empty (get s) then [] else [Item p (prefixed (get s)) 0 (set (get s))]
      | Props => fun get set => pair_item get set <$> pairs (get s)
      | Vec => fun _ _ => []
      end (f_get f) (f_set f)
  end.

(** Property fields whose wire form is the concatenation of their items. *)
Definition property_regular s f : Prop :=
  match f_property_type f with
  | None => False
  | Some p =>
      match f_ty f in fty A return A -> (A -> bool) -> Prop with
      | Scalar t => fun v skip =>
          match t with SType => False | SPropType => False | _ => True end /\ skip v = false
      | Opt t => fun o skip => skip o = false
      | VecU8 => fun v skip => skip v = is_empty v
      | Vec => fun _ _ => False
      | OptWith w => fun o skip => skip o = false
      | Props => fun m skip =>
          p = PropertyType.UserProperty /\ skip m = false /\ map_Forall (fun _ vs => vs <> []) m
      end (f_get f s) (fun v => match f_skip_if f with Some g => g v | None => false end)
  end.

(** What the generated decoder reads back.  Binary properties are read back
    only when absent: it counts them in the wrong variable. *)
Definition property_exact s f : Prop :=
  property_regular s f /\
  match f_ty f in fty A return A -> Prop with
  | Scalar t => sty_exact true t
  | Opt t => fun o => match o with Some v => sty_exact true t v | None => True end
  | VecU8 => fun v => v = []
  | Vec => fun _ => False
  | OptWith w => fun o =>
      match o with
      | Some v =>
          let bs := bytes_of (with_encode w (Some v)) in
          reads (with_decode w) bs (Some v, len bs)
      | None => True
      end
  | Props => fun m => Forall pair_ok (pairs m)
  end (f_get f s).

Lemma items_bytes_app (its1 its2 : list (item S)) :
  items_bytes (its1 ++ its2) = items_bytes its1 ++ items_bytes its2.
Proof. unfold items_bytes. by rewrite fmap_app, concat_app. Qed.

Lemma field_items_bytes f s :
  property_regular s f -> items_bytes (field_items s f) = unskipped_bytes s f.
Proof.
  unfold property_regular, field_items, unskipped_bytes, skipped, field_bytes.
  destruct (f_property_type f) as [p|] eqn:Hp; [| done].
  assert (Hi : ident f = [PropertyType_as_u8 p]) by (unfold ident; by rewrite Hp). rewrite Hi.
  generalize (f_set f) (f_skip_if f). generalize (f_get f).
  destruct (f_ty f) as [A t|A t| |A| A w|]; intros get set skip; try done.
  - intros [Ht ->]. destruct t; try done; unfold items_bytes; simpl; by rewrite app_nil_r.
  - intros ->. destruct (get s); [| done]. unfold items_bytes. simpl. by rewrite app_nil_r.
  - intros ->. destruct (get s); [done |]. unfold items_bytes. simpl. by rewrite app_nil_r.
  - intros ->. destruct (get s); [| done]. unfold items_bytes. simpl. by rewrite app_nil_r.
  - intros (-> & -> & _). unfold items_bytes. by rewrite <- list_fmap_compose.
Qed.

Lemma apply_pair_items (l : list (rstring * rstring)) x (get : S -> UserProperty)
    (set : UserProperty -> S -> S) :
  (forall v x, get (set v x) = v) -> (forall v w x, set v (set w x) = set v x) ->
  (forall x, set (get x) x = x) ->
  apply_items (pair_item get set <$> l) x = set (foldl add_pair (get x) l) x.
Proof.
  intros Hgs Hss Hsg. revert x. induction l as [|kv l IH]; intros x; [by simpl |].
  rewrite fmap_cons. unfold apply_items in *. cbn [foldl pair_item i_update].
  by rewrite IH, Hgs, Hss.
Qed.

Lemma apply_field_items f s x :
  lawful f -> property_regular s f -> f_get f x = f_default f ->
  apply_items (field_items s f) x = f_set f (f_get f s) x.
Proof.
  intros [Hgs Hsg Hss]. unfold property_regular, field_items, f_default.
  destruct (f_property_type f) as [p|]; [| done].
  generalize dependent (f_skip_if f). generalize dependent (f_set f).
  generalize dependent (f_get f).
  destruct (f_ty f) as [A t|A t| |A| A w|]; intros get set Hgs Hsg Hss skip Hx Hd; try done.
  - destruct (get s); [done |]. simpl. by rewrite <- Hd, Hsg.
  - destruct (get s); [| done]. simpl. by rewrite <- Hd, Hsg.
  - destruct (get s); [done |]. simpl. by rewrite <- Hd, Hsg.
  - rewrite apply_pair_items by done. rewrite Hd, add_pairs_of_map; [done | apply Hx].
Qed.

Lemma reads_field_items f s x br pr :
  property_exact s f ->
  Forall (fun it => f_property_type f = Some (i_prop it)
    /\ reads (decode_field f (DState x br pr)) (i_bytes it)
         (DState (i_update it x) br (pr + len (i_bytes it) + i_excess it))) (field_items s f).
Proof.
  unfold property_exact, property_regular, field_items, decode_field, is_property_field.
  destruct (f_property_type f) as [p|]; [| by intros []]. rewrite bool_decide_true by done.
  generalize (f_skip_if f). generalize (f_set f). generalize (f_get f).
  destruct (f_ty f) as [A t|A t| |A| A w|]; intros get set skip [Hr Hx]; try done.
  - apply Forall_singleton. split; [done |]. cbn [i_bytes i_update i_excess].
    rewrite Z.add_0_r.
    assert (Hd : sty_plain_decode t (get x) = sty_plain_decode t (sty_default t))
      by (destruct Hr; by destruct t).
    cbn [d_self]. rewrite Hd. eapply reads_bind_nil; [by apply (reads_sty_plain true) | apply reads_ret].
  - destruct (get s) as [v|]; [| done].
    apply Forall_singleton. split; [done |]. cbn [i_bytes i_update i_excess]. rewrite Z.add_0_r.
    eapply reads_bind_nil; [by apply (reads_sty true) | apply reads_ret].
  - rewrite Hx. constructor.
  - destruct (get s) as [v|]; [| done].
    apply Forall_singleton. split; [done |]. cbn [i_bytes i_update i_excess]. rewrite Z.add_0_r.
    eapply reads_bind_nil; [exact Hx | apply reads_ret].
  - destruct Hr as [-> _]. apply Forall_fmap.
    eapply Forall_impl; [| exact Hx]. intros [k v] [Hk Hv]. split; [done |].
    eapply reads_bind_nil; [by apply reads_pair |].
    cbn [fst snd i_bytes i_excess i_update pair_item d_self]. rewrite <- Z.add_assoc.
    apply reads_ret.
Qed.

(** The arms of the property [match] are distinct. *)
Definition distinct_properties fs : bool := bool_decide (NoDup (omap f_property_type fs)).

Lemma decode_property_field fs f p st :
  distinct_properties fs = true -> f ∈ fs -> f_property_type f = Some p ->
  decode_property fs p st = decode_field f st.
Proof.
  intros Hd%bool_decide_eq_true_1 Hf Hp. unfold decode_property.
  assert (list_find (fun f => f_property_type f = Some p) fs ≫= (fun r => Some r.2) = Some f)
    as H.
  { induction fs as [|g fs IH]; [by apply not_elem_of_nil in Hf |].
    simpl. case_decide as Hg.
    - apply elem_of_cons in Hf as [->|Hf]; [done |]. exfalso.
      simpl in Hd. rewrite Hg in Hd. apply NoDup_cons_1_1 in Hd. apply Hd.
      apply list_elem_of_omap. by exists f.
    - apply elem_of_cons in Hf as [->|Hf]; [done |].
      assert (NoDup (omap f_property_type fs)) as Hd'.
      { simpl in Hd. destruct (f_property_type g); [by apply NoDup_cons_1_2 in Hd | done]. }
      specialize (IH Hd' Hf). destruct (list_find _ fs) as [[]|]; [done | done]. }
  destruct (list_find _ fs) as [[i g]|]; [| done]. by injection H as ->.
Qed.

Definition struct_items fs s : list (item S) :=
  concat (field_items s <$> List.filter is_property_field fs).

Lemma forall_filter (P : field S -> Prop) (q : field S -> bool) fs :
  Forall P fs -> Forall P (List.filter q fs).
Proof. induction 1; simpl; [done |]. destruct (q x); [by constructor | done]. Qed.

Lemma exact_regular fs s : Forall (property_exact s) fs -> Forall (property_regular s) fs.
Proof. apply Forall_impl. by intros f []. Qed.

Lemma struct_items_bytes fs s :
  Forall (property_regular s) (List.filter is_property_field fs) ->
  items_bytes (struct_items fs s) = property_bytes fs s.
Proof.
  unfold struct_items, property_bytes, fields_bytes. generalize (List.filter is_property_field fs).
  induction 1 as [|f l Hf _ IH]; [done |]. rewrite !fmap_cons. cbn [concat].
  by rewrite items_bytes_app, IH, field_items_bytes.
Qed.

Lemma apply_struct_items fs s x :
  Forall (property_regular s) (List.filter is_property_field fs) ->
  Forall lawful fs -> fresh (List.filter is_property_field fs) s x ->
  apply_items (struct_items fs s) x = copy_fields (List.filter is_property_field fs) s x.
Proof.
  intros Hr Hl. apply (forall_filter _ is_property_field) in Hl. unfold struct_items.
  generalize dependent (List.filter is_property_field fs). intros l Hr. revert x.
  induction Hr as [|f l Hf _ IH]; intros x Hl Hx; [done |].
  destruct Hx as [Hd Hx]. apply Forall_cons_1 in Hl as [Hlf Hl].
  rewrite fmap_cons. cbn [concat]. unfold apply_items in *. rewrite foldl_app.
  fold (apply_items (field_items s f) x). rewrite apply_field_items by done.
  by apply IH.
Qed.

Lemma struct_items_reads fs s :
  distinct_properties fs = true ->
  Forall (property_exact s) (List.filter is_property_field fs) ->
  Forall (item_reads (decode_property fs)) (struct_items fs s).
Proof.
  intros distinct exact. unfold struct_items.
  apply Forall_concat, Forall_fmap, list.Forall_forall. intros f Hf.
  pose proof Hf as Hin. apply list_elem_of_In, filter_In in Hin as [Hin _].
  rewrite list.Forall_forall in exact. apply exact in Hf. simpl.
  apply list.Forall_forall. intros it Hit x br pr t.
  pose proof (reads_field_items f s x br pr Hf) as H. rewrite list.Forall_forall in H.
  destruct (H it Hit) as [Hp Hr].
  rewrite (decode_property_field fs f) by (done || by apply list_elem_of_In). apply Hr.
Qed.

(** *** Structs *)

(** The repeated items that take the rest of the packet. *)
Definition payload_exact s f : Prop :=
  f_property_type f = None /\ f_skip_if f = None /\
  match f_ty f in fty A return A -> Prop with
  | Vec => Forall (fun v => type_exact v /\ type_bytes v <> [])
  | _ => fun _ => False
  end (f_get f s).

Lemma reads_payload_field f s x br pr :
  payload_exact s f ->
  decode_field f (DState x br pr) (unskipped_bytes s f)
  = (Ok (DState (f_set f (f_get f s) x) (br + len (unskipped_bytes s f)) pr), []).
Proof.
  intros (Hp & Hs & H). assert (Hi : ident f = []) by (unfold ident; by rewrite Hp).
  unfold unskipped_bytes, skipped. rewrite Hs. unfold decode_field, field_bytes, is_property_field.
  rewrite Hp, Hi. generalize (f_set f). generalize dependent (f_get f).
  destruct (f_ty f) as [A t|A t| |A| A w|]; intros get Hv set; try done.
  rewrite (bind_ok _ _ _ _ _ (reads_items (decode dflt) type_bytes (get s) ltac:(
    intros a Ha; rewrite list.Forall_forall in Hv; apply Hv in Ha as [Ha1 Ha2];
    split; [done | by apply type_reads]))). done.
Qed.

(** The order in which a generated decoder fills the fields. *)
Definition decode_order d : list (field S) :=
  short_header d ++ rest_header d ++ List.filter is_property_field (s_fields d) ++ payload_fields d.

Record declared d : Prop := {
  dc_well_formed : well_formed d = true;
  dc_min : s_min_decode d = None;
  dc_lawful : Forall lawful (s_fields d);
  dc_distinct : distinct_properties (s_fields d) = true;
  dc_no_field_payload : List.filter is_field_payload (s_fields d) = [];
  dc_remaining : List.filter is_remaining_payload (s_fields d) = payload_fields d;
}.

(** A value [s] that survives a round trip into the default value [s0]. *)
Record decodable d s s0 : Prop := {
  dc_short : Forall (header_exact s) (short_header d);
  dc_rest : if abbreviated d s
            then property_bytes (s_fields d) s = []
                 /\ Forall (fun f => f_get f s = f_default f) (rest_header d)
            else Forall (header_exact s) (rest_header d);
  dc_props : Forall (property_exact s) (List.filter is_property_field (s_fields d));
  dc_payload : match payload_fields d with [] => True | [f] => payload_exact s f | _ => False end;
  dc_fresh : fresh (decode_order d) s s0;
  dc_copy : copy_fields (decode_order d) s s0 = s;
  dc_len : len (property_bytes (s_fields d) s) <= 2097151;
  dc_budget : within_budget (len (property_bytes (s_fields d) s)) 0
                (struct_items (s_fields d) s) = true;
}.

(** The bytes the decoder counts beyond those it reads. *)
Definition excess d s : Z :=
  if abbreviated d s then 0
  else items_cost (struct_items (s_fields d) s) - len (property_bytes (s_fields d) s).

Lemma reads_property_section d s x br pr :
  declared d -> Forall (property_exact s) (List.filter is_property_field (s_fields d)) ->
  len (property_bytes (s_fields d) s) <= 2097151 ->
  within_budget (len (property_bytes (s_fields d) s)) 0 (struct_items (s_fields d) s) = true ->
  fresh (List.filter is_property_field (s_fields d)) s x ->
  exists pr',
  reads (if has_properties (s_fields d)
         then decode_properties (decode_property (s_fields d)) (DState x br pr)
         else mret (DState x br pr)) (property_section (s_fields d) s)
    (DState (copy_fields (List.filter is_property_field (s_fields d)) s x)
      (br + len (property_section (s_fields d) s)
       + (items_cost (struct_items (s_fields d) s) - len (property_bytes (s_fields d) s))) pr').
Proof.
  intros Hd Hp Hl Hb Hx. pose proof (exact_regular _ _ Hp) as Hr.
  rewrite <- (apply_struct_items _ _ x Hr (dc_lawful _ Hd) Hx).
  rewrite <- (struct_items_bytes _ _ Hr) in *. unfold property_section.
  rewrite <- (struct_items_bytes _ _ Hr).
  destruct (has_properties (s_fields d)) eqn:E.
  - eexists. rewrite len_app, len_vbi by (unfold MAX_VARIABLE_BYTE_INT; lia).
    match goal with |- reads _ _ (DState _ ?n _) =>
      replace n with (br + variable_byte_int_size (len (items_bytes (struct_items (s_fields d) s)))
                      + items_cost (struct_items (s_fields d) s)) by lia end.
    apply decode_properties_items; [| done | done].
    by apply struct_items_reads; [apply (dc_distinct _ Hd) |].
  - exists pr. assert (List.filter is_property_field (s_fields d) = []) as Hn.
    { unfold has_properties in E. clear -E. induction (s_fields d) as [|f fs IH]; [done |].
      simpl in *. destruct (is_property_field f); [done | by apply IH]. }
    unfold struct_items. rewrite Hn. cbn [fmap list_fmap concat]. unfold items_bytes. simpl.
    rewrite !Z.add_0_r. apply reads_ret.
Qed.

Lemma decode_of_start d (s0 : S) b :
  declared d ->
  decode_of d s0 b =
  (st ← decode_fields (short_header d) (DState s0 0 0);
   more ← has_remaining;
   if bool_decide (is_Some (s_abbreviated_when d)) && negb more
   then mret (d_self st, d_bytes_read st)
   else
     st ← decode_fields (rest_header d) st;
     st ← (if has_properties (s_fields d)
           then decode_properties (decode_property (s_fields d)) st else mret st);
     st ← decode_fields (payload_fields d) st;
     mret (d_self st, d_bytes_read st)) b.
Proof.
  intros Hd. unfold decode_of. rewrite (dc_min _ Hd), (dc_no_field_payload _ Hd),
    (dc_remaining _ Hd). done.
Qed.

Lemma copy_default fs s x :
  Forall lawful fs -> Forall (fun f => f_get f s = f_default f) fs -> fresh fs s x ->
  copy_fields fs s x = x.
Proof.
  intros Hl Hd. revert x. induction Hd as [|f fs Hf _ IH]; intros x Hx; [done |].
  apply Forall_cons_1 in Hl as [Hlf Hl]. destruct Hx as [H1 Hx].
  unfold copy_fields in *. cbn [foldl]. rewrite Hf, <- H1, (set_get _ Hlf).
  apply IH; [done |]. by rewrite Hf, <- H1, (set_get _ Hlf) in Hx.
Qed.

Lemma items_bytes_nil (its : list (item S)) : items_bytes its = [] -> its = [].
Proof. by destruct its. Qed.

(** The abbreviated form stops after the short header. *)
Lemma decode_abbreviated d s s0 :
  declared d -> decodable d s s0 -> abbreviated d s = true ->
  decode_of d s0 (body_bytes d s) = (Ok (s, len (body_bytes d s)), []).
Proof.
  intros Hd Hs Ha. pose proof (dc_rest _ _ _ Hs) as Hr. rewrite Ha in Hr. destruct Hr as [Hp Hr].
  pose proof (dc_fresh _ _ _ Hs) as Hf. pose proof (dc_copy _ _ _ Hs) as Hc.
  pose proof (dc_well_formed _ Hd) as Hw.
  unfold decode_order in *. rewrite !fresh_app in Hf. rewrite !copy_fields_app in Hc.
  destruct Hf as (Hf1 & Hf2 & Hf3 & Hf4).
  unfold abbreviated in Ha. unfold well_formed in Hw.
  destruct (s_abbreviated_when d) as [a|] eqn:Ea; [| done].
  rewrite !andb_true_iff in Hw. destruct Hw as (_ & _ & Hw).
  rewrite (payload_fields_nil d Hw) in Hc.
  assert (E : copy_fields (rest_header d) s (copy_fields (short_header d) s s0)
              = copy_fields (short_header d) s s0).
  { apply copy_default; [by apply forall_filter, forall_filter, dc_lawful | done | done]. }
  rewrite E in Hc, Hf3.
  pose proof (exact_regular _ _ (dc_props _ _ _ Hs)) as Hreg.
  rewrite <- (apply_struct_items _ _ _ Hreg (dc_lawful _ Hd) Hf3) in Hc.
  rewrite <- (struct_items_bytes _ _ Hreg) in Hp.
  apply items_bytes_nil in Hp. rewrite Hp in Hc. cbn [apply_items foldl copy_fields] in Hc.
  rewrite decode_of_start by done. unfold body_bytes, abbreviated. rewrite Ea, Ha.
  rewrite (bind_ok _ _ _ _ _ (reads_header_fields _ s s0 0 0 (dc_short _ _ _ Hs) Hf1 [])).
  rewrite bind_has_remaining, bool_decide_true by done. simpl. rewrite app_nil_r.
  unfold mret, M_ret. unfold copy_fields in Hc |- *. by rewrite Hc.
Qed.

(** The full form: header, properties, payload. *)
Lemma reads_payload d s x br pr t :
  match payload_fields d with [] => True | [f] => payload_exact s f | _ => False end ->
  payload_fields d = [] \/ t = [] ->
  decode_fields (payload_fields d) (DState x br pr) (fields_bytes (payload_fields d) s ++ t)
  = (Ok (DState (copy_fields (payload_fields d) s x)
           (br + len (fields_bytes (payload_fields d) s)) pr), t).
Proof.
  unfold fields_bytes. destruct (payload_fields d) as [|f [|]]; intros Hf Ht; [| | done].
  - simpl. by rewrite Z.add_0_r.
  - destruct Ht as [?| ->]; [done |]. simpl. rewrite !app_nil_r.
    by rewrite (bind_ok _ _ _ _ _ (reads_payload_field f s x br pr Hf)).
Qed.

Lemma vbi_nonempty v : vbi v <> [].
Proof. unfold vbi. by repeat case_match. Qed.

(** A struct that has an abbreviated form and is not abbreviated has more
    bytes after the short header. *)
Lemma more_after_short d s t :
  declared d -> abbreviated d s = false ->
  bool_decide (is_Some (s_abbreviated_when d))
  && negb (0 <? len ((fields_bytes (rest_header d) s ++ property_section (s_fields d) s
                      ++ fields_bytes (payload_fields d) s) ++ t)) = false.
Proof.
  intros Hd Ha. destruct (s_abbreviated_when d) as [a|] eqn:Ea; [| done].
  pose proof (dc_well_formed _ Hd) as Hw. unfold well_formed in Hw. rewrite Ea in Hw.
  rewrite !andb_true_iff in Hw. destruct Hw as (_ & Hw & _).
  unfold property_section. rewrite Hw, !len_app.
  pose proof (vbi_nonempty (len (property_bytes (s_fields d) s))).
  destruct (vbi _) as [|z v]; [done |]. rewrite (proj2 (Z.ltb_lt _ _)); [by rewrite andb_false_r |].
  simpl length. lia.
Qed.

Lemma decode_full d s s0 t :
  declared d -> decodable d s s0 -> abbreviated d s = false ->
  payload_fields d = [] \/ t = [] ->
  decode_of d s0 (body_bytes d s ++ t) = (Ok (s, len (body_bytes d s) + excess d s), t).
Proof.
  intros Hd Hs Ha Ht. pose proof (dc_rest _ _ _ Hs) as Hr. rewrite Ha in Hr.
  pose proof (dc_fresh _ _ _ Hs) as Hf. pose proof (dc_copy _ _ _ Hs) as Hc.
  unfold decode_order in *. rewrite !fresh_app in Hf. rewrite !copy_fields_app in Hc.
  destruct Hf as (Hf1 & Hf2 & Hf3 & Hf4).
  rewrite decode_of_start by done. unfold body_bytes, excess. rewrite Ha, <- app_assoc.
  rewrite (bind_ok _ _ _ _ _ (reads_header_fields _ s s0 0 0 (dc_short _ _ _ Hs) Hf1 _)).
  rewrite bind_has_remaining, more_after_short by done. rewrite <- !app_assoc.
  rewrite (bind_ok _ _ _ _ _ (reads_header_fields _ s _ _ _ Hr Hf2 _)).
  match goal with |- context [DState ?x ?br ?pr] =>
    destruct (reads_property_section d s x br pr Hd (dc_props _ _ _ Hs) (dc_len _ _ _ Hs)
      (dc_budget _ _ _ Hs) Hf3) as [pr' Hps] end.
  rewrite (bind_ok _ _ _ _ _ (Hps _)).
  rewrite (bind_ok _ _ _ _ _ (reads_payload d s _ _ _ t (dc_payload _ _ _ Hs) Ht)).
  unfold mret, M_ret. cbn [d_self d_bytes_read]. rewrite Hc, !len_app. do 3 f_equal. lia.
Qed.

(** Both forms, at the end of the buffer. *)
Lemma decode_body d s s0 :
  declared d -> decodable d s s0 ->
  decode_of d s0 (body_bytes d s) = (Ok (s, len (body_bytes d s) + excess d s), []).
Proof.
  intros Hd Hs. destruct (abbreviated d s) eqn:Ha.
  - rewrite (decode_abbreviated d s s0 Hd Hs Ha). unfold excess. by rewrite Ha, Z.add_0_r.
  - rewrite <- (app_nil_r (body_bytes d s)) at 1. apply decode_full; auto.
Qed.

(** Without user properties every count is exact. *)
Lemma no_excess fs s :
  Forall (fun f => match f_ty f in fty A return A -> Prop with
                   | Props => fun m => m = ∅ | _ => fun _ => True end (f_get f s)) fs ->
  Forall (fun it => i_excess it = 0) (struct_items fs s).
Proof.
  intros H. apply (forall_filter _ is_property_field) in H. unfold struct_items.
  apply Forall_concat, Forall_fmap. eapply Forall_impl; [| exact H]. intros f Hf. unfold compose.
  cbv beta in Hf |- *. unfold field_items. destruct (f_property_type f) as [p|]; [| constructor].
  generalize (f_set f). generalize dependent (f_get f).
  destruct (f_ty f) as [A t|A t| |A| A w|]; intros get Hm set; try constructor; try done.
  - destruct (get s); repeat constructor.
  - destruct (is_empty (get s)); repeat constructor.
  - destruct (get s); repeat constructor.
  - rewrite Hm, pairs_empty. constructor.
Qed.
End decode_facts.

(** ** Conditions on packet values *)

Section conditions.
Context {B : Buf} {HI : HashIter} {S : Type}.

(** User properties whose strings fit the wire format; [add] never leaves a key
    without values. *)
Definition props_ok (m : UserProperty) : Prop :=
  Forall pair_ok (pairs m) /\ map_Forall (fun _ vs => vs <> []) m.

(** The property section is short enough for the decoder, and the over-counted
    user properties do not make its loop stop early. *)
Definition properties_fit (d : struct S) (s : S) : Prop :=
  len (property_bytes (s_fields d) s) <= 2097151
  /\ within_budget (len (property_bytes (s_fields d) s)) 0 (struct_items (s_fields d) s) = true.

Definition opt_ok {A} (P : A -> Prop) (o : option A) : Prop :=
  match o with Some v => P v | None => True end.

(** Subscription identifiers: what the encoder writes, and what the decoder
    takes back. *)
Definition encodable_id (v : Z) : Prop := 0 <= v <= MAX_VARIABLE_BYTE_INT.
Definition decodable_id (v : Z) : Prop := 0 <= v <= 2097151.
End conditions.

(** Without user properties the loop never stops early. *)
Lemma properties_fit_exact {B : Buf} {HI : HashIter} {S} (d : struct S) s :
  Forall (property_regular s) (List.filter is_property_field (s_fields d)) ->
  Forall (fun f => match f_ty f in fty A return A -> Prop with
                   | Props => fun m => m = ∅ | _ => fun _ => True end (f_get f s)) (s_fields d) ->
  len (property_bytes (s_fields d) s) <= 2097151 ->
  properties_fit d s /\ excess d s = 0.
Proof.
  intros Hr Hn Hl. destruct (within_budget_exact (struct_items (s_fields d) s)
    (len (property_bytes (s_fields d) s)) 0 (no_excess _ _ Hn)) as [H1 H2].
  { by rewrite struct_items_bytes. }
  rewrite struct_items_bytes in H2 by done. unfold excess.
  split; [done |]. destruct (abbreviated d s); lia.
Qed.

(** ** Decoding always returns *)

Section termination.
Context {B : Buf} {HI : HashIter} {S : Type}.
Implicit Types (f : field S) (fs : list (field S)) (d : struct S).

Lemma tame_property_loop (arm : PropertyType -> dstate S -> Codec (dstate S)) fuel L st b r b' :
  (forall p st, tame (arm p st)) -> bytes b -> (length b < fuel)%nat ->
  property_loop fuel arm L st b = (r, b') ->
  r <> OutOfFuel /\ bytes b' /\ (length b' <= length b)%nat.
Proof.
  intros Ha. revert st b. induction fuel as [|fuel IH]; intros st b Hb Hf H; [lia |].
  cbn [property_loop] in H. destruct (_ <? L); [| by injection H as <- <-].
  destruct b as [|x b]; [by rewrite bind_get_u8_nil in H; injection H as <- <- |].
  rewrite bind_get_u8 in H. apply Forall_cons_1 in Hb as [_ Hb]. simpl in Hf.
  unfold lift, mbind, M_bind in H.
  pose proof (PropertyType_try_from_total x) as Hx.
  destruct (PropertyType_try_from x) as [p|e| |]; simplify_eq;
    try (simpl; split_and!; (done || lia)).
  destruct (arm p (count_read true 1 st) b) as [r1 b1] eqn:E1.
  apply Ha in E1 as (N1 & B1 & L1); [| done].
  destruct r1; simplify_eq; try (simpl; split_and!; (done || lia)).
  apply IH in H as (? & ? & ?); [simpl; split_and!; (done || lia) | done | lia].
Qed.

Lemma decode_properties_shortens (arm : PropertyType -> dstate S -> Codec (dstate S)) st :
  (forall p st, tame (arm p st)) ->
  tame (decode_properties arm st) /\ eats (decode_properties arm st).
Proof.
  intros Ha.
  assert (T : forall L n, tame (b ← get;
    st ← property_loop (Datatypes.S (length b)) arm L (DState (d_self st) (d_bytes_read st + n) 0);
    mret (DState (d_self st) (d_bytes_read st + d_property_bytes_read st)
            (d_property_bytes_read st)))).
  { intros L n b r b' Hb H. rewrite bind_get in H. unfold mbind, M_bind in H.
    destruct (property_loop _ arm L _ b) as [r1 b1] eqn:E1.
    apply tame_property_loop in E1 as (N1 & B1 & L1); [| done | done | lia].
    destruct r1; simplify_eq; auto. by injection H as <- <-. }
  split; [apply tame_bind | apply eats_bind_l];
    auto using tame_decode_vbi, eats_decode_vbi; intros []; apply T.
Qed.

Lemma tame_decode_properties (arm : PropertyType -> dstate S -> Codec (dstate S)) st :
  (forall p st, tame (arm p st)) -> tame (decode_properties arm st).
Proof. intros. by apply decode_properties_shortens. Qed.

(** The functions given to [decode_with] return. *)
Definition with_tame f : Prop :=
  match f_ty f with OptWith w => tame (with_decode w) | _ => True end.

Lemma tame_sty {A} (t : sty A) v : tame (sty_trait_decode t v) /\ tame (sty_plain_decode t v).
Proof.
  assert (tame (sty_trait_decode t v)) as H by (destruct t; simpl; auto with codec; apply type_tame).
  split; [done |]. destruct t; try done. simpl. apply tame_bind; auto with codec.
Qed.

Lemma tame_decode_field f st : with_tame f -> tame (decode_field f st).
Proof.
  unfold with_tame, decode_field. generalize (f_set f). generalize (f_get f (d_self st)).
  destruct (f_ty f) as [A t|A t| |A| A w|]; intros v set Ht;
    (apply tame_bind; [| intros []; auto with codec]).
  - apply tame_sty.
  - apply tame_sty.
  - apply tame_vec_u8.
  - apply tame_items; [apply type_tame | apply type_eats].
  - done.
  - apply UserProperty_decode_shortens.
Qed.

Lemma tame_decode_fields fs st : Forall with_tame fs -> tame (decode_fields fs st).
Proof.
  intros H. revert st. induction H as [|f fs Hf _ IH]; intros st; simpl; [auto with codec |].
  apply tame_bind; [by apply tame_decode_field | done].
Qed.

Lemma tame_decode_property fs p st : Forall with_tame fs -> tame (decode_property fs p st).
Proof.
  intros H. unfold decode_property.
  destruct (list_find _ fs) as [[i f]|] eqn:E; [| auto with codec].
  apply list_find_Some in E as (E & _). apply tame_decode_field.
  rewrite list.Forall_forall in H. apply H. by apply list_elem_of_lookup_2 in E.
Qed.

Lemma tame_min_size_check m n : tame (min_size_check m n).
Proof.
  unfold min_size_check. destruct m; [| auto with codec].
  apply tame_bind; [auto with codec |]. intros r. destruct (r <? _); auto with codec.
Qed.

(** Every generated decoder terminates on every buffer, with a value, an error
    or a panic, and never lengthens the buffer. *)
Lemma tame_decode_of d (s0 : S) : Forall with_tame (s_fields d) -> tame (decode_of d s0).
Proof.
  intros H. unfold decode_of.
  assert (Hf : forall (q : field S -> bool) st, tame (decode_fields (List.filter q (s_fields d)) st)).
  { intros q st. by apply tame_decode_fields, forall_filter. }
  assert (Hh : forall (q : field S -> bool) st, tame (decode_fields (List.filter q
    (List.filter is_header_field (s_fields d))) st)).
  { intros q st. by apply tame_decode_fields, forall_filter, forall_filter. }
  apply tame_bind; [apply tame_min_size_check |]. intros []; [auto with codec |].
  apply tame_bind; [apply Hh |]. intros st1. apply tame_bind; [auto with codec |]. intros more.
  destruct (_ && _); [auto with codec |].
  apply tame_bind; [apply Hh |]. intros st2.
  apply tame_bind; [apply tame_min_size_check |]. intros []; [auto with codec |].
  apply tame_bind.
  { destruct (has_properties _); [| auto with codec].
    apply tame_decode_properties. intros. by apply tame_decode_property. }
  intros st3. apply tame_bind; [apply Hf |]. intros st4.
  apply tame_bind; [apply Hf |]. auto with codec.
Qed.

(** A decoder whose first field takes a byte takes a byte. *)
Lemma eats_decode_of d (s0 : S) f fs :
  declared d -> Forall with_tame (s_fields d) -> short_header d = f :: fs ->
  (forall st, eats (decode_field f st)) -> eats (decode_of d s0).
Proof.
  intros Hd Ht Hs Hf b a b' Hb H. rewrite decode_of_start in H by done.
  assert (Hh : Forall with_tame (f :: fs)) by (rewrite <- Hs; by apply forall_filter, forall_filter).
  apply Forall_cons_1 in Hh as [Hh1 Hh2]. revert b a b' Hb H. apply eats_bind_l.
  - rewrite Hs. simpl. apply eats_bind_l; [done | by apply tame_decode_field |].
    intros. by apply tame_decode_fields.
  - apply tame_decode_fields. by apply forall_filter, forall_filter.
  - intros st. apply tame_bind; [auto with codec |]. intros more.
    destruct (_ && _); [auto with codec |].
    apply tame_bind; [by apply tame_decode_fields, forall_filter, forall_filter |]. intros st2.
    apply tame_bind; [destruct (has_properties _); [| auto with codec] |].
    + apply tame_decode_properties. intros. by apply tame_decode_property.
    + intros st3. apply tame_bind; [by apply tame_decode_fields, forall_filter | auto with codec].
Qed.
End termination.

(** ** Types with their own implementations *)

Section instances.
Context {B : Buf}.

#[export, refine] Instance Reason_laws : CodecLaws Reason := {|
  type_ok _ := True; type_exact _ := True; type_bytes r := [Reason_as_u8 r] |}.
Proof.
  - intros. apply writes_reason.
  - done.
  - intros. apply reads_reason.
  - intros. apply Reason_decode_shortens.
  - intros. apply Reason_decode_shortens.
Defined.

#[export] Instance Reason_size_law : SizeLaw Reason.
Proof. done. Qed.

#[export, refine] Instance QoSLevel_laws : CodecLaws QoSLevel := {|
  type_ok _ := True; type_exact _ := True; type_bytes q := [QoSLevel_as_u8 q] |}.
Proof.
  - intros. apply writes_put_u8.
  - done.
  - intros. apply reads_qos.
  - intros. apply tame_qos.
  - intros q. apply eats_bind_l; [auto with codec .. |]. intros v.
    apply tame_bind; [apply tame_lift, QoSLevel_try_from_total | auto with codec].
Defined.

#[export] Instance QoSLevel_property_size_law : PropertySizeLaw QoSLevel.
Proof. done. Qed.

(** [String] as an element of a [Vec]. *)
Definition String_Encode : Encode rstring := encode_string.
Definition String_Decode : Decode rstring := String_decode.
Definition String_Default : Default rstring := [].
Definition String_CodecSize : CodecSize rstring := string_codec_size.

#[refine] Definition String_laws : @CodecLaws rstring B String_Encode String_Decode String_Default :=
  {| type_ok := mqtt_string; type_exact := mqtt_string; type_bytes := prefixed |}.
Proof.
  - intros s [_ Hs]. by apply writes_string.
  - done.
  - intros s Hs. rewrite len_prefixed, Z.add_comm. by apply reads_string.
  - intros. apply tame_string.
  - intros. apply String_decode_shortens.
Defined.

Lemma String_size_law : @SizeLaw rstring B _ _ _ String_laws String_CodecSize.
Proof.
  intros s Hs. unfold codec_size, String_CodecSize, string_codec_size. simpl type_bytes.
  by rewrite add_u32_u32_r, len_prefixed.
Qed.

Definition VecString : fty (list rstring) :=
  @Vec B rstring String_Encode String_Decode String_Default String_CodecSize String_laws
    String_size_law.
End instances.

(** A goal about every field of a declared struct, one goal for each field. *)
Ltac each_field :=
  lazymatch goal with
  | |- Forall ?P ?l =>
      let l' := eval hnf in l in
      lazymatch l' with
      | [] => exact (Forall_nil_2 P)
      | ?x :: ?k => refine (Forall_cons_2 P x k _ _); [| each_field]
      | _ => idtac
      end
  | |- ?G =>
      let G' := eval hnf in G in
      lazymatch G' with Forall _ _ => change G'; each_field | _ => idtac end
  end.

(** Field accessors given by record update are lawful. *)
Ltac solve_lawful :=
  each_field; constructor; intros;
  repeat match goal with x : _ |- _ => by destruct x end.

(** ** The contract of the derive macros *)

Section contract.
Context {B : Buf} {HI : HashIter} {S : Type}.

(** A derived packet encoder announces the right size.  For every struct the
    macros accept and every value whose fields fit, the generated encoder appends
    the fixed header, [codec_size] as a variable byte integer, and exactly
    [codec_size] further bytes. *)
Theorem derive_size_exact (d : struct S) (s : S) (header : S -> FixedHeader) (dst : list Z) :
  s_as_packet d = Some header -> well_formed d = true -> struct_ok d s ->
  len (body_bytes d s) <= MAX_VARIABLE_BYTE_INT ->
  exists body,
    encode_of d s dst
    = (Ok tt, dst ++ [header_byte (header s)] ++ vbi (codec_size_of d s) ++ body)
    /\ len body = codec_size_of d s
    /\ len (vbi (codec_size_of d s)) = variable_byte_int_size (codec_size_of d s).
Proof.
  intros Hp Hw Hok Hl. exists (body_bytes d s). pose proof (codec_size_of_ok d s Hw Hok) as Hs.
  rewrite u32_small in Hs by (unfold MAX_VARIABLE_BYTE_INT in Hl; lia). rewrite Hs.
  split_and!; [by apply writes_packet | done | apply len_vbi; lia].
Qed.

(** A derived decoder undoes the derived encoder.  For every struct whose
    fields are declared with distinct properties, and every value the decoder
    can represent, the body the encoder writes is read back completely, into the
    same value. *)
Theorem derive_roundtrip (d : struct S) (s s0 : S) (dst : list Z) :
  declared d -> struct_ok d s -> decodable d s s0 ->
  exists body n,
    encode_body_of d s dst = (Ok tt, dst ++ body) /\ decode_of d s0 body = (Ok (s, n), []).
Proof.
  intros Hd Hok Hs. exists (body_bytes d s), (len (body_bytes d s) + excess d s).
  split; [by apply writes_body | by apply decode_body].
Qed.
End contract.
