(* ===== verification/MacroSyntax.v ===== *)
(** * vaux-macro: the syntax the macros read, and util.rs *)
(** A procedural macro receives the tokens of a struct, parsed by the [syn]
    crate, and returns the tokens of trait implementations.  This file holds the
    part of [syn]'s syntax trees the macros look at - attributes with their
    arguments, types as paths with generic arguments, named fields - and the
    attribute queries of vaux-macro/src/util.rs.  A query returns a
    [syn::Error] ([Err]) where the code uses [?], and panics where it unwraps.
    Parsing a string literal as a path or an expression is [syn]'s, a parameter
    of the model ([Syn]). *)

From S2P Require Import Prelude.

#[local] Open Scope string_scope.

(** ** Outcomes as a monad *)

#[export] Instance outcome_ret {E} : MRet (outcome E) := fun A a => Ok a.
#[export] Instance outcome_bind {E} : MBind (outcome E) := fun A B f o =>
  match o with
  | Ok a => f a
  | Err e => Err e
  | Panic => Panic
  | OutOfFuel => OutOfFuel
  end.

(** [Result::unwrap_or] and [Result::unwrap]. *)
Definition unwrap_or {E A} (a : A) (o : outcome E A) : outcome E A :=
  match o with Err _ => Ok a | o => o end.
Definition unwrap_result {E A} (o : outcome E A) : outcome E A :=
  match o with Err _ => Panic | o => o end.

(** ** Syntax trees *)

Abbreviation path := string.

Inductive lit := LitStr (value : string) | LitInt (value : Z) | LitOther.
Inductive expr := ExprLit (l : lit) | ExprOther.

(** [path], [path(...)] and [path = value]. *)
Inductive meta :=
| MetaPath (p : path)
| MetaList (p : path)
| MetaNameValue (p : path) (value : expr).

Definition meta_path (m : meta) : path :=
  match m with MetaPath p | MetaList p | MetaNameValue p _ => p end.

(** An attribute [#[path(args)]]: the arguments as a comma-separated list of
    [meta]s, [None] when they do not parse as one. *)
Record attribute := Attribute { attr_path : path; attr_args : option (list meta) }.

(** A type: a path with the generic arguments of its last segment, or another
    form (a reference, a tuple, an array). *)
Inductive ty :=
| TypePath (qualifier : list string) (ident : string) (arguments : path_arguments)
| TypeOther
with path_arguments :=
| PathNone
| AngleBracketed (args : list generic_argument)
| Parenthesized
with generic_argument :=
| GenericType (t : ty)
| GenericOther.

Record syn_field := SynField {
  sf_attrs : list attribute;
  sf_ident : string;
  sf_ty : ty;
}.

Inductive fields := Named (l : list syn_field) | Unnamed | Unit.

Record item_struct := ItemStruct {
  item_attrs : list attribute;
  item_ident : string;
  item_fields : fields;
}.

(** What [LitStr::parse] makes of the text of a literal: a path or an
    expression, in normal form, or an error. *)
Class Syn := {
  parse_path : string -> option path;
  parse_expr : string -> option string;
}.

(** The instance concrete examples run on: every literal is in normal form. *)
#[export] Instance literal_syn : Syn := {| parse_path := Some; parse_expr := Some |}.

(** ** util.rs *)

Definition CODEC_ATTR := "codec".
Definition PACKET_ATTR := "packet".
Definition PACKET_ATTR_PACKET_TYPE_ARG := "packet_type".
Definition CODEC_ATTR_PROPERTY_TYPE_ARG := "property_type".
Definition CODEC_ATTR_DECODE_WITH_ARG := "decode_with".
Definition CODEC_ATTR_ENCODE_WITH_ARG := "encode_with".
Definition CODEC_ATTR_SKIP_ARG := "skip".
Definition CODEC_ATTR_SKIP_IF_ARG := "skip_if".
Definition CODEC_ATTR_PAYLOAD_ARG := "payload_type".
Definition CODEC_ATTR_CODEC_MIN_SIZE_ARG := "min_decode".
Definition CODEC_ATTR_PAYLOAD_TYPE_REMAINING := "remaining".
Definition CODEC_ATTR_PAYLOAD_TYPE_FIELD := "field".
Definition CODEC_ATTR_ABBREVIATED_WHEN_ARG := "abbreviated_when".
Definition CODEC_ATTR_NON_ABBREVIATED_ARG := "non_abbreviated".
Definition CODEC_ATTR_AS_PACKET_ARG := "as_packet".
Definition CODEC_ATTR_SKIP_DECODE_ARG := "skip_decode".

(** [attr.parse_args_with(Punctuated::<Meta, Token![,]>::parse_terminated)]. *)
Definition parse_args (a : attribute) : outcome unit (list meta) := ok_or (attr_args a) ().

Definition is_ident (p : path) (name : string) : bool := String.eqb p name.

Definition attrs_named (name : string) (attrs : list attribute) : list attribute :=
  List.filter (fun a => is_ident (attr_path a) name) attrs.

Fixpoint find_map {A B} (f : A -> outcome unit (option B)) (l : list A)
    : outcome unit (option B) :=
  match l with
  | [] => Ok None
  | a :: l => r ← f a; match r with Some b => Ok (Some b) | None => find_map f l end
  end.

Definition has_attribute_with_path (attrs : list attribute) (name value : string)
    : outcome unit bool :=
  r ← find_map (fun a =>
        nested ← parse_args a;
        Ok (if existsb (fun m => match m with MetaPath p => is_ident p value | _ => false end)
                 nested then Some tt else None)) (attrs_named name attrs);
  Ok (match r with Some _ => true | None => false end).

Definition is_name_value (key : string) (m : meta) : bool :=
  match m with MetaNameValue p _ => is_ident p key | _ => false end.

(** The attribute that holds [key = value]. *)
Definition attribute_with_name_value (attrs : list attribute) (name key : string)
    : outcome unit (option attribute) :=
  find_map (fun a =>
    nested ← parse_args a;
    Ok (if existsb (is_name_value key) nested then Some a else None)) (attrs_named name attrs).

Definition has_attribute_with_name_value (attrs : list attribute) (name key : string)
    : outcome unit bool :=
  r ← find_map (fun a =>
        nested ← parse_args a;
        Ok (if existsb (is_name_value key) nested then Some tt else None))
        (attrs_named name attrs);
  Ok (match r with Some _ => true | None => false end).

Definition struct_has_attribute_with_name_value (fs : list syn_field) (name key : string) : bool :=
  existsb (fun f =>
    existsb (fun a =>
      is_ident (attr_path a) name
      && match has_attribute_with_name_value (sf_attrs f) name key with
         | Ok true => true | _ => false end) (sf_attrs f)) fs.

Definition skip_field (attrs : list attribute) : outcome unit bool :=
  has_attribute_with_path attrs CODEC_ATTR CODEC_ATTR_SKIP_ARG.
Definition is_property_field (attrs : list attribute) : outcome unit bool :=
  has_attribute_with_name_value attrs CODEC_ATTR CODEC_ATTR_PROPERTY_TYPE_ARG.
Definition is_payload_field (attrs : list attribute) : outcome unit bool :=
  has_attribute_with_name_value attrs CODEC_ATTR CODEC_ATTR_PAYLOAD_ARG.
Definition is_non_abbreviated_field (attrs : list attribute) : outcome unit bool :=
  has_attribute_with_path attrs CODEC_ATTR CODEC_ATTR_NON_ABBREVIATED_ARG.
Definition is_as_packet (attrs : list attribute) : outcome unit bool :=
  unwrap_or false (has_attribute_with_path attrs CODEC_ATTR CODEC_ATTR_AS_PACKET_ARG).
Definition is_skip_decode (attrs : list attribute) : outcome unit bool :=
  unwrap_or false (has_attribute_with_path attrs CODEC_ATTR CODEC_ATTR_SKIP_DECODE_ARG).

(** The shape of the four argument queries: the first argument of a [codec]
    attribute with the given key whose value converts; arguments that do not
    parse panic. *)
Definition codec_arg {B} (key : string) (convert : lit -> outcome unit (option B))
    (attrs : list attribute) : outcome unit (option B) :=
  find_map (fun a =>
    if is_ident (attr_path a) CODEC_ATTR then
      nested ← unwrap_result (parse_args a);
      find_map (fun m =>
        if is_ident (meta_path m) key then
          match m with
          | MetaNameValue _ (ExprLit l) => convert l
          | _ => Ok None
          end
        else Ok None) nested
    else Ok None) attrs.

Definition payload_type : list attribute -> outcome unit (option string) :=
  codec_arg CODEC_ATTR_PAYLOAD_ARG
    (fun l => Ok (match l with LitStr s => Some s | _ => None end)).

(** [base10_parse::<usize>().unwrap()]. *)
Definition min_decode_size : list attribute -> outcome unit (option Z) :=
  codec_arg CODEC_ATTR_CODEC_MIN_SIZE_ARG
    (fun l => match l with
              | LitInt n => if (n <? 2 ^ 64)%Z then Ok (Some n) else Panic
              | _ => Ok None
              end).

Section syn.
Context {SY : Syn}.

Definition abbreviated_when_expr : list attribute -> outcome unit (option string) :=
  codec_arg CODEC_ATTR_ABBREVIATED_WHEN_ARG
    (fun l => match l with LitStr s => e ← unwrap (parse_expr s); Ok (Some e) | _ => Ok None end).

Definition property_type : list attribute -> outcome unit (option path) :=
  codec_arg CODEC_ATTR_PROPERTY_TYPE_ARG
    (fun l => match l with LitStr s => p ← unwrap (parse_path s); Ok (Some p) | _ => Ok None end).

(** [find_map] over the arguments of one attribute, for a key with a string
    literal as value. *)
Definition name_value_path (key : string) (nested : list meta) : outcome unit (option path) :=
  find_map (fun m =>
    match m with
    | MetaNameValue p (ExprLit (LitStr s)) =>
        if is_ident p key then p ← unwrap (parse_path s); Ok (Some p) else Ok None
    | _ => Ok None
    end) nested.

(** Arguments that do not parse end the search with [None]. *)
Definition get_skip_if_path (attrs : list attribute) : outcome unit (option path) :=
  match find_map (fun a =>
          nested ← parse_args a;
          name_value_path CODEC_ATTR_SKIP_IF_ARG nested) (attrs_named CODEC_ATTR attrs) with
  | Err _ => Ok None
  | o => o
  end.

Definition get_packet_type (nv : meta) : outcome unit (option path) :=
  name_value_path PACKET_ATTR_PACKET_TYPE_ARG [nv].
End syn.

Definition is_one_of (names : list string) (n : string) : bool := existsb (String.eqb n) names.

Definition is_primitive_type (type_name : string) : bool :=
  is_one_of ["u8"; "i8"; "u16"; "i16"; "u32"; "i32"; "bool"; "u64"; "i64"; "f32"; "f64"; "char"]
    type_name.

Definition filter_attributes (attrs : list attribute) (exclude : list string) : list attribute :=
  List.filter (fun a => negb (existsb (is_ident (attr_path a)) exclude)) attrs.
