(* ===== verification/MacroExpand.v ===== *)
(** * vaux-macro: the code generators *)
(** size.rs, encode.rs, decode.rs and lib.rs as functions from the syntax of a
    struct to the syntax of the generated code.  The generated code is a small
    language with one constructor for each statement the [quote!] templates
    emit; its meaning is given in [MacroMeaning].  A template that emits
    [compile_error!] is a statement too: the expansion exists and rustc refuses
    it.  Panics of the generators (an [unwrap]) are the outcome [Panic]. *)

From S2P Require Import Prelude MacroSyntax.

#[local] Open Scope string_scope.
#[local] Set Warnings "-register-all".

(** ** Generated code *)

(** [self.f] and a local name. *)
Inductive place := SelfDot (f : string) | Name (x : string).

(** *** Sizes *)

Inductive counter := TotalSize | PropSize.

(** [u32] expressions. *)
Inductive size_exp :=
| Lit (n : Z)
| Len (x : place)                       (** [x.len() as u32] *)
| ValueSize                             (** [value_size] *)
| CodecSizeOf (x : place)               (** [x.codec_size()] *)
| PropertySizeOf (x : place)            (** [x.property_size()] *)
| SumItems (x : place) (ident : bool)   (** [x.iter().map(|item| 1 + item.codec_size()).sum::<u32>()] *)
| CallSize (p : path) (f : string)      (** [p(&self.f)] *)
| Plus (a b : size_exp)
| ErrorExp (message : string).          (** [compile_error!(message)] *)

Inductive size_stmt :=
| LetValueSize (e : size_exp)                            (** [let value_size = e;] *)
| AddTo (c : counter) (e : size_exp)                     (** [c += e;] *)
| IfSome (x : string) (f : string) (body : list size_stmt) (** [if let Some(x) = &self.f {..}] *)
| IfNotEmpty (x : place) (body : list size_stmt)         (** [if !x.is_empty() {..}] *)
| IfNot (p : path) (f : string) (body : list size_stmt)  (** [if !p(&self.f) {..}] *)
| SizeError (message : string).

(** The bodies of the two size methods. *)
Inductive size_body :=
(** [let mut total_size = 0; fields; rest; total_size] *)
| PlainSize (fields rest : list size_stmt)
(** the same with the size of the properties and of their length added, and the
    early return of [abbreviated_when] between the two groups of fields *)
| FullSize (fields : list size_stmt) (abbreviated_when : option string)
    (rest : list size_stmt).

(** *** Encoders *)

Inductive int_ty := U8 | U16 | U32 | I8 | I16 | I32.

Inductive encode_stmt :=
| PutProperty (p : path)                  (** [dest.put_u8(p as u8);] *)
| PutInt (w : int_ty) (x : place)         (** [dest.put_u16(x);] *)
| PutBool (x : place)                     (** [dest.put_u8(if x { 1 } else { 0 });] *)
| EncodeString (x : place)                (** [codec::encode_string(x, dest)?;] *)
| EncodeArray (x : place)                 (** [codec::encode_array_field(x, dest)?;] *)
| EncodeTrait (x : place)                 (** [x.encode(dest)?;] *)
| CallEncode (p : path) (f : string)      (** [p(&self.f, dest)?;] *)
| EncIfSome (x : string) (f : string) (body : list encode_stmt) (** [if let Some(x) = self.f {..}] *)
| EncIfNot (p : path) (f : string) (body : list encode_stmt)    (** [if !p(&self.f) {..}] *)
| ForItem (x : place) (body : list encode_stmt)                 (** [for item in x.iter() {..}] *)
| EncodeError (message : string).

(** The statements of an [encode] method. *)
Inductive encode_item :=
| EncodeFixedHeader                       (** [self.fixed_header.encode(dest)?;] *)
| EncodeCodecSize                         (** [encode_variable_byte_int(self.codec_size(), dest)?;] *)
| EncodePropertySize                      (** [encode_variable_byte_int(self.property_size(), dest)?;] *)
| PropertyEncode                          (** [self.property_encode(dest)?;] *)
| EncodeStmts (body : list encode_stmt)
| ReturnIf (e : string).                  (** [if e { return Ok(()); }] *)

(** *** Decoders *)

Inductive read_counter := bytes_read | property_bytes_read.

(** [src.get_u16()], and [src.get_u8() != 0] for [bool]. *)
Inductive reader := GetInt (w : int_ty) | GetBool.

(** The type of [let mut value = T::default()], [String::new()] or [Vec::new()]. *)
Inductive decode_stmt :=
(** [self.f = r;] or [self.f = Some(r);], then [c += n;] *)
| AssignGet (f : string) (some : bool) (r : reader) (c : read_counter) (n : Z)
(** [c += self.f.decode(src)?;] *)
| DecodeSelf (f : string) (c : read_counter)
(** [let mut value = t::default(); c += value.decode(src)?; self.f = Some(value);] *)
| DecodeSome (t : ty) (f : string) (c : read_counter)
(** [let mut value = Vec::new(); let var_bytes_read = value.decode(src)?;
    bytes_read += var_bytes_read; self.f = value;] or [Some(value)] *)
| DecodeBytes (f : string) (some : bool)
(** [let mut value = Vec::new(); while src.has_remaining() { let mut item = t::default();
    bytes_read += item.decode(src)?; value.push(item); } self.f = value;] or [Some(value)] *)
| DecodeItems (t : ty) (f : string) (some : bool)
(** [let (value, decode_bytes_read) = p(src)?; c += decode_bytes_read; self.f = value;] *)
| CallDecode (p : path) (f : string) (c : read_counter)
| DecodeError (message : string).

(** The tokens of [decode_field]: statements, an arm of the property match, or
    nothing for a skipped field. *)
Inductive field_tokens :=
| NoTokens
| Stmts (body : list decode_stmt)
| Arm (p : path) (body : list decode_stmt).

(** The statements of a [decode] method. *)
Inductive decode_item :=
| MinSizeCheck (n : Z)                     (** refuse short input, return at the end of it *)
| DecodeTokens (t : field_tokens)
| ReturnIfEmpty                            (** [if !src.has_remaining() { return Ok(bytes_read); }] *)
| DecodeProperties (arms : list field_tokens). (** the property length and loop *)

(** What a derive emits: an implementation, nothing (a unit struct), or the
    [compile_error!] that replaces it. *)
Inductive derived (A : Type) :=
| Impl (body : A)
| NoImpl
| ErrorItem (message : string).
Arguments Impl {A}.
Arguments NoImpl {A}.
Arguments ErrorItem {A}.

Section generators.
Context {SY : Syn}.

(** [segments.last().arguments] as the first generic argument, for the
    [Vec] and [Option] branches: [None] is the compile error of the caller. *)
Definition first_argument (a : path_arguments) : outcome unit (option generic_argument) :=
  match a with
  | AngleBracketed [] => Panic
  | AngleBracketed (g :: _) => Ok (Some g)
  | _ => Ok None
  end.

(** ** size.rs *)

Definition counter_of (is_property : bool) : counter :=
  if is_property then PropSize else TotalSize.

Definition size_for_codec_size (field_name : string) (is_property optional : bool)
    : list size_stmt :=
  if is_property then
    if optional then [IfSome "field" field_name [AddTo PropSize (PropertySizeOf (Name "field"))]]
    else [AddTo PropSize (PropertySizeOf (SelfDot field_name))]
  else
    if optional then [IfSome "field" field_name [AddTo TotalSize (CodecSizeOf (Name "field"))]]
    else [AddTo TotalSize (CodecSizeOf (SelfDot field_name))].

Definition size_for_string_property (field_name : string) (optional : bool) : list size_stmt :=
  if optional then
    [IfSome "field_name" field_name
       [LetValueSize (Plus (Len (Name "field_name")) (Lit 2));
        AddTo PropSize (Plus (Lit 1) ValueSize)]]
  else
    [LetValueSize (Plus (Len (SelfDot field_name)) (Lit 2));
     AddTo PropSize (Plus (Lit 1) ValueSize)].

Definition size_for_primitive_property (field_name field_type : string) (optional : bool)
    : list size_stmt :=
  let size_calc :=
    if is_one_of ["u8"; "i8"; "bool"] field_type then AddTo PropSize (Plus (Lit 1) (Lit 1))
    else if is_one_of ["u16"; "i16"] field_type then AddTo PropSize (Plus (Lit 1) (Lit 2))
    else if is_one_of ["u32"; "i32"; "char"] field_type then
      AddTo PropSize (Plus (Lit 1) (Lit 4))
    else SizeError "Unsupported primitive type for Size derive" in
  if optional then [IfSome "_" field_name [size_calc]] else [size_calc].

Definition size_for_option_string (field_name : string) : list size_stmt :=
  [IfSome "value" field_name [AddTo TotalSize (Lit 2); AddTo TotalSize (Len (Name "value"))]].

Definition size_for_string (field_name : string) : list size_stmt :=
  [AddTo TotalSize (Lit 2); AddTo TotalSize (Len (SelfDot field_name))].

Definition size_for_primitive_internal (field_type : string) : size_stmt :=
  if is_one_of ["u8"; "i8"; "bool"] field_type then AddTo TotalSize (Lit 1)
  else if is_one_of ["u16"; "i16"] field_type then AddTo TotalSize (Lit 2)
  else if is_one_of ["u32"; "i32"; "char"] field_type then AddTo TotalSize (Lit 4)
  else SizeError "Unsupported primitive type for Size derive".

Definition size_for_primitive_optional (field_name field_type : string) : list size_stmt :=
  [IfSome "_" field_name [size_for_primitive_internal field_type]].

Definition size_for_primitive (field_type : ty) : list size_stmt :=
  match field_type with
  | TypePath _ segment _ => [size_for_primitive_internal segment]
  | TypeOther => [SizeError "Unsupported field type for Size derive"]
  end.

(** [#size_prefix #prop_ident_size 2 + x.len() as u32]; the items of a property
    are named without [self]. *)
Definition size_for_vec (field_name : string) (arguments : path_arguments)
    (is_property optional : bool) : outcome unit (list size_stmt) :=
  let ident e := if is_property then Plus (Lit 1) e else e in
  let wrap e :=
    if optional then
      [IfSome field_name field_name
         [IfNotEmpty (Name field_name) [AddTo (counter_of is_property) e]]]
    else [IfNotEmpty (SelfDot field_name) [AddTo (counter_of is_property) e]] in
  g ← first_argument arguments;
  match g with
  | Some (GenericType (TypePath _ inner _)) =>
      if is_one_of ["u8"; "i8"] inner then
        let x := if optional then Name field_name else SelfDot field_name in
        Ok (wrap (ident (Plus (Lit 2) (Len x))))
      else if is_one_of ["u16"; "i16"; "u32"; "i32"; "char"] inner then
        Ok (wrap (ErrorExp "Unsupported Vec inner type for CodecSize"))
      else if is_property then Ok (wrap (SumItems (Name field_name) true))
      else Ok (wrap (SumItems (SelfDot field_name) false))
  | _ => Ok [SizeError "Unsupported Vec type for Size derive"]
  end.

Definition size_with_path (field_name : string) (attr : attribute)
    (property_field optional : bool) : outcome unit (list size_stmt) :=
  let call p :=
    let e := CallSize p field_name in
    let stmt := AddTo (counter_of property_field)
                  (if property_field then Plus (Lit 1) e else e) in
    if optional then [IfSome "_" field_name [stmt]] else [stmt] in
  match parse_args attr with
  | Ok nested =>
      r ← find_map (fun m =>
            match m with
            | MetaNameValue p value =>
                if is_ident p "size_with" then
                  match value with
                  | ExprLit (LitStr s) => p ← unwrap (parse_path s); Ok (Some (call p))
                  | ExprLit _ =>
                      Ok (Some [SizeError "Expected string literal for 'size_with' attribute"])
                  | ExprOther =>
                      Ok (Some [SizeError "Expected literal expression for 'size_with' attribute"])
                  end
                else Ok None
            | _ => Ok None
            end) nested;
      Ok (match r with
          | Some tokens => tokens
          | None => [SizeError "Expected 'size_with' attribute with a path literal"]
          end)
  | _ => Ok [SizeError "Failed to parse 'size_with' attribute"]
  end.

Definition size_for_option (field_name : string) (arguments : path_arguments)
    (is_property : bool) : outcome unit (list size_stmt) :=
  g ← first_argument arguments;
  match g with
  | Some (GenericType (TypePath _ inner inner_arguments)) =>
      if inner =? "Vec" then size_for_vec field_name inner_arguments is_property true
      else if inner =? "String" then
        Ok (if is_property then size_for_string_property field_name true
            else size_for_option_string field_name)
      else if is_primitive_type inner then
        Ok (if is_property then size_for_primitive_property field_name inner true
            else size_for_primitive_optional field_name inner)
      else Ok (size_for_codec_size field_name is_property true)
  | _ => Ok [SizeError "Unsupported Option type for Size derive"]
  end.

Definition field_size (field : syn_field) : outcome unit (list size_stmt) :=
  let field_name := sf_ident field in
  let attrs := sf_attrs field in
  skip ← unwrap_or false (skip_field attrs);
  if skip : bool then Ok []
  else
    is_property ← unwrap_result (has_attribute_with_name_value attrs "codec" "property_type");
    codec_size_with ← unwrap_result (has_attribute_with_name_value attrs "codec" "size_with");
    match sf_ty field with
    | TypePath _ segment arguments =>
        if codec_size_with : bool then
          match attribute_with_name_value attrs "codec" "size_with" with
          | Ok (Some attr) => size_with_path field_name attr is_property (segment =? "Option")
          | _ => Ok [SizeError "Invalid 'size_with' attribute for Size derive"]
          end
        else if segment =? "Vec" then size_for_vec field_name arguments is_property false
        else if segment =? "String" then
          Ok (if is_property : bool then size_for_string_property field_name false
              else size_for_string field_name)
        else if segment =? "Option" then size_for_option field_name arguments is_property
        else if is_primitive_type segment then
          Ok (if is_property : bool then size_for_primitive_property field_name segment false
              else size_for_primitive (sf_ty field))
        else Ok (size_for_codec_size field_name is_property false)
    | TypeOther => Ok [SizeError "Unsupported field type for Size derive"]
    end.
(** lib.rs, [derive_codec_property_size] and [derive_codec_size]: a field with
    [skip_if] is guarded. *)
Definition guarded_size (field : syn_field) : outcome unit (list size_stmt) :=
  skip_path ← get_skip_if_path (sf_attrs field);
  field_size_calc ← field_size field;
  Ok (match skip_path with
      | Some p => [IfNot p (sf_ident field) field_size_calc]
      | None => field_size_calc
      end).

(** The tokens of the fields a loop selects, in order. *)
Fixpoint concat_fields {T} (select : syn_field -> outcome unit bool)
    (tokens : syn_field -> outcome unit (list T)) (fs : list syn_field) : outcome unit (list T) :=
  match fs with
  | [] => Ok []
  | f :: fs =>
      b ← select f;
      ts ← (if b : bool then tokens f else Ok []);
      rest ← concat_fields select tokens fs;
      Ok ((ts ++ rest)%list)
  end.

Definition is_property (f : syn_field) : outcome unit bool :=
  unwrap_or false
    (has_attribute_with_name_value (sf_attrs f) CODEC_ATTR CODEC_ATTR_PROPERTY_TYPE_ARG).
Definition is_payload (f : syn_field) : outcome unit bool :=
  unwrap_or false
    (has_attribute_with_name_value (sf_attrs f) CODEC_ATTR CODEC_ATTR_PAYLOAD_ARG).
Definition is_non_abbrev (f : syn_field) : outcome unit bool :=
  unwrap_or false (is_non_abbreviated_field (sf_attrs f)).

(** Neither property nor payload, and in the given half of the header. *)
Definition header_field (non_abbrev : bool) (f : syn_field) : outcome unit bool :=
  prop ← is_property f;
  payload ← is_payload f;
  n ← is_non_abbrev f;
  Ok (negb prop && negb payload && Bool.eqb n non_abbrev).

(** The size loop does not tell payload fields from header fields. *)
Definition sized_field (non_abbrev : bool) (f : syn_field) : outcome unit bool :=
  prop ← is_property f;
  n ← is_non_abbrev f;
  Ok (negb prop && Bool.eqb n non_abbrev).

Definition derive_codec_property_size (input : item_struct)
    : outcome unit (derived (list size_stmt)) :=
  match item_fields input with
  | Unnamed => Ok (ErrorItem "Size cannot be used for tuple structs")
  | Unit => Ok NoImpl
  | Named fs => body ← concat_fields is_property guarded_size fs; Ok (Impl body)
  end.

Definition struct_has_properties (fs : list syn_field) : bool :=
  struct_has_attribute_with_name_value fs CODEC_ATTR CODEC_ATTR_PROPERTY_TYPE_ARG.
Definition struct_has_payload (fs : list syn_field) : bool :=
  struct_has_attribute_with_name_value fs CODEC_ATTR CODEC_ATTR_PAYLOAD_ARG.

(** A unit struct has no fields. *)
Definition named_fields (fs : fields) : option (list syn_field) :=
  match fs with Named l => Some l | Unit => Some [] | Unnamed => None end.

Definition derive_codec_size (input : item_struct) : outcome unit (derived size_body) :=
  match named_fields (item_fields input) with
  | None => Ok (ErrorItem "Size macro does not support tuple structs")
  | Some fs =>
      field_sizes ← concat_fields (sized_field false) guarded_size fs;
      non_abbreviated_field_sizes ← concat_fields (sized_field true) guarded_size fs;
      abbreviated_when ← abbreviated_when_expr (item_attrs input);
      Ok (Impl (if struct_has_properties fs
                then FullSize field_sizes abbreviated_when non_abbreviated_field_sizes
                else PlainSize field_sizes non_abbreviated_field_sizes))
  end.

(** ** encode.rs *)

Definition prop_ident_encode (property_type : option path) : list encode_stmt :=
  match property_type with Some p => [PutProperty p] | None => [] end.

Definition encode_for_string (field_name : string) (is_optional : bool)
    (property_type : option path) : list encode_stmt :=
  if is_optional then
    [EncIfSome "v" field_name
       (prop_ident_encode property_type ++ [EncodeString (Name "v")])%list]
  else (prop_ident_encode property_type ++ [EncodeString (SelfDot field_name)])%list.

Definition encode_for_vec (field : string) (arguments : path_arguments) (is_optional : bool)
    (property_type : option path) : outcome unit (list encode_stmt) :=
  let wrap body := if is_optional then [EncIfSome field field body] else body in
  let x := if is_optional then Name field else SelfDot field in
  g ← first_argument arguments;
  match g with
  | Some (GenericType (TypePath _ inner _)) =>
      if inner =? "u8" then
        Ok (wrap (prop_ident_encode property_type ++ [EncodeArray x])%list)
      else if is_one_of ["i8"; "u16"; "i16"; "i32"; "u32"; "u64"; "i64"; "f32"; "f64"; "bool"] inner
      then Ok [EncodeError "Unsupported Vec inner type for Encode derive"]
      else Ok (wrap [ForItem x
                 (prop_ident_encode property_type ++ [EncodeTrait (Name "item")])%list])
  | Some _ => Ok [EncodeError "Unsupported Vec inner type for Encode derive"]
  | None => Ok [EncodeError "Unsupported Vec type for Encode derive"]
  end.

Definition encode_for_primitive (field_name field_type : string) (is_optional : bool)
    (property_type : option path) : list encode_stmt :=
  let some_field_name := if is_optional then Name "v" else SelfDot field_name in
  let encode :=
    if field_type =? "u8" then PutInt U8 some_field_name
    else if field_type =? "u16" then PutInt U16 some_field_name
    else if field_type =? "u32" then PutInt U32 some_field_name
    else if field_type =? "i8" then PutInt I8 some_field_name
    else if field_type =? "i16" then PutInt I16 some_field_name
    else if field_type =? "i32" then PutInt I32 some_field_name
    else if field_type =? "bool" then PutBool some_field_name
    else EncodeError "Unsupported primitive type for MQTT codec encoding" in
  if is_optional then
    [EncIfSome "v" field_name (prop_ident_encode property_type ++ [encode])%list]
  else (prop_ident_encode property_type ++ [encode])%list.

Definition encode_for_option (field_name : string) (arguments : path_arguments)
    (property_type : option path) : outcome unit (list encode_stmt) :=
  g ← first_argument arguments;
  match g with
  | None => Ok [EncodeError "Unsupported Option type for Size derive"]
  | Some (GenericType (TypePath _ inner inner_arguments)) =>
      if inner =? "String" then Ok (encode_for_string field_name true property_type)
      else if inner =? "Vec" then encode_for_vec field_name inner_arguments true property_type
      else if is_primitive_type inner then
        Ok (encode_for_primitive field_name inner true property_type)
      else
        Ok [EncIfSome field_name field_name
              (prop_ident_encode property_type ++ [EncodeTrait (Name field_name)])%list]
  | Some _ => Ok [EncodeError "Unsupported Option inner type for Encode derive"]
  end.

Definition encode_for_encode_with (field_name : string) (attr : attribute)
    (optional_field : bool) (property_type : option path) : outcome unit (list encode_stmt) :=
  let call p := (prop_ident_encode property_type ++ [CallEncode p field_name])%list in
  match parse_args attr with
  | Ok nested =>
      r ← name_value_path CODEC_ATTR_ENCODE_WITH_ARG nested;
      Ok (match r with
          | Some p => if optional_field then [EncIfSome "f" field_name (call p)] else call p
          | None => [EncodeError "Unsupported custom encode attribute for Encode derive"]
          end)
  | _ => Ok [EncodeError "Unsupported custom encode attribute for Encode derive"]
  end.

Definition encode_field (field : syn_field) : outcome unit (list encode_stmt) :=
  let field_name := sf_ident field in
  let attrs := sf_attrs field in
  skip ← unwrap_result (skip_field attrs);
  if skip : bool then Ok []
  else
    is_property ← unwrap_result
      (has_attribute_with_name_value attrs CODEC_ATTR CODEC_ATTR_PROPERTY_TYPE_ARG);
    encode_with ← unwrap_result
      (attribute_with_name_value attrs CODEC_ATTR CODEC_ATTR_ENCODE_WITH_ARG);
    property_type ← property_type attrs;
    match property_type, is_property with
    | None, true => Ok [EncodeError "Property attribute requires a property_type argument"]
    | _, _ =>
        _ ← payload_type attrs;
        let property_type_ident := if is_property : bool then property_type else None in
        match sf_ty field with
        | TypePath _ segment arguments =>
            match encode_with with
            | Some attr =>
                encode_for_encode_with field_name attr (segment =? "Option") property_type_ident
            | None =>
                if segment =? "String" then
                  Ok (encode_for_string field_name false property_type_ident)
                else if segment =? "Vec" then
                  encode_for_vec field_name arguments false property_type_ident
                else if segment =? "Option" then
                  encode_for_option field_name arguments property_type_ident
                else if is_primitive_type segment then
                  Ok (encode_for_primitive field_name segment false property_type_ident)
                else Ok [EncodeTrait (SelfDot field_name)]
            end
        | TypeOther => Ok [EncodeError "Unsupported field type for Encode derive"]
        end
    end.

Definition guarded_encode (field : syn_field) : outcome unit (list encode_stmt) :=
  inner_expr ← encode_field field;
  skip_path ← get_skip_if_path (sf_attrs field);
  Ok (match skip_path with
      | Some p => [EncIfNot p (sf_ident field) inner_expr]
      | None => inner_expr
      end).

Definition property_encode_internal (input : item_struct)
    : outcome unit (derived (list encode_item)) :=
  match named_fields (item_fields input) with
  | None => Ok (ErrorItem "Encode does not support tuple structs")
  | Some fs =>
      if struct_has_properties fs then
        encoded ← concat_fields is_property guarded_encode fs;
        Ok (Impl [EncodePropertySize; EncodeStmts encoded])
      else Ok (Impl [])
  end.

Definition encode_internal (input : item_struct) (as_packet : bool)
    : outcome unit (derived (list encode_item)) :=
  as_packet' ← is_as_packet (item_attrs input);
  match named_fields (item_fields input) with
  | None => Ok (ErrorItem "Encode does not support tuple structs")
  | Some fs =>
      header_fields ← concat_fields (header_field false) guarded_encode fs;
      non_abbreviated_header_fields ← concat_fields (header_field true) guarded_encode fs;
      payload_fields ← (if struct_has_payload fs then concat_fields is_payload guarded_encode fs
                        else Ok []);
      abbreviated_when ← abbreviated_when_expr (item_attrs input);
      Ok (Impl
        ((if as_packet || as_packet' then [EncodeFixedHeader; EncodeCodecSize] else [])
         ++ [EncodeStmts header_fields]
         ++ match abbreviated_when with Some e => [ReturnIf e] | None => [] end
         ++ [EncodeStmts non_abbreviated_header_fields]
         ++ (if struct_has_properties fs then [PropertyEncode] else [])
         ++ [EncodeStmts payload_fields])%list)
  end.

(** ** decode.rs *)

Definition read_of (property_type : option path) : read_counter :=
  match property_type with Some _ => property_bytes_read | None => bytes_read end.

Definition String_ty : ty := TypePath [] "String" PathNone.

Definition decode_for_string (field_name : string) (optional_field : bool)
    (property_type : option path) : list decode_stmt :=
  if optional_field then [DecodeSome String_ty field_name (read_of property_type)]
  else [DecodeSelf field_name (read_of property_type)].

Definition decode_for_primitive (field_name : string) (field_type : ty) (optional_field : bool)
    (property_type : option path) : list decode_stmt :=
  let read := read_of property_type in
  let assign r n := [AssignGet field_name optional_field r read n] in
  match field_type with
  | TypePath _ segment _ =>
      if segment =? "u8" then assign (GetInt U8) 1%Z
      else if segment =? "i8" then assign (GetInt I8) 1%Z
      else if segment =? "u16" then assign (GetInt U16) 2%Z
      else if segment =? "i16" then assign (GetInt I16) 2%Z
      else if segment =? "u32" then assign (GetInt U32) 4%Z
      else if segment =? "i32" then assign (GetInt I32) 4%Z
      else if segment =? "bool" then assign GetBool 1%Z
      else [DecodeError "Unsupported primitive type for Decode derive"]
  | TypeOther => [DecodeError "Unsupported primitive type for Decode derive"]
  end.

Definition decode_for_type (field_name : string) (field_type : ty) (optional_field : bool)
    (property_type : option path) : list decode_stmt :=
  if optional_field then [DecodeSome field_type field_name (read_of property_type)]
  else [DecodeSelf field_name (read_of property_type)].

(** Whatever the field is, the bytes are counted in [bytes_read]; a [Vec] of
    another type is assigned without [Some]. *)
Definition decode_for_vec (field_name : string) (arguments : path_arguments)
    (optional_field : bool) : outcome unit (list decode_stmt) :=
  g ← first_argument arguments;
  match g with
  | Some (GenericType (TypePath q inner a)) =>
      if inner =? "u8" then Ok [DecodeBytes field_name optional_field]
      else if is_one_of ["i8"; "u16"; "i16"; "u32"; "i32"; "u64"; "i64"; "f32"; "f64"; "bool"] inner
      then
        Ok [DecodeError "Decode derive does not support Vec of primitive types except Vec<u8>"]
      else if inner =? "String" then Ok [DecodeItems String_ty field_name optional_field]
      else Ok [DecodeItems (TypePath q inner a) field_name false]
  | _ => Ok [DecodeError "Unsupported Vec inner type for Decode derive"]
  end.

(** An attribute whose value is not a string literal leaves [decode_path]
    empty, and its [unwrap] panics. *)
Definition decode_for_decode_with (field_name : string) (attr : attribute)
    (property_type : option path) : outcome unit (list decode_stmt) :=
  match parse_args attr with
  | Ok nested =>
      decode_path ← name_value_path CODEC_ATTR_DECODE_WITH_ARG nested;
      decode_with ← unwrap decode_path;
      Ok [CallDecode decode_with field_name (read_of property_type)]
  | _ => Ok [DecodeError "decode_with attribute requires a function path"]
  end.

(** [None] is the compile error of an [Option] without a path as argument. *)
Definition option_inner (segment : string) (field_type : ty) (arguments : path_arguments)
    : outcome unit (option (bool * ty)) :=
  if segment =? "Option" then
    g ← first_argument arguments;
    Ok (match g with
        | Some (GenericType (TypePath q i a)) => Some (true, TypePath q i a)
        | _ => None
        end)
  else Ok (Some (false, field_type)).

Definition decode_field (field : syn_field) : outcome unit field_tokens :=
  let field_name := sf_ident field in
  let attrs := sf_attrs field in
  skip ← unwrap_or false (skip_field attrs);
  if skip : bool then Ok NoTokens
  else
    is_property ← unwrap_result
      (has_attribute_with_name_value attrs CODEC_ATTR CODEC_ATTR_PROPERTY_TYPE_ARG);
    decode_with ← unwrap_result
      (attribute_with_name_value attrs CODEC_ATTR CODEC_ATTR_DECODE_WITH_ARG);
    property_type ← property_type attrs;
    match property_type, is_property with
    | None, true => Ok (Stmts [DecodeError "Property attribute requires a property_type argument"])
    | _, _ =>
        match sf_ty field with
        | TypePath _ segment arguments =>
            inner ← option_inner segment (sf_ty field) arguments;
            match inner with
            | None => Ok (Stmts [DecodeError "Unsupported Option inner type for Decode derive"])
            | Some (optional_field, inner_field_type) =>
                field_decode ←
                  match decode_with with
                  | Some attr => decode_for_decode_with field_name attr property_type
                  | None =>
                      if segment =? "String" then
                        Ok (decode_for_string field_name optional_field property_type)
                      else if segment =? "Vec" then
                        decode_for_vec field_name arguments optional_field
                      else if is_primitive_type segment then
                        Ok (decode_for_primitive field_name inner_field_type optional_field
                              property_type)
                      else
                        Ok (decode_for_type field_name inner_field_type optional_field
                              property_type)
                  end;
                Ok (match property_type, is_property with
                    | Some p, true => Arm p field_decode
                    | _, _ => Stmts field_decode
                    end)
            end
        | TypeOther => Ok (Stmts [DecodeError "Unsupported field type for Decode derive"])
        end
    end.

Definition decode_tokens (field : syn_field) : outcome unit (list field_tokens) :=
  t ← decode_field field; Ok [t].

Definition has_payload_type (kind : string) (f : syn_field) : outcome unit bool :=
  t ← payload_type (sf_attrs f);
  Ok (match t with Some t => t =? kind | None => false end).

Definition decode_internal (input : item_struct) : outcome unit (derived (list decode_item)) :=
  min_decode_size ← min_decode_size (item_attrs input);
  match named_fields (item_fields input) with
  | None => Ok (ErrorItem "Decode does not support tuple structs")
  | Some fs =>
      header_field_decoded ← concat_fields (header_field false) decode_tokens fs;
      non_abbreviated_header_decoded ← concat_fields (header_field true) decode_tokens fs;
      property_field_decode ← concat_fields is_property decode_tokens fs;
      let has_payload := struct_has_payload fs in
      decode_field_payload ←
        (if has_payload
         then concat_fields (has_payload_type CODEC_ATTR_PAYLOAD_TYPE_FIELD) decode_tokens fs
         else Ok []);
      decode_remaining_payload ←
        (if has_payload
         then concat_fields (has_payload_type CODEC_ATTR_PAYLOAD_TYPE_REMAINING) decode_tokens fs
         else Ok []);
      if (1 <? length decode_remaining_payload)%nat then
        Ok (ErrorItem "Only one field can be marked with payload_type")
      else
        let min_size_check :=
          match min_decode_size with Some n => [MinSizeCheck n] | None => [] end in
        abbreviated_when ← abbreviated_when_expr (item_attrs input);
        Ok (Impl
          (min_size_check
           ++ map DecodeTokens header_field_decoded
           ++ match abbreviated_when with Some _ => [ReturnIfEmpty] | None => [] end
           ++ map DecodeTokens non_abbreviated_header_decoded
           ++ min_size_check
           ++ (if struct_has_properties fs then [DecodeProperties property_field_decode] else [])
           ++ map DecodeTokens decode_field_payload
           ++ map DecodeTokens decode_remaining_payload)%list)
  end.

(** ** lib.rs: the derives together, and the [packet] attribute *)

(** The implementations a struct gets from [PropertyCodecSize], [CodecSize],
    [PropertyEncode], [Encode] and [Decode]. *)
Record expansion := Expansion {
  x_codec_size : derived size_body;
  x_property_size : derived (list size_stmt);
  x_property_encode : derived (list encode_item);
  x_encode : derived (list encode_item);
  x_decode : derived (list decode_item);
}.

(** [#[derive(PropertyCodecSize, CodecSize, PropertyEncode, Encode, Decode)]]. *)
Definition derive_all (input : item_struct) : outcome unit expansion :=
  codec_size_impl ← derive_codec_size input;
  property_size_impl ← derive_codec_property_size input;
  property_encode_impl ← property_encode_internal input;
  encode_impl ← encode_internal input false;
  decode_impl ← decode_internal input;
  Ok (Expansion codec_size_impl property_size_impl property_encode_impl encode_impl decode_impl).

(** [attr.parse_args_with(Punctuated::<Path, Token![,]>::parse_terminated)]. *)
Definition parse_paths (a : attribute) : option (list path) :=
  match attr_args a with
  | Some l => mapM (fun m => match m with MetaPath p => Some p | _ => None end) l
  | None => None
  end.

Definition derives_default (a : attribute) : bool :=
  is_ident (attr_path a) "derive"
  && match parse_paths a with Some l => existsb (fun p => is_ident p "Default") l | None => false end.

(** [Default] leaves the list of derives; a list left empty becomes
    [#[cfg(any())]]. *)
Definition drop_default (a : attribute) : attribute :=
  if is_ident (attr_path a) "derive" then
    match parse_paths a with
    | Some l =>
        match List.filter (fun p => negb (is_ident p "Default")) l with
        | [] => Attribute "cfg" (Some [MetaList "any"])
        | l => Attribute "derive" (Some (map MetaPath l))
        end
    | None => a
    end
  else a.

Definition FixedHeader_ty : ty := TypePath ["codec"] "FixedHeader" PathNone.

(** The items the attribute emits: the struct without [packet] and [codec]
    attributes and with the fixed header as its first field, [impl Default] with
    the packet type and the fields to default, [new_with_fixed_header] with the
    packet type it accepts, and the implementations. *)
Record packet_items := PacketItems {
  pi_struct : item_struct;
  pi_default : option (option path * list string);
  pi_packet_type : option path;
  pi_impls : expansion;
}.

Definition packet (args : meta) (input : item_struct) : outcome unit (derived packet_items) :=
  codec_size_impl ← derive_codec_size input;
  codec_property_size_impl ← derive_codec_property_size input;
  property_encode_impl ← property_encode_internal input;
  encode_impl ← encode_internal input true;
  skip_decode ← is_skip_decode (item_attrs input);
  decode_impl ← (if skip_decode : bool then Ok NoImpl else decode_internal input);
  packet_type ← get_packet_type args;
  let struct_attrs := filter_attributes (item_attrs input) [PACKET_ATTR; CODEC_ATTR] in
  let has_default_derive := existsb derives_default struct_attrs in
  let struct_attrs := if has_default_derive then map drop_default struct_attrs else struct_attrs in
  match named_fields (item_fields input) with
  | None => Ok (ErrorItem "packet attribute cannot be applied to tuple structs")
  | Some fs =>
      let struct_fields := SynField [] "fixed_header" FixedHeader_ty
        :: map (fun f => SynField (filter_attributes (sf_attrs f) [CODEC_ATTR])
                  (sf_ident f) (sf_ty f)) fs in
      Ok (Impl (PacketItems
        (ItemStruct struct_attrs (item_ident input) (Named struct_fields))
        (if has_default_derive then Some (packet_type, map sf_ident fs) else None)
        packet_type
        (Expansion codec_size_impl codec_property_size_impl property_encode_impl encode_impl
           decode_impl)))
  end.

End generators.
