(* ===== verification/MacroMeaning.v ===== *)
(** * vaux-macro: what the generated code does *)
(** The generated code runs on a Rust struct whose fields have types.  Here the
    code runs on the typed description of the struct ([Macro]): a field name in
    the code is looked up among the declared fields, each paired with its
    description, and a statement means what the Rust statement does on a value
    of that type.  A statement that does not type-check, names a local that is
    not bound, or calls a function the field does not declare, has no meaning
    ([None]): rustc refuses such code.  Paths are resolved to what the struct
    declares under that path: a property identifier, a [skip_if] predicate, the
    three [*_with] functions, the [abbreviated_when] expression. *)

From S2P Require Import Prelude Bytes MacroSyntax MacroExpand.
From S2P Require Import Codec Fixed Property Macro.

#[local] Open Scope string_scope.

(** ** Names *)

(** The variants of [PropertyType] as the attributes write them. *)
Definition PropertyType_paths : list (string * PropertyType) :=
  [ ("PropertyType::PayloadFormat", PropertyType.PayloadFormat);
    ("PropertyType::MessageExpiry", PropertyType.MessageExpiry);
    ("PropertyType::ContentType", PropertyType.ContentType);
    ("PropertyType::ResponseTopic", PropertyType.ResponseTopic);
    ("PropertyType::CorrelationData", PropertyType.CorrelationData);
    ("PropertyType::SubscriptionIdentifier", PropertyType.SubscriptionIdentifier);
    ("PropertyType::SessionExpiryInterval", PropertyType.SessionExpiryInterval);
    ("PropertyType::AssignedClientId", PropertyType.AssignedClientId);
    ("PropertyType::KeepAlive", PropertyType.KeepAlive);
    ("PropertyType::AuthMethod", PropertyType.AuthMethod);
    ("PropertyType::AuthData", PropertyType.AuthData);
    ("PropertyType::ReqProblemInfo", PropertyType.ReqProblemInfo);
    ("PropertyType::WillDelay", PropertyType.WillDelay);
    ("PropertyType::ReqRespInfo", PropertyType.ReqRespInfo);
    ("PropertyType::RespInfo", PropertyType.RespInfo);
    ("PropertyType::ServerReference", PropertyType.ServerReference);
    ("PropertyType::ReasonString", PropertyType.ReasonString);
    ("PropertyType::RecvMax", PropertyType.RecvMax);
    ("PropertyType::TopicAliasMax", PropertyType.TopicAliasMax);
    ("PropertyType::TopicAlias", PropertyType.TopicAlias);
    ("PropertyType::MaxQoS", PropertyType.MaxQoS);
    ("PropertyType::RetainAvail", PropertyType.RetainAvail);
    ("PropertyType::UserProperty", PropertyType.UserProperty);
    ("PropertyType::MaxPacketSize", PropertyType.MaxPacketSize);
    ("PropertyType::WildcardSubAvail", PropertyType.WildcardSubAvail);
    ("PropertyType::SubIdAvail", PropertyType.SubIdAvail);
    ("PropertyType::ShardSubAvail", PropertyType.ShardSubAvail) ].

Fixpoint assoc {A} (x : string) (l : list (string * A)) : option A :=
  match l with
  | [] => None
  | (y, a) :: l => if x =? y then Some a else assoc x l
  end.

Definition resolve_property (p : path) : option PropertyType := assoc p PropertyType_paths.

(** Equality of types, for [T::default()] against the declared type. *)
Fixpoint ty_eqb (t u : ty) {struct t} : bool :=
  match t, u with
  | TypePath q i a, TypePath q' i' a' =>
      bool_decide (q = q') && (i =? i')
      && match a, a' with
         | PathNone, PathNone => true
         | Parenthesized, Parenthesized => true
         | AngleBracketed l, AngleBracketed l' =>
             (fix go (l l' : list generic_argument) : bool :=
                match l, l' with
                | [], [] => true
                | GenericType t :: l, GenericType u :: l' => ty_eqb t u && go l l'
                | GenericOther :: l, GenericOther :: l' => go l l'
                | _, _ => false
                end) l l'
         | _, _ => false
         end
  | TypeOther, TypeOther => true
  | _, _ => false
  end.

(** The [t] of [f<t>]. *)
Definition type_argument (f : string) (u : ty) : option ty :=
  match u with
  | TypePath _ g (AngleBracketed [GenericType t]) => if g =? f then Some t else None
  | _ => None
  end.

Definition applied (f : string) (t u : ty) : bool :=
  match type_argument f u with Some u => ty_eqb t u | None => false end.

Section meaning.
Context {B : Buf} {HI : HashIter} {SY : Syn} {S : Type}.

(** A declared field and its description. *)
Record entry := Entry { e_decl : syn_field; e_field : field S }.
Implicit Types (env : list entry) (s : S).

Definition find_entry env (f : string) : option entry :=
  List.find (fun e => sf_ident (e_decl e) =? f) env.

(** The path a field declares under [size_with], [encode_with] or [decode_with]. *)
Definition with_path (key : string) (attrs : list attribute) : outcome unit (option path) :=
  a ← attribute_with_name_value attrs CODEC_ATTR key;
  match a with
  | Some a => nested ← parse_args a; name_value_path key nested
  | None => Ok None
  end.

Definition names (o : outcome unit (option path)) (p : path) : bool :=
  match o with Ok (Some q) => q =? p | _ => false end.

(** ** Values *)

Inductive val :=
| Val {A} (t : fty A) (v : A) : val.

Definition place_val env (locals : list (string * val)) s (x : place) : option val :=
  match x with
  | SelfDot f => e ← find_entry env f; Some (Val (f_ty (e_field e)) (f_get (e_field e) s))
  | Name x => assoc x locals
  end.

(** [if let Some(x) = v]: whether it matches, and the value it binds.  The
    value behind the [*_with] functions has no other use. *)
Definition match_some (v : val) : option (option (option val)) :=
  match v with
  | Val t v =>
      match t in fty A return A -> option (option (option val)) with
      | Opt t => fun o => Some (match o with Some v => Some (Some (Val (Scalar t) v)) | None => None end)
      | OptWith w => fun o => Some (match o with Some _ => Some None | None => None end)
      | _ => fun _ => None
      end v
  end.

Definition bind_some (x : string) (v : option val) (locals : list (string * val))
    : list (string * val) :=
  match v with Some v => (x, v) :: locals | None => locals end.

(** [v.len() as u32] and [v.is_empty()]. *)
Definition val_len (v : val) : option Z :=
  match v with
  | Val t v =>
      match t in fty A return A -> option Z with
      | Scalar t =>
          match t in sty A return A -> option Z with
          | SString => fun v => Some (u32 (len v))
          | _ => fun _ => None
          end
      | VecU8 => fun v => Some (u32 (len v))
      | _ => fun _ => None
      end v
  end.

Definition val_is_empty (v : val) : option bool :=
  match v with
  | Val t v =>
      match t in fty A return A -> option bool with
      | VecU8 => fun v => Some (is_empty v)
      | Vec => fun v => Some (is_empty v)
      | _ => fun _ => None
      end v
  end.

Definition val_codec_size (v : val) : option Z :=
  match v with
  | Val t v =>
      match t in fty A return A -> option Z with
      | Scalar t =>
          match t in sty A return A -> option Z with
          | SType => fun v => Some (codec_size v)
          | _ => fun _ => None
          end
      | _ => fun _ => None
      end v
  end.

Definition val_property_size (v : val) : option Z :=
  match v with
  | Val t v =>
      match t in fty A return A -> option Z with
      | Scalar t =>
          match t in sty A return A -> option Z with
          | SPropType => fun v => Some (property_size v)
          | _ => fun _ => None
          end
      | Props => fun m => Some (property_size m)
      | _ => fun _ => None
      end v
  end.

(** The elements of a [Vec] of a type with its own implementations. *)
Definition val_items (v : val) : option (list val) :=
  match v with
  | Val t v =>
      match t in fty A return A -> option (list val) with
      | Vec => fun l => Some ((fun item => Val (Scalar SType) item) <$> l)
      | _ => fun _ => None
      end v
  end.

(** [p(&self.f)] for the [size_with] function and for the [skip_if] predicate. *)
Definition call_size env s (p : path) (f : string) : option Z :=
  e ← find_entry env f;
  if names (with_path "size_with" (sf_attrs (e_decl e))) p then
    match f_size_with (e_field e) with
    | Some size => Some (size (f_get (e_field e) s))
    | None =>
        match f_ty (e_field e) in fty A return A -> option Z with
        | OptWith w => fun o => Some (with_size w o)
        | _ => fun _ => None
        end (f_get (e_field e) s)
    end
  else None.

Definition call_skip env s (p : path) (f : string) : option bool :=
  e ← find_entry env f;
  if names (get_skip_if_path (sf_attrs (e_decl e))) p then
    (fun skip => skip (f_get (e_field e) s)) <$> f_skip_if (e_field e)
  else None.

(** ** Running size code *)

(** The two counters and [value_size]. *)
Record sizes := Sizes { z_total : Z; z_property : Z; z_value : option Z }.

Definition bump (c : counter) (n : Z) (z : sizes) : sizes :=
  match c with
  | TotalSize => Sizes (add_u32 (z_total z) n) (z_property z) (z_value z)
  | PropSize => Sizes (z_total z) (add_u32 (z_property z) n) (z_value z)
  end.

Fixpoint eval_size env (locals : list (string * val)) s (z : sizes) (e : size_exp) : option Z :=
  match e with
  | Lit n => Some n
  | Len x => v ← place_val env locals s x; val_len v
  | ValueSize => z_value z
  | CodecSizeOf x => v ← place_val env locals s x; val_codec_size v
  | PropertySizeOf x => v ← place_val env locals s x; val_property_size v
  | SumItems x ident =>
      v ← place_val env locals s x;
      items ← val_items v;
      ns ← mapM val_codec_size items;
      Some (sum_u32 ((fun n => if ident then add_u32 1 n else n) <$> ns))
  | CallSize p f => call_size env s p f
  | Plus a b =>
      a ← eval_size env locals s z a; b ← eval_size env locals s z b; Some (add_u32 a b)
  | ErrorExp _ => None
  end.

Section run_list.
Context {A St : Type} (step : A -> St -> option St).
Fixpoint run_list (l : list A) (st : St) : option St :=
  match l with
  | [] => Some st
  | a :: l => st ← step a st; run_list l st
  end.
End run_list.

(** A local of a block ends with it. *)
Definition leave (z : sizes) (z' : sizes) : sizes := Sizes (z_total z') (z_property z') (z_value z).

Fixpoint run_size_stmt env s (locals : list (string * val)) (c : size_stmt) (z : sizes)
    {struct c} : option sizes :=
  match c with
  | LetValueSize e =>
      n ← eval_size env locals s z e; Some (Sizes (z_total z) (z_property z) (Some n))
  | AddTo c e => n ← eval_size env locals s z e; Some (bump c n z)
  | IfSome x f body =>
      v ← place_val env locals s (SelfDot f);
      r ← match_some v;
      match r with
      | Some v => leave z <$> run_list (run_size_stmt env s (bind_some x v locals)) body z
      | None => Some z
      end
  | IfNotEmpty x body =>
      v ← place_val env locals s x;
      e ← val_is_empty v;
      if e : bool then Some z else leave z <$> run_list (run_size_stmt env s locals) body z
  | IfNot p f body =>
      b ← call_skip env s p f;
      if b : bool then Some z else leave z <$> run_list (run_size_stmt env s locals) body z
  | SizeError _ => None
  end.

Definition run_sizes env s : list size_stmt -> sizes -> option sizes :=
  run_list (run_size_stmt env s []).

(** ** Running encoders *)

Definition int_put (w : int_ty) (v : val) : option (Codec unit) :=
  match v with
  | Val t v =>
      match t in fty A return A -> option (Codec unit) with
      | Scalar t =>
          match t in sty A return A -> option (Codec unit) with
          | SU8 => fun v => match w with U8 => Some (put_u8 v) | _ => None end
          | SU16 => fun v => match w with U16 => Some (put_u16 v) | _ => None end
          | SU32 => fun v => match w with U32 => Some (put_u32 v) | _ => None end
          | _ => fun _ => None
          end
      | _ => fun _ => None
      end v
  end.

Definition bool_put (v : val) : option (Codec unit) :=
  match v with
  | Val t v =>
      match t in fty A return A -> option (Codec unit) with
      | Scalar t =>
          match t in sty A return A -> option (Codec unit) with
          | SBool => fun v => Some (put_u8 (if v then 1 else 0))
          | _ => fun _ => None
          end
      | _ => fun _ => None
      end v
  end.

Definition string_put (v : val) : option (Codec unit) :=
  match v with
  | Val t v =>
      match t in fty A return A -> option (Codec unit) with
      | Scalar t =>
          match t in sty A return A -> option (Codec unit) with
          | SString => fun v => Some (encode_string v)
          | _ => fun _ => None
          end
      | _ => fun _ => None
      end v
  end.

Definition array_put (v : val) : option (Codec unit) :=
  match v with
  | Val t v =>
      match t in fty A return A -> option (Codec unit) with
      | VecU8 => fun v => Some (encode_array_field v)
      | _ => fun _ => None
      end v
  end.

Definition trait_put (v : val) : option (Codec unit) :=
  match v with
  | Val t v =>
      match t in fty A return A -> option (Codec unit) with
      | Scalar t =>
          match t in sty A return A -> option (Codec unit) with
          | SType => fun v => Some (encode v)
          | SPropType => fun v => Some (encode v)
          | _ => fun _ => None
          end
      | Props => fun m => Some (encode m)
      | _ => fun _ => None
      end v
  end.

Definition call_encode env s (p : path) (f : string) : option (Codec unit) :=
  e ← find_entry env f;
  if names (with_path CODEC_ATTR_ENCODE_WITH_ARG (sf_attrs (e_decl e))) p then
    match f_ty (e_field e) in fty A return A -> option (Codec unit) with
    | OptWith w => fun o => Some (with_encode w o)
    | _ => fun _ => None
    end (f_get (e_field e) s)
  else None.

Section seq_list.
Context {A : Type} (step : A -> option (Codec unit)).
Fixpoint seq_list (l : list A) : option (Codec unit) :=
  match l with
  | [] => Some (mret tt)
  | a :: l => m ← step a; k ← seq_list l; Some (m ≫= fun _ => k)
  end.
End seq_list.

Fixpoint run_encode_stmt env s (locals : list (string * val)) (c : encode_stmt) {struct c}
    : option (Codec unit) :=
  match c with
  | PutProperty p => t ← resolve_property p; Some (put_u8 (PropertyType_as_u8 t))
  | PutInt w x => v ← place_val env locals s x; int_put w v
  | PutBool x => v ← place_val env locals s x; bool_put v
  | EncodeString x => v ← place_val env locals s x; string_put v
  | EncodeArray x => v ← place_val env locals s x; array_put v
  | EncodeTrait x => v ← place_val env locals s x; trait_put v
  | CallEncode p f => call_encode env s p f
  | EncIfSome x f body =>
      v ← place_val env locals s (SelfDot f);
      r ← match_some v;
      match r with
      | Some v => seq_list (run_encode_stmt env s (bind_some x v locals)) body
      | None => Some (mret tt)
      end
  | EncIfNot p f body =>
      b ← call_skip env s p f;
      if b : bool then Some (mret tt) else seq_list (run_encode_stmt env s locals) body
  | ForItem x body =>
      v ← place_val env locals s x;
      items ← val_items v;
      seq_list (fun item => seq_list (run_encode_stmt env s (("item", item) :: locals)) body) items
  | EncodeError _ => None
  end.

Definition run_encodes env s : list encode_stmt -> option (Codec unit) :=
  seq_list (run_encode_stmt env s []).

(** ** Running decoders *)

Definition counts_property (c : read_counter) : bool :=
  match c with property_bytes_read => true | bytes_read => false end.

(** [self.f = v; c += n;] for a field [F]. *)
Definition assign (F : field S) (c : read_counter) (v : f_type F) (n : Z) (st : dstate S)
    : dstate S :=
  count_read (counts_property c) n (set_self (f_set F v) st).

Abbreviation decoder := (dstate S -> Codec (dstate S)).

(** The scalar type a reader returns. *)
Definition reader_fits {A} (t : sty A) (r : reader) : bool :=
  match t, r with
  | SU8, GetInt U8 | SU16, GetInt U16 | SU32, GetInt U32 | SBool, GetBool => true
  | _, _ => false
  end.

Definition read_sty {A} (t : sty A) : option (Codec A) :=
  match t in sty A return option (Codec A) with
  | SU8 => Some get_u8
  | SU16 => Some get_u16
  | SU32 => Some get_u32
  | SBool => Some (b ← get_u8; mret (negb (b =? 0)%Z))
  | _ => None
  end.

Definition run_assign_get (F : field S) (some : bool) (r : reader) (c : read_counter) (n : Z)
    : option decoder :=
  match f_ty F in fty A return (A -> dstate S -> dstate S) -> option decoder with
  | Scalar t => fun set =>
      if negb some && reader_fits t r then
        get ← read_sty t; Some (fun st => v ← get; mret (set v st))
      else None
  | Opt t => fun set =>
      if some && reader_fits t r then
        get ← read_sty t; Some (fun st => v ← get; mret (set (Some v) st))
      else None
  | _ => fun _ => None
  end (fun v => assign F c v n).

Definition run_decode_self (F : field S) (c : read_counter) : option decoder :=
  match f_ty F in fty A
    return (S -> A) -> (A -> Z -> dstate S -> dstate S) -> option decoder with
  | Scalar t => fun get set =>
      Some (fun st => '(v, n) ← sty_trait_decode t (get (d_self st)); mret (set v n st))
  | Props => fun get set =>
      Some (fun st => '(v, n) ← decode (get (d_self st)); mret (set v n st))
  | _ => fun _ _ => None
  end (f_get F) (assign F c).

Definition run_decode_some (F : field S) (c : read_counter) : option decoder :=
  match f_ty F in fty A return (A -> Z -> dstate S -> dstate S) -> option decoder with
  | Opt t => fun set =>
      Some (fun st => '(v, n) ← sty_trait_decode t (sty_default t); mret (set (Some v) n st))
  | _ => fun _ => None
  end (assign F c).

Definition run_decode_bytes (F : field S) (some : bool) : option decoder :=
  match f_ty F in fty A return (A -> Z -> dstate S -> dstate S) -> option decoder with
  | VecU8 => fun set =>
      if some then None
      else Some (fun st => '(v, n) ← VecU8_decode []; mret (set v n st))
  | _ => fun _ => None
  end (assign F bytes_read).

Definition run_decode_items (F : field S) (some : bool) : option decoder :=
  match f_ty F in fty A return (A -> Z -> dstate S -> dstate S) -> option decoder with
  | Vec => fun set =>
      if some then None
      else Some (fun st => '(v, n) ← decode_items (decode dflt) []; mret (set v n st))
  | _ => fun _ => None
  end (assign F bytes_read).

Definition run_call_decode (F : field S) (c : read_counter) : option decoder :=
  match f_ty F in fty A return (A -> Z -> dstate S -> dstate S) -> option decoder with
  | OptWith w => fun set => Some (fun st => '(v, n) ← with_decode w; mret (set v n st))
  | _ => fun _ => None
  end (assign F c).

Definition run_decode_stmt env (d : decode_stmt) : option decoder :=
  match d with
  | AssignGet f some r c n => e ← find_entry env f; run_assign_get (e_field e) some r c n
  | DecodeSelf f c => e ← find_entry env f; run_decode_self (e_field e) c
  | DecodeSome t f c =>
      e ← find_entry env f;
      if applied "Option" t (sf_ty (e_decl e)) then run_decode_some (e_field e) c else None
  | DecodeBytes f some => e ← find_entry env f; run_decode_bytes (e_field e) some
  | DecodeItems t f some =>
      e ← find_entry env f;
      if applied "Vec" t (sf_ty (e_decl e)) then run_decode_items (e_field e) some else None
  | CallDecode p f c =>
      e ← find_entry env f;
      if names (with_path CODEC_ATTR_DECODE_WITH_ARG (sf_attrs (e_decl e))) p
      then run_call_decode (e_field e) c else None
  | DecodeError _ => None
  end.

Fixpoint run_decode_stmts env (l : list decode_stmt) : option decoder :=
  match l with
  | [] => Some mret
  | d :: l => m ← run_decode_stmt env d; k ← run_decode_stmts env l;
              Some (fun st => st ← m st; k st)
  end.

(** Statements outside the property match, and the arms inside it. *)
Definition run_tokens env (t : field_tokens) : option decoder :=
  match t with
  | NoTokens => Some mret
  | Stmts l => run_decode_stmts env l
  | Arm _ _ => None
  end.

Definition run_arm env (t : field_tokens) : option (list (PropertyType * decoder)) :=
  match t with
  | NoTokens => Some []
  | Stmts _ => None
  | Arm p l => t ← resolve_property p; m ← run_decode_stmts env l; Some [(t, m)]
  end.

(** [match property_type { arms  _ => error }]. *)
Definition select_arm (arms : list (PropertyType * decoder)) (p : PropertyType) : decoder :=
  match List.find (fun a => bool_decide (a.1 = p)) arms with
  | Some (_, m) => m
  | None => fun _ => raise (new_with_kind (UnsupportedProperty (PropertyType_as_u8 p)))
  end.

Fixpoint run_decode_body env (l : list decode_item) : option decoder :=
  match l with
  | [] => Some mret
  | i :: l =>
      k ← run_decode_body env l;
      match i with
      | MinSizeCheck n =>
          Some (fun st => stop ← min_size_check (Some n) (d_bytes_read st);
                          if stop : bool then mret st else k st)
      | DecodeTokens t => m ← run_tokens env t; Some (fun st => st ← m st; k st)
      | ReturnIfEmpty => Some (fun st => more ← has_remaining; if more : bool then k st else mret st)
      | DecodeProperties ts =>
          arms ← mapM (run_arm env) ts;
          Some (fun st => st ← decode_properties (select_arm (concat arms)) st; k st)
      end
  end.

(** ** Implementations *)

Section item.
Context (it : item_struct) (d : struct S).

(** The fields that are not skipped, in order, are the described ones. *)
Definition live (f : syn_field) : bool :=
  match skip_field (sf_attrs f) with Ok b => negb b | _ => false end.

Definition item_field_list : list syn_field :=
  match named_fields (item_fields it) with Some fs => fs | None => [] end.

Definition item_env : list entry :=
  zip_with Entry (List.filter live item_field_list) (s_fields d).

(** The expression of [abbreviated_when]. *)
Definition eval_abbreviated (e : string) : option (S -> bool) :=
  if names (abbreviated_when_expr (item_attrs it)) e then s_abbreviated_when d else None.

(** [self.property_size()]; a unit struct has no such method. *)
Definition run_property_size (body : derived (list size_stmt)) s : option Z :=
  match body with
  | Impl body => z_property <$> run_sizes item_env s body (Sizes 0 0 None)
  | _ => None
  end.

(** [self.codec_size()]. *)
Definition run_codec_size (body : derived size_body) (property : derived (list size_stmt)) s
    : option Z :=
  match body with
  | Impl (PlainSize fs rest) =>
      z ← run_sizes item_env s fs (Sizes 0 0 None);
      z ← run_sizes item_env s rest z;
      Some (z_total z)
  | Impl (FullSize fs abbreviated_when rest) =>
      z ← run_sizes item_env s fs (Sizes 0 0 None);
      stop ← match abbreviated_when with
             | Some e => a ← eval_abbreviated e; Some (a s)
             | None => Some false
             end;
      if stop : bool then Some (z_total z)
      else
        z ← run_sizes item_env s rest z;
        property_size ← run_property_size property s;
        Some (add_u32 (add_u32 (z_total z) property_size) (variable_byte_int_size property_size))
  | _ => None
  end.

(** The body of an [encode] or [property_encode], given what the other methods
    of [self] return. *)
Fixpoint run_encode_body (codec_size property_size : option Z)
    (property_encode : option (Codec unit)) s (l : list encode_item) : option (Codec unit) :=
  match l with
  | [] => Some (mret tt)
  | i :: l =>
      let rest := run_encode_body codec_size property_size property_encode s l in
      match i with
      | EncodeFixedHeader =>
          header ← s_as_packet d; k ← rest;
          Some (FixedHeader_encode (header s) ≫= fun _ => k)
      | EncodeCodecSize =>
          n ← codec_size; k ← rest; Some (encode_variable_byte_int n ≫= fun _ => k)
      | EncodePropertySize =>
          n ← property_size; k ← rest; Some (encode_variable_byte_int n ≫= fun _ => k)
      | PropertyEncode => m ← property_encode; k ← rest; Some (m ≫= fun _ => k)
      | EncodeStmts body => m ← run_encodes item_env s body; k ← rest; Some (m ≫= fun _ => k)
      | ReturnIf e =>
          a ← eval_abbreviated e; k ← rest; Some (if a s : bool then mret tt else k)
      end
  end.

Definition run_property_encode (x : expansion) s : option (Codec unit) :=
  match x_property_encode x with
  | Impl body => run_encode_body None (run_property_size (x_property_size x) s) None s body
  | _ => None
  end.

(** [self.encode(dest)]. *)
Definition run_encode (x : expansion) s : option (Codec unit) :=
  match x_encode x with
  | Impl body =>
      run_encode_body (run_codec_size (x_codec_size x) (x_property_size x) s)
        (run_property_size (x_property_size x) s) (run_property_encode x s) s body
  | _ => None
  end.

(** [self.decode(src)]: the updated [self] and the byte count. *)
Definition run_decode (x : expansion) : option (S -> Codec (S * Z)) :=
  match x_decode x with
  | Impl body =>
      m ← run_decode_body item_env body;
      Some (fun self => st ← m (DState self 0 0); mret (d_self st, d_bytes_read st))
  | _ => None
  end.
End item.
End meaning.

#[global] Arguments entry {B} S : rename.
