(* ===== verification/MacroErrors.v ===== *)
(** * vaux-macro: what the macros refuse *)
(** The error paths of the generators: tuple structs, the field types each of
    the three generators refuses, and how the refusals of one relate to those of
    the others.  The positive side, what the accepted code does, is in
    [MacroCorrect] and [MacroCodecs]. *)

From S2P Require Import Prelude Bytes Property Macro MacroSyntax MacroExpand MacroMeaning.

#[local] Open Scope string_scope.

(** ** Verdicts *)

(** What becomes of a field: its code compiles as far as the macro is concerned,
    the macro leaves a [compile_error!] in it, or the macro panics. *)
Inductive verdict := Accepted | Refused | Panics.

Fixpoint exp_refused (e : size_exp) : bool :=
  match e with
  | ErrorExp _ => true
  | Plus a b => exp_refused a || exp_refused b
  | _ => false
  end.

Fixpoint size_refused (c : size_stmt) : bool :=
  match c with
  | SizeError _ => true
  | LetValueSize e | AddTo _ e => exp_refused e
  | IfSome _ _ body | IfNotEmpty _ body | IfNot _ _ body => existsb size_refused body
  end.

Fixpoint encode_refused (c : encode_stmt) : bool :=
  match c with
  | EncodeError _ => true
  | EncIfSome _ _ body | EncIfNot _ _ body | ForItem _ body => existsb encode_refused body
  | _ => false
  end.

Definition decode_refused (c : decode_stmt) : bool :=
  match c with DecodeError _ => true | _ => false end.

Definition tokens_refused (t : field_tokens) : bool :=
  match t with
  | NoTokens => false
  | Stmts body | Arm _ body => existsb decode_refused body
  end.

Definition judge {A} (refused : A -> bool) (r : outcome unit A) : verdict :=
  match r with
  | Ok a => if refused a then Refused else Accepted
  | _ => Panics
  end.

(** The type a field is generated for: behind [Option] and [Vec]. *)
Fixpoint mentions_char (t : ty) : bool :=
  match t with
  | TypePath _ i a =>
      (i =? "char")
      || match a with AngleBracketed (GenericType t :: _) => mentions_char t | _ => false end
  | TypeOther => false
  end.

Section errors.
Context {B : Buf} {HI : HashIter} {SY : Syn}.

Definition size_verdict (f : syn_field) : verdict :=
  judge (existsb size_refused) (field_size f).
Definition encode_verdict (f : syn_field) : verdict :=
  judge (existsb encode_refused) (encode_field f).
Definition decode_verdict (f : syn_field) : verdict := judge tokens_refused (decode_field f).

(** Attributes that leave the generators to the type: no [skip], none of the
    [*_with] functions, and a property identifier that is a path if there is
    one. *)
Record plain_attrs (attrs : list attribute) (po : option path) : Prop := {
  pa_skip : skip_field attrs = Ok false;
  pa_property : has_attribute_with_name_value attrs CODEC_ATTR CODEC_ATTR_PROPERTY_TYPE_ARG
    = Ok (bool_decide (is_Some po));
  pa_property_type : property_type attrs = Ok po;
  pa_payload : exists t, payload_type attrs = Ok t;
  pa_size_with : has_attribute_with_name_value attrs CODEC_ATTR "size_with" = Ok false;
  pa_encode_with : attribute_with_name_value attrs CODEC_ATTR CODEC_ATTR_ENCODE_WITH_ARG = Ok None;
  pa_decode_with : attribute_with_name_value attrs CODEC_ATTR CODEC_ATTR_DECODE_WITH_ARG = Ok None;
}.

(** ** The generators on plain attributes *)

Lemma plain_field_size attrs po name q i a :
  plain_attrs attrs po ->
  field_size (SynField attrs name (TypePath q i a)) =
    let p := bool_decide (is_Some po) in
    if i =? "Vec" then size_for_vec name a p false
    else if i =? "String" then
      Ok (if p then size_for_string_property name false else size_for_string name)
    else if i =? "Option" then size_for_option name a p
    else if is_primitive_type i then
      Ok (if p then size_for_primitive_property name i false
          else size_for_primitive (TypePath q i a))
    else Ok (size_for_codec_size name p false).
Proof.
  intros []. unfold field_size. cbn [sf_attrs sf_ident sf_ty].
  change "codec" with CODEC_ATTR. change "property_type" with CODEC_ATTR_PROPERTY_TYPE_ARG.
  by rewrite pa_skip0, pa_property0, pa_size_with0.
Qed.

Lemma plain_encode_field attrs po name q i a :
  plain_attrs attrs po ->
  encode_field (SynField attrs name (TypePath q i a)) =
    if i =? "String" then Ok (encode_for_string name false po)
    else if i =? "Vec" then encode_for_vec name a false po
    else if i =? "Option" then encode_for_option name a po
    else if is_primitive_type i then Ok (encode_for_primitive name i false po)
    else Ok [EncodeTrait (SelfDot name)].
Proof.
  intros []. destruct pa_payload0 as [t Ht]. unfold encode_field. cbn [sf_attrs sf_ident sf_ty].
  rewrite pa_skip0, pa_property0, pa_encode_with0, pa_property_type0, Ht. by destruct po.
Qed.

Lemma plain_decode_field attrs po name q i a :
  plain_attrs attrs po ->
  decode_field (SynField attrs name (TypePath q i a)) =
    inner ← option_inner i (TypePath q i a) a;
    match inner with
    | None => Ok (Stmts [DecodeError "Unsupported Option inner type for Decode derive"])
    | Some (optional_field, t) =>
        body ← (if i =? "String" then Ok (decode_for_string name optional_field po)
                else if i =? "Vec" then decode_for_vec name a optional_field
                else if is_primitive_type i then Ok (decode_for_primitive name t optional_field po)
                else Ok (decode_for_type name t optional_field po));
        Ok (match po with Some p => Arm p body | None => Stmts body end)
    end.
Proof.
  intros []. unfold decode_field. cbn [sf_attrs sf_ident sf_ty].
  rewrite pa_skip0, pa_property0, pa_decode_with0, pa_property_type0. by destruct po.
Qed.

(** ** Which types are refused *)

(** Split on the names the generators compare [i] with. *)
Ltac split_names i :=
  repeat match goal with
  | |- context [String.eqb i ?l] => destruct (String.eqb_spec i l); [subst; try done |]
  end.

Lemma vec_verdicts name a optional po :
  judge (existsb encode_refused) (encode_for_vec name a optional po)
  = judge (existsb decode_refused) (decode_for_vec name a optional).
Proof.
  destruct a as [| [| [[? i ?|]|] ?] |]; try done.
  unfold encode_for_vec, decode_for_vec, is_one_of. cbn.
  split_names i; by destruct po, optional.
Qed.

Lemma vec_size_verdict name a optional po b :
  judge (existsb encode_refused) (encode_for_vec name a optional po) = Accepted ->
  judge (existsb size_refused) (size_for_vec name a b optional) = Accepted
  \/ exists q r l, a = AngleBracketed (GenericType (TypePath q "char" r) :: l).
Proof.
  destruct a as [| [| [[? i ?|]|] ?] |]; try done.
  unfold encode_for_vec, size_for_vec, is_one_of. cbn.
  split_names i; intros; (right; by eauto) || (left; by destruct b, optional).
Qed.

Lemma primitive_verdicts name q i a po :
  judge (existsb encode_refused) (Ok (encode_for_primitive name i false po))
  = judge (existsb decode_refused) (Ok (decode_for_primitive name (TypePath q i a) false po)).
Proof.
  unfold encode_for_primitive, decode_for_primitive. cbn. split_names i; by destruct po.
Qed.

Lemma primitive_size_verdict name q i a optional po b :
  judge (existsb encode_refused) (Ok (encode_for_primitive name i optional po)) = Accepted ->
  judge (existsb size_refused)
    (Ok (if b : bool then size_for_primitive_property name i optional
         else if optional then size_for_primitive_optional name i
         else size_for_primitive (TypePath q i a))) = Accepted.
Proof.
  unfold encode_for_primitive, size_for_primitive_property, size_for_primitive_optional,
    size_for_primitive, size_for_primitive_internal, is_one_of. cbn.
  split_names i; by destruct po, optional, b.
Qed.

Lemma judge_tokens po (r : outcome unit (list decode_stmt)) :
  judge tokens_refused
    (body ← r; Ok (match po with Some p => Arm p body | None => Stmts body end))
  = judge (existsb decode_refused) r.
Proof. by destruct r, po. Qed.

Lemma encode_decode_verdict attrs po name q i a :
  plain_attrs attrs po -> i <> "Option" ->
  encode_verdict (SynField attrs name (TypePath q i a))
  = decode_verdict (SynField attrs name (TypePath q i a)).
Proof.
  intros Ha Hi. unfold encode_verdict, decode_verdict.
  rewrite (plain_encode_field _ _ _ _ _ _ Ha), (plain_decode_field _ _ _ _ _ _ Ha).
  unfold option_inner. apply String.eqb_neq in Hi as ->. cbn -[is_primitive_type].
  rewrite judge_tokens.
  destruct (i =? "String"); [by destruct po |]. destruct (i =? "Vec"); [apply vec_verdicts |].
  destruct (is_primitive_type i); [apply (primitive_verdicts name q i a) | by destruct po].
Qed.

(** The decoder of an [Option] asks nothing of the type inside. *)
Lemma decode_option_accepted attrs po name q t l :
  plain_attrs attrs po -> t <> TypeOther ->
  decode_verdict (SynField attrs name (TypePath q "Option" (AngleBracketed (GenericType t :: l))))
  = Accepted.
Proof.
  intros Ha Ht. unfold decode_verdict. rewrite (plain_decode_field _ _ _ _ _ _ Ha).
  destruct t; [by destruct po | done].
Qed.

Lemma option_size_verdict name a po b :
  judge (existsb encode_refused) (encode_for_option name a po) = Accepted ->
  judge (existsb size_refused) (size_for_option name a b) = Accepted
  \/ exists t l, a = AngleBracketed (GenericType t :: l) /\ mentions_char t = true.
Proof.
  destruct a as [| [| [[q i r|]|] l] |]; try done.
  unfold encode_for_option, size_for_option. cbn -[is_primitive_type encode_for_primitive size_for_primitive_property size_for_primitive_optional].
  destruct (String.eqb_spec i "Vec") as [->|].
  - cbn. intros [H | (q' & r' & l' & ->)]%(vec_size_verdict _ _ _ _ b); [by left | right; by eauto].
  - destruct (i =? "String"); [left; by destruct b |].
    destruct (is_primitive_type i); [| left; by destruct b].
    intros H. left. exact (primitive_size_verdict name [] i PathNone true po b H).
Qed.

Lemma encode_size_verdict attrs po name q i a :
  plain_attrs attrs po ->
  encode_verdict (SynField attrs name (TypePath q i a)) = Accepted ->
  size_verdict (SynField attrs name (TypePath q i a)) = Accepted
  \/ mentions_char (TypePath q i a) = true.
Proof.
  intros Ha. unfold encode_verdict, size_verdict.
  rewrite (plain_encode_field _ _ _ _ _ _ Ha), (plain_field_size _ _ _ _ _ _ Ha).
  set (b := bool_decide _). cbv zeta.
  destruct (String.eqb_spec i "Vec") as [->|].
  - intros [H | (q' & r' & l' & ->)]%(vec_size_verdict _ _ _ _ b); [by left | by right].
  - destruct (i =? "String"); [left; by destruct b |].
    destruct (String.eqb_spec i "Option") as [->|].
    + intros [H | (t & l & -> & H)]%(option_size_verdict _ _ _ b); [by left | by right].
    + destruct (is_primitive_type i); [| left; by destruct b].
      intros H. left. exact (primitive_size_verdict name q i a false po b H).
Qed.

(** The three generators agree on what they support.  For a field that leaves
    the code to its type, whatever the encoder generator accepts the decoder
    generator accepts too, and so does the size generator unless the type is a
    [Vec] of [char]; outside [Option] encoder and decoder give the same verdict,
    panics included.  Behind [Option] the decoder generator accepts types the
    encoder refuses. *)
Theorem generators_agree attrs po name q i a :
  plain_attrs attrs po ->
  let f := SynField attrs name (TypePath q i a) in
  (encode_verdict f = Accepted ->
     decode_verdict f = Accepted /\ (size_verdict f = Accepted \/ mentions_char (sf_ty f) = true))
  /\ (i <> "Option" -> encode_verdict f = decode_verdict f).
Proof.
  intros Ha f. subst f. split; [| by apply (encode_decode_verdict _ po)].
  intros He. split; [| by apply (encode_size_verdict _ po)].
  destruct (String.eqb_spec i "Option") as [->|]; [| by rewrite <- (encode_decode_verdict _ po)].
  unfold encode_verdict in He. rewrite (plain_encode_field _ _ _ _ _ _ Ha) in He.
  destruct a as [| [| [[]|] ?] |]; try done. by apply (decode_option_accepted _ po).
Qed.

(** ** Tuple structs *)

Definition refused_item {A} (d : derived A) : Prop := exists m, d = ErrorItem m.

(** Every derive refuses a tuple struct with a compile error, and so does the
    [packet] attribute; none of them leaves an implementation behind. *)
Theorem tuple_structs_refused args it :
  item_fields it = Unnamed ->
  (forall x, derive_all it = Ok x ->
     refused_item (x_codec_size x) /\ refused_item (x_property_size x)
     /\ refused_item (x_property_encode x) /\ refused_item (x_encode x)
     /\ refused_item (x_decode x))
  /\ (forall d, packet args it = Ok d -> refused_item d).
Proof.
  intros Hf. unfold derive_all, packet, derive_codec_size, derive_codec_property_size,
    property_encode_internal, encode_internal, decode_internal, refused_item.
  rewrite Hf. cbn -[get_packet_type is_as_packet min_decode_size is_skip_decode].
  split; intros x.
  - destruct (is_as_packet _), (min_decode_size _); try done. intros [= <-]. cbn. by eauto 10.
  - destruct (is_as_packet _), (min_decode_size _), (is_skip_decode _) as [[]| | |],
      (get_packet_type _); try done; intros [= <-]; by eauto.
Qed.

(** ** A [Vec] as a property *)

Lemma vec_property_size_code attrs po name q r i b l :
  plain_attrs attrs po -> is_Some po ->
  is_one_of ["u8"; "i8"; "u16"; "i16"; "u32"; "i32"; "char"] i = false ->
  field_size (SynField attrs name (TypePath q "Vec" (AngleBracketed (GenericType (TypePath r i b) :: l))))
  = Ok [IfNotEmpty (SelfDot name) [AddTo PropSize (SumItems (Name name) true)]].
Proof.
  intros Ha Hp Hi. rewrite (plain_field_size _ _ _ _ _ _ Ha). cbv zeta.
  rewrite bool_decide_eq_true_2 by done. revert Hi. unfold size_for_vec, is_one_of. cbn.
  by split_names i.
Qed.

(** The code for the size of a [Vec<T>] property, [T] with its own codec, names
    the field without [self]: it sizes no value that has elements, whatever the
    struct is; rustc refuses the name.  [derive(PropertyCodecSize)] accepts such
    a field and [derive(PropertyEncode)] generates working code for it. *)
Theorem vec_property_size_unbound {S} (env : list (entry S)) s attrs po name q r i b l z e :
  plain_attrs attrs po -> is_Some po ->
  is_one_of ["u8"; "i8"; "u16"; "i16"; "u32"; "i32"; "char"] i = false ->
  find_entry env name = Some e ->
  val_is_empty (Val (f_ty (e_field e)) (f_get (e_field e) s)) = Some false ->
  exists code,
    field_size (SynField attrs name
      (TypePath q "Vec" (AngleBracketed (GenericType (TypePath r i b) :: l)))) = Ok code
    /\ size_verdict (SynField attrs name
         (TypePath q "Vec" (AngleBracketed (GenericType (TypePath r i b) :: l)))) = Accepted
    /\ run_sizes env s code z = None.
Proof.
  intros Ha Hp Hi He Hv. pose proof (vec_property_size_code _ _ name q r i b l Ha Hp Hi) as E.
  eexists. split_and!; [exact E | unfold size_verdict; by rewrite E |].
  cbn -[val_is_empty]. rewrite He. cbn -[val_is_empty]. by rewrite Hv.
Qed.

End errors.

(** ** Witnesses *)
Lemma generators_agree_witness :
  let f := SynField [] "n" (TypePath [] "u16" PathNone) in
  decode_verdict f = Accepted /\ (size_verdict f = Accepted \/ mentions_char (sf_ty f) = true).
Proof.
  apply (proj1 (generators_agree [] None "n" [] "u16" PathNone ltac:(constructor; by eauto))).
  reflexivity.
Defined.
