(* ===== verification/MacroCorrect.v ===== *)
(** * vaux-macro: the generators are correct *)
(** [described it d] says that the struct syntax [it] declares what the
    description [d] of [Macro] lists: the types, attributes and function names
    of each field.  For such a struct every generator succeeds, and the code it
    emits computes exactly what the interpreters of [Macro] compute, so what
    [MacroFacts] proves of a description holds of the generated code. *)

From S2P Require Import Prelude Bytes MacroSyntax MacroExpand.
From S2P Require Import Codec Fixed Property Macro MacroMeaning.

#[local] Open Scope string_scope.
#[local] Arguments type_argument : simpl never.
#[local] Arguments place_val : simpl never.
#[local] Arguments is_one_of : simpl never.

(** ** Arithmetic of sizes *)

Lemma add_u32_assoc a b c : add_u32 (add_u32 a b) c = add_u32 a (add_u32 b c).
Proof. unfold add_u32. rewrite u32_u32_l, u32_u32_r. f_equal. lia. Qed.
Lemma add_u32_comm a b : add_u32 a b = add_u32 b a.
Proof. unfold add_u32. f_equal. lia. Qed.
Lemma add_u32_0_r a : is_u32 a -> add_u32 a 0 = a.
Proof. intros. unfold add_u32. rewrite Z.add_0_r. by apply u32_small. Qed.
Lemma add_u32_0_l_r a b : add_u32 a (add_u32 0 b) = add_u32 a b.
Proof. unfold add_u32. by rewrite u32_u32_r. Qed.
Lemma add_u32_0_l a : is_u32 a -> add_u32 0 a = a.
Proof. intros. rewrite add_u32_comm. by apply add_u32_0_r. Qed.
Lemma is_u32_add a b : is_u32 (add_u32 a b).
Proof. unfold is_u32, add_u32, u32. apply Z.mod_pos_bound. lia. Qed.
#[local] Hint Resolve is_u32_add : core.

(** ** What it means to describe a struct *)

(** A type name the generators treat as a type with its own implementations. *)
Definition custom (n : string) : bool :=
  negb (is_primitive_type n) && negb (is_one_of ["String"; "Vec"; "Option"] n).

(** The element types of the [Vec]s the encoder and the decoder loop over. *)
Definition vec_item (t : ty) : bool :=
  match t with
  | TypePath q n a =>
      custom n || ((n =? "String") && ty_eqb t String_ty)
  | TypeOther => false
  end.

#[local] Arguments vec_item : simpl never.

Section described.
Context {B : Buf} {HI : HashIter} {SY : Syn} {S : Type}.
Implicit Types (f : syn_field) (F : field S) (s : S) (env : list (entry S)).

Definition sty_named (is_property : bool) (t : ty) {A} (u : sty A) : bool :=
  match t with
  | TypePath _ n _ =>
      match u with
      | SU8 => n =? "u8"
      | SU16 => n =? "u16"
      | SU32 => n =? "u32"
      | SBool => n =? "bool"
      | SString => n =? "String"
      | SType => custom n && negb is_property
      | SPropType => custom n && is_property
      end
  | TypeOther => false
  end.

Definition fty_named (is_property : bool) (t : ty) {A} (u : fty A) : bool :=
  match u with
  | Scalar u => sty_named is_property t u
  | Opt u =>
      match type_argument "Option" t with Some t => sty_named is_property t u | None => false end
  | VecU8 =>
      match type_argument "Vec" t with Some (TypePath _ n _) => n =? "u8" | _ => false end
  | Vec =>
      match type_argument "Vec" t with Some t => vec_item t && negb is_property | None => false end
  | OptWith _ =>
      match type_argument "Option" t with Some (TypePath _ _ _) => true | _ => false end
  | Props => match t with TypePath _ n _ => custom n && is_property | TypeOther => false end
  end.

(** [key = "p"] is an argument of a [codec] attribute. *)
Definition declares (key : string) (attrs : list attribute) (p : path) : Prop :=
  exists a nested text,
    attribute_with_name_value attrs CODEC_ATTR key = Ok (Some a)
    /\ attr_args a = Some nested
    /\ List.find (is_name_value key) nested = Some (MetaNameValue key (ExprLit (LitStr text)))
    /\ parse_path text = Some p.

Definition declares_iff (key : string) (attrs : list attribute) (b : bool) : Prop :=
  if b then exists p, declares key attrs p
  else attribute_with_name_value attrs CODEC_ATTR key = Ok None.

Definition is_opt_with F : bool := match f_ty F with OptWith _ => true | _ => false end.
Definition is_opt F : bool := match f_ty F with Opt _ => true | _ => false end.

Definition payload_name (p : payload) : string :=
  match p with
  | PayloadRemaining => CODEC_ATTR_PAYLOAD_TYPE_REMAINING
  | PayloadField => CODEC_ATTR_PAYLOAD_TYPE_FIELD
  end.

Record field_described f F : Prop := {
  fd_skip : skip_field (sf_attrs f) = Ok false;
  fd_property : MacroSyntax.is_property_field (sf_attrs f) = Ok (is_property_field F);
  fd_property_type : exists po, property_type (sf_attrs f) = Ok po
    /\ resolve_property <$> po = Some <$> f_property_type F;
  fd_payload : MacroSyntax.is_payload_field (sf_attrs f) = Ok (is_payload_field F);
  fd_payload_type : payload_type (sf_attrs f) = Ok (payload_name <$> f_payload_type F);
  fd_skip_if : exists so, get_skip_if_path (sf_attrs f) = Ok so
    /\ bool_decide (is_Some so) = bool_decide (is_Some (f_skip_if F));
  fd_non_abbreviated : is_non_abbreviated_field (sf_attrs f) = Ok (f_non_abbreviated F);
  fd_size_with : declares_iff "size_with" (sf_attrs f)
    (is_opt_with F || bool_decide (is_Some (f_size_with F)));
  fd_encode_with : declares_iff CODEC_ATTR_ENCODE_WITH_ARG (sf_attrs f) (is_opt_with F);
  fd_decode_with : declares_iff CODEC_ATTR_DECODE_WITH_ARG (sf_attrs f) (is_opt_with F);
  fd_size_fn : (is_opt F || is_opt_with F) && bool_decide (is_Some (f_size_with F)) = false;
  fd_type : fty_named (is_property_field F) (sf_ty f) (f_ty F) = true;
}.

(** A field marked [skip] has no other role. *)
Record field_left_out f : Prop := {
  lo_skip : skip_field (sf_attrs f) = Ok true;
  lo_property : MacroSyntax.is_property_field (sf_attrs f) = Ok false;
  lo_payload : MacroSyntax.is_payload_field (sf_attrs f) = Ok false;
  lo_payload_type : payload_type (sf_attrs f) = Ok None;
  lo_skip_if : get_skip_if_path (sf_attrs f) = Ok None;
  lo_non_abbreviated : is_non_abbreviated_field (sf_attrs f) = Ok false;
}.

(** The declared fields and the described ones, in order, related by [R]. *)
Inductive fields_rel (R : syn_field -> field S -> Prop) : list syn_field -> list (field S) -> Prop :=
| rel_nil : fields_rel R [] []
| rel_cons f F fs Fs : R f F -> fields_rel R fs Fs -> fields_rel R (f :: fs) (F :: Fs)
| rel_skip f fs Fs : field_left_out f -> fields_rel R fs Fs -> fields_rel R (f :: fs) Fs.

Definition fields_described : list syn_field -> list (field S) -> Prop := fields_rel field_described.

Record described (as_packet : bool) (it : item_struct) (d : struct S) : Prop := {
  ds_fields : exists fs, named_fields (item_fields it) = Some fs
    /\ fields_described fs (s_fields d)
    /\ NoDup (sf_ident <$> fs);
  ds_abbreviated : exists e, abbreviated_when_expr (item_attrs it) = Ok e
    /\ bool_decide (is_Some e) = bool_decide (is_Some (s_abbreviated_when d));
  ds_min_decode : min_decode_size (item_attrs it) = Ok (s_min_decode d);
  ds_as_packet : exists b, is_as_packet (item_attrs it) = Ok b
    /\ as_packet || b = bool_decide (is_Some (s_as_packet d));
  ds_one_remaining : (length (List.filter is_remaining_payload (s_fields d)) <= 1)%nat;
  ds_apart : Forall (fun F => negb (is_payload_field F && is_property_field F)) (s_fields d);
}.

(** ** Attribute queries *)

Lemma has_attribute_of attrs name key o :
  attribute_with_name_value attrs name key = Ok o ->
  has_attribute_with_name_value attrs name key = Ok (bool_decide (is_Some o)).
Proof.
  unfold attribute_with_name_value, has_attribute_with_name_value.
  induction (attrs_named name attrs) as [|a l IH]; simpl; [by intros [= <-] |].
  destruct (parse_args a) as [nested| | |]; simpl; try done.
  destruct (existsb _ _); simpl; [by intros [= <-] |]. exact IH.
Qed.

Lemma name_value_path_find key nested text p :
  List.find (is_name_value key) nested = Some (MetaNameValue key (ExprLit (LitStr text))) ->
  parse_path text = Some p ->
  name_value_path key nested = Ok (Some p).
Proof.
  intros Hf Hp. unfold name_value_path.
  induction nested as [|m l IH]; simpl in *; [done |].
  destruct (is_name_value key m) eqn:E.
  - simplify_eq. simpl in E. rewrite E, Hp. done.
  - specialize (IH Hf). destruct m as [| |q []]; simpl in *; try exact IH.
    destruct l0; simpl; try exact IH. rewrite E. exact IH.
Qed.

Lemma declares_with_path key attrs p :
  declares key attrs p -> with_path key attrs = Ok (Some p).
Proof.
  intros (a & nested & text & Ha & Hn & Hf & Hp). unfold with_path. rewrite Ha. simpl.
  unfold parse_args. rewrite Hn. simpl. by apply (name_value_path_find key nested text).
Qed.

Lemma declares_has key attrs b :
  declares_iff key attrs b -> has_attribute_with_name_value attrs CODEC_ATTR key = Ok b.
Proof.
  destruct b; simpl.
  - intros (p & a & nested & text & Ha & _). by rewrite (has_attribute_of _ _ _ _ Ha).
  - intros Ha. by rewrite (has_attribute_of _ _ _ _ Ha).
Qed.

Lemma names_refl p : names (Ok (Some p)) p = true.
Proof. apply String.eqb_refl. Qed.

(** ** Types *)

Lemma type_argument_inv c u t :
  type_argument c u = Some t -> exists q, u = TypePath q c (AngleBracketed [GenericType t]).
Proof.
  unfold type_argument. destruct u as [q g [|[|[t'|] [|]]|]|]; try done.
  destruct (String.eqb_spec g c); intros; simplify_eq. by eexists.
Qed.

Lemma not_primitive n l :
  is_primitive_type n = false -> forallb is_primitive_type l = true -> is_one_of l n = false.
Proof.
  intros Hn Hl. apply Bool.not_true_is_false. intros H.
  apply existsb_exists in H as (m & Hm & E). apply String.eqb_eq in E as <-.
  rewrite forallb_forall in Hl. rewrite (Hl n Hm) in Hn. done.
Qed.

Lemma not_primitive_eqb n m :
  is_primitive_type n = false -> is_primitive_type m = true -> (n =? m) = false.
Proof. intros Hn Hm. destruct (String.eqb_spec n m); [| done]. congruence. Qed.

Lemma vec_item_inv q n a :
  vec_item (TypePath q n a) = true ->
  is_primitive_type n = false
  /\ ((n =? "String") = true -> ty_eqb (TypePath q n a) String_ty = true).
Proof.
  unfold vec_item. intros [Hc|[Hs Ht]%andb_true_iff]%orb_true_iff.
  - unfold custom in Hc. apply andb_true_iff in Hc as [Hc Hk].
    rewrite !negb_true_iff in *. split; [done |]. intros Hs. apply String.eqb_eq in Hs as ->. done.
  - split; [| done]. by apply String.eqb_eq in Hs as ->.
Qed.

Lemma custom_inv n :
  custom n = true ->
  (n =? "Vec") = false /\ (n =? "String") = false /\ (n =? "Option") = false
  /\ is_primitive_type n = false.
Proof.
  unfold custom. rewrite andb_true_iff, !negb_true_iff. unfold is_one_of at 1, existsb.
  rewrite !orb_false_iff. tauto.
Qed.

(** ** Sizes of one field *)

Lemma size_with_path_declared name key attrs p is_property optional a nested text :
  key = "size_with" ->
  attribute_with_name_value attrs CODEC_ATTR key = Ok (Some a) ->
  attr_args a = Some nested ->
  List.find (is_name_value key) nested = Some (MetaNameValue key (ExprLit (LitStr text))) ->
  parse_path text = Some p ->
  size_with_path name a is_property optional =
    Ok (let e := CallSize p name in
        let c := AddTo (counter_of is_property) (if is_property then Plus (Lit 1) e else e) in
        if optional then [IfSome "_" name [c]] else [c]).
Proof.
  intros -> _ Hn Hf Hp. unfold size_with_path, parse_args. rewrite Hn. simpl.
  clear Hn. induction nested as [|m l IH]; simpl in *; [done |].
  destruct (is_name_value "size_with" m) eqn:E.
  - simplify_eq. simpl. rewrite Hp. done.
  - specialize (IH Hf). destruct m as [| |q v]; simpl in *; try exact IH. rewrite E. exact IH.
Qed.

(** A step of the size code that adds [n] to the counter of the field. *)
Definition adds (is_property : bool) (code : sizes -> option sizes) (n : Z) : Prop :=
  forall z, is_u32 (z_total z) -> is_u32 (z_property z) ->
    exists v, code z = Some (let z' := bump (counter_of is_property) n z in
                             Sizes (z_total z') (z_property z') v).

Lemma adds_bump is_property (code : sizes -> option sizes) n m :
  (forall z, code z = Some (bump (counter_of is_property) m z)) ->
  (forall a, add_u32 a m = add_u32 a n) ->
  adds is_property code n.
Proof.
  intros H E z _ _. rewrite H. destruct is_property; simpl; rewrite E; by eexists.
Qed.

Lemma adds_none is_property (code : sizes -> option sizes) :
  (forall z, code z = Some z) -> adds is_property code 0.
Proof.
  intros H z H1 H2. rewrite H. destruct z as [t p v], is_property; simpl in *;
    rewrite add_u32_0_r by done; by eexists.
Qed.

Lemma place_name env s x v locals : place_val env ((x, v) :: locals) s (Name x) = Some v.
Proof. unfold place_val. simpl. by rewrite String.eqb_refl. Qed.

Section one_field.
Context (f : syn_field) (F : field S) (env : list (entry S)).
Hypothesis D : field_described f F.
Hypothesis Hfind : find_entry env (sf_ident f) = Some (Entry f F).

Lemma place_self locals s :
  place_val env locals s (SelfDot (sf_ident f)) = Some (Val (f_ty F) (f_get F s)).
Proof. unfold place_val. by rewrite Hfind. Qed.

Lemma run_size_if_some x body s locals z :
  run_size_stmt env s locals (IfSome x (sf_ident f) body) z =
    (r ← match_some (Val (f_ty F) (f_get F s));
     match r with
     | Some v => leave z <$> run_list (run_size_stmt env s (bind_some x v locals)) body z
     | None => Some z
     end).
Proof. cbn [run_size_stmt]. by rewrite place_self. Qed.

(** The generator, once the attributes are known. *)
Lemma field_size_of_type :
  MacroExpand.field_size f =
    match sf_ty f with
    | TypePath _ segment arguments =>
        if is_opt_with F || bool_decide (is_Some (f_size_with F)) then
          match attribute_with_name_value (sf_attrs f) "codec" "size_with" with
          | Ok (Some attr) =>
              size_with_path (sf_ident f) attr (is_property_field F) (segment =? "Option")
          | _ => Ok [SizeError "Invalid 'size_with' attribute for Size derive"]
          end
        else if segment =? "Vec" then size_for_vec (sf_ident f) arguments (is_property_field F) false
        else if segment =? "String" then
          Ok (if is_property_field F then size_for_string_property (sf_ident f) false
              else size_for_string (sf_ident f))
        else if segment =? "Option" then
          size_for_option (sf_ident f) arguments (is_property_field F)
        else if is_primitive_type segment then
          Ok (if is_property_field F then size_for_primitive_property (sf_ident f) segment false
              else size_for_primitive (sf_ty f))
        else Ok (size_for_codec_size (sf_ident f) (is_property_field F) false)
    | TypeOther => Ok [SizeError "Unsupported field type for Size derive"]
    end.
Proof.
  unfold MacroExpand.field_size. rewrite (fd_skip _ _ D). cbn.
  pose proof (fd_property _ _ D) as Hp. unfold MacroSyntax.is_property_field in Hp.
  change "codec" with CODEC_ATTR. change "property_type" with CODEC_ATTR_PROPERTY_TYPE_ARG.
  rewrite Hp. cbn. by rewrite (declares_has _ _ _ (fd_size_with _ _ D)).
Qed.

End one_field.

Lemma fty_named_path is_property t {A} (u : fty A) :
  fty_named is_property t u = true -> exists q n a, t = TypePath q n a.
Proof.
  destruct t as [q n a|]; [by eauto |]. destruct u as [? []|? []| | | |]; done.
Qed.

Lemma fty_named_not_option is_property q n a {A} (u : fty A) :
  fty_named is_property (TypePath q n a) u = true ->
  match u with Opt _ | OptWith _ => False | _ => True end ->
  (n =? "Option") = false.
Proof.
  intros H Hu. destruct (String.eqb_spec n "Option"); [subst | done]. exfalso.
  destruct u as [? []|? []| | | |]; simpl in H; try done;
    destruct (type_argument "Vec" _) eqn:E; try done;
    destruct (type_argument_inv _ _ _ E); simplify_eq.
Qed.

Lemma field_size_with f F env :
  field_described f F ->
  find_entry env (sf_ident f) = Some (Entry f F) ->
  is_opt_with F || bool_decide (is_Some (f_size_with F)) = true ->
  exists code, MacroExpand.field_size f = Ok code
    /\ forall s, adds (is_property_field F) (run_sizes env s code) (field_size F s).
Proof.
  intros D Hfind Hw. pose proof (place_self f F env Hfind []) as Hv. pose proof (fd_size_with _ _ D) as Hd. rewrite Hw in Hd.
  destruct Hd as (p & Hd). pose proof (declares_with_path _ _ _ Hd) as Hpath.
  destruct Hd as (a & nested & text & Ha & Hn & Hf & Hp).
  pose proof (fd_type _ _ D) as Ht. pose proof (fd_size_fn _ _ D) as Hs.
  destruct (fty_named_path _ _ _ Ht) as (q & n & args & Ety).
  rewrite (field_size_of_type _ _ D), Ety, Hw.
  change "codec" with CODEC_ATTR. rewrite Ha.
  rewrite (size_with_path_declared _ _ _ _ _ _ _ _ _ eq_refl Ha Hn Hf Hp).
  eexists; split; [reflexivity |]. intros s. clear D Ha Hn Hf Hp.
  remember (is_property_field F) as ip eqn:Eip.
  destruct F as [A t get set pt plt sk [size|] na]; unfold is_opt, is_opt_with in *; simpl in *.
  - replace (n =? "Option") with false; simpl.
    + apply (adds_bump _ _ _ (if ip then add_u32 1 (size (get s)) else size (get s))).
      * intros z. unfold run_sizes. destruct ip; simpl; unfold call_size;
          rewrite Hfind; simpl; by rewrite Hpath, names_refl.
      * intros z. unfold field_size. simpl. rewrite <- Eip.
        destruct ip; [done | by rewrite add_u32_0_l_r].
    + rewrite Ety in Ht. symmetry. apply (fty_named_not_option _ _ _ _ _ Ht). by destruct t.
  - destruct t as [| | | |A w|]; try done. rewrite Ety in Ht. simpl in Ht.
    destruct (type_argument "Option" _) eqn:Et; [| done].
    destruct (type_argument_inv _ _ _ Et) as (q' & [= -> -> ->]). simpl.
    unfold field_size. simpl. rewrite <- Eip. destruct (get s) eqn:Eg.
    + apply (adds_bump _ _ _ (if ip then add_u32 1 (with_size w (get s)) else with_size w (get s))).
      * intros z. unfold run_sizes. simpl. rewrite Hv. simpl. rewrite Eg. simpl.
        destruct ip; simpl; unfold call_size; rewrite Hfind; simpl;
          rewrite Hpath, names_refl; simpl; rewrite Eg; by destruct z.
      * rewrite Eg. intros z. destruct ip; [done | by rewrite add_u32_0_l_r].
    + apply adds_none. intros z. unfold run_sizes. simpl. rewrite Hv. simpl. by rewrite Eg.
Qed.

(** *** Without [size_with] *)

Lemma sty_named_path is_property t {A} (u : sty A) :
  sty_named is_property t u = true -> exists q n a, t = TypePath q n a.
Proof. destruct t as [q n a|]; [by eauto | by destruct u]. Qed.

Lemma field_size_scalar f F env {A} (t : sty A) get set pt plt sk na :
  F = Field (Scalar t) get set pt plt sk None na ->
  field_described f F ->
  find_entry env (sf_ident f) = Some (Entry f F) ->
  exists code, MacroExpand.field_size f = Ok code
    /\ forall s, adds (is_property_field F) (run_sizes env s code) (field_size F s).
Proof.
  intros E D Hfind. pose proof (fd_type _ _ D) as Ht. pose proof (place_self f F env Hfind []) as Hv.
  rewrite (field_size_of_type _ _ D). clear D. unfold field_size.
  remember (is_property_field F) as ip eqn:Eip. rewrite E in Ht, Hv |- *. simpl in *.
  destruct (sty_named_path _ _ _ Ht) as (q & n & a & Ety). rewrite Ety in Ht |- *.
  destruct t; simpl in Ht;
    try (apply andb_true_iff in Ht as [Hc Hip];
         destruct (custom_inv _ Hc) as (Cv & Cs & Co & Cp); rewrite Cv, Cs, Co, Cp);
    try (apply String.eqb_eq in Ht as ->; cbn [String.eqb Ascii.eqb Bool.eqb]);
    (eexists; split; [reflexivity |]; intros s).
  1-4: destruct ip; eapply adds_bump; intros; reflexivity.
  - destruct ip; intros z _ _; unfold run_sizes; cbn [size_for_string run_list run_size_stmt eval_size];
      rewrite Hv; eexists; cbn; [reflexivity |].
    rewrite add_u32_assoc, (add_u32_comm 2), (add_u32_0_l_r _ (add_u32 _ 2)). reflexivity.
  - destruct ip; [done |]. eapply adds_bump; [| reflexivity]. intros z. cbn. by rewrite Hv.
  - destruct ip; [| done]. eapply adds_bump; [| reflexivity]. intros z. cbn. by rewrite Hv.
Qed.

Lemma field_size_opt f F env {A} (t : sty A) get set pt plt sk na :
  F = Field (Opt t) get set pt plt sk None na ->
  field_described f F ->
  find_entry env (sf_ident f) = Some (Entry f F) ->
  exists code, MacroExpand.field_size f = Ok code
    /\ forall s, adds (is_property_field F) (run_sizes env s code) (field_size F s).
Proof.
  intros E D Hfind. pose proof (fd_type _ _ D) as Ht. pose proof (place_self f F env Hfind []) as Hv.
  rewrite (field_size_of_type _ _ D). clear D. unfold field_size.
  remember (is_property_field F) as ip eqn:Eip. rewrite E in Ht, Hv |- *. simpl in *.
  destruct (type_argument "Option" _) as [u|] eqn:Et; [| done].
  destruct (type_argument_inv _ _ _ Et) as (q & ->). clear Et. simpl.
  destruct (sty_named_path _ _ _ Ht) as (q' & n & a & ->). unfold size_for_option. simpl.
  destruct t; simpl in Ht;
    try (apply andb_true_iff in Ht as [Hc Hip];
         destruct (custom_inv _ Hc) as (Cv & Cs & Co & Cp); rewrite Cv, Cs, Cp);
    try (apply String.eqb_eq in Ht as ->; cbn [String.eqb Ascii.eqb Bool.eqb]);
    (eexists; split; [reflexivity |]; intros s);
    (destruct (get s) as [v|] eqn:Eg;
     [| apply adds_none; intros z; destruct ip; try done; cbn; rewrite Hv; cbn; by rewrite Eg]).
  1-4: destruct ip; (eapply adds_bump; [intros z; cbn; rewrite Hv; cbn; rewrite Eg; reflexivity | reflexivity]).
  - destruct ip; intros z _ _; cbn; rewrite Hv; eexists; cbn; rewrite Eg; cbn; [reflexivity |].
    rewrite place_name. cbn. rewrite add_u32_assoc, (add_u32_comm 2), (add_u32_0_l_r _ (add_u32 _ 2)). reflexivity.
  - destruct ip; [done |].
    eapply adds_bump; [intros z; cbn; rewrite Hv; cbn; rewrite Eg; reflexivity | reflexivity].
  - destruct ip; [| done].
    eapply adds_bump; [intros z; cbn; rewrite Hv; cbn; rewrite Eg; reflexivity | reflexivity].
Qed.

Lemma mapM_codec_sizes {A} `{Encode A, Decode A, Default A, CodecSize A, !CodecLaws A, !SizeLaw A}
    (l : list A) :
  mapM val_codec_size ((fun item => Val (Scalar SType) item) <$> l)
  = Some (codec_size <$> l).
Proof. induction l as [|a l IH]; [done |]. cbn. by rewrite IH. Qed.

Lemma sum_u32_ident {A} (g : A -> Z) l :
  sum_u32 ((fun x => add_u32 0 (g x)) <$> l) = sum_u32 (g <$> l).
Proof.
  unfold sum_u32.
  enough (H : forall n, foldl add_u32 n ((fun x => add_u32 0 (g x)) <$> l)
                        = foldl add_u32 n (g <$> l)) by apply H.
  induction l as [|a l IH]; intros n; [done |].
  rewrite !fmap_cons. cbn [foldl]. rewrite add_u32_0_l_r. apply IH.
Qed.

Lemma is_empty_nil {A} (l : list A) : is_empty l = bool_decide (l = []).
Proof. by destruct l. Qed.

(** An addition guarded by [if !x.is_empty()]. *)
Lemma adds_not_empty is_property env s x e v n :
  place_val env [] s (SelfDot x) = Some v ->
  (forall z, eval_size env [] s z e = Some n) ->
  forall b, val_is_empty v = Some b ->
  adds is_property (run_sizes env s [IfNotEmpty (SelfDot x) [AddTo (counter_of is_property) e]])
    (if b then 0 else n).
Proof.
  intros Hv He b Hb. destruct b.
  - apply adds_none. intros z. cbn. rewrite Hv. cbn. by rewrite Hb.
  - eapply adds_bump; [| reflexivity]. intros z. cbn. rewrite Hv. cbn. rewrite Hb. cbn.
    rewrite He. by destruct is_property.
Qed.

Lemma field_size_rest f F env :
  field_described f F ->
  find_entry env (sf_ident f) = Some (Entry f F) ->
  is_opt_with F || bool_decide (is_Some (f_size_with F)) = false ->
  match f_ty F with Scalar _ | Opt _ => False | _ => True end ->
  exists code, MacroExpand.field_size f = Ok code
    /\ forall s, adds (is_property_field F) (run_sizes env s code) (field_size F s).
Proof.
  intros D Hfind Hw Hk. pose proof (fd_type _ _ D) as Ht.
  pose proof (place_self f F env Hfind []) as Hv.
  rewrite (field_size_of_type _ _ D), Hw. clear D.
  destruct F as [A t get set pt plt sk [sz|] na]; [by destruct t |]. unfold field_size.
  remember (is_property_field _) as ip eqn:Eip. clear Eip.
  destruct t as [| | |A| |]; try done; simpl in *;
    try (destruct (type_argument "Vec" _) as [u|] eqn:Et; [| done];
         destruct (type_argument_inv _ _ _ Et) as (q & ->); clear Et; simpl;
         unfold size_for_vec; simpl; destruct u as [q' n a|]; [| done]).
  - apply String.eqb_eq in Ht as ->. cbn. eexists; split; [reflexivity |]. intros s.
    rewrite <- is_empty_nil.
    eapply (adds_not_empty _ _ _ _ _ _ _ (Hv s)); [| reflexivity].
    intros z. destruct ip; cbn; rewrite Hv; cbn; [reflexivity |]. by rewrite (add_u32_0_l (add_u32 _ _)).
  - destruct ip; [by rewrite andb_false_r in Ht |]. rewrite andb_true_r in Ht.
    destruct (vec_item_inv _ _ _ Ht) as [Hn _]. rewrite !not_primitive by done.
    eexists; split; [reflexivity |]. intros s. rewrite <- is_empty_nil, sum_u32_ident.
    eapply (adds_not_empty _ _ _ _ _ _ _ (Hv s)); [| reflexivity].
    intros z. cbn. rewrite Hv. cbn. rewrite mapM_codec_sizes. cbn.
    by rewrite list_fmap_id.
  - destruct (sf_ty f) as [q n a|]; [| done]. apply andb_true_iff in Ht as [Hc ->].
    destruct (custom_inv _ Hc) as (Cv & Cs & Co & Cp). rewrite Cv, Cs, Co, Cp.
    eexists; split; [reflexivity |]. intros s.
    eapply adds_bump; [| reflexivity]. intros z. cbn. by rewrite Hv.
Qed.

Lemma field_size_correct f F env :
  field_described f F ->
  find_entry env (sf_ident f) = Some (Entry f F) ->
  exists code, MacroExpand.field_size f = Ok code
    /\ forall s, adds (is_property_field F) (run_sizes env s code) (field_size F s).
Proof.
  intros D Hfind.
  destruct (is_opt_with F || bool_decide (is_Some (f_size_with F))) eqn:Hw;
    [by apply field_size_with |].
  apply orb_false_iff in Hw as Hw'. destruct Hw' as [_ Hw'].
  destruct F as [A t get set pt plt sk [sz|] na]; [done |]. destruct t.
  - by eapply field_size_scalar.
  - by eapply field_size_opt.
  - by apply field_size_rest.
  - by apply field_size_rest.
  - by apply field_size_rest.
  - by apply field_size_rest.
Qed.

(** ** All fields *)

(** A field with its description, reachable by its name. *)
Definition described_in env f F : Prop :=
  field_described f F /\ find_entry env (sf_ident f) = Some (Entry f F).

Lemma fields_rel_mono (R R' : syn_field -> field S -> Prop) fs Fs :
  fields_rel R fs Fs -> (forall f F, f ∈ fs -> R f F -> R' f F) -> fields_rel R' fs Fs.
Proof.
  induction 1 as [|f F fs Fs HR _ IH|f fs Fs Hf _ IH]; intros H; constructor; try done.
  - apply H; [by left | done].
  - apply IH. intros ? ? ?. apply H. by right.
  - apply IH. intros ? ? ?. apply H. by right.
Qed.

Lemma fields_described_env fs Fs :
  fields_described fs Fs -> NoDup (sf_ident <$> fs) ->
  fields_rel (described_in (zip_with Entry (List.filter live fs) Fs)) fs Fs.
Proof.
  induction 1 as [|f F fs Fs HD _ IH|f fs Fs Hf _ IH]; intros Hnd; [apply rel_nil | |];
    rewrite fmap_cons in Hnd; apply list.NoDup_cons in Hnd as [Hn Hnd]; specialize (IH Hnd).
  - assert (Hl : live f = true) by (unfold live; by rewrite (fd_skip _ _ HD)).
    simpl. rewrite Hl. cbn [zip_with]. constructor.
    + split; [done |]. unfold find_entry. simpl. by rewrite String.eqb_refl.
    + apply (fields_rel_mono _ _ _ _ IH). intros g G Hg [HG Hfind]. split; [done |].
      unfold find_entry in *. simpl.
      destruct (String.eqb_spec (sf_ident f) (sf_ident g)) as [E|]; [| done].
      destruct Hn. rewrite E. by apply list_elem_of_fmap_2.
  - assert (Hl : live f = false) by (unfold live; by rewrite (lo_skip _ Hf)).
    simpl. rewrite Hl. by constructor.
Qed.

(** The tokens of a list of fields: a segment for each, and segments without
    effect for the fields left out. *)
Inductive emits {T} (P : field S -> list T -> Prop) (N : list T -> Prop)
    : list (field S) -> list T -> Prop :=
| emits_nil : emits P N [] []
| emits_cons F Fs ts rest : P F ts -> emits P N Fs rest -> emits P N (F :: Fs) (ts ++ rest)
| emits_neutral Fs ts rest : N ts -> emits P N Fs rest -> emits P N Fs (ts ++ rest).

Lemma concat_fields_emits {T} (R : syn_field -> field S -> Prop) (P : field S -> list T -> Prop)
    (N : list T -> Prop) select sel tokens fs Fs :
  (forall f F, R f F -> select f = Ok (sel F)
     /\ (sel F = true -> exists ts, tokens f = Ok ts /\ P F ts)) ->
  (forall f, field_left_out f -> exists b, select f = Ok b
     /\ (b = true -> exists ts, tokens f = Ok ts /\ N ts)) ->
  fields_rel R fs Fs ->
  exists ts, concat_fields select tokens fs = Ok ts /\ emits P N (List.filter sel Fs) ts.
Proof.
  intros HR HN. induction 1 as [|f F fs Fs Hf _ (ts & E & H)|f fs Fs Hf _ (ts & E & H)].
  - exists []. split; [done | constructor].
  - destruct (HR _ _ Hf) as [Es Ht]. simpl. rewrite Es. cbn. destruct (sel F).
    + destruct Ht as (ts' & E' & HP); [done |]. rewrite E'. cbn. rewrite E.
      eexists; split; [done |]. by constructor.
    + rewrite E. by exists ts.
  - destruct (HN _ Hf) as (b & Es & Ht). simpl. rewrite Es. cbn. destruct b.
    + destruct Ht as (ts' & E' & HP); [done |]. rewrite E'. cbn. rewrite E.
      eexists; split; [done |]. by constructor.
    + rewrite E. by exists ts.
Qed.

(** The selections of the loops. *)
Lemma select_property f F :
  field_described f F -> is_property f = Ok (is_property_field F).
Proof. intros D. unfold is_property. pose proof (fd_property _ _ D) as H. unfold MacroSyntax.is_property_field in H. by rewrite H. Qed.

Lemma select_payload f F : field_described f F -> is_payload f = Ok (is_payload_field F).
Proof. intros D. unfold is_payload. pose proof (fd_payload _ _ D) as H. unfold MacroSyntax.is_payload_field in H. by rewrite H. Qed.

Lemma select_non_abbrev f F : field_described f F -> is_non_abbrev f = Ok (f_non_abbreviated F).
Proof. intros D. unfold is_non_abbrev. by rewrite (fd_non_abbreviated _ _ D). Qed.

Lemma select_header n f F :
  field_described f F ->
  header_field n f = Ok (is_header_field F && Bool.eqb (f_non_abbreviated F) n).
Proof.
  intros D. unfold header_field. rewrite (select_property _ _ D). cbn.
  rewrite (select_payload _ _ D). cbn. by rewrite (select_non_abbrev _ _ D).
Qed.

Lemma select_sized n f F :
  field_described f F ->
  sized_field n f = Ok (negb (is_property_field F) && Bool.eqb (f_non_abbreviated F) n).
Proof.
  intros D. unfold sized_field. rewrite (select_property _ _ D). cbn.
  by rewrite (select_non_abbrev _ _ D).
Qed.

Lemma left_out_property f : field_left_out f -> is_property f = Ok false.
Proof. intros L. unfold is_property. pose proof (lo_property _ L) as H. unfold MacroSyntax.is_property_field in H. by rewrite H. Qed.
Lemma left_out_payload f : field_left_out f -> is_payload f = Ok false.
Proof. intros L. unfold is_payload. pose proof (lo_payload _ L) as H. unfold MacroSyntax.is_payload_field in H. by rewrite H. Qed.
Lemma left_out_header n f : field_left_out f -> header_field n f = Ok (negb n).
Proof.
  intros L. unfold header_field. rewrite (left_out_property _ L). cbn.
  rewrite (left_out_payload _ L). cbn. unfold is_non_abbrev. rewrite (lo_non_abbreviated _ L).
  by destruct n.
Qed.
Lemma left_out_sized n f : field_left_out f -> sized_field n f = Ok (negb n).
Proof.
  intros L. unfold sized_field. rewrite (left_out_property _ L). cbn.
  unfold is_non_abbrev. rewrite (lo_non_abbreviated _ L). by destruct n.
Qed.

(** *** Sizes *)

Lemma guarded_size_correct env f F :
  described_in env f F ->
  exists code, guarded_size f = Ok code
    /\ forall s z, is_u32 (z_total z) -> is_u32 (z_property z) ->
       exists v, run_sizes env s code z =
         Some (if is_property_field F
               then Sizes (z_total z) (add_field_size s (z_property z) F) v
               else Sizes (add_field_size s (z_total z) F) (z_property z) v).
Proof.
  intros [D Hfind]. destruct (field_size_correct f F env D Hfind) as (code & E & H).
  destruct (fd_skip_if _ _ D) as (so & Es & Hs). unfold guarded_size. rewrite Es, E. cbn.
  assert (Hadd : forall s z, is_u32 (z_total z) -> is_u32 (z_property z) -> skipped F s = false ->
    exists v, run_sizes env s code z =
         Some (if is_property_field F
               then Sizes (z_total z) (add_field_size s (z_property z) F) v
               else Sizes (add_field_size s (z_total z) F) (z_property z) v)).
  { intros s z H1 H2 Hk. destruct (H s z H1 H2) as (v & ->). exists v.
    unfold add_field_size. rewrite Hk. by destruct (is_property_field F). }
  destruct so as [p|].
  - eexists; split; [done |]. intros s z H1 H2. specialize (Hadd s z H1 H2).
    unfold skipped, add_field_size, skipped in *. destruct (f_skip_if F) as [g|] eqn:Eg; [| done].
    cbn. unfold call_skip. rewrite Hfind. cbn. rewrite Es, names_refl, Eg. cbn.
    destruct (g (f_get F s)).
    + destruct z, (is_property_field F); by eexists.
    + destruct Hadd as (v & Hr); [done |]. unfold run_sizes in Hr. rewrite Hr. cbn.
      destruct (is_property_field F); by eexists.
  - eexists; split; [done |]. intros s z H1 H2. apply Hadd; try done.
    unfold skipped. by destruct (f_skip_if F).
Qed.

Definition sizes_emitted env : list (field S) -> list size_stmt -> Prop :=
  emits (fun F code => forall s z, is_u32 (z_total z) -> is_u32 (z_property z) ->
           exists v, run_sizes env s code z =
             Some (if is_property_field F
                   then Sizes (z_total z) (add_field_size s (z_property z) F) v
                   else Sizes (add_field_size s (z_total z) F) (z_property z) v))
        (fun ts => ts = []).

Lemma run_sizes_app env s a b z :
  run_sizes env s (a ++ b) z = (z ← run_sizes env s a z; run_sizes env s b z).
Proof.
  unfold run_sizes. revert z. induction a as [|c a IH]; intros z; [done |]. cbn.
  destruct (run_size_stmt env s [] c z) as [z'|]; [apply IH | done].
Qed.

Lemma is_u32_add_field_size s n F : is_u32 n -> is_u32 (add_field_size s n F).
Proof. intros. unfold add_field_size. by case_match. Qed.

Lemma is_u32_sizes_of Fs s n : is_u32 n -> is_u32 (sizes_of Fs s n).
Proof.
  unfold sizes_of. revert n. induction Fs as [|F Fs IH]; intros n Hn; [done |].
  cbn. apply IH. by apply is_u32_add_field_size.
Qed.

Lemma sizes_emitted_run env ip Fs code :
  sizes_emitted env Fs code -> Forall (fun F => is_property_field F = ip) Fs ->
  forall s z, is_u32 (z_total z) -> is_u32 (z_property z) ->
  exists v, run_sizes env s code z =
    Some (if ip then Sizes (z_total z) (sizes_of Fs s (z_property z)) v
          else Sizes (sizes_of Fs s (z_total z)) (z_property z) v).
Proof.
  induction 1 as [|F Fs ts rest HP _ IH|Fs ts rest -> _ IH]; intros Hip s z H1 H2.
  - destruct z, ip; by eexists.
  - apply Forall_cons_1 in Hip as [E Hip]. rewrite run_sizes_app.
    destruct (HP s z H1 H2) as (v & ->). rewrite E. cbn [mbind option_bind].
    destruct ip; cbn; match goal with |- context [run_sizes _ _ _ ?z'] =>
      destruct (IH Hip s z') as (w & ->); cbn; eauto using is_u32_add_field_size end.
  - by apply IH.
Qed.

Lemma filter_filter {A} (p q : A -> bool) l :
  List.filter p (List.filter q l) = List.filter (fun x => q x && p x) l.
Proof.
  induction l as [|a l IH]; [done |]. simpl. destruct (q a); simpl; [by rewrite IH | done].
Qed.

Lemma filter_ext_bool {A} (p q : A -> bool) l :
  (forall x, p x = q x) -> List.filter p l = List.filter q l.
Proof. intros H. by apply List.filter_ext. Qed.

Lemma Forall_filter_bool {A} (p : A -> bool) (P : A -> Prop) l :
  (forall x, p x = true -> P x) -> Forall P (List.filter p l).
Proof.
  intros H. apply Forall_forall. intros x Hx. apply filter_In in Hx as [_ Hx]. auto.
Qed.

(** Whether some field has an attribute. *)
Lemma struct_has_field attrs key b :
  has_attribute_with_name_value attrs CODEC_ATTR key = Ok b ->
  existsb (fun a => is_ident (attr_path a) CODEC_ATTR && b) attrs = b.
Proof.
  intros H. destruct b.
  - destruct (existsb _ _) eqn:E; [done |]. exfalso.
    assert (Hn : attrs_named CODEC_ATTR attrs = []).
    { clear H. unfold attrs_named. induction attrs as [|a l IH]; [done |]. simpl in *.
      apply orb_false_iff in E as [E1 E2]. rewrite andb_true_r in E1. rewrite E1. by apply IH. }
    unfold has_attribute_with_name_value in H. rewrite Hn in H. done.
  - apply Bool.not_true_is_false. intros (a & _ & E)%existsb_exists. by rewrite andb_false_r in E.
Qed.

Lemma struct_has_correct key (P : field S -> bool) fs Fs :
  (forall f F, field_described f F ->
     has_attribute_with_name_value (sf_attrs f) CODEC_ATTR key = Ok (P F)) ->
  (forall f, field_left_out f ->
     has_attribute_with_name_value (sf_attrs f) CODEC_ATTR key = Ok false) ->
  fields_described fs Fs ->
  struct_has_attribute_with_name_value fs CODEC_ATTR key = existsb P Fs.
Proof.
  intros HP HN. unfold struct_has_attribute_with_name_value.
  assert (Hone : forall f b, has_attribute_with_name_value (sf_attrs f) CODEC_ATTR key = Ok b ->
    existsb (fun a => is_ident (attr_path a) CODEC_ATTR
      && match has_attribute_with_name_value (sf_attrs f) CODEC_ATTR key with
         | Ok true => true | _ => false end) (sf_attrs f) = b).
  { intros f b H. rewrite H.
    transitivity (existsb (fun a => is_ident (attr_path a) CODEC_ATTR && b) (sf_attrs f));
      [by destruct b | by apply (struct_has_field _ key)]. }
  induction 1 as [|f F fs Fs HD _ IH|f fs Fs Hf _ IH]; [done | |]; simpl; rewrite IH.
  - by rewrite (Hone _ _ (HP _ _ HD)).
  - by rewrite (Hone _ _ (HN _ Hf)).
Qed.

Lemma struct_has_properties_correct fs Fs :
  fields_described fs Fs -> struct_has_properties fs = has_properties Fs.
Proof.
  apply struct_has_correct; [apply fd_property | apply lo_property].
Qed.

Lemma struct_has_payload_correct fs Fs :
  fields_described fs Fs -> struct_has_payload fs = existsb is_payload_field Fs.
Proof. apply struct_has_correct; [apply fd_payload | apply lo_payload]. Qed.

(** ** The size methods *)

Lemma left_out_guarded_size f : field_left_out f -> guarded_size f = Ok [].
Proof.
  intros L. unfold guarded_size, MacroExpand.field_size.
  by rewrite (lo_skip_if _ L), (lo_skip _ L).
Qed.

Lemma property_sizes_emitted env fs Fs :
  fields_rel (described_in env) fs Fs ->
  exists code, concat_fields is_property guarded_size fs = Ok code
    /\ sizes_emitted env (List.filter is_property_field Fs) code.
Proof.
  apply concat_fields_emits.
  - intros f F HD. pose proof HD as [D _]. rewrite (select_property _ _ D).
    split; [done |]. intros _. by apply guarded_size_correct.
  - intros f L. exists false. by rewrite (left_out_property _ L).
Qed.

Lemma sized_fields_emitted n env fs Fs :
  fields_rel (described_in env) fs Fs ->
  exists code, concat_fields (sized_field n) guarded_size fs = Ok code
    /\ sizes_emitted env (List.filter
         (fun F => negb (is_property_field F) && Bool.eqb (f_non_abbreviated F) n) Fs) code.
Proof.
  apply concat_fields_emits.
  - intros f F HD. pose proof HD as [D _]. rewrite (select_sized _ _ _ D).
    split; [done |]. intros _. by apply guarded_size_correct.
  - intros f L. exists (negb n). rewrite (left_out_sized _ _ L). split; [done |].
    intros _. exists []. by rewrite (left_out_guarded_size _ L).
Qed.

Section struct_code.
Context (as_packet : bool) (it : item_struct) (d : struct S).
Hypothesis D : described as_packet it d.

Lemma described_fields :
  exists fs, named_fields (item_fields it) = Some fs
    /\ fields_described fs (s_fields d)
    /\ fields_rel (described_in (item_env it d)) fs (s_fields d).
Proof.
  destruct (ds_fields _ _ _ D) as (fs & E & Hd & Hn). exists fs.
  unfold item_env, item_field_list. rewrite E.
  split; [done |]. split; [done |]. by apply fields_described_env.
Qed.

(** The code of [property_size] computes [property_size_of]. *)
Lemma property_size_correct :
  exists body, derive_codec_property_size it = Ok body
    /\ match item_fields it with
       | Unit => body = NoImpl
       | _ => forall s, run_property_size it d body s = Some (property_size_of (s_fields d) s)
       end.
Proof.
  destruct described_fields as (fs & E & _ & HR). unfold derive_codec_property_size.
  destruct (item_fields it) as [l| |]; [| done | by eexists].
  simpl in E. injection E as ->.
  destruct (property_sizes_emitted _ _ _ HR) as (code & -> & H).
  eexists; split; [done |]. intros s. cbn.
  destruct (sizes_emitted_run _ true _ _ H) with (s := s) (z := Sizes 0 0 None) as (v & ->);
    [by apply Forall_filter_bool | done | done |]. done.
Qed.

Lemma eval_abbreviated_correct e :
  abbreviated_when_expr (item_attrs it) = Ok (Some e) ->
  eval_abbreviated it d e = s_abbreviated_when d.
Proof. intros H. unfold eval_abbreviated. by rewrite H, names_refl. Qed.

(** The code of [codec_size] computes [codec_size_of]. *)
Lemma codec_size_correct :
  exists body, derive_codec_size it = Ok body
    /\ forall property, derive_codec_property_size it = Ok property ->
       forall s, run_codec_size it d body property s = Some (codec_size_of d s).
Proof.
  destruct described_fields as (fs & E & Hd & HR). unfold derive_codec_size. rewrite E.
  destruct (sized_fields_emitted false _ _ _ HR) as (c1 & E1 & H1).
  destruct (sized_fields_emitted true _ _ _ HR) as (c2 & E2 & H2).
  destruct (ds_abbreviated _ _ _ D) as (e & Ee & He).
  rewrite E1. cbn. rewrite E2. cbn. rewrite Ee. cbn.
  eexists; split; [done |]. intros property Hprop s.
  rewrite (struct_has_properties_correct _ _ Hd).
  assert (R : forall n code z, sizes_emitted (item_env it d) (List.filter
      (fun F => negb (is_property_field F) && Bool.eqb (f_non_abbreviated F) n) (s_fields d)) code ->
    is_u32 (z_total z) -> is_u32 (z_property z) ->
    exists v, run_sizes (item_env it d) s code z
      = Some (Sizes (sizes_of (List.filter
           (fun F => negb (is_property_field F) && Bool.eqb (f_non_abbreviated F) n) (s_fields d)) s
           (z_total z)) (z_property z) v)).
  { intros n code z Hc. apply (sizes_emitted_run _ false _ _ Hc). apply Forall_filter_bool.
    intros F [HF _]%andb_true_iff. by apply negb_true_iff. }
  destruct (R _ _ (Sizes 0 0 None) H1) as (v1 & R1); [done | done |].
  destruct (R _ _ (Sizes (sizes_of (List.filter
    (fun F => negb (is_property_field F) && Bool.eqb (f_non_abbreviated F) false) (s_fields d)) s 0)
      0 v1) H2) as (v2 & R2);
    [by apply is_u32_sizes_of | done |].
  cbn in R1, R2. unfold codec_size_of. rewrite !filter_filter.
  rewrite (filter_ext_bool (fun F => _ && negb (f_non_abbreviated F))
    (fun F => negb (is_property_field F) && Bool.eqb (f_non_abbreviated F) false))
    by (intros F; by destruct (is_property_field F), (f_non_abbreviated F)).
  rewrite (filter_ext_bool (fun F => _ && f_non_abbreviated F)
    (fun F => negb (is_property_field F) && Bool.eqb (f_non_abbreviated F) true))
    by (intros F; by destruct (is_property_field F), (f_non_abbreviated F)).
  destruct (has_properties (s_fields d)) eqn:Hp.
  - destruct property_size_correct as (body & Eb & Hb). rewrite Hprop in Eb. injection Eb as <-.
    assert (Hs : run_property_size it d property s = Some (property_size_of (s_fields d) s)).
    { destruct (item_fields it) eqn:Ei; [done | done |]. exfalso.
      simpl in E. injection E as <-.
      assert (Hnil : s_fields d = []) by by inversion Hd. by rewrite Hnil in Hp. }
    cbn. rewrite R1. cbn. destruct e as [e|].
    + rewrite (eval_abbreviated_correct _ Ee). destruct (s_abbreviated_when d) as [a|]; [| done].
      cbn. destruct (a s); [done |]. cbn. rewrite R2. cbn. by rewrite Hs.
    + destruct (s_abbreviated_when d); [done |]. cbn. rewrite R2. cbn. by rewrite Hs.
  - cbn. rewrite R1. cbn. by rewrite R2.
Qed.
End struct_code.
End described.
