(* ===== verification/MacroCodecs.v ===== *)
(** * vaux-macro: the generated encoders and decoders are correct *)
(** The second half of the correctness of the generators: for a described
    struct, the code of [encode] and [decode] does what [encode_of] and
    [decode_of] do, on every buffer.  The last section puts the methods together
    for the derives and for the [packet] attribute. *)

From S2P Require Import Prelude Bytes MacroSyntax MacroExpand.
From S2P Require Import Codec Fixed Property Macro MacroFacts MacroMeaning MacroCorrect.

#[local] Open Scope string_scope.
#[local] Arguments type_argument : simpl never.
#[local] Arguments place_val : simpl never.
#[local] Arguments is_one_of : simpl never.
#[local] Arguments vec_item : simpl never.
#[local] Arguments resolve_property : simpl never.

(** ** Codec programs up to what they do *)

Definition same {A} (m m' : Codec A) : Prop := forall b, m b = m' b.
Declare Scope codec_scope.
Infix "≈" := same (at level 70) : codec_scope.
#[local] Open Scope codec_scope.

#[export] Instance same_equivalence {A} : Equivalence (@same A).
Proof.
  split; [by intros m b | by intros m m' H b | intros m1 m2 m3 H1 H2 b; by rewrite H1].
Qed.

#[export] Instance bind_same {A C} :
  Proper (pointwise_relation A same ==> same ==> same) (@mbind (M BytesMut MqttCodecError) _ A C).
Proof.
  intros f f' Hf m m' Hm b. unfold mbind, M_bind. rewrite Hm.
  destruct (m' b) as [[a|e| |] b']; [apply Hf | done ..].
Qed.

Lemma bind_assoc {A C D} (m : Codec A) (f : A -> Codec C) (g : C -> Codec D) :
  (m ≫= f) ≫= g ≈ m ≫= (fun a => f a ≫= g).
Proof. intros b. unfold mbind, M_bind. by destruct (m b) as [[a|e| |] b']. Qed.

Lemma bind_ret_same {A} (m : Codec A) : m ≫= mret ≈ m.
Proof. intros b. unfold mbind, M_bind. by destruct (m b) as [[a|e| |] b']. Qed.

Lemma bind_unit_r (m : Codec unit) : m ≫= (fun _ => mret tt) ≈ m.
Proof. intros b. unfold mbind, M_bind. by destruct (m b) as [[[]|e| |] b']. Qed.

Section codecs.
Context {B : Buf} {HI : HashIter} {SY : Syn} {S : Type}.
Implicit Types (f : syn_field) (F : field S) (s : S) (env : list (entry S)).

(** ** Encoders of one field *)

(** [code] runs, and does what [m] does. *)
Definition runs env s (locals : list (string * val)) (code : list encode_stmt) (m : Codec unit)
    : Prop :=
  exists m', seq_list (run_encode_stmt env s locals) code = Some m' /\ m' ≈ m.

Lemma runs_nil env s locals : runs env s locals [] (mret tt).
Proof. by exists (mret tt). Qed.

Lemma runs_cons env s locals c code m k :
  run_encode_stmt env s locals c = Some m -> runs env s locals code k ->
  runs env s locals (c :: code) (m ≫= fun _ => k).
Proof.
  intros E (k' & Ek & Hk). eexists. cbn. rewrite E. cbn. rewrite Ek. split; [done |].
  by setoid_rewrite Hk.
Qed.

Lemma runs_same env s locals code m m' :
  runs env s locals code m -> m ≈ m' -> runs env s locals code m'.
Proof. intros (k & E & H) Hm. exists k. split; [done |]. by rewrite H. Qed.

Lemma runs_one env s locals c m :
  run_encode_stmt env s locals c = Some m -> runs env s locals [c] m.
Proof.
  intros E. eapply runs_same; [apply runs_cons; [exact E | apply runs_nil] |]. apply bind_unit_r.
Qed.

Lemma runs_app env s locals a b m k :
  runs env s locals a m -> runs env s locals b k ->
  runs env s locals (a ++ b) (m ≫= fun _ => k).
Proof.
  intros (m' & Em & Hm) (k' & Ek & Hk). revert m m' Em Hm.
  induction a as [|c a IH]; intros m m' Em Hm; cbn in Em.
  - injection Em as <-. exists k'. split; [done |]. rewrite <- Hm. by intros b'; rewrite <- Hk.
  - destruct (run_encode_stmt env s locals c) as [m1|] eqn:E1; [| done]. cbn in Em.
    destruct (seq_list _ a) as [m2|] eqn:E2; [| done]. cbn in Em. injection Em as <-.
    eapply runs_same; [apply runs_cons; [exact E1 | by apply (IH m2 m2)] |].
    rewrite <- Hm. by rewrite bind_assoc.
Qed.

(** The identifier of a property. *)
Lemma runs_ident env s locals (po : option path) F :
  resolve_property <$> po = Some <$> f_property_type F ->
  runs env s locals (MacroExpand.prop_ident_encode po) (prop_ident_encode F).
Proof.
  unfold prop_ident_encode. destruct po as [p|], (f_property_type F) as [t|]; try done; simpl.
  - intros [= E]. apply runs_one. cbn. by rewrite E.
  - intros _. apply runs_nil.
Qed.

Lemma runs_ident_one env s locals po F c m :
  resolve_property <$> po = Some <$> f_property_type F ->
  run_encode_stmt env s locals c = Some m ->
  runs env s locals (MacroExpand.prop_ident_encode po ++ [c])
    (prop_ident_encode F ≫= fun _ => m).
Proof. intros. apply runs_app; [by apply runs_ident | by apply runs_one]. Qed.

(** The generator, once the attributes are known. *)
Lemma encode_field_of_type f F po :
  field_described f F ->
  property_type (sf_attrs f) = Ok po ->
  resolve_property <$> po = Some <$> f_property_type F ->
  MacroExpand.encode_field f =
    (encode_with ← unwrap_result
       (attribute_with_name_value (sf_attrs f) CODEC_ATTR CODEC_ATTR_ENCODE_WITH_ARG);
     match sf_ty f with
     | TypePath _ segment arguments =>
         match encode_with with
         | Some attr => encode_for_encode_with (sf_ident f) attr (segment =? "Option") po
         | None =>
             if segment =? "String" then Ok (encode_for_string (sf_ident f) false po)
             else if segment =? "Vec" then encode_for_vec (sf_ident f) arguments false po
             else if segment =? "Option" then encode_for_option (sf_ident f) arguments po
             else if is_primitive_type segment then
               Ok (encode_for_primitive (sf_ident f) segment false po)
             else Ok [EncodeTrait (SelfDot (sf_ident f))]
         end
     | TypeOther => Ok [EncodeError "Unsupported field type for Encode derive"]
     end).
Proof.
  intros D Hpo Hr. unfold MacroExpand.encode_field. rewrite (fd_skip _ _ D). cbn.
  pose proof (fd_property _ _ D) as Hp. unfold MacroSyntax.is_property_field in Hp.
  rewrite Hp. cbn. destruct (unwrap_result _) as [ew| | |]; try done. cbn. rewrite Hpo. cbn.
  rewrite (fd_payload_type _ _ D). unfold is_property_field.
  destruct po as [p|], (f_property_type F) as [t|]; try done.
Qed.

(** Running the guard of an optional field. *)
Lemma run_enc_if_some env s locals x name body F :
  place_val env locals s (SelfDot name) = Some (Val (f_ty F) (f_get F s)) ->
  run_encode_stmt env s locals (EncIfSome x name body) =
    (r ← match_some (Val (f_ty F) (f_get F s));
     match r with
     | Some v => seq_list (run_encode_stmt env s (bind_some x v locals)) body
     | None => Some (mret tt)
     end).
Proof. intros H. cbn. by rewrite H. Qed.

Lemma runs_if_some env s x name body F m :
  place_val env [] s (SelfDot name) = Some (Val (f_ty F) (f_get F s)) ->
  match match_some (Val (f_ty F) (f_get F s)) with
  | Some (Some v) => runs env s (bind_some x v []) body m
  | Some None => m ≈ mret tt
  | None => False
  end ->
  runs env s [] [EncIfSome x name body] m.
Proof.
  intros Hv H. pose proof (run_enc_if_some env s [] x name body F Hv) as E.
  destruct (match_some _) as [[v|]|]; [| | done]; cbn [mbind option_bind] in E.
  - destruct H as (m' & E' & Hm). rewrite E' in E.
    eapply runs_same; [by apply runs_one | done].
  - eapply runs_same; [by apply runs_one | by symmetry].
Qed.

Definition encodes env f F : Prop :=
  exists code, MacroExpand.encode_field f = Ok code
    /\ forall s, runs env s [] code (encode_field F s).

Lemma encode_field_with env f F :
  described_in env f F -> is_opt_with F = true -> encodes env f F.
Proof.
  intros [D Hfind] Hw. pose proof (place_self f F env Hfind []) as Hv.
  destruct (fd_property_type _ _ D) as (po & Epo & Hpo).
  pose proof (fd_encode_with _ _ D) as Hd. rewrite Hw in Hd. destruct Hd as (p & Hd).
  pose proof (declares_with_path _ _ _ Hd) as Hpath.
  destruct Hd as (a & nested & text & Ha & Hn & Hf & Hp).
  pose proof (fd_type _ _ D) as Ht. unfold encodes.
  rewrite (encode_field_of_type _ _ _ D Epo Hpo), Ha. cbn [unwrap_result mbind outcome_bind].
  clear D Epo. destruct F as [A t get set pt plt sk sw na].
  destruct t as [| | | |A w|]; try done. simpl in Ht.
  destruct (type_argument "Option" _) as [u|] eqn:Et; [| done].
  destruct (type_argument_inv _ _ _ Et) as (q & ->).
  unfold encode_for_encode_with, parse_args. rewrite Hn. cbn [ok_or].
  rewrite (name_value_path_find _ _ _ _ Hf Hp).
  eexists; split; [reflexivity |]. intros s. eapply runs_if_some; [apply Hv |]. cbn.
  destruct (get s) eqn:Eg; [| done]. cbn. apply runs_ident_one; [done |].
  cbn. unfold call_encode. rewrite Hfind. cbn. rewrite Hpath, names_refl. cbn. by rewrite Eg.
Qed.

Lemma encode_with_none f F :
  field_described f F -> is_opt_with F = false ->
  attribute_with_name_value (sf_attrs f) CODEC_ATTR CODEC_ATTR_ENCODE_WITH_ARG = Ok None.
Proof. intros D Hw. pose proof (fd_encode_with _ _ D) as Hd. by rewrite Hw in Hd. Qed.

Lemma encode_field_scalar env f F {A} (t : sty A) get set pt plt sk sw na :
  F = Field (Scalar t) get set pt plt sk sw na ->
  described_in env f F -> encodes env f F.
Proof.
  intros EF [D Hfind]. pose proof (place_self f F env Hfind []) as Hv.
  destruct (fd_property_type _ _ D) as (po & Epo & Hpo).
  pose proof (fd_type _ _ D) as Ht. unfold encodes.
  rewrite (encode_field_of_type _ _ _ D Epo Hpo).
  rewrite (encode_with_none _ _ D) by (by rewrite EF). cbn [unwrap_result mbind outcome_bind].
  clear D Epo Hfind. subst F. simpl in Ht.
  destruct (sty_named_path _ _ _ Ht) as (q & n & a & Ety). rewrite Ety in Ht |- *.
  destruct t; simpl in Ht;
    try (apply andb_true_iff in Ht as [Hc Hip];
         destruct (custom_inv _ Hc) as (Cv & Cs & Co & Cp); rewrite Cv, Cs, Co, Cp);
    try (apply String.eqb_eq in Ht as ->; cbn [String.eqb Ascii.eqb Bool.eqb]);
    (eexists; split; [reflexivity |]; intros s).
  1-5: apply runs_ident_one; [done |]; cbn; by rewrite Hv.
  1-2: apply runs_one; cbn; by rewrite Hv.
Qed.

Lemma encode_field_opt env f F {A} (t : sty A) get set pt plt sk sw na :
  F = Field (Opt t) get set pt plt sk sw na ->
  described_in env f F -> encodes env f F.
Proof.
  intros EF [D Hfind]. pose proof (place_self f F env Hfind []) as Hv.
  destruct (fd_property_type _ _ D) as (po & Epo & Hpo).
  pose proof (fd_type _ _ D) as Ht. unfold encodes.
  rewrite (encode_field_of_type _ _ _ D Epo Hpo).
  rewrite (encode_with_none _ _ D) by (by rewrite EF). cbn [unwrap_result mbind outcome_bind].
  clear D Epo Hfind. subst F. simpl in Ht.
  destruct (type_argument "Option" _) as [u|] eqn:Et; [| done].
  destruct (type_argument_inv _ _ _ Et) as (q & ->). clear Et.
  destruct (sty_named_path _ _ _ Ht) as (q' & n & a & ->). unfold encode_for_option. simpl.
  destruct t; simpl in Ht;
    try (apply andb_true_iff in Ht as [Hc Hip];
         destruct (custom_inv _ Hc) as (Cv & Cs & Co & Cp); rewrite Cv, Cs, Cp);
    try (apply String.eqb_eq in Ht as ->; cbn [String.eqb Ascii.eqb Bool.eqb]);
    (eexists; split; [reflexivity |]; intros s;
     eapply runs_if_some; [apply Hv |]; unfold encode_field; cbn;
     destruct (get s) as [v|]; [| done]; cbn; apply runs_ident_one; [done |];
     cbn; by rewrite place_name).
Qed.

(** The loop over the items of a [Vec]. *)
Lemma runs_items {A} `{Encode A, Decode A, Default A, CodecSize A, !CodecLaws A, !SizeLaw A}
    env s po F (l : list A) :
  resolve_property <$> po = Some <$> f_property_type F ->
  exists m,
    seq_list (fun item => seq_list (run_encode_stmt env s [("item", item)])
      (MacroExpand.prop_ident_encode po ++ [EncodeTrait (Name "item")])%list)
      ((fun item => Val (Scalar SType) item) <$> l) = Some m
    /\ m ≈ encode_each (fun item => prop_ident_encode F ≫= fun _ => encode item) l.
Proof.
  intros Hpo. induction l as [|a l (m & E & Hm)]; [by eexists |]. rewrite fmap_cons.
  destruct (runs_ident_one env s [("item", Val (Scalar SType) a)] po F (EncodeTrait (Name "item"))
              (encode a) Hpo) as (m' & E' & Hm').
  { cbn. by rewrite place_name. }
  cbn [seq_list]. rewrite E'. cbn [mbind option_bind]. rewrite E. cbn.
  eexists; split; [reflexivity |]. rewrite Hm'. by setoid_rewrite Hm.
Qed.

Lemma encode_field_rest env f F :
  described_in env f F -> is_opt_with F = false ->
  match f_ty F with Scalar _ | Opt _ => False | _ => True end -> encodes env f F.
Proof.
  intros [D Hfind] Hw Hk. pose proof (place_self f F env Hfind []) as Hv.
  destruct (fd_property_type _ _ D) as (po & Epo & Hpo).
  pose proof (fd_type _ _ D) as Ht. unfold encodes.
  rewrite (encode_field_of_type _ _ _ D Epo Hpo).
  rewrite (encode_with_none _ _ D Hw). cbn [unwrap_result mbind outcome_bind].
  clear D Epo Hfind. destruct F as [A t get set pt plt sk sw na].
  destruct t as [| | |A| |]; try done; simpl in *;
    try (destruct (type_argument "Vec" _) as [u|] eqn:Et; [| done];
         destruct (type_argument_inv _ _ _ Et) as (q & ->); clear Et; simpl;
         unfold encode_for_vec; simpl; destruct u as [q' n a|]; [| done]).
  - apply String.eqb_eq in Ht as ->. cbn. eexists; split; [reflexivity |]. intros s.
    apply runs_ident_one; [done |]. cbn. by rewrite Hv.
  - apply andb_true_iff in Ht as [Ht _]. destruct (vec_item_inv _ _ _ Ht) as [Hn _].
    rewrite (not_primitive_eqb _ "u8"), not_primitive by done.
    eexists; split; [reflexivity |]. intros s.
    destruct (runs_items env s po (Field Vec get set pt plt sk sw na) (get s) Hpo)
      as (m & E & Hm).
    eapply runs_same; [apply runs_one; cbn; rewrite Hv; cbn; exact E | exact Hm].
  - destruct (sf_ty f) as [q n a|]; [| done]. apply andb_true_iff in Ht as [Hc _].
    destruct (custom_inv _ Hc) as (Cv & Cs & Co & Cp). rewrite Cv, Cs, Co, Cp.
    eexists; split; [reflexivity |]. intros s. apply runs_one. cbn. by rewrite Hv.
Qed.

Lemma encode_field_correct env f F : described_in env f F -> encodes env f F.
Proof.
  intros HD. destruct (is_opt_with F) eqn:Hw; [by apply encode_field_with |].
  destruct F as [A t get set pt plt sk sw na]. destruct t.
  - by eapply encode_field_scalar.
  - by eapply encode_field_opt.
  - by apply encode_field_rest.
  - by apply encode_field_rest.
  - by apply encode_field_rest.
  - by apply encode_field_rest.
Qed.

(** ** The [encode] methods *)

Lemma guarded_encode_correct env f F :
  described_in env f F ->
  exists code, guarded_encode f = Ok code /\ forall s, runs env s [] code (encode_unskipped s F).
Proof.
  intros HD. destruct (encode_field_correct env f F HD) as (code & E & H).
  destruct HD as [D Hfind]. destruct (fd_skip_if _ _ D) as (so & Es & Hs).
  unfold guarded_encode. rewrite E. cbn. rewrite Es. cbn. eexists; split; [done |].
  intros s. specialize (H s). unfold encode_unskipped, skipped.
  destruct so as [p|], (f_skip_if F) as [g|] eqn:Eg; try done.
  destruct H as (m & Em & Hm). destruct (g (f_get F s)) eqn:Egs.
  - apply runs_one. cbn. unfold call_skip. rewrite Hfind. cbn. rewrite Es, names_refl, Eg. cbn.
    by rewrite Egs.
  - eapply runs_same; [apply runs_one | exact Hm]. cbn. unfold call_skip. rewrite Hfind. cbn.
    rewrite Es, names_refl, Eg. cbn. by rewrite Egs.
Qed.

Definition encoders_emitted env : list (field S) -> list encode_stmt -> Prop :=
  emits (fun F code => forall s, runs env s [] code (encode_unskipped s F)) (fun ts => ts = []).

Lemma encoders_emitted_run env Fs code s :
  encoders_emitted env Fs code -> runs env s [] code (encode_fields Fs s).
Proof.
  induction 1 as [|F Fs ts rest HP _ IH|Fs ts rest -> _ IH].
  - apply runs_nil.
  - by apply runs_app.
  - done.
Qed.

Lemma left_out_guarded_encode f : field_left_out f -> guarded_encode f = Ok [].
Proof.
  intros L. unfold guarded_encode, MacroExpand.encode_field.
  by rewrite (lo_skip _ L), (lo_skip_if _ L).
Qed.

Lemma encoders_emitted_for env select sel fs Fs :
  (forall f F, field_described f F -> select f = Ok (sel F)) ->
  (forall f, field_left_out f -> exists b, select f = Ok b) ->
  fields_rel (described_in env) fs Fs ->
  exists code, concat_fields select guarded_encode fs = Ok code
    /\ encoders_emitted env (List.filter sel Fs) code.
Proof.
  intros Hs HL. apply concat_fields_emits.
  - intros f F HD. split; [by apply Hs; destruct HD |]. intros _. by apply guarded_encode_correct.
  - intros f L. destruct (HL f L) as (b & E). exists b. split; [done |].
    intros _. exists []. by rewrite (left_out_guarded_encode _ L).
Qed.

Lemma filter_none {A} (p : A -> bool) l : existsb p l = false -> List.filter p l = [].
Proof.
  induction l as [|a l IH]; [done |]. simpl. intros [H1 H2]%orb_false_iff. rewrite H1. by apply IH.
Qed.

Section struct_code.
Context (as_packet : bool) (it : item_struct) (d : struct S).
Hypothesis D : described as_packet it d.

(** Running one statement of an [encode] method. *)
Lemma run_encode_stmts cs ps pe s body l m k :
  runs (item_env it d) s [] body m ->
  run_encode_body it d cs ps pe s l = Some k ->
  exists m', run_encode_body it d cs ps pe s (EncodeStmts body :: l) = Some m'
    /\ m' ≈ m ≫= fun _ => k.
Proof.
  intros (m' & Em & Hm) Ek. eexists. cbn. unfold run_encodes. rewrite Em. cbn. rewrite Ek.
  split; [done |]. by rewrite Hm.
Qed.

Lemma property_encode_correct :
  exists body, property_encode_internal it = Ok body
    /\ forall x property, x_property_size x = property -> x_property_encode x = body ->
       derive_codec_property_size it = Ok property ->
       forall s, exists m, run_property_encode it d x s = Some m
         /\ m ≈ property_encode_of (s_fields d) s.
Proof.
  destruct (described_fields _ _ _ D) as (fs & E & Hd & HR). unfold property_encode_internal.
  rewrite E, (struct_has_properties_correct _ _ Hd). unfold property_encode_of.
  destruct (has_properties (s_fields d)) eqn:Hp.
  - destruct (encoders_emitted_for _ is_property is_property_field _ _ select_property
      (fun f L => ex_intro _ _ (left_out_property f L)) HR) as (code & -> & Hc).
    eexists; split; [done |]. intros x property <- Ex Hprop s.
    destruct (property_size_correct _ _ _ D) as (body & Eb & Hb). rewrite Hprop in Eb.
    injection Eb as <-.
    assert (Hs : run_property_size it d (x_property_size x) s
                 = Some (property_size_of (s_fields d) s)).
    { destruct (item_fields it) eqn:Ei; [done | done |]. exfalso. injection E as <-.
      assert (Hnil : s_fields d = []) by by inversion Hd. by rewrite Hnil in Hp. }
    unfold run_property_encode. rewrite Ex. cbn. rewrite Hs. cbn.
    destruct (encoders_emitted_run _ _ _ s Hc) as (m & Em & Hm). unfold run_encodes.
    rewrite Em. cbn. eexists; split; [done |].
    setoid_rewrite bind_unit_r. by setoid_rewrite Hm.
  - eexists; split; [done |]. intros x property _ Ex _ s. unfold run_property_encode.
    rewrite Ex. by eexists.
Qed.

(** The statements [l] run, and do what [m] does. *)
Definition body_runs cs ps pe s (l : list encode_item) (m : Codec unit) : Prop :=
  exists m', run_encode_body it d cs ps pe s l = Some m' /\ m' ≈ m.

Lemma body_runs_stmts cs ps pe s body l m k :
  runs (item_env it d) s [] body m -> body_runs cs ps pe s l k ->
  body_runs cs ps pe s (EncodeStmts body :: l) (m ≫= fun _ => k).
Proof.
  intros Hm (k' & Ek & Hk). destruct (run_encode_stmts cs ps pe s body l m k' Hm Ek) as (m' & E & H).
  exists m'. split; [done |]. rewrite H. by setoid_rewrite Hk.
Qed.

Lemma body_runs_abbreviated cs ps pe s l k e :
  abbreviated_when_expr (item_attrs it) = Ok e ->
  body_runs cs ps pe s l k ->
  body_runs cs ps pe s (match e with Some e => [ReturnIf e] | None => [] end ++ l)
    (if match s_abbreviated_when d with Some a => a s | None => false end then mret tt else k).
Proof.
  intros Ee (k' & Ek & Hk). destruct (ds_abbreviated _ _ _ D) as (e' & Ee' & He).
  rewrite Ee in Ee'. injection Ee' as <-.
  destruct e as [e|], (s_abbreviated_when d) as [a|] eqn:Ea; try done.
  - eexists. cbn. rewrite (eval_abbreviated_correct _ _ _ Ee), Ea. cbn. rewrite Ek.
    split; [done |]. by destruct (a s).
  - by exists k'.
Qed.

Lemma body_runs_property_encode cs ps pe s l k m :
  (exists m', pe = Some m' /\ m' ≈ m) ->
  (has_properties (s_fields d) = false -> m ≈ mret tt) ->
  body_runs cs ps pe s l k ->
  body_runs cs ps pe s ((if has_properties (s_fields d) then [PropertyEncode] else []) ++ l)
    (m ≫= fun _ => k).
Proof.
  intros (m' & -> & Hm) Hno (k' & Ek & Hk). destruct (has_properties _).
  - eexists. cbn. rewrite Ek. split; [done |]. rewrite Hm. by setoid_rewrite Hk.
  - exists k'. split; [done |]. rewrite (Hno eq_refl). by intros b; rewrite Hk.
Qed.

Lemma body_runs_packet cs ps pe s l k b :
  is_as_packet (item_attrs it) = Ok b ->
  cs = Some (codec_size_of d s) ->
  body_runs cs ps pe s l k ->
  body_runs cs ps pe s ((if as_packet || b then [EncodeFixedHeader; EncodeCodecSize] else []) ++ l)
    (match s_as_packet d with
     | Some fixed_header =>
         FixedHeader_encode (fixed_header s) ≫= fun _ =>
         encode_variable_byte_int (codec_size_of d s) ≫= fun _ => k
     | None => k
     end).
Proof.
  intros Eb -> (k' & Ek & Hk). destruct (ds_as_packet _ _ _ D) as (b' & Eb' & Hb).
  rewrite Eb in Eb'. injection Eb' as <-. rewrite Hb.
  destruct (s_as_packet d) as [h|] eqn:Eh; cbn; [| by exists k'].
  eexists. cbn. rewrite Eh, Ek. split; [done |]. by setoid_rewrite Hk.
Qed.

(** The implementations of a struct, other than [Encode] and [Decode], are the
    derived ones. *)
Record helpers (x : expansion) : Prop := {
  h_codec_size : derive_codec_size it = Ok (x_codec_size x);
  h_property_size : derive_codec_property_size it = Ok (x_property_size x);
  h_property_encode : property_encode_internal it = Ok (x_property_encode x);
}.

(** The code of [encode] does what [encode_of] does. *)
Lemma encode_correct :
  exists body, encode_internal it as_packet = Ok body
    /\ forall x, helpers x -> x_encode x = body ->
       forall s, exists m, run_encode it d x s = Some m /\ m ≈ encode_of d s.
Proof.
  destruct (described_fields _ _ _ D) as (fs & E & Hd & HR). unfold encode_internal.
  destruct (ds_as_packet _ _ _ D) as (b & Eb & _). rewrite Eb. cbn [mbind outcome_bind]. rewrite E.
  destruct (encoders_emitted_for _ (header_field false) _ _ _ (select_header false)
    (fun f L => ex_intro _ _ (left_out_header false f L)) HR) as (c1 & E1 & H1).
  destruct (encoders_emitted_for _ (header_field true) _ _ _ (select_header true)
    (fun f L => ex_intro _ _ (left_out_header true f L)) HR) as (c2 & E2 & H2).
  destruct (encoders_emitted_for _ is_payload is_payload_field _ _ select_payload
    (fun f L => ex_intro _ _ (left_out_payload f L)) HR) as (c3 & E3 & H3).
  destruct (ds_abbreviated _ _ _ D) as (e & Ee & _).
  rewrite E1. cbn [mbind outcome_bind]. rewrite E2. cbn [mbind outcome_bind].
  rewrite E3, (struct_has_payload_correct _ _ Hd), (struct_has_properties_correct _ _ Hd).
  assert (Hc3 : exists c, (if existsb is_payload_field (s_fields d) then Ok c3 else Ok [])
      = (Ok c : outcome unit (list encode_stmt))
    /\ encoders_emitted (item_env it d) (List.filter is_payload_field (s_fields d)) c).
  { destruct (existsb _ _) eqn:Ex; [by exists c3 |]. exists []. split; [done |].
    rewrite (filter_none _ _ Ex). constructor. }
  destruct Hc3 as (c & -> & Hc). cbn [mbind outcome_bind]. rewrite Ee. cbn [mbind outcome_bind].
  eexists; split; [reflexivity |]. intros x Hx Ex s.
  destruct (codec_size_correct _ _ _ D) as (cs & Ecs & Hcs).
  rewrite (h_codec_size _ Hx) in Ecs. injection Ecs as <-.
  specialize (Hcs _ (h_property_size _ Hx) s).
  destruct (property_encode_correct) as (pe & Epe & Hpe).
  rewrite (h_property_encode _ Hx) in Epe. injection Epe as <-.
  specialize (Hpe x _ eq_refl eq_refl (h_property_size _ Hx) s).
  unfold run_encode. rewrite Ex, Hcs. apply (body_runs_packet _ _ _ _ _ (encode_body_of d s) _ Eb eq_refl).
  unfold encode_body_of. rewrite !filter_filter.
  rewrite (filter_ext_bool (fun F => _ && negb (f_non_abbreviated F))
    (fun F => is_header_field F && Bool.eqb (f_non_abbreviated F) false))
    by (intros F; by destruct (is_header_field F), (f_non_abbreviated F)).
  rewrite (filter_ext_bool (fun F => _ && f_non_abbreviated F)
    (fun F => is_header_field F && Bool.eqb (f_non_abbreviated F) true))
    by (intros F; by destruct (is_header_field F), (f_non_abbreviated F)).
  cbn [app]. apply body_runs_stmts; [by apply encoders_emitted_run |].
  apply body_runs_abbreviated; [done |].
  apply body_runs_stmts; [by apply encoders_emitted_run |].
  apply body_runs_property_encode; [done | |].
  { intros Hp. unfold property_encode_of. by rewrite Hp. }
  pose proof (encoders_emitted_run _ _ _ s Hc) as (m & Em & Hm).
  eexists. cbn. unfold run_encodes. rewrite Em. split; [reflexivity |].
  by rewrite bind_unit_r.
Qed.
End struct_code.

(** ** Decoders of one field *)

Lemma ty_eqb_refl : forall t, ty_eqb t t = true.
Proof.
  fix IH 1. intros [q i [|l|]|]; cbn [ty_eqb];
    rewrite ?bool_decide_eq_true_2, ?String.eqb_refl by done; try done.
  induction l as [|[t|] l IHl]; [done | |]; cbn; [rewrite IH |]; exact IHl.
Qed.

Lemma applied_refl c t q : applied c t (TypePath q c (AngleBracketed [GenericType t])) = true.
Proof. unfold applied, type_argument. by rewrite String.eqb_refl, ty_eqb_refl. Qed.

(** Statements that run as a decoder [k] does. *)
Definition decodes env (code : list decode_stmt) (k : dstate S -> Codec (dstate S)) : Prop :=
  exists m, run_decode_stmts env code = Some m /\ forall st, m st ≈ k st.

Lemma decodes_one env c m k :
  run_decode_stmt env c = Some m -> (forall st, m st ≈ k st) -> decodes env [c] k.
Proof.
  intros E H. eexists. cbn. rewrite E. cbn. split; [done |]. intros st.
  rewrite <- (H st). apply bind_ret_same.
Qed.

(** The tokens of a field: an arm of the match for a property. *)
Definition field_tokens_of (po : option path) (code : list decode_stmt) : field_tokens :=
  match po with Some p => Arm p code | None => Stmts code end.

Lemma decode_field_of_type f F po :
  field_described f F ->
  property_type (sf_attrs f) = Ok po ->
  resolve_property <$> po = Some <$> f_property_type F ->
  MacroExpand.decode_field f =
    (decode_with ← unwrap_result
       (attribute_with_name_value (sf_attrs f) CODEC_ATTR CODEC_ATTR_DECODE_WITH_ARG);
     match sf_ty f with
     | TypePath _ segment arguments =>
         inner ← option_inner segment (sf_ty f) arguments;
         match inner with
         | None => Ok (Stmts [DecodeError "Unsupported Option inner type for Decode derive"])
         | Some (optional_field, inner_field_type) =>
             field_decode ←
               match decode_with with
               | Some attr => decode_for_decode_with (sf_ident f) attr po
               | None =>
                   if segment =? "String" then
                     Ok (decode_for_string (sf_ident f) optional_field po)
                   else if segment =? "Vec" then
                     decode_for_vec (sf_ident f) arguments optional_field
                   else if is_primitive_type segment then
                     Ok (decode_for_primitive (sf_ident f) inner_field_type optional_field po)
                   else Ok (decode_for_type (sf_ident f) inner_field_type optional_field po)
               end;
             Ok (field_tokens_of po field_decode)
         end
     | TypeOther => Ok (Stmts [DecodeError "Unsupported field type for Decode derive"])
     end).
Proof.
  intros D Hpo Hr. unfold MacroExpand.decode_field. rewrite (fd_skip _ _ D). cbn.
  pose proof (fd_property _ _ D) as Hp. unfold MacroSyntax.is_property_field in Hp.
  rewrite Hp. cbn. destruct (unwrap_result _) as [ew| | |]; try done. cbn. rewrite Hpo. cbn.
  unfold is_property_field. by destruct po as [p|], (f_property_type F) as [t|].
Qed.

Definition decodes_field env f F po : Prop :=
  exists code, MacroExpand.decode_field f = Ok (field_tokens_of po code)
    /\ decodes env code (decode_field F).

Lemma counts_property_of po F :
  resolve_property <$> po = Some <$> f_property_type F ->
  counts_property (read_of po) = is_property_field F.
Proof.
  unfold is_property_field. by destruct po, (f_property_type F).
Qed.

Lemma decode_field_with env f F po :
  described_in env f F -> is_opt_with F = true ->
  property_type (sf_attrs f) = Ok po ->
  resolve_property <$> po = Some <$> f_property_type F -> decodes_field env f F po.
Proof.
  intros [D Hfind] Hw Epo Hpo. pose proof (counts_property_of _ _ Hpo) as Hc.
  pose proof (fd_decode_with _ _ D) as Hd. rewrite Hw in Hd. destruct Hd as (p & Hd).
  pose proof (declares_with_path _ _ _ Hd) as Hpath.
  destruct Hd as (a & nested & text & Ha & Hn & Hf & Hp).
  pose proof (fd_type _ _ D) as Ht. unfold decodes_field.
  rewrite (decode_field_of_type _ _ _ D Epo Hpo), Ha. cbn [unwrap_result mbind outcome_bind].
  clear D Epo. destruct F as [A t get set pt plt sk sw na].
  destruct t as [| | | |A w|]; try done. simpl in Ht.
  destruct (type_argument "Option" _) as [u|] eqn:Et; [| done].
  destruct (type_argument_inv _ _ _ Et) as (q & ->).
  destruct u as [q' n a'|]; [| done].
  cbn. unfold decode_for_decode_with, parse_args. rewrite Hn. cbn [ok_or].
  rewrite (name_value_path_find _ _ _ _ Hf Hp). cbn.
  eexists; split; [reflexivity |]. eapply decodes_one.
  - cbn. rewrite Hfind. cbn. rewrite Hpath, names_refl. cbn. reflexivity.
  - intros st. unfold decode_field, assign. cbn. by rewrite Hc.
Qed.

Lemma decode_with_none f F :
  field_described f F -> is_opt_with F = false ->
  attribute_with_name_value (sf_attrs f) CODEC_ATTR CODEC_ATTR_DECODE_WITH_ARG = Ok None.
Proof. intros D Hw. pose proof (fd_decode_with _ _ D) as Hd. by rewrite Hw in Hd. Qed.

Lemma decode_field_scalar env f F po {A} (t : sty A) get set pt plt sk sw na :
  F = Field (Scalar t) get set pt plt sk sw na ->
  described_in env f F ->
  property_type (sf_attrs f) = Ok po ->
  resolve_property <$> po = Some <$> f_property_type F -> decodes_field env f F po.
Proof.
  intros EF [D Hfind] Epo Hpo. pose proof (counts_property_of _ _ Hpo) as Hc.
  pose proof (fd_type _ _ D) as Ht. unfold decodes_field.
  rewrite (decode_field_of_type _ _ _ D Epo Hpo).
  rewrite (decode_with_none _ _ D) by (by rewrite EF). cbn [unwrap_result mbind outcome_bind].
  clear D Epo. subst F. simpl in Ht.
  destruct (sty_named_path _ _ _ Ht) as (q & n & a & Ety). rewrite Ety in Ht |- *.
  unfold option_inner.
  destruct t; simpl in Ht;
    try (apply andb_true_iff in Ht as [Hk Hip];
         destruct (custom_inv _ Hk) as (Cv & Cs & Co & Cp);
         rewrite Co; cbn [mbind outcome_bind]; rewrite Cs, Cv, Cp; cbn [mbind outcome_bind]);
    try (apply String.eqb_eq in Ht as ->; cbn);
    (eexists; split; [reflexivity |]; eapply decodes_one;
     [cbn; rewrite Hfind; reflexivity |]);
    intros st; unfold decode_field, assign; cbn; rewrite Hc; try reflexivity;
    unfold u8_decode, u16_decode, u32_decode; by rewrite ?bind_assoc.
Qed.

Lemma decode_field_opt env f F po {A} (t : sty A) get set pt plt sk sw na :
  F = Field (Opt t) get set pt plt sk sw na ->
  described_in env f F ->
  property_type (sf_attrs f) = Ok po ->
  resolve_property <$> po = Some <$> f_property_type F -> decodes_field env f F po.
Proof.
  intros EF [D Hfind] Epo Hpo. pose proof (counts_property_of _ _ Hpo) as Hc.
  pose proof (fd_type _ _ D) as Ht. unfold decodes_field.
  rewrite (decode_field_of_type _ _ _ D Epo Hpo).
  rewrite (decode_with_none _ _ D) by (by rewrite EF). cbn [unwrap_result mbind outcome_bind].
  clear D Epo. subst F. simpl in Ht.
  destruct (type_argument "Option" _) as [u|] eqn:Et; [| done].
  destruct (type_argument_inv _ _ _ Et) as (q & Ety). rewrite Ety. clear Et.
  destruct (sty_named_path _ _ _ Ht) as (q' & n & a & ->).
  cbn. eexists; split; [reflexivity |]. eapply decodes_one.
  - cbn. rewrite Hfind. cbn. rewrite Ety, applied_refl. cbn. reflexivity.
  - intros st. unfold decode_field, assign. cbn. by rewrite Hc.
Qed.

Lemma decode_field_rest env f F po :
  described_in env f F -> is_opt_with F = false ->
  match f_ty F with Scalar _ | Opt _ => False | _ => True end ->
  property_type (sf_attrs f) = Ok po ->
  resolve_property <$> po = Some <$> f_property_type F -> decodes_field env f F po.
Proof.
  intros [D Hfind] Hw Hk Epo Hpo. pose proof (counts_property_of _ _ Hpo) as Hc.
  pose proof (fd_type _ _ D) as Ht. unfold decodes_field.
  rewrite (decode_field_of_type _ _ _ D Epo Hpo).
  rewrite (decode_with_none _ _ D Hw). cbn [unwrap_result mbind outcome_bind].
  clear D Epo. destruct F as [A t get set pt plt sk sw na].
  destruct t as [| | |A| |]; try done; simpl in *;
    try (destruct (type_argument "Vec" _) as [u|] eqn:Et; [| done];
         destruct (type_argument_inv _ _ _ Et) as (q & Ety); rewrite Ety; clear Et; simpl;
         unfold decode_for_vec; simpl; destruct u as [q' n a|]; [| done]).
  - apply String.eqb_eq in Ht as ->. cbn. eexists; split; [reflexivity |]. eapply decodes_one.
    + cbn. rewrite Hfind. cbn. reflexivity.
    + intros st. reflexivity.
  - apply andb_true_iff in Ht as [Ht _]. destruct (vec_item_inv _ _ _ Ht) as [Hn Hs].
    rewrite (not_primitive_eqb _ "u8"), not_primitive by done.
    assert (Happ : applied "Vec" (if n =? "String" then String_ty else TypePath q' n a) (sf_ty f)
                   = true).
    { rewrite Ety. destruct (n =? "String") eqn:En; [| apply applied_refl].
      specialize (Hs eq_refl). apply String.eqb_eq in En as ->.
      by destruct q', a. }
    destruct (n =? "String");
      (eexists; split; [reflexivity |];
       eapply decodes_one; [cbn; rewrite Hfind; cbn; rewrite Happ; reflexivity |];
       intros st; reflexivity).
  - destruct (sf_ty f) as [q n a|]; [| done]. apply andb_true_iff in Ht as [Hcu _].
    destruct (custom_inv _ Hcu) as (Cv & Cs & Co & Cp). unfold option_inner.
    rewrite Co. cbn [mbind outcome_bind]. rewrite Cs, Cv, Cp. cbn [mbind outcome_bind].
    eexists; split; [reflexivity |]. eapply decodes_one.
    + cbn. rewrite Hfind. cbn. reflexivity.
    + intros st. unfold decode_field, assign. cbn. by rewrite Hc.
Qed.

Lemma decode_field_correct env f F :
  described_in env f F ->
  exists po, resolve_property <$> po = Some <$> f_property_type F /\ decodes_field env f F po.
Proof.
  intros HD. pose proof HD as [D _]. destruct (fd_property_type _ _ D) as (po & Epo & Hpo).
  exists po. split; [done |].
  destruct (is_opt_with F) eqn:Hw; [by apply decode_field_with |].
  destruct F as [A t get set pt plt sk sw na]. destruct t.
  - by eapply decode_field_scalar.
  - by eapply decode_field_opt.
  - by apply decode_field_rest.
  - by apply decode_field_rest.
  - by apply decode_field_rest.
  - by apply decode_field_rest.
Qed.

(** ** The [decode] methods *)

Definition token_of env F (ts : list field_tokens) : Prop :=
  exists po code, ts = [field_tokens_of po code]
    /\ resolve_property <$> po = Some <$> f_property_type F
    /\ decodes env code (decode_field F).

Definition decoders_emitted env : list (field S) -> list field_tokens -> Prop :=
  emits (token_of env) (fun ts => ts = [NoTokens]).

Lemma decode_tokens_correct env f F :
  described_in env f F -> exists ts, decode_tokens f = Ok ts /\ token_of env F ts.
Proof.
  intros HD. destruct (decode_field_correct env f F HD) as (po & Hpo & code & E & H).
  unfold decode_tokens. rewrite E. cbn. eexists; split; [done |]. by exists po, code.
Qed.

Lemma left_out_decode_tokens f : field_left_out f -> decode_tokens f = Ok [NoTokens].
Proof.
  intros L. unfold decode_tokens, MacroExpand.decode_field. by rewrite (lo_skip _ L).
Qed.

Lemma decoders_emitted_for env select sel fs Fs :
  (forall f F, field_described f F -> select f = Ok (sel F)) ->
  (forall f, field_left_out f -> exists b, select f = Ok b) ->
  fields_rel (described_in env) fs Fs ->
  exists ts, concat_fields select decode_tokens fs = Ok ts
    /\ decoders_emitted env (List.filter sel Fs) ts.
Proof.
  intros Hs HL. apply concat_fields_emits.
  - intros f F HD. split; [by apply Hs; destruct HD |]. intros _. by apply decode_tokens_correct.
  - intros f L. destruct (HL f L) as (b & E). exists b. split; [done |].
    intros _. exists [NoTokens]. by rewrite (left_out_decode_tokens _ L).
Qed.

(** The statements [l] run, and do what [k] does. *)
Definition decode_runs env (l : list decode_item) (k : dstate S -> Codec (dstate S)) : Prop :=
  exists m, run_decode_body env l = Some m /\ forall st, m st ≈ k st.

Lemma decode_runs_tokens env Fs ts l k :
  decoders_emitted env Fs ts -> Forall (fun F => is_property_field F = false) Fs ->
  decode_runs env l k ->
  decode_runs env (map DecodeTokens ts ++ l) (fun st => decode_fields Fs st ≫= k).
Proof.
  intros H. induction H as [|F Fs ts rest (po & code & -> & Hpo & m & Em & Hm) _ IH
                            |Fs ts rest -> _ IH]; intros Hp (k' & Ek & Hk).
  - by exists k'.
  - apply Forall_cons_1 in Hp as [HF Hp].
    destruct (IH Hp) as (m' & Em' & Hm'); [by exists k' |].
    assert (po = None) as ->.
    { unfold is_property_field in HF. by destruct po, (f_property_type F). }
    eexists. cbn. rewrite Em'. cbn. rewrite Em. split; [done |]. intros st.
    cbn. rewrite bind_assoc. rewrite (Hm st). by setoid_rewrite Hm'.
  - destruct (IH Hp) as (m' & Em' & Hm'); [by exists k' |].
    eexists. cbn. rewrite Em'. split; [done |]. intros st. apply Hm'.
Qed.

(** The arms of the property match. *)
Lemma select_arm_correct env Fs ts :
  decoders_emitted env Fs ts -> Forall (fun F => is_property_field F = true) Fs ->
  exists arms, mapM (run_arm env) ts = Some arms
    /\ forall p st, select_arm (concat arms) p st ≈ decode_property Fs p st.
Proof.
  induction 1 as [|F Fs ts rest (po & code & -> & Hpo & m & Em & Hm) _ IH
                 |Fs ts rest -> _ IH]; intros Hp.
  - by exists [].
  - apply Forall_cons_1 in Hp as [HF Hp]. destruct (IH Hp) as (arms & E & H).
    unfold is_property_field in HF.
    destruct po as [q|], (f_property_type F) as [t|] eqn:Et; try done. injection Hpo as Hq.
    exists ([(t, m)] :: arms). cbn. rewrite Hq. cbn. rewrite Em. cbn. rewrite E. split; [done |].
    intros p st. unfold select_arm, decode_property. cbn.
    rewrite Et. destruct (decide (t = p)) as [->|Hn].
    + rewrite bool_decide_eq_true_2, decide_True by done. cbn. apply Hm.
    + rewrite bool_decide_eq_false_2, decide_False by congruence.
      rewrite (H p st). unfold decode_property.
      by destruct (list_find _ Fs) as [[i G]|].
  - destruct (IH Hp) as (arms & E & H). exists ([] :: arms). cbn. by rewrite E.
Qed.

Lemma decode_property_filter Fs p (st : dstate S) :
  decode_property (List.filter is_property_field Fs) p st = decode_property Fs p st.
Proof.
  unfold decode_property. induction Fs as [|F Fs IH]; [done |]. simpl.
  unfold is_property_field at 1. destruct (f_property_type F) as [t|] eqn:Et; cbn.
  - rewrite Et. destruct (decide (Some t = Some p)); [done |].
    destruct (list_find _ (List.filter _ _)) as [[]|], (list_find _ Fs) as [[]|]; done.
  - rewrite decide_False by done. rewrite IH. by destruct (list_find _ Fs) as [[]|].
Qed.

Lemma property_loop_same fuel (arm arm' : PropertyType -> dstate S -> Codec (dstate S)) n st :
  (forall p st, arm p st ≈ arm' p st) ->
  property_loop fuel arm n st ≈ property_loop fuel arm' n st.
Proof.
  intros H. revert st. induction fuel as [|fuel IH]; intros st; cbn;
    destruct (_ <? _)%Z; try reflexivity.
  setoid_rewrite H. by setoid_rewrite IH.
Qed.

Lemma decode_properties_same (arm arm' : PropertyType -> dstate S -> Codec (dstate S)) st :
  (forall p st, arm p st ≈ arm' p st) -> decode_properties arm st ≈ decode_properties arm' st.
Proof.
  intros H. unfold decode_properties. apply bind_same; [| reflexivity].
  intros [n k]. apply bind_same; [| reflexivity]. intros b.
  apply bind_same; [reflexivity |]. by apply property_loop_same.
Qed.

Lemma decode_runs_min env min l k :
  decode_runs env l k ->
  decode_runs env (match min with Some n => [MinSizeCheck n] | None => [] end ++ l)
    (fun st => min_size_check min (d_bytes_read st) ≫= fun stop : bool =>
               if stop then mret st else k st).
Proof.
  intros (k' & Ek & Hk). destruct min as [n|].
  - eexists. cbn. rewrite Ek. split; [done |]. intros st.
    apply bind_same; [| reflexivity]. intros []; [reflexivity | apply Hk].
  - by exists k'.
Qed.

Lemma decode_runs_properties env Fs ts l k :
  decoders_emitted env (List.filter is_property_field Fs) ts ->
  decode_runs env l k ->
  decode_runs env ((if has_properties Fs then [DecodeProperties ts] else []) ++ l)
    (fun st => (if has_properties Fs then decode_properties (decode_property Fs) st else mret st)
               ≫= k).
Proof.
  intros Hts (k' & Ek & Hk). destruct (has_properties Fs); [| by exists k'].
  destruct (select_arm_correct _ _ _ Hts) as (arms & E & H); [by apply Forall_filter_bool |].
  eexists. cbn. rewrite Ek. cbn. rewrite E. split; [done |]. intros st. cbn.
  apply bind_same; [intros st'; apply Hk |]. apply decode_properties_same.
  intros p st'. rewrite (H p st'). by rewrite decode_property_filter.
Qed.

Lemma decode_runs_abbreviated env (e : option string) l k :
  decode_runs env l k ->
  decode_runs env (match e with Some _ => [ReturnIfEmpty] | None => [] end ++ l)
    (fun st => has_remaining ≫= fun more : bool =>
               if bool_decide (is_Some e) && negb more then mret st else k st).
Proof.
  intros (k' & Ek & Hk). destruct e as [e|].
  - eexists. cbn. rewrite Ek. split; [done |]. intros st.
    apply bind_same; [| reflexivity]. intros []; [apply Hk | reflexivity].
  - exists k'. split; [done |]. intros st b. rewrite bind_has_remaining. apply Hk.
Qed.

Lemma emits_length {T} (P : field S -> list T -> Prop) Fs ts :
  emits P (fun _ => False) Fs ts -> (forall F ts, P F ts -> length ts = 1%nat) ->
  length ts = length Fs.
Proof.
  intros H HP. induction H as [|F Fs ts rest H _ IH|? ? ? [] _ _]; [done |].
  rewrite length_app, (HP _ _ H), IH. done.
Qed.

Lemma emits_weaken {T} (P : field S -> list T -> Prop) (N N' : list T -> Prop) Fs ts :
  (forall ts, N ts -> N' ts) -> emits P N Fs ts -> emits P N' Fs ts.
Proof. intros H. induction 1; constructor; auto. Qed.

Lemma select_field_payload f F :
  field_described f F ->
  has_payload_type CODEC_ATTR_PAYLOAD_TYPE_FIELD f = Ok (is_field_payload F).
Proof.
  intros D. unfold has_payload_type, is_field_payload. rewrite (fd_payload_type _ _ D).
  by destruct (f_payload_type F) as [[]|].
Qed.

Lemma select_remaining_payload f F :
  field_described f F ->
  has_payload_type CODEC_ATTR_PAYLOAD_TYPE_REMAINING f = Ok (is_remaining_payload F).
Proof.
  intros D. unfold has_payload_type, is_remaining_payload. rewrite (fd_payload_type _ _ D).
  by destruct (f_payload_type F) as [[]|].
Qed.

Lemma field_payload_is_payload F : is_field_payload F = true -> is_payload_field F = true.
Proof. unfold is_field_payload, is_payload_field. by destruct (f_payload_type F). Qed.
Lemma remaining_payload_is_payload F : is_remaining_payload F = true -> is_payload_field F = true.
Proof. unfold is_remaining_payload, is_payload_field. by destruct (f_payload_type F). Qed.

Lemma payload_emitted kind (sel : field S -> bool) env fs Fs :
  (forall f F, field_described f F -> has_payload_type kind f = Ok (sel F)) ->
  (forall F, sel F = true -> is_payload_field F = true) ->
  fields_rel (described_in env) fs Fs ->
  exists ts, (if existsb is_payload_field Fs
              then concat_fields (has_payload_type kind) decode_tokens fs else Ok []) = Ok ts
    /\ emits (token_of env) (fun _ => False) (List.filter sel Fs) ts.
Proof.
  intros Hs Hp HR. destruct (existsb is_payload_field Fs) eqn:E.
  - apply (concat_fields_emits (described_in env)).
    + intros f F HD. split; [by apply Hs; destruct HD |]. intros _. by apply decode_tokens_correct.
    + intros f L. exists false. split; [| done]. unfold has_payload_type.
      by rewrite (lo_payload_type _ L).
    + done.
  - exists []. split; [done |]. rewrite filter_none; [constructor |].
    apply Bool.not_true_is_false. intros (F & HF & HsF)%existsb_exists.
    assert (existsb is_payload_field Fs = true) by (apply existsb_exists; eauto). congruence.
Qed.

Lemma filter_header_not_property n Fs :
  Forall (fun F => is_property_field F = false)
    (List.filter (fun F => is_header_field F && Bool.eqb (f_non_abbreviated F) n) Fs).
Proof.
  apply Forall_filter_bool. unfold is_header_field.
  intros F [[HF _]%andb_true_iff _]%andb_true_iff. by apply negb_true_iff.
Qed.

Lemma filter_payload_not_property sel Fs :
  Forall (fun F => negb (is_payload_field F && is_property_field F)) Fs ->
  (forall F, sel F = true -> is_payload_field F = true) ->
  Forall (fun F => is_property_field F = false) (List.filter sel Fs).
Proof.
  rewrite !Forall_forall. intros H Hs F HF.
  apply filter_In in HF as [HF HsF]. specialize (H F HF). rewrite (Hs F HsF) in H.
  by destruct (is_property_field F).
Qed.

(** [decode_of] before the final byte count is returned. *)
Definition decode_state (d : struct S) (st : dstate S) : Codec (dstate S) :=
  let fs := s_fields d in
  let header n := List.filter (fun F => is_header_field F && Bool.eqb (f_non_abbreviated F) n) fs in
  min_size_check (s_min_decode d) (d_bytes_read st) ≫= fun stop : bool =>
  if stop then mret st
  else decode_fields (header false) st ≫= fun st =>
  has_remaining ≫= fun more : bool =>
  if bool_decide (is_Some (s_abbreviated_when d)) && negb more then mret st
  else decode_fields (header true) st ≫= fun st =>
  min_size_check (s_min_decode d) (d_bytes_read st) ≫= fun stop : bool =>
  if stop then mret st
  else (if has_properties fs then decode_properties (decode_property fs) st else mret st)
    ≫= fun st => decode_fields (List.filter is_field_payload fs) st ≫= fun st =>
  decode_fields (List.filter is_remaining_payload fs) st ≫= mret.

Lemma bind_if {A C} (b : bool) (m m' : Codec A) (f : A -> Codec C) :
  (if b then m else m') ≫= f = if b then m ≫= f else m' ≫= f.
Proof. by destruct b. Qed.

Lemma if_same {A} (b : bool) (m m' k k' : Codec A) :
  m ≈ k -> m' ≈ k' -> (if b then m else m') ≈ (if b then k else k').
Proof. by destruct b. Qed.

Lemma decode_of_state (d : struct S) self :
  decode_state d (DState self 0 0) ≫= (fun st => mret (d_self st, d_bytes_read st))
  ≈ decode_of d self.
Proof.
  unfold decode_of, decode_state. rewrite !filter_filter.
  rewrite (filter_ext_bool (fun F => _ && f_non_abbreviated F)
    (fun F => is_header_field F && Bool.eqb (f_non_abbreviated F) true))
    by (intros F; by destruct (is_header_field F), (f_non_abbreviated F)).
  cbv zeta.
  rewrite bind_assoc. apply bind_same; [| reflexivity]. intros stop1.
  rewrite bind_if. apply if_same; [reflexivity |].
  rewrite bind_assoc. apply bind_same; [| reflexivity]. intros st1.
  rewrite bind_assoc. apply bind_same; [| reflexivity]. intros more.
  rewrite bind_if. apply if_same; [reflexivity |].
  rewrite bind_assoc. apply bind_same; [| reflexivity]. intros st2.
  rewrite bind_assoc. apply bind_same; [| reflexivity]. intros stop2.
  rewrite bind_if. apply if_same; [reflexivity |].
  rewrite bind_assoc. apply bind_same; [| reflexivity]. intros st3.
  rewrite bind_assoc. apply bind_same; [| reflexivity]. intros st4.
  rewrite bind_assoc. reflexivity.
Qed.

Section decode_code.
Context (as_packet : bool) (it : item_struct) (d : struct S).
Hypothesis D : described as_packet it d.

(** The code of [decode] does what [decode_of] does. *)
Lemma decode_correct :
  exists body, decode_internal it = Ok body
    /\ forall x, x_decode x = body ->
       exists m, run_decode it d x = Some m /\ forall self, m self ≈ decode_of d self.
Proof.
  destruct (described_fields _ _ _ D) as (fs & E & Hd & HR). unfold decode_internal.
  rewrite (ds_min_decode _ _ _ D). cbn [mbind outcome_bind]. rewrite E.
  destruct (decoders_emitted_for _ (header_field false) _ _ _ (select_header false)
    (fun f L => ex_intro _ _ (left_out_header false f L)) HR) as (t1 & E1 & H1).
  destruct (decoders_emitted_for _ (header_field true) _ _ _ (select_header true)
    (fun f L => ex_intro _ _ (left_out_header true f L)) HR) as (t2 & E2 & H2).
  destruct (decoders_emitted_for _ is_property is_property_field _ _ select_property
    (fun f L => ex_intro _ _ (left_out_property f L)) HR) as (t3 & E3 & H3).
  destruct (payload_emitted _ _ _ _ _ select_field_payload field_payload_is_payload HR)
    as (t4 & E4 & H4).
  destruct (payload_emitted _ _ _ _ _ select_remaining_payload remaining_payload_is_payload HR)
    as (t5 & E5 & H5).
  destruct (ds_abbreviated _ _ _ D) as (e & Ee & He).
  rewrite E1. cbn [mbind outcome_bind]. rewrite E2. cbn [mbind outcome_bind].
  rewrite E3. cbn [mbind outcome_bind].
  rewrite (struct_has_payload_correct _ _ Hd), (struct_has_properties_correct _ _ Hd).
  rewrite E4. cbn [mbind outcome_bind]. rewrite E5. cbn [mbind outcome_bind].
  assert (Hlen : (1 <? length t5)%nat = false).
  { apply Nat.ltb_ge. rewrite (emits_length _ _ _ H5); [apply (ds_one_remaining _ _ _ D) |].
    by intros F ts (po & code & -> & _). }
  rewrite Hlen, Ee. cbn [mbind outcome_bind]. eexists; split; [reflexivity |].
  intros x Ex. unfold run_decode. rewrite Ex.
  match goal with |- context [run_decode_body (item_env it d) ?l] =>
    assert (Hrun : decode_runs (item_env it d) l (decode_state d)) end.
  { unfold decode_state. rewrite <- He. apply decode_runs_min.
    apply (decode_runs_tokens _ _ _ _ _ H1 (filter_header_not_property _ _)).
    apply decode_runs_abbreviated.
    apply (decode_runs_tokens _ _ _ _ _ H2 (filter_header_not_property _ _)).
    apply decode_runs_min. apply (decode_runs_properties _ _ _ _ _ H3).
    apply (decode_runs_tokens _ _ _ _ _ (emits_weaken _ _ (fun ts => ts = [NoTokens]) _ _
             (fun _ => False_ind _) H4)
             (filter_payload_not_property _ _ (ds_apart _ _ _ D) field_payload_is_payload)).
    rewrite <- (app_nil_r (map DecodeTokens t5)).
    apply (decode_runs_tokens _ _ _ _ _ (emits_weaken _ _ (fun ts => ts = [NoTokens]) _ _
             (fun _ => False_ind _) H5)
             (filter_payload_not_property _ _ (ds_apart _ _ _ D) remaining_payload_is_payload)).
    by eexists. }
  destruct Hrun as (m & Em & Hm). rewrite Em. cbn [mbind option_bind].
  eexists; split; [reflexivity |]. intros self. rewrite <- decode_of_state.
  apply bind_same; [reflexivity | apply Hm].
Qed.
End decode_code.

(** ** The whole expansion *)

(** The trait implementations of a struct: those of the [packet] attribute with
    its argument, or those of the derives. *)
Definition expand (args : option meta) (it : item_struct) : outcome unit expansion :=
  match args with
  | Some nv =>
      items ← packet nv it;
      match items with Impl items => Ok (pi_impls items) | _ => Panic end
  | None => derive_all it
  end.

(** Whether the macros generate a decoder: not for a packet with [skip_decode]. *)
Definition decode_generated (args : option meta) (it : item_struct) : bool :=
  match args with
  | Some _ => match is_skip_decode (item_attrs it) with Ok b => negb b | _ => false end
  | None => true
  end.

(** What the implementations compute is what the description says. *)
Record implements (decoder : bool) (it : item_struct) (d : struct S) (x : expansion) : Prop := {
  im_property_size :
    if has_properties (s_fields d)
    then forall s, run_property_size it d (x_property_size x) s
                   = Some (property_size_of (s_fields d) s)
    else True;
  im_codec_size : forall s,
    run_codec_size it d (x_codec_size x) (x_property_size x) s = Some (codec_size_of d s);
  im_encode : forall s, exists m, run_encode it d x s = Some m /\ m ≈ encode_of d s;
  im_decode :
    if decoder
    then exists m, run_decode it d x = Some m /\ forall self, m self ≈ decode_of d self
    else True;
}.

Lemma helpers_implement as_packet decoder it (d : struct S) x :
  described as_packet it d -> helpers it x ->
  encode_internal it as_packet = Ok (x_encode x) ->
  (decoder = true -> decode_internal it = Ok (x_decode x)) ->
  implements decoder it d x.
Proof.
  intros D Hh He Hdec. constructor.
  - destruct (has_properties _) eqn:Hp; [| done]. intros s.
    destruct (property_size_correct _ _ _ D) as (b & Eb & Hb).
    rewrite (h_property_size _ _ Hh) in Eb. injection Eb as <-.
    destruct (described_fields _ _ _ D) as (fs & E & Hd & _).
    destruct (item_fields it) eqn:Ei; [done | done |]. injection E as <-.
    assert (Hnil : s_fields d = []) by by inversion Hd. by rewrite Hnil in Hp.
  - destruct (codec_size_correct _ _ _ D) as (b & Eb & Hb).
    rewrite (h_codec_size _ _ Hh) in Eb. injection Eb as <-.
    apply Hb, (h_property_size _ _ Hh).
  - destruct (encode_correct _ _ _ D) as (b & Eb & Hb). rewrite He in Eb. injection Eb as <-.
    by apply Hb.
  - destruct decoder; [| done].
    destruct (decode_correct _ _ _ D) as (b & Eb & Hb). rewrite (Hdec eq_refl) in Eb.
    injection Eb as <-. by apply Hb.
Qed.

Lemma helpers_exist as_packet it (d : struct S) :
  described as_packet it d ->
  exists cs ps pe en de, derive_codec_size it = Ok cs /\ derive_codec_property_size it = Ok ps
    /\ property_encode_internal it = Ok pe /\ encode_internal it as_packet = Ok en
    /\ decode_internal it = Ok de.
Proof.
  intros D. destruct (codec_size_correct _ _ _ D) as (cs & E1 & _).
  destruct (property_size_correct _ _ _ D) as (ps & E2 & _).
  destruct (property_encode_correct _ _ _ D) as (pe & E3 & _).
  destruct (encode_correct _ _ _ D) as (en & E4 & _).
  destruct (decode_correct _ _ _ D) as (de & E5 & _). by exists cs, ps, pe, en, de.
Qed.

(** The macro needs a [packet_type] that is a path. *)
Definition args_ok (args : option meta) (it : item_struct) : Prop :=
  match args with
  | Some nv => (exists p, get_packet_type nv = Ok (Some p))
               /\ (exists b, is_skip_decode (item_attrs it) = Ok b)
  | None => True
  end.

Lemma expand_correct args it (d : struct S) :
  args_ok args it -> described (bool_decide (is_Some args)) it d ->
  exists x, expand args it = Ok x /\ implements (decode_generated args it) it d x.
Proof.
  intros Ha D. destruct (helpers_exist _ _ _ D) as (cs & ps & pe & en & de & E1 & E2 & E3 & E4 & E5).
  destruct args as [nv|]; cbn in E4.
  - destruct Ha as ((p & Ep) & (b & Eb)).
    destruct (described_fields _ _ _ D) as (fs & E & _). unfold expand, packet.
    rewrite E1. cbn [mbind outcome_bind]. rewrite E2. cbn [mbind outcome_bind].
    rewrite E3. cbn [mbind outcome_bind]. rewrite E4. cbn [mbind outcome_bind].
    rewrite Eb. cbn [mbind outcome_bind].
    assert (Hde : exists de', (if b then Ok NoImpl else decode_internal it) = Ok de'
      /\ (negb b = true -> decode_internal it = Ok de')) by (destruct b; eauto; by eexists).
    destruct Hde as (de' & -> & Hde). cbn [mbind outcome_bind].
    rewrite Ep. cbn [mbind outcome_bind]. rewrite E. cbn [mbind outcome_bind pi_impls].
    eexists; split; [done |]. unfold decode_generated. rewrite Eb.
    by apply (helpers_implement true); [| constructor | |].
  - unfold expand, derive_all. rewrite E1. cbn. rewrite E2. cbn. rewrite E3. cbn. rewrite E4. cbn.
    rewrite E5. cbn. eexists; split; [done |].
    by apply (helpers_implement false); [| constructor | |].
Qed.

(** C30: the procedural macros are correct.  For every struct whose syntax is
    described by [d], the macros neither panic nor emit a compile error, and the
    code they generate computes, on every value and every buffer, exactly what
    the interpreters of the description compute: its two size methods, its
    encoder and its decoder. *)
Theorem macro_expansion_correct (args : option meta) (it : item_struct) (d : struct S) :
  args_ok args it -> described (bool_decide (is_Some args)) it d ->
  exists x, expand args it = Ok x
    /\ (has_properties (s_fields d) = true -> forall s,
         run_property_size it d (x_property_size x) s = Some (property_size_of (s_fields d) s))
    /\ (forall s, run_codec_size it d (x_codec_size x) (x_property_size x) s
                   = Some (codec_size_of d s))
    /\ (forall s, exists m, run_encode it d x s = Some m /\ forall b, m b = encode_of d s b)
    /\ (decode_generated args it = true ->
         exists m, run_decode it d x = Some m /\ forall self b, m self b = decode_of d self b).
Proof.
  intros Ha D. destruct (expand_correct args it d Ha D) as (x & E & [H1 H2 H3 H4]).
  exists x. split_and!; [done | | done | exact H3 |].
  - intros Hp. by rewrite Hp in H1.
  - intros Hx. by rewrite Hx in H4.
Qed.

(** C31: the code the macros generate for a packet round trips.  Where the
    description declares distinct properties and the value can be represented,
    the generated [encode] appends the header byte, the length of the body and
    the body, and the generated [decode] rebuilds the value from the body,
    consuming all of it. *)
Theorem generated_code_roundtrip (args : option meta) (it : item_struct) (d : struct S)
    (s s0 : S) (header : S -> FixedHeader) (dst : list Z) :
  args_ok args it -> described (bool_decide (is_Some args)) it d ->
  s_as_packet d = Some header -> declared d -> struct_ok d s -> decodable d s s0 ->
  (len (body_bytes d s) <= MAX_VARIABLE_BYTE_INT)%Z ->
  exists x enc body, expand args it = Ok x
    /\ run_encode it d x s = Some enc
    /\ enc dst = (Ok tt, (dst ++ [header_byte (header s)] ++ vbi (len body) ++ body)%list)
    /\ (decode_generated args it = true ->
         exists dec n, run_decode it d x = Some dec /\ dec s0 body = (Ok (s, n), [])).
Proof.
  intros Ha D Hp Hdec Hok Hs Hl. destruct (expand_correct args it d Ha D) as (x & E & [_ _ H3 H4]).
  destruct (H3 s) as (m & Em & Hm). exists x, m, (body_bytes d s).
  split_and!; [done | done | |].
  - rewrite Hm. by apply (writes_packet d s header Hp (dc_well_formed _ Hdec) Hok).
  - intros Hx. rewrite Hx in H4. destruct H4 as (k & Ek & Hk).
    exists k, (len (body_bytes d s) + excess d s)%Z. split; [done |].
    rewrite Hk. by apply decode_body.
Qed.
End codecs.
