(* ===== verification/Subscriptions.v ===== *)
(** * SUBSCRIBE, SUBACK, UNSUBSCRIBE and UNSUBACK *)
(** vaux-mqtt/src/subscribe.rs and unsubscribe.rs: the four packets with their
    attributes, constructors and setters, the subscription options byte, and
    the instances of the generated codec. *)

From S2P Require Import Prelude Bytes Codec Fixed Property Macro MacroFacts.

(** ** Subscription options *)

Module RetainHandling.
Inductive RetainHandling := Send | SendNew | None.
End RetainHandling.
Abbreviation RetainHandling := RetainHandling.RetainHandling.

#[export] Instance RetainHandling_eq_dec : EqDecision RetainHandling.
Proof. solve_decision. Defined.

Definition RetainHandling_as_u8 (r : RetainHandling) : Z :=
  match r with
  | RetainHandling.Send => 0
  | RetainHandling.SendNew => 1
  | RetainHandling.None => 2
  end.

Definition RetainHandling_try_from (value : Z) : outcome MqttCodecError RetainHandling :=
  match value with
  | 0x00 => Ok RetainHandling.Send
  | 0x01 => Ok RetainHandling.SendNew
  | 0x02 => Ok RetainHandling.None
  | _ => Err MqttCodecError_new
  end.

Module SubscriptionFilter.
Record SubscriptionFilter := mk { filter : rstring; options : Z }.
End SubscriptionFilter.
Abbreviation SubscriptionFilter := SubscriptionFilter.SubscriptionFilter.

#[export] Instance SubscriptionFilter_eta : Eta SubscriptionFilter := fun s =>
  SubscriptionFilter.mk (SubscriptionFilter.filter s) (SubscriptionFilter.options s).
#[export] Instance SubscriptionFilter_eq_dec : EqDecision SubscriptionFilter.
Proof. solve_decision. Defined.
#[export] Instance SubscriptionFilter_default : Default SubscriptionFilter :=
  SubscriptionFilter.mk [] 0.

Definition filter_qos (s : SubscriptionFilter) : QoSLevel :=
  match QoSLevel_try_from (Z.land (SubscriptionFilter.options s) 3) with
  | Ok q => q
  | _ => QoSLevel.AtMostOnce
  end.

Definition filter_set_qos (qos : QoSLevel) (s : SubscriptionFilter) : SubscriptionFilter :=
  s <| SubscriptionFilter.options :=
    Z.lor (Z.land (SubscriptionFilter.options s) (not_u8 3)) (Z.land (QoSLevel_as_u8 qos) 3) |>.

Definition SubscriptionFilter_new (filter : rstring) (qos : QoSLevel) : SubscriptionFilter :=
  filter_set_qos qos (SubscriptionFilter.mk filter 0).

Definition filter_no_local (s : SubscriptionFilter) : bool :=
  negb (Z.land (SubscriptionFilter.options s) 4 =? 0).

Definition filter_set_no_local (no_local : bool) (s : SubscriptionFilter) : SubscriptionFilter :=
  s <| SubscriptionFilter.options :=
    Z.lor (Z.land (SubscriptionFilter.options s) (not_u8 4)) (Z.shiftl (bool_byte no_local) 2) |>.

Definition filter_retain_as_published (s : SubscriptionFilter) : bool :=
  negb (Z.land (SubscriptionFilter.options s) 8 =? 0).

Definition filter_set_retain_as_published (rap : bool) (s : SubscriptionFilter)
    : SubscriptionFilter :=
  s <| SubscriptionFilter.options :=
    Z.lor (Z.land (SubscriptionFilter.options s) (not_u8 8)) (Z.shiftl (bool_byte rap) 3) |>.

Definition filter_retain_handling (s : SubscriptionFilter) : RetainHandling :=
  match RetainHandling_try_from (Z.shiftr (Z.land (SubscriptionFilter.options s) 48) 4) with
  | Ok r => r
  | _ => RetainHandling.Send
  end.

Definition filter_set_retain_handling (retain : RetainHandling) (s : SubscriptionFilter)
    : SubscriptionFilter :=
  s <| SubscriptionFilter.options :=
    Z.lor (Z.land (SubscriptionFilter.options s) (not_u8 48))
          (Z.shiftl (RetainHandling_as_u8 retain) 4) |>.

(** ** The packets *)

Module Subscribe.
Record Subscribe := mk {
  fixed_header : FixedHeader;
  packet_id : Z;
  subscription_id : option Z;
  user_props : UserProperty;
  filter : list SubscriptionFilter;
}.
End Subscribe.
Abbreviation Subscribe := Subscribe.Subscribe.

#[export] Instance Subscribe_eta : Eta Subscribe := fun s =>
  Subscribe.mk (Subscribe.fixed_header s) (Subscribe.packet_id s) (Subscribe.subscription_id s)
    (Subscribe.user_props s) (Subscribe.filter s).
#[export] Instance Subscribe_eq_dec : EqDecision Subscribe.
Proof. solve_decision. Defined.
#[export] Instance Subscribe_default : Default Subscribe :=
  Subscribe.mk (FixedHeader_new PacketType.Subscribe) 0 None ∅ [].

Module SubAck.
Record SubAck := mk {
  fixed_header : FixedHeader;
  packet_id : Z;
  reason : option rstring;
  user_properties : UserProperty;
  reason_codes : list Reason;
}.
End SubAck.
Abbreviation SubAck := SubAck.SubAck.

#[export] Instance SubAck_eta : Eta SubAck := fun s =>
  SubAck.mk (SubAck.fixed_header s) (SubAck.packet_id s) (SubAck.reason s)
    (SubAck.user_properties s) (SubAck.reason_codes s).
#[export] Instance SubAck_eq_dec : EqDecision SubAck.
Proof. solve_decision. Defined.
#[export] Instance SubAck_default : Default SubAck :=
  SubAck.mk (FixedHeader_new PacketType.SubAck) 0 None ∅ [].

Module Unsubscribe.
Record Unsubscribe := mk {
  fixed_header : FixedHeader;
  packet_id : Z;
  props : UserProperty;
  topics : list rstring;
}.
End Unsubscribe.
Abbreviation Unsubscribe := Unsubscribe.Unsubscribe.

#[export] Instance Unsubscribe_eta : Eta Unsubscribe := fun s =>
  Unsubscribe.mk (Unsubscribe.fixed_header s) (Unsubscribe.packet_id s) (Unsubscribe.props s)
    (Unsubscribe.topics s).
#[export] Instance Unsubscribe_eq_dec : EqDecision Unsubscribe.
Proof. solve_decision. Defined.
#[export] Instance Unsubscribe_default : Default Unsubscribe :=
  Unsubscribe.mk (FixedHeader_new PacketType.Unsubscribe) 0 ∅ [].

Module UnsubAck.
Record UnsubAck := mk {
  fixed_header : FixedHeader;
  packet_id : Z;
  reason : rstring;
  user_properties : UserProperty;
  reason_code : list Reason;
}.
End UnsubAck.
Abbreviation UnsubAck := UnsubAck.UnsubAck.

#[export] Instance UnsubAck_eta : Eta UnsubAck := fun s =>
  UnsubAck.mk (UnsubAck.fixed_header s) (UnsubAck.packet_id s) (UnsubAck.reason s)
    (UnsubAck.user_properties s) (UnsubAck.reason_code s).
#[export] Instance UnsubAck_eq_dec : EqDecision UnsubAck.
Proof. solve_decision. Defined.
#[export] Instance UnsubAck_default : Default UnsubAck :=
  UnsubAck.mk (FixedHeader_new PacketType.UnsubAck) 0 [] ∅ [].

(** ** Constructors and setters *)

Definition zero_packet_id : MqttCodecError := new_with_kind InvalidPacketIdentifier.

Definition SubAck_new_with_packet_id (packet_id : Z) : outcome MqttCodecError SubAck :=
  if packet_id =? 0 then Err zero_packet_id
  else Ok (dflt <| SubAck.packet_id := packet_id |>).

Definition SubAck_set_packet_id (packet_id : Z) (s : SubAck) : outcome MqttCodecError SubAck :=
  if packet_id =? 0 then Err zero_packet_id
  else Ok (s <| SubAck.packet_id := packet_id |>).

Definition Subscribe_new_with_packet_id (packet_id : Z) : Subscribe :=
  dflt <| Subscribe.packet_id := packet_id |>.

Definition Subscribe_new_with_filter (packet_id : Z) (filter : list SubscriptionFilter)
    : Subscribe :=
  dflt <| Subscribe.packet_id := packet_id |> <| Subscribe.filter := filter |>.

(** The [MqttError] carries only text. *)
Definition set_subscription_id (id : Z) (s : Subscribe) : outcome unit Subscribe :=
  if negb ((MIN_VARIABLE_BYTE_INT <=? id) && (id <=? MAX_VARIABLE_BYTE_INT)) then Err tt
  else Ok (s <| Subscribe.subscription_id := Some id |>).

Definition add_filter (filter : SubscriptionFilter) (s : Subscribe) : Subscribe :=
  s <| Subscribe.filter := Subscribe.filter s ++ [filter] |>.

(** [Vec::remove]. *)
Definition vec_remove {A} (index : nat) (l : list A) : list A :=
  take index l ++ drop (S index) l.

Definition remove_filter_at (index : Z) (s : Subscribe) : option SubscriptionFilter * Subscribe :=
  if index <? len (Subscribe.filter s) then
    (Subscribe.filter s !! Z.to_nat index,
     s <| Subscribe.filter := vec_remove (Z.to_nat index) (Subscribe.filter s) |>)
  else (None, s).

Definition remove_filter_with_topic (topic : rstring) (s : Subscribe)
    : option SubscriptionFilter * Subscribe :=
  match list_find (fun f => SubscriptionFilter.filter f = topic) (Subscribe.filter s) with
  | Some (pos, f) => (Some f, s <| Subscribe.filter := vec_remove pos (Subscribe.filter s) |>)
  | None => (None, s)
  end.

Definition clear_filters (s : Subscribe) : Subscribe := s <| Subscribe.filter := [] |>.

Definition Unsubscribe_new (packet_id : Z) (topics : list rstring) : Unsubscribe :=
  dflt <| Unsubscribe.packet_id := packet_id |> <| Unsubscribe.topics := topics |>.

Definition add_topic (topic : rstring) (s : Unsubscribe) : Unsubscribe :=
  s <| Unsubscribe.topics := Unsubscribe.topics s ++ [topic] |>.

(** ** The generated codecs *)

Arguments encode_opt_variable_byte_int_ref : simpl never.
Arguments codec_size_opt_variable_byte_int_ref : simpl never.

Section codecs.
Context {B : Buf} {HI : HashIter}.

(** The functions named by the attributes of the subscription identifiers. *)
Definition subscription_id_fns : with_fns Z :=
  WithFns codec_size_opt_variable_byte_int_ref encode_opt_variable_byte_int_ref
    decode_opt_variable_byte_int.

Definition SubscriptionFilter_struct : struct SubscriptionFilter := Struct
  [ plain (Scalar SString) SubscriptionFilter.filter;
    plain (Scalar SU8) SubscriptionFilter.options ]
  None None None.

#[export] Instance SubscriptionFilter_encode : Encode SubscriptionFilter :=
  encode_of SubscriptionFilter_struct.
#[export] Instance SubscriptionFilter_decode : Decode SubscriptionFilter :=
  decode_of SubscriptionFilter_struct.
#[export] Instance SubscriptionFilter_codec_size : CodecSize SubscriptionFilter :=
  codec_size_of SubscriptionFilter_struct.

Definition filter_ok (s : SubscriptionFilter) : Prop :=
  mqtt_string (SubscriptionFilter.filter s) /\ is_u8 (SubscriptionFilter.options s).

Lemma filter_declared : declared SubscriptionFilter_struct.
Proof. constructor; try done. solve_lawful. Qed.

Lemma filter_struct_ok s : filter_ok s -> struct_ok SubscriptionFilter_struct s.
Proof.
  intros [H1 H2]. split; [| done]. each_field; by right.
Qed.

Lemma filter_decodable s : filter_ok s -> decodable SubscriptionFilter_struct s dflt.
Proof.
  destruct s as [f o]. intros [H1 H2]. constructor; try done; by each_field.
Qed.

#[export, refine] Instance SubscriptionFilter_laws : CodecLaws SubscriptionFilter := {|
  type_ok := filter_ok; type_exact := filter_ok;
  type_bytes := body_bytes SubscriptionFilter_struct |}.
Proof.
  - intros s Hs. apply (writes_body SubscriptionFilter_struct). by apply filter_struct_ok.
  - done.
  - intros s Hs t.
    pose proof (decode_full SubscriptionFilter_struct s dflt t filter_declared
      (filter_decodable s Hs) eq_refl (or_introl eq_refl)) as H.
    unfold excess in H. simpl (abbreviated _ _) in H. cbv iota in H.
    change (items_cost _ - _) with 0 in H. by rewrite Z.add_0_r in H.
  - intros s. apply tame_decode_of. repeat constructor.
  - intros s. eapply eats_decode_of; [apply filter_declared | by each_field | done |].
    intros st. apply eats_bind_l; [apply String_decode_shortens .. |].
    intros []. auto with codec.
Defined.

#[export] Instance SubscriptionFilter_size_law : SizeLaw SubscriptionFilter.
Proof. intros s Hs. apply codec_size_of_ok; [done | by apply filter_struct_ok]. Qed.

Definition Subscribe_struct : struct Subscribe := Struct
  [ plain (Scalar SU16) Subscribe.packet_id;
    property PropertyType.SubscriptionIdentifier (OptWith subscription_id_fns)
      Subscribe.subscription_id;
    property PropertyType.UserProperty Props Subscribe.user_props;
    payload_remaining Vec Subscribe.filter ]
  (Some Subscribe.fixed_header) None None.

#[export] Instance Subscribe_encode : Encode Subscribe := encode_of Subscribe_struct.
#[export] Instance Subscribe_decode : Decode Subscribe := decode_of Subscribe_struct.
#[export] Instance Subscribe_codec_size : CodecSize Subscribe := codec_size_of Subscribe_struct.

Definition SubAck_struct : struct SubAck := Struct
  [ plain (Scalar SU16) SubAck.packet_id;
    property PropertyType.ReasonString (Opt SString) SubAck.reason;
    property PropertyType.UserProperty Props SubAck.user_properties;
    payload_remaining_size_with codec_size_vec_reason Vec SubAck.reason_codes ]
  (Some SubAck.fixed_header) None None.

#[export] Instance SubAck_encode : Encode SubAck := encode_of SubAck_struct.
#[export] Instance SubAck_decode : Decode SubAck := decode_of SubAck_struct.
#[export] Instance SubAck_codec_size : CodecSize SubAck := codec_size_of SubAck_struct.

Definition Unsubscribe_struct : struct Unsubscribe := Struct
  [ plain (Scalar SU16) Unsubscribe.packet_id;
    property PropertyType.UserProperty Props Unsubscribe.props;
    payload_remaining VecString Unsubscribe.topics ]
  (Some Unsubscribe.fixed_header) None None.

#[export] Instance Unsubscribe_encode : Encode Unsubscribe := encode_of Unsubscribe_struct.
#[export] Instance Unsubscribe_decode : Decode Unsubscribe := decode_of Unsubscribe_struct.
#[export] Instance Unsubscribe_codec_size : CodecSize Unsubscribe :=
  codec_size_of Unsubscribe_struct.

Definition UnsubAck_struct : struct UnsubAck := Struct
  [ plain (Scalar SU16) UnsubAck.packet_id;
    property PropertyType.ReasonString (Scalar SString) UnsubAck.reason;
    property PropertyType.UserProperty Props UnsubAck.user_properties;
    payload_remaining Vec UnsubAck.reason_code ]
  (Some UnsubAck.fixed_header) None None.

#[export] Instance UnsubAck_encode : Encode UnsubAck := encode_of UnsubAck_struct.
#[export] Instance UnsubAck_decode : Decode UnsubAck := decode_of UnsubAck_struct.
#[export] Instance UnsubAck_codec_size : CodecSize UnsubAck := codec_size_of UnsubAck_struct.

(** ** Values that fit the wire format *)

Definition Subscribe_ok (s : Subscribe) : Prop :=
  is_u16 (Subscribe.packet_id s) /\ opt_ok encodable_id (Subscribe.subscription_id s)
  /\ props_ok (Subscribe.user_props s) /\ Forall filter_ok (Subscribe.filter s).

Definition SubAck_ok (s : SubAck) : Prop :=
  is_u16 (SubAck.packet_id s) /\ opt_ok mqtt_string (SubAck.reason s)
  /\ props_ok (SubAck.user_properties s).

Definition Unsubscribe_ok (s : Unsubscribe) : Prop :=
  is_u16 (Unsubscribe.packet_id s) /\ props_ok (Unsubscribe.props s)
  /\ Forall mqtt_string (Unsubscribe.topics s).

Definition UnsubAck_ok (s : UnsubAck) : Prop :=
  is_u16 (UnsubAck.packet_id s) /\ mqtt_string (UnsubAck.reason s)
  /\ props_ok (UnsubAck.user_properties s).

Lemma subscription_id_ok v :
  encodable_id v ->
  writes (encode_opt_variable_byte_int_ref (Some v)) (vbi v)
  /\ codec_size_opt_variable_byte_int_ref (Some v) = u32 (len (vbi v)).
Proof.
  unfold encodable_id, MAX_VARIABLE_BYTE_INT. intros Hv. split.
  - apply writes_vbi. unfold is_u32. lia.
  - unfold codec_size_opt_variable_byte_int_ref. rewrite len_vbi by (unfold MAX_VARIABLE_BYTE_INT; lia). rewrite u32_small; [done |].
    unfold variable_byte_int_size. repeat case_match; lia.
Qed.

Lemma subscription_id_bytes v :
  encodable_id v -> bytes_of (with_encode subscription_id_fns (Some v)) = vbi v.
Proof. intros [Hw _]%subscription_id_ok. by apply bytes_of_writes. Qed.

Lemma reads_subscription_id v :
  decodable_id v -> reads decode_opt_variable_byte_int (vbi v) (Some v, len (vbi v)).
Proof.
  unfold decodable_id. intros Hv. rewrite len_vbi by (unfold MAX_VARIABLE_BYTE_INT; lia).
  eapply reads_bind_nil; [by apply reads_vbi | apply reads_ret].
Qed.

Lemma Subscribe_declared : declared Subscribe_struct.
Proof. constructor; try done. solve_lawful. Qed.
Lemma SubAck_declared : declared SubAck_struct.
Proof. constructor; try done. solve_lawful. Qed.
Lemma Unsubscribe_declared : declared Unsubscribe_struct.
Proof. constructor; try done. solve_lawful. Qed.
Lemma UnsubAck_declared : declared UnsubAck_struct.
Proof. constructor; try done. solve_lawful. Qed.

Lemma Subscribe_fields_ok s :
  Subscribe_ok s -> Forall (unskipped_ok s) (s_fields Subscribe_struct).
Proof.
  intros (H1 & H2 & [H3 _] & H4). each_field; right; try done. split; [done |]. simpl.
  destruct (Subscribe.subscription_id s) as [v|]; [| done].
  destruct (subscription_id_ok v H2) as [Hw Hs]. by rewrite (bytes_of_writes _ _ Hw).
Qed.

Lemma len_singletons {A} (g : A -> Z) l : len (concat ((fun a => [g a]) <$> l)) = len l.
Proof.
  induction l as [|a l IH]; [done |]. rewrite fmap_cons. cbn [concat]. rewrite len_app, IH.
  simpl length. lia.
Qed.

Lemma SubAck_fields_ok s : SubAck_ok s -> Forall (unskipped_ok s) (s_fields SubAck_struct).
Proof.
  intros (H1 & H2 & [H3 _]). each_field; right; try done. split.
  - change (u32 (len (SubAck.reason_codes s))
            = u32 (len (concat ((fun r => [Reason_as_u8 r]) <$> SubAck.reason_codes s)))).
    by rewrite len_singletons.
  - simpl. by apply list.Forall_forall.
Qed.

Lemma Unsubscribe_fields_ok s :
  Unsubscribe_ok s -> Forall (unskipped_ok s) (s_fields Unsubscribe_struct).
Proof. intros (H1 & [H2 _] & H3). each_field; by right. Qed.

Lemma UnsubAck_fields_ok s : UnsubAck_ok s -> Forall (unskipped_ok s) (s_fields UnsubAck_struct).
Proof.
  intros (H1 & H2 & [H3 _]). each_field; right; try done. split; [done |].
  by apply list.Forall_forall.
Qed.

Lemma Subscribe_decodable s :
  Subscribe_ok s -> opt_ok decodable_id (Subscribe.subscription_id s) ->
  Subscribe.fixed_header s = FixedHeader_new PacketType.Subscribe ->
  properties_fit Subscribe_struct s -> decodable Subscribe_struct s dflt.
Proof.
  intros (H1 & H2 & [H3 H3'] & H4) Hid Hh [Hl Hb]. constructor; try done.
  - by each_field.
  - by each_field.
  - each_field; [| done]. split; [done |]. simpl.
    destruct (Subscribe.subscription_id s) as [v|]; [| done].
    destruct (subscription_id_ok v H2) as [Hw Hs]. rewrite (bytes_of_writes _ _ Hw).
    by apply reads_subscription_id.
  - split_and!; [done | done |]. simpl. eapply Forall_impl; [| exact H4].
    intros f Hf. split; [done |]. unfold type_bytes. simpl. unfold body_bytes, prefixed. done.
  - destruct s. simpl in Hh. by subst.
Qed.

Lemma SubAck_decodable s :
  SubAck_ok s -> SubAck.fixed_header s = FixedHeader_new PacketType.SubAck ->
  properties_fit SubAck_struct s -> decodable SubAck_struct s dflt.
Proof.
  intros (H1 & H2 & [H3 H3']) Hh [Hl Hb]. constructor; try done; try by each_field.
  - split_and!; [done | done |]. by apply list.Forall_forall.
  - destruct s. simpl in Hh. by subst.
Qed.

Lemma Unsubscribe_decodable s :
  Unsubscribe_ok s -> Unsubscribe.fixed_header s = FixedHeader_new PacketType.Unsubscribe ->
  properties_fit Unsubscribe_struct s -> decodable Unsubscribe_struct s dflt.
Proof.
  intros (H1 & [H2 H2'] & H3) Hh [Hl Hb]. constructor; try done; try by each_field.
  - split_and!; [done | done |]. simpl. eapply Forall_impl; [| exact H3]. done.
  - destruct s. simpl in Hh. by subst.
Qed.

Lemma UnsubAck_decodable s :
  UnsubAck_ok s -> UnsubAck.fixed_header s = FixedHeader_new PacketType.UnsubAck ->
  properties_fit UnsubAck_struct s -> decodable UnsubAck_struct s dflt.
Proof.
  intros (H1 & H2 & [H3 H3']) Hh [Hl Hb]. constructor; try done; try by each_field.
  - split_and!; [done | done |]. by apply list.Forall_forall.
  - destruct s. simpl in Hh. by subst.
Qed.

Lemma tame_Subscribe s : tame (Subscribe_decode s).
Proof.
  apply tame_decode_of. each_field; try done. apply tame_bind; [apply tame_decode_vbi |].
  intros []. auto with codec.
Qed.
Lemma tame_SubAck s : tame (SubAck_decode s).
Proof. apply tame_decode_of. by each_field. Qed.
Lemma tame_Unsubscribe s : tame (Unsubscribe_decode s).
Proof. apply tame_decode_of. by each_field. Qed.
Lemma tame_UnsubAck s : tame (UnsubAck_decode s).
Proof. apply tame_decode_of. by each_field. Qed.
End codecs.

#[export] Hint Resolve tame_Subscribe tame_SubAck tame_Unsubscribe tame_UnsubAck : codec.

(** ** The options byte *)

(** The four options as their getters see them. *)
Definition option_view (s : SubscriptionFilter) : QoSLevel * bool * bool * RetainHandling :=
  (filter_qos s, filter_no_local s, filter_retain_as_published s, filter_retain_handling s).

(** Each setter is observed by its getter and by no other. *)
Lemma option_view_set_qos s q :
  is_u8 (SubscriptionFilter.options s) ->
  option_view (filter_set_qos q s)
  = (q, filter_no_local s, filter_retain_as_published s, filter_retain_handling s).
Proof. destruct s as [f o]. simpl. intros Ho. destruct q; by_bytes o. Qed.

Lemma option_view_set_no_local s b :
  is_u8 (SubscriptionFilter.options s) ->
  option_view (filter_set_no_local b s)
  = (filter_qos s, b, filter_retain_as_published s, filter_retain_handling s).
Proof. destruct s as [f o]. simpl. intros Ho. destruct b; by_bytes o. Qed.

Lemma option_view_set_retain_as_published s b :
  is_u8 (SubscriptionFilter.options s) ->
  option_view (filter_set_retain_as_published b s)
  = (filter_qos s, filter_no_local s, b, filter_retain_handling s).
Proof. destruct s as [f o]. simpl. intros Ho. destruct b; by_bytes o. Qed.

Lemma option_view_set_retain_handling s r :
  is_u8 (SubscriptionFilter.options s) ->
  option_view (filter_set_retain_handling r s)
  = (filter_qos s, filter_no_local s, filter_retain_as_published s, r).
Proof. destruct s as [f o]. simpl. intros Ho. destruct r; by_bytes o. Qed.

(** The four options of a subscription share one byte but are independent:
    each setter is seen by its own getter and by no other. *)
Theorem subscription_options_independent (s : SubscriptionFilter) (q : QoSLevel)
    (b c : bool) (r : RetainHandling) :
  is_u8 (SubscriptionFilter.options s) ->
  let view s := (filter_qos s, filter_no_local s, filter_retain_as_published s,
                 filter_retain_handling s) in
  view (filter_set_qos q s)
  = (q, filter_no_local s, filter_retain_as_published s, filter_retain_handling s)
  /\ view (filter_set_no_local b s)
     = (filter_qos s, b, filter_retain_as_published s, filter_retain_handling s)
  /\ view (filter_set_retain_as_published c s)
     = (filter_qos s, filter_no_local s, c, filter_retain_handling s)
  /\ view (filter_set_retain_handling r s)
     = (filter_qos s, filter_no_local s, filter_retain_as_published s, r).
Proof.
  intros Hs view. split_and!;
    [by apply option_view_set_qos | by apply option_view_set_no_local
    | by apply option_view_set_retain_as_published | by apply option_view_set_retain_handling].
Qed.

Lemma subscription_options_witness :
  let s := SubscriptionFilter.mk (str "a") 0x2e in
  let view s := (filter_qos s, filter_no_local s, filter_retain_as_published s,
                 filter_retain_handling s) in
  view (filter_set_qos QoSLevel.AtLeastOnce s)
  = (QoSLevel.AtLeastOnce, filter_no_local s, filter_retain_as_published s, filter_retain_handling s)
  /\ view (filter_set_no_local false s)
     = (filter_qos s, false, filter_retain_as_published s, filter_retain_handling s)
  /\ view (filter_set_retain_as_published false s)
     = (filter_qos s, filter_no_local s, false, filter_retain_handling s)
  /\ view (filter_set_retain_handling RetainHandling.Send s)
     = (filter_qos s, filter_no_local s, filter_retain_as_published s, RetainHandling.Send).
Proof.
  apply (subscription_options_independent (SubscriptionFilter.mk (str "a") 0x2e)).
  unfold is_u8. simpl. lia.
Defined.

(** *** A SUBACK through the derived codec *)

Definition sample_suback : SubAck :=
  dflt <| SubAck.packet_id := 258 |>
       <| SubAck.reason_codes := [Reason.GrantedQoS1; Reason.Success] |>.

Lemma sample_suback_ok : SubAck_ok sample_suback.
Proof.
  repeat split; simpl; unfold is_u16; try lia; try done; try (rewrite pairs_empty; constructor);
    apply map_Forall_empty.
Qed.

Lemma derive_size_exact_witness :
  let size := codec_size_of SubAck_struct sample_suback in
  size = 5
  /\ exists body,
    encode_of SubAck_struct sample_suback []
    = (Ok tt, [] ++ [header_byte (SubAck.fixed_header sample_suback)] ++ vbi size ++ body)
    /\ len body = size /\ len (vbi size) = variable_byte_int_size size.
Proof.
  split; [by vm_compute |].
  apply (derive_size_exact SubAck_struct sample_suback SubAck.fixed_header []).
  - reflexivity.
  - reflexivity.
  - split; [apply SubAck_fields_ok, sample_suback_ok | by vm_compute].
  - by vm_compute.
Defined.

Lemma derive_roundtrip_witness :
  exists body n,
    encode_body_of SubAck_struct sample_suback [] = (Ok tt, [] ++ body)
    /\ decode_of SubAck_struct dflt body = (Ok (sample_suback, n), []).
Proof.
  apply (derive_roundtrip SubAck_struct sample_suback dflt []).
  - apply SubAck_declared.
  - split; [apply SubAck_fields_ok, sample_suback_ok | by vm_compute].
  - apply SubAck_decodable; [apply sample_suback_ok | reflexivity | split; by vm_compute].
Defined.
