(* ===== verification/Acks.v ===== *)
(** * CONNACK, the publish responses, DISCONNECT and the pings *)
(** vaux-mqtt/src/connack.rs, pubresp.rs, disconnect.rs and the ping packets of
    lib.rs.  PUBACK, PUBREC, PUBREL and PUBCOMP are one struct, [PubResp], told
    apart by the packet type in its fixed header. *)

From S2P Require Import Prelude Bytes Codec Fixed Property Macro MacroFacts.

(** ** CONNACK *)

Definition CONNACK_SESSION_PRESENT_MASK : Z := 1.

Module ConnAck.
Record ConnAck := mk {
  fixed_header : FixedHeader;
  ack_flags : Z;
  reason : Reason;
  session_expiry_interval : option Z;
  receive_maximum : option Z;
  maximum_qos : option QoSLevel;
  retain_available : option bool;
  maximum_packet_size : option Z;
  assigned_client_id : option rstring;
  topic_alias_maximum : option Z;
  reason_string : option rstring;
  subscription_identifier_available : option bool;
  user_properties : UserProperty;
  wildcard_subscription_available : option bool;
  shared_subscription_available : option bool;
  server_keep_alive : option Z;
  response_information : option rstring;
  server_reference : option rstring;
  auth_method : option rstring;
  auth_data : list Z;
}.
End ConnAck.
Abbreviation ConnAck := ConnAck.ConnAck.

#[export] Instance ConnAck_eta : Eta ConnAck := fun c =>
  ConnAck.mk (ConnAck.fixed_header c) (ConnAck.ack_flags c) (ConnAck.reason c)
    (ConnAck.session_expiry_interval c) (ConnAck.receive_maximum c) (ConnAck.maximum_qos c)
    (ConnAck.retain_available c) (ConnAck.maximum_packet_size c) (ConnAck.assigned_client_id c)
    (ConnAck.topic_alias_maximum c) (ConnAck.reason_string c)
    (ConnAck.subscription_identifier_available c) (ConnAck.user_properties c)
    (ConnAck.wildcard_subscription_available c) (ConnAck.shared_subscription_available c)
    (ConnAck.server_keep_alive c) (ConnAck.response_information c) (ConnAck.server_reference c)
    (ConnAck.auth_method c) (ConnAck.auth_data c).
#[export] Instance ConnAck_eq_dec : EqDecision ConnAck.
Proof. solve_decision. Defined.

(** The [Default] the [packet] macro generates. *)
#[export] Instance ConnAck_default : Default ConnAck :=
  ConnAck.mk (FixedHeader_new PacketType.ConnAck) 0 Reason.Success None None None None None None
    None None None ∅ None None None None None None [].

Definition session_present (c : ConnAck) : bool :=
  negb (Z.land (ConnAck.ack_flags c) CONNACK_SESSION_PRESENT_MASK =? 0).

Definition set_session_present (present : bool) (c : ConnAck) : ConnAck :=
  if present then
    c <| ConnAck.ack_flags := Z.lor (ConnAck.ack_flags c) CONNACK_SESSION_PRESENT_MASK |>
  else
    c <| ConnAck.ack_flags :=
      Z.land (ConnAck.ack_flags c) (not_u8 CONNACK_SESSION_PRESENT_MASK) |>.

Definition set_session_expiry (interval : Z) (c : ConnAck) : ConnAck :=
  if interval =? 0 then c <| ConnAck.session_expiry_interval := None |>
  else c <| ConnAck.session_expiry_interval := Some interval |>.

Definition set_server_keep_alive (keep_alive : Z) (c : ConnAck) : ConnAck :=
  if keep_alive =? 0 then c <| ConnAck.server_keep_alive := None |>
  else c <| ConnAck.server_keep_alive := Some keep_alive |>.

Definition receive_max (c : ConnAck) : option Z := ConnAck.receive_maximum c.

Definition set_receive_max (max : Z) (c : ConnAck) : ConnAck :=
  if max =? 0 then c <| ConnAck.receive_maximum := None |>
  else c <| ConnAck.receive_maximum := Some max |>.

(** ** PUBACK, PUBREC, PUBREL, PUBCOMP *)

Module PubResp.
Record PubResp := mk {
  fixed_header : FixedHeader;
  packet_id : Z;
  reason : option Reason;
  reason_desc : option rstring;
  user_properties : UserProperty;
}.
End PubResp.
Abbreviation PubResp := PubResp.PubResp.

#[export] Instance PubResp_eta : Eta PubResp := fun p =>
  PubResp.mk (PubResp.fixed_header p) (PubResp.packet_id p) (PubResp.reason p)
    (PubResp.reason_desc p) (PubResp.user_properties p).
#[export] Instance PubResp_eq_dec : EqDecision PubResp.
Proof. solve_decision. Defined.

(** The derived [Default], whose fixed header is that of CONNECT. *)
#[export] Instance PubResp_default : Default PubResp := PubResp.mk dflt 0 None None ∅.

Definition new_response (p : PacketType) (packet_id : Z) : PubResp :=
  dflt <| PubResp.fixed_header := FixedHeader_new p |> <| PubResp.packet_id := packet_id |>.

Definition new_puback_with_packet_id : Z -> PubResp := new_response PacketType.PubAck.
Definition new_pubrec_with_packet_id : Z -> PubResp := new_response PacketType.PubRec.
Definition new_pubrel_with_packet_id : Z -> PubResp := new_response PacketType.PubRel.
Definition new_pubcomp_with_packet_id : Z -> PubResp := new_response PacketType.PubComp.

Definition PubResp_new_with_fixed_header (fixed_header : FixedHeader)
    : outcome MqttCodecError PubResp :=
  match packet_type fixed_header with
  | PacketType.PubAck | PacketType.PubRec | PacketType.PubComp | PacketType.PubRel =>
      Ok (dflt <| PubResp.fixed_header := fixed_header |>)
  | _ => Err (new_with_kind InvalidPacket)
  end.

Definition supported_reason (p : PubResp) (reason : Reason) : bool :=
  match packet_type (PubResp.fixed_header p) with
  | PacketType.PubAck | PacketType.PubRec =>
      match reason with
      | Reason.Success | Reason.NoSubscribers | Reason.UnspecifiedErr
      | Reason.ImplementationErr | Reason.NotAuthorized | Reason.InvalidTopicName
      | Reason.PacketIdInUse | Reason.QuotaExceeded | Reason.PayloadFormatErr => true
      | _ => false
      end
  | PacketType.PubComp | PacketType.PubRel =>
      match reason with Reason.Success | Reason.PacketIdInUse => true | _ => false end
  | _ => false
  end.

Definition PubResp_set_reason (reason : Reason) (p : PubResp) : outcome MqttCodecError PubResp :=
  if supported_reason p reason then Ok (p <| PubResp.reason := Some reason |>)
  else Err (new_with_kind (UnsupportedReason (Reason_as_u8 reason))).

(** ** DISCONNECT *)

Module Disconnect.
Record Disconnect := mk {
  fixed_header : FixedHeader;
  reason : Reason;
  session_expiry_interval : option Z;
  reason_string : option rstring;
  server_reference : option rstring;
  user_properties : UserProperty;
}.
End Disconnect.
Abbreviation Disconnect := Disconnect.Disconnect.

#[export] Instance Disconnect_eta : Eta Disconnect := fun p =>
  Disconnect.mk (Disconnect.fixed_header p) (Disconnect.reason p)
    (Disconnect.session_expiry_interval p) (Disconnect.reason_string p)
    (Disconnect.server_reference p) (Disconnect.user_properties p).
#[export] Instance Disconnect_eq_dec : EqDecision Disconnect.
Proof. solve_decision. Defined.
#[export] Instance Disconnect_default : Default Disconnect :=
  Disconnect.mk (FixedHeader_new PacketType.Disconnect) Reason.NormalDisconnect None None None ∅.

Definition Disconnect_new (reason : Reason) : Disconnect :=
  dflt <| Disconnect.fixed_header := FixedHeader_new PacketType.Disconnect |>
       <| Disconnect.reason := reason |>.

Definition Disconnect_new_with_fixed_header (fixed_header : FixedHeader)
    : outcome MqttCodecError Disconnect :=
  Ok (dflt <| Disconnect.fixed_header := fixed_header |>).

(** ** PINGREQ and PINGRESP *)

Module PingReq.
Record PingReq := mk { fixed_header : FixedHeader }.
End PingReq.
Abbreviation PingReq := PingReq.PingReq.
#[export] Instance PingReq_eq_dec : EqDecision PingReq.
Proof. solve_decision. Defined.
#[export] Instance PingReq_default : Default PingReq :=
  PingReq.mk (FixedHeader_new PacketType.PingReq).

Module PingResp.
Record PingResp := mk { fixed_header : FixedHeader }.
End PingResp.
Abbreviation PingResp := PingResp.PingResp.
#[export] Instance PingResp_eq_dec : EqDecision PingResp.
Proof. solve_decision. Defined.
#[export] Instance PingResp_default : Default PingResp :=
  PingResp.mk (FixedHeader_new PacketType.PingResp).

(** ** The generated codecs *)

Section codecs.
Context {B : Buf} {HI : HashIter}.

Definition ConnAck_struct : struct ConnAck := Struct
  [ plain (Scalar SU8) ConnAck.ack_flags;
    plain (Scalar SType) ConnAck.reason;
    property PropertyType.SessionExpiryInterval (Opt SU32) ConnAck.session_expiry_interval;
    property PropertyType.RecvMax (Opt SU16) ConnAck.receive_maximum;
    property PropertyType.MaxQoS (Opt SPropType) ConnAck.maximum_qos;
    property PropertyType.RetainAvail (Opt SBool) ConnAck.retain_available;
    property PropertyType.MaxPacketSize (Opt SU32) ConnAck.maximum_packet_size;
    property PropertyType.AssignedClientId (Opt SString) ConnAck.assigned_client_id;
    property PropertyType.TopicAliasMax (Opt SU16) ConnAck.topic_alias_maximum;
    property PropertyType.ReasonString (Opt SString) ConnAck.reason_string;
    property PropertyType.SubIdAvail (Opt SBool) ConnAck.subscription_identifier_available;
    property PropertyType.UserProperty Props ConnAck.user_properties;
    property PropertyType.WildcardSubAvail (Opt SBool) ConnAck.wildcard_subscription_available;
    property PropertyType.ShardSubAvail (Opt SBool) ConnAck.shared_subscription_available;
    property PropertyType.KeepAlive (Opt SU16) ConnAck.server_keep_alive;
    property PropertyType.RespInfo (Opt SString) ConnAck.response_information;
    property PropertyType.ServerReference (Opt SString) ConnAck.server_reference;
    property PropertyType.AuthMethod (Opt SString) ConnAck.auth_method;
    property_skip_if PropertyType.AuthData is_empty VecU8 ConnAck.auth_data ]
  (Some ConnAck.fixed_header) None None.

#[export] Instance ConnAck_encode : Encode ConnAck := encode_of ConnAck_struct.
#[export] Instance ConnAck_decode : Decode ConnAck := decode_of ConnAck_struct.
#[export] Instance ConnAck_codec_size : CodecSize ConnAck := codec_size_of ConnAck_struct.

Definition PubResp_fields : list (field PubResp) :=
  [ plain (Scalar SU16) PubResp.packet_id;
    non_abbreviated (Opt SType) PubResp.reason;
    property PropertyType.ReasonString (Opt SString) PubResp.reason_desc;
    property PropertyType.UserProperty Props PubResp.user_properties ].

#[export] Instance PubResp_property_size : PropertyCodecSize PubResp :=
  property_size_of PubResp_fields.

Definition PubResp_struct : struct PubResp := Struct PubResp_fields
  (Some PubResp.fixed_header)
  (Some (fun p => bool_decide (default Reason.Success (PubResp.reason p) = Reason.Success)
                  && (property_size p =? 0)))
  None.

#[export] Instance PubResp_encode : Encode PubResp := encode_of PubResp_struct.
#[export] Instance PubResp_decode : Decode PubResp := decode_of PubResp_struct.
#[export] Instance PubResp_codec_size : CodecSize PubResp := codec_size_of PubResp_struct.

Definition Disconnect_fields : list (field Disconnect) :=
  [ non_abbreviated (Scalar SType) Disconnect.reason;
    property PropertyType.SessionExpiryInterval (Opt SU32) Disconnect.session_expiry_interval;
    property PropertyType.ReasonString (Opt SString) Disconnect.reason_string;
    property PropertyType.ServerReference (Opt SString) Disconnect.server_reference;
    property PropertyType.UserProperty Props Disconnect.user_properties ].

#[export] Instance Disconnect_property_size : PropertyCodecSize Disconnect :=
  property_size_of Disconnect_fields.

Definition Disconnect_struct : struct Disconnect := Struct Disconnect_fields
  (Some Disconnect.fixed_header)
  (Some (fun p => bool_decide (Disconnect.reason p = Reason.NormalDisconnect)
                  && (property_size p =? 0)))
  None.

#[export] Instance Disconnect_encode : Encode Disconnect := encode_of Disconnect_struct.
#[export] Instance Disconnect_decode : Decode Disconnect := decode_of Disconnect_struct.
#[export] Instance Disconnect_codec_size : CodecSize Disconnect :=
  codec_size_of Disconnect_struct.

Definition PingReq_struct : struct PingReq := Struct [] (Some PingReq.fixed_header) None None.
#[export] Instance PingReq_encode : Encode PingReq := encode_of PingReq_struct.

Definition PingResp_struct : struct PingResp := Struct [] (Some PingResp.fixed_header) None None.
#[export] Instance PingResp_encode : Encode PingResp := encode_of PingResp_struct.

(** ** Values that fit the wire format *)

Definition ConnAck_ok (c : ConnAck) : Prop :=
  is_u8 (ConnAck.ack_flags c)
  /\ opt_ok is_u32 (ConnAck.session_expiry_interval c)
  /\ opt_ok is_u16 (ConnAck.receive_maximum c)
  /\ opt_ok is_u32 (ConnAck.maximum_packet_size c)
  /\ opt_ok mqtt_string (ConnAck.assigned_client_id c)
  /\ opt_ok is_u16 (ConnAck.topic_alias_maximum c)
  /\ opt_ok mqtt_string (ConnAck.reason_string c)
  /\ props_ok (ConnAck.user_properties c)
  /\ opt_ok is_u16 (ConnAck.server_keep_alive c)
  /\ opt_ok mqtt_string (ConnAck.response_information c)
  /\ opt_ok mqtt_string (ConnAck.server_reference c)
  /\ opt_ok mqtt_string (ConnAck.auth_method c)
  /\ len (ConnAck.auth_data c) <= u16_max.

Definition PubResp_ok (p : PubResp) : Prop :=
  is_u16 (PubResp.packet_id p) /\ opt_ok mqtt_string (PubResp.reason_desc p)
  /\ props_ok (PubResp.user_properties p).

Definition Disconnect_ok (p : Disconnect) : Prop :=
  opt_ok is_u32 (Disconnect.session_expiry_interval p)
  /\ opt_ok mqtt_string (Disconnect.reason_string p)
  /\ opt_ok mqtt_string (Disconnect.server_reference p)
  /\ props_ok (Disconnect.user_properties p).

Lemma ConnAck_declared : declared ConnAck_struct.
Proof. constructor; try done. solve_lawful. Qed.
Lemma PubResp_declared : declared PubResp_struct.
Proof. constructor; try done. solve_lawful. Qed.
Lemma Disconnect_declared : declared Disconnect_struct.
Proof. constructor; try done. solve_lawful. Qed.

(** An optional field is fine when its value, if any, is. *)
Ltac opt_field := split; [done |]; simpl; first [done | by case_match].

Lemma ConnAck_fields_ok c : ConnAck_ok c -> Forall (unskipped_ok c) (s_fields ConnAck_struct).
Proof.
  intros (? & ? & ? & ? & ? & ? & ? & [? _] & ? & ? & ? & ? & Ha).
  each_field; try (right; opt_field).
  destruct (ConnAck.auth_data c) eqn:E; [left | right];
    unfold skipped, field_ok; simpl; by rewrite E.
Qed.

Lemma PubResp_fields_ok p : PubResp_ok p -> Forall (unskipped_ok p) (s_fields PubResp_struct).
Proof. intros (? & ? & [? _]). each_field; right; opt_field. Qed.

Lemma Disconnect_fields_ok p :
  Disconnect_ok p -> Forall (unskipped_ok p) (s_fields Disconnect_struct).
Proof. intros (? & ? & ? & [? _]). each_field; right; opt_field. Qed.

Ltac opt_exact := split; [done | simpl; first [done | by case_match]].

Lemma ConnAck_decodable c :
  ConnAck_ok c -> ConnAck.auth_data c = [] ->
  ConnAck.fixed_header c = FixedHeader_new PacketType.ConnAck ->
  properties_fit ConnAck_struct c -> decodable ConnAck_struct c dflt.
Proof.
  intros (? & ? & ? & ? & ? & ? & ? & [? ?] & ? & ? & ? & ? & _) Ha Hh Hfit.
  constructor; [clear Hfit .. | apply Hfit | apply Hfit].
  - by each_field.
  - each_field.
  - each_field; opt_exact.
  - exact I.
  - repeat split.
  - destruct c. simpl in *. by subst.
Qed.

(** [property_size() == 0] holds exactly when there is nothing to write. *)
Lemma property_size_zero {S} (d : struct S) s :
  struct_ok d s -> property_size_of (s_fields d) s = 0 -> property_bytes (s_fields d) s = [].
Proof.
  intros Hok H. rewrite (property_size_of_ok d s Hok) in H.
  destruct (property_bytes _ _); [done | simpl in H; lia].
Qed.

(** A response whose reason is absent has nothing else to say: the decoder
    expects a reason byte in every response that is not abbreviated.  A reason
    of Success without properties is abbreviated away. *)
Definition response_reason (p : PubResp) : Prop :=
  if abbreviated PubResp_struct p then PubResp.reason p = None
  else is_Some (PubResp.reason p).

Lemma PubResp_decodable p :
  PubResp_ok p -> response_reason p -> PubResp.fixed_header p = dflt ->
  properties_fit PubResp_struct p -> decodable PubResp_struct p dflt.
Proof.
  intros Hok Hr Hh Hfit. pose proof (PubResp_fields_ok p Hok) as Hf.
  destruct Hok as (? & ? & [? ?]).
  assert (Hz : abbreviated PubResp_struct p = true -> property_bytes PubResp_fields p = []).
  { intros [_ Hz%Z.eqb_eq]%andb_prop. apply (property_size_zero PubResp_struct); [| done].
    split; [done |]. unfold MAX_VARIABLE_BYTE_INT. destruct Hfit as [Hl _]. lia. }
  constructor; [clear Hfit .. | apply Hfit | apply Hfit].
  - by each_field.
  - unfold response_reason in Hr. destruct (abbreviated PubResp_struct p).
    + split; [by apply Hz | by each_field].
    + destruct Hr as [r Hr]. each_field. split_and!; [done | done |]. simpl. by rewrite Hr.
  - clear Hz. each_field; opt_exact.
  - exact I.
  - repeat split.
  - destruct p. simpl in *. by subst.
Qed.

Lemma Disconnect_decodable p :
  Disconnect_ok p -> Disconnect.fixed_header p = FixedHeader_new PacketType.Disconnect ->
  properties_fit Disconnect_struct p -> decodable Disconnect_struct p dflt.
Proof.
  intros Hok Hh Hfit. pose proof (Disconnect_fields_ok p Hok) as Hf.
  destruct Hok as (? & ? & ? & [? ?]).
  assert (Hz : abbreviated Disconnect_struct p = true ->
    Disconnect.reason p = Reason.NormalDisconnect /\ property_bytes Disconnect_fields p = []).
  { intros [Hr%bool_decide_eq_true_1 Hz%Z.eqb_eq]%andb_prop. split; [done |].
    apply (property_size_zero Disconnect_struct); [| done].
    split; [done |]. unfold MAX_VARIABLE_BYTE_INT. destruct Hfit as [Hl _]. lia. }
  constructor; [clear Hfit .. | apply Hfit | apply Hfit].
  - each_field.
  - destruct (abbreviated Disconnect_struct p).
    + destruct Hz as [Hr Hz]; [done |]. split; [done | by each_field].
    + clear Hz. by each_field.
  - clear Hz. each_field; opt_exact.
  - exact I.
  - repeat split.
  - destruct p. simpl in *. by subst.
Qed.

Lemma tame_ConnAck c : tame (ConnAck_decode c).
Proof. apply tame_decode_of. by each_field. Qed.
Lemma tame_PubResp p : tame (PubResp_decode p).
Proof. apply tame_decode_of. by each_field. Qed.
Lemma tame_Disconnect p : tame (Disconnect_decode p).
Proof. apply tame_decode_of. by each_field. Qed.
End codecs.

#[export] Hint Resolve tame_ConnAck tame_PubResp tame_Disconnect : codec.
