(* ===== verification/Publish.v ===== *)
(** * PUBLISH *)
(** vaux-mqtt/src/publish.rs: the packet, its constructors and setters, the
    generated encoder and the hand-written decoder, which reads the packet
    identifier only when the fixed header's QoS is above 0. *)

From S2P Require Import Prelude Bytes Codec Fixed Property Macro MacroFacts Subscriptions.

Module PayloadFormat.
Inductive PayloadFormat := Bin | Utf8.
End PayloadFormat.
Abbreviation PayloadFormat := PayloadFormat.PayloadFormat.

#[export] Instance PayloadFormat_eq_dec : EqDecision PayloadFormat.
Proof. solve_decision. Defined.
#[export] Instance PayloadFormat_default : Default PayloadFormat := PayloadFormat.Bin.

Definition PayloadFormat_as_u8 (f : PayloadFormat) : Z :=
  match f with PayloadFormat.Bin => 0 | PayloadFormat.Utf8 => 1 end.

Definition PayloadFormat_try_from (value : Z) : outcome MqttCodecError PayloadFormat :=
  match value with
  | 0x00 => Ok PayloadFormat.Bin
  | 0x01 => Ok PayloadFormat.Utf8
  | _ => Err MqttCodecError_new
  end.

#[export] Instance PayloadFormat_codec_size : CodecSize PayloadFormat := fun _ => 1.
#[export] Instance PayloadFormat_property_size : PropertyCodecSize PayloadFormat := fun _ => 2.

Module Publish.
Record Publish := mk {
  fixed_header : FixedHeader;
  topic_name : rstring;
  packet_id : option Z;
  message_expiry : option Z;
  payload_format : option PayloadFormat;
  topic_alias : option Z;
  response_topic : option rstring;
  correlation_data : list Z;
  subscription_identifiers : option Z;
  content_type : option rstring;
  user_properties : UserProperty;
  payload : option (list Z);
}.
End Publish.
Abbreviation Publish := Publish.Publish.

#[export] Instance Publish_eta : Eta Publish := fun p =>
  Publish.mk (Publish.fixed_header p) (Publish.topic_name p) (Publish.packet_id p)
    (Publish.message_expiry p) (Publish.payload_format p) (Publish.topic_alias p)
    (Publish.response_topic p) (Publish.correlation_data p) (Publish.subscription_identifiers p)
    (Publish.content_type p) (Publish.user_properties p) (Publish.payload p).
#[export] Instance Publish_eq_dec : EqDecision Publish.
Proof. solve_decision. Defined.
#[export] Instance Publish_default : Default Publish :=
  Publish.mk (FixedHeader_new PacketType.Publish) [] None None None None None [] None None ∅ None.

(** ** Constructors and setters *)

Definition publish_qos (p : Publish) : outcome MqttCodecError QoSLevel :=
  header_qos (Publish.fixed_header p).

Definition publish_set_qos (qos : QoSLevel) (p : Publish) : Publish :=
  p <| Publish.fixed_header := header_set_qos qos (Publish.fixed_header p) |>.

Definition publish_dup (p : Publish) : bool := header_dup (Publish.fixed_header p).

Definition publish_set_dup (dup : bool) (p : Publish) : outcome MqttCodecError Publish :=
  match publish_qos p with
  | Ok qos =>
      if bool_decide (qos = QoSLevel.AtMostOnce) && dup then Err MqttCodecError_new
      else Ok (p <| Publish.fixed_header := header_set_dup dup (Publish.fixed_header p) |>)
  | _ => Panic
  end.

Definition publish_retain (p : Publish) : bool := header_retain (Publish.fixed_header p).

Definition publish_set_retain (retain : bool) (p : Publish) : Publish :=
  p <| Publish.fixed_header := header_set_retain retain (Publish.fixed_header p) |>.

Definition publish_set_packet_id (id : option Z) (p : Publish) : outcome MqttCodecError Publish :=
  match publish_qos p with
  | Ok qos =>
      if bool_decide (qos = QoSLevel.AtMostOnce) then Err MqttCodecError_new
      else Ok (p <| Publish.packet_id := id |>)
  | _ => Panic
  end.

Definition with_topic_alias (alias : Z) (p : Publish) : Publish :=
  p <| Publish.topic_alias := Some alias |>.

Definition set_payload_format (format : PayloadFormat) (p : Publish) : Publish :=
  if bool_decide (format = PayloadFormat.Bin) then p <| Publish.payload_format := None |>
  else p <| Publish.payload_format := Some format |>.

Definition new_with_payload (packet_id : option Z) (topic : rstring) (qos_level : QoSLevel)
    (payload : list Z) : outcome MqttCodecError Publish :=
  if bool_decide (packet_id = None) && negb (bool_decide (qos_level = QoSLevel.AtMostOnce))
  then Err MqttCodecError_new
  else if bool_decide (is_Some packet_id) && bool_decide (qos_level = QoSLevel.AtMostOnce)
  then Err MqttCodecError_new
  else
    publish_set_dup false
      (set_payload_format PayloadFormat.Bin
        (publish_set_qos qos_level
          (dflt <| Publish.fixed_header := FixedHeader_new PacketType.Publish |>
                <| Publish.topic_name := topic |>
                <| Publish.packet_id := packet_id |>
                <| Publish.payload := Some payload |>))).

Definition new_with_message (packet_id : option Z) (topic : rstring) (qos_level : QoSLevel)
    (message : rstring) : outcome MqttCodecError Publish :=
  match new_with_payload packet_id topic qos_level message with
  | Ok p => Ok (set_payload_format PayloadFormat.Utf8 p)
  | r => r
  end.

Definition new_from_header (fixed_header : FixedHeader) : outcome MqttCodecError Publish :=
  match packet_type fixed_header with
  | PacketType.Publish => Ok (dflt <| Publish.fixed_header := fixed_header |>)
  | _ => Err (new_with_kind MalformedPacket)
  end.

(** ** Codec *)

Section codecs.
Context {B : Buf} {HI : HashIter}.

#[export] Instance PayloadFormat_encode : Encode PayloadFormat :=
  fun f => put_u8 (PayloadFormat_as_u8 f).

#[export] Instance PayloadFormat_decode : Decode PayloadFormat := fun _ =>
  v ← get_u8;
  f ← lift (PayloadFormat_try_from v);
  mret (f, 1).

#[export, refine] Instance PayloadFormat_laws : CodecLaws PayloadFormat := {|
  type_ok _ := True; type_exact _ := True; type_bytes f := [PayloadFormat_as_u8 f] |}.
Proof.
  - intros. apply writes_put_u8.
  - done.
  - intros f _ t. simpl. unfold decode, PayloadFormat_decode. rewrite bind_get_u8. by destruct f.
  - intros f. apply tame_bind; [auto with codec |]. intros v. apply tame_bind; [| auto with codec].
    apply tame_lift. unfold PayloadFormat_try_from. by repeat case_match.
  - intros f. apply eats_bind_l; [auto with codec .. |]. intros v.
    apply tame_bind; [| auto with codec].
    apply tame_lift. unfold PayloadFormat_try_from. by repeat case_match.
Defined.

#[export] Instance PayloadFormat_property_size_law : PropertySizeLaw PayloadFormat.
Proof. done. Qed.

(** The functions named by the attributes of the payload. *)
Definition payload_fns : with_fns (list Z) :=
  WithFns codec_size_opt_vec_u8_raw encode_opt_vec_u8_raw_ref decode_opt_vec_u8_raw.

Definition Publish_struct : struct Publish := Struct
  [ plain (Scalar SString) Publish.topic_name;
    plain (Opt SU16) Publish.packet_id;
    property PropertyType.MessageExpiry (Opt SU32) Publish.message_expiry;
    property PropertyType.PayloadFormat (Opt SPropType) Publish.payload_format;
    property PropertyType.TopicAlias (Opt SU16) Publish.topic_alias;
    property PropertyType.ResponseTopic (Opt SString) Publish.response_topic;
    property_skip_if PropertyType.CorrelationData is_empty VecU8 Publish.correlation_data;
    property PropertyType.SubscriptionIdentifier (OptWith subscription_id_fns)
      Publish.subscription_identifiers;
    property PropertyType.ContentType (Opt SString) Publish.content_type;
    property PropertyType.UserProperty Props Publish.user_properties;
    payload_remaining (OptWith payload_fns) Publish.payload ]
  (Some Publish.fixed_header) None None.

#[export] Instance Publish_encode : Encode Publish := encode_of Publish_struct.
#[export] Instance Publish_codec_size : CodecSize Publish := codec_size_of Publish_struct.

(** The arms of the hand-written property loop. *)
Definition Publish_arm (p : PropertyType) (st : dstate Publish) : Codec (dstate Publish) :=
  match p with
  | PropertyType.MessageExpiry =>
      '(value, n) ← u32_decode 0;
      mret (set_self (fun x => x <| Publish.message_expiry := Some value |>) (count_read true n st))
  | PropertyType.PayloadFormat =>
      '(value, n) ← PayloadFormat_decode dflt;
      mret (set_self (fun x => x <| Publish.payload_format := Some value |>) (count_read true n st))
  | PropertyType.TopicAlias =>
      value ← get_u16;
      mret (count_read true 2 (set_self (fun x => x <| Publish.topic_alias := Some value |>) st))
  | PropertyType.ResponseTopic =>
      '(value, n) ← String_decode [];
      mret (set_self (fun x => x <| Publish.response_topic := Some value |>) (count_read true n st))
  | PropertyType.CorrelationData =>
      '(value, n) ← VecU8_decode [];
      mret (set_self (fun x => x <| Publish.correlation_data := value |>) (count_read true n st))
  | PropertyType.SubscriptionIdentifier =>
      '(value, n) ← decode_opt_variable_byte_int;
      mret (set_self (fun x => x <| Publish.subscription_identifiers := value |>)
             (count_read true n st))
  | PropertyType.ContentType =>
      '(value, n) ← String_decode [];
      mret (set_self (fun x => x <| Publish.content_type := Some value |>) (count_read true n st))
  | PropertyType.UserProperty =>
      '(value, n) ← UserProperty_decode (Publish.user_properties (d_self st));
      mret (set_self (fun x => x <| Publish.user_properties := value |>) (count_read true n st))
  | p => raise (new_with_kind (UnsupportedProperty (PropertyType_as_u8 p)))
  end.

(** [impl Decode for Publish]. *)
#[export] Instance Publish_decode : Decode Publish := fun self =>
  '(topic, n) ← String_decode (Publish.topic_name self);
  let st := DState (self <| Publish.topic_name := topic |>) n 0 in
  qos ← lift (publish_qos (d_self st));
  st ← (if negb (bool_decide (qos = QoSLevel.AtMostOnce)) then
          id ← get_u16;
          mret (count_read false 2 (set_self (fun x => x <| Publish.packet_id := Some id |>) st))
        else mret st);
  st ← decode_properties Publish_arm st;
  '(value, n) ← decode_opt_vec_u8_raw;
  mret ((d_self st) <| Publish.payload := value |>, d_bytes_read st + n).

(** ** Values that fit the wire format *)

Definition Publish_ok (p : Publish) : Prop :=
  mqtt_string (Publish.topic_name p)
  /\ opt_ok is_u16 (Publish.packet_id p)
  /\ opt_ok is_u32 (Publish.message_expiry p)
  /\ opt_ok is_u16 (Publish.topic_alias p)
  /\ opt_ok mqtt_string (Publish.response_topic p)
  /\ len (Publish.correlation_data p) <= u16_max
  /\ opt_ok encodable_id (Publish.subscription_identifiers p)
  /\ opt_ok mqtt_string (Publish.content_type p)
  /\ props_ok (Publish.user_properties p).

(** A packet identifier is present exactly above QoS 0 (MQTT 2.2.1), which is
    what [new_with_payload] enforces and the decoder relies on. *)
Definition publish_coherent (p : Publish) : Prop :=
  exists q, publish_qos p = Ok q /\ (q = QoSLevel.AtMostOnce <-> Publish.packet_id p = None).

Lemma Publish_fields_ok p : Publish_ok p -> Forall (unskipped_ok p) (s_fields Publish_struct).
Proof.
  intros (? & ? & ? & ? & ? & Hc & Hid & ? & [? _]).
  each_field; try (right; split; [done |]; simpl; first [done | by case_match]).
  - destruct (Publish.correlation_data p) eqn:E; [left | right];
      unfold skipped, field_ok; simpl; by rewrite E.
  - right. split; [done |]. simpl. destruct (Publish.subscription_identifiers p) as [v|]; [| done].
    destruct (subscription_id_ok v Hid) as [Hw Hs]. by rewrite (bytes_of_writes _ _ Hw).
  - right. split; [done |]. simpl. destruct (Publish.payload p) as [v|]; [| done].
    rewrite (bytes_of_writes _ v) by apply writes_put_slice. split; [apply writes_put_slice | done].
Qed.

Lemma Publish_body p :
  body_bytes Publish_struct p
  = prefixed (Publish.topic_name p)
    ++ match Publish.packet_id p with Some id => be16 id | None => [] end
    ++ property_section (s_fields Publish_struct) p
    ++ default [] (Publish.payload p).
Proof.
  unfold body_bytes. simpl abbreviated. cbv iota.
  assert (E1 : fields_bytes (short_header Publish_struct) p
    = prefixed (Publish.topic_name p)
      ++ match Publish.packet_id p with Some id => be16 id | None => [] end).
  { unfold fields_bytes. simpl. rewrite app_nil_r. done. }
  assert (E2 : fields_bytes (payload_fields Publish_struct) p = default [] (Publish.payload p)).
  { unfold fields_bytes. simpl. rewrite app_nil_r. unfold unskipped_bytes, field_bytes. simpl.
    destruct (Publish.payload p) as [v|]; [| done]. simpl.
    by rewrite (bytes_of_writes _ v) by apply writes_put_slice. }
  rewrite E1, E2, <- app_assoc. done.
Qed.

Lemma Publish_regular p :
  map_Forall (fun _ vs => vs <> []) (Publish.user_properties p) ->
  Forall (property_regular p) (List.filter is_property_field (s_fields Publish_struct)).
Proof. intros. by each_field. Qed.

Lemma Publish_items_read p :
  Publish_ok p -> opt_ok decodable_id (Publish.subscription_identifiers p) ->
  Forall (item_reads Publish_arm) (struct_items (s_fields Publish_struct) p).
Proof.
  intros (? & ? & ? & ? & ? & Hc & Hid & ? & [? _]) Hd. unfold struct_items.
  apply Forall_concat, Forall_fmap. each_field; unfold compose, field_items;
    cbn [property property_skip_if f_property_type f_ty f_get f_set].
  - apply items_read_opt. destruct (Publish.message_expiry p) as [v|]; [| done].
    eapply (item_reads_trait _ _ _ (fun v x => x <| Publish.message_expiry := Some v |>)); [done |].
    by apply reads_u32.
  - apply items_read_opt. destruct (Publish.payload_format p) as [v|]; [| done].
    eapply (item_reads_trait _ _ _ (fun v x => x <| Publish.payload_format := Some v |>)); [done |].
    by apply type_reads.
  - apply items_read_opt. destruct (Publish.topic_alias p) as [v|]; [| done].
    eapply (item_reads_get _ _ _ id (fun v x => x <| Publish.topic_alias := Some v |>));
      [done | by apply reads_get_u16 | done].
  - apply items_read_opt. destruct (Publish.response_topic p) as [v|]; [| done].
    eapply (item_reads_trait _ _ _ (fun v x => x <| Publish.response_topic := Some v |>)); [done |].
    by apply reads_prefixed_string.
  - destruct (is_empty _); [constructor |]. apply Forall_singleton.
    eapply (item_reads_trait _ _ _ (fun v x => x <| Publish.correlation_data := v |>)); [done |].
    by apply reads_prefixed_vec.
  - apply items_read_opt. destruct (Publish.subscription_identifiers p) as [v|]; [| done].
    rewrite (subscription_id_bytes v Hid).
    eapply (item_reads_trait _ _ _ (fun v x => x <| Publish.subscription_identifiers := v |>));
      [done |]. by apply reads_subscription_id.
  - apply items_read_opt. destruct (Publish.content_type p) as [v|]; [| done].
    eapply (item_reads_trait _ _ _ (fun v x => x <| Publish.content_type := Some v |>)); [done |].
    by apply reads_prefixed_string.
  - apply Forall_fmap. eapply Forall_impl; [| eassumption]. intros [k v] [Hk Hv].
    by apply item_reads_pair.
Qed.

(** The fields of [p] other than the fixed header, copied into a packet that
    [new_from_header] made. *)
Lemma Publish_copy p :
  let x := dflt <| Publish.fixed_header := Publish.fixed_header p |>
                <| Publish.topic_name := Publish.topic_name p |> in
  (copy_fields (List.filter is_property_field (s_fields Publish_struct)) p
    (match Publish.packet_id p with Some id => x <| Publish.packet_id := Some id |> | None => x end))
  <| Publish.payload := Publish.payload p |> = p.
Proof. destruct p as [? ? [] ? ? ? ? ? ? ? ? ?]; done. Qed.

(** Reading the packet identifier after the topic. *)
Lemma reads_packet_id q (x : Publish) n o :
  (q = QoSLevel.AtMostOnce <-> o = None) -> opt_ok is_u16 o ->
  reads (if negb (bool_decide (q = QoSLevel.AtMostOnce)) then
           id ← get_u16;
           mret (count_read false 2 (set_self (fun x => x <| Publish.packet_id := Some id |>)
             (DState x n 0)))
         else mret (DState x n 0) : Codec (dstate Publish))
    (match o with Some id => be16 id | None => [] end)
    (DState (match o with Some id => x <| Publish.packet_id := Some id |> | None => x end)
       (n + len (match o with Some id => be16 id | None => [] end)) 0).
Proof.
  intros Hq Ho. case_bool_decide as Hc; simpl negb; cbv iota.
  - rewrite (proj1 Hq Hc). rewrite Z.add_0_r. apply reads_ret.
  - destruct o as [id|]; [| by destruct Hq; exfalso; auto].
    eapply reads_bind_nil; [by apply reads_get_u16 | apply reads_ret].
Qed.

(** The payload is whatever is left. *)
Lemma reads_rest (b : list Z) : decode_opt_vec_u8_raw b = (Ok (Some b, len b), []).
Proof.
  unfold decode_opt_vec_u8_raw. rewrite bind_remaining. unfold split_to, of_partial, mbind, M_bind.
  pose proof (split_to_app b []) as H. rewrite app_nil_r in H. by rewrite H.
Qed.

Definition publish_excess (p : Publish) : Z := excess Publish_struct p.

(** The hand-written decoder undoes the generated encoder. *)
Lemma Publish_roundtrip p :
  Publish_ok p -> opt_ok decodable_id (Publish.subscription_identifiers p) ->
  publish_coherent p -> is_Some (Publish.payload p) -> properties_fit Publish_struct p ->
  Publish_decode (dflt <| Publish.fixed_header := Publish.fixed_header p |>)
    (body_bytes Publish_struct p)
  = (Ok (p, len (body_bytes Publish_struct p) + publish_excess p), []).
Proof.
  intros Hok Hid (q & Hq & Hpid) [pl Hpl] [Hl Hb].
  pose proof (Publish_items_read p Hok Hid) as Hi.
  destruct Hok as (Ht & Hp & _ & _ & _ & _ & _ & _ & [_ Hm]).
  pose proof (Publish_regular p Hm) as Hr.
  assert (Hlaw : Forall lawful (s_fields Publish_struct)) by solve_lawful.
  unfold publish_excess, excess. change (abbreviated Publish_struct p) with false. cbv iota.
  rewrite <- (struct_items_bytes _ _ Hr) in *.
  rewrite Publish_body. unfold Publish_decode, decode. rewrite Hpl. simpl default.
  rewrite (bind_ok _ _ _ _ _ (reads_prefixed_string _ _ Ht _)). cbv zeta.
  rewrite (bind_lift_ok _ _ q) by done.
  rewrite (bind_ok _ _ _ _ _ (reads_packet_id q _ _ (Publish.packet_id p) Hpid Hp _)).
  unfold property_section. simpl has_properties. cbv iota.
  rewrite <- (struct_items_bytes _ _ Hr).
  rewrite (bind_ok _ _ _ _ _ (decode_properties_items _ _ _ _ _ Hi Hl Hb _)).
  rewrite (bind_ok _ _ _ _ _ (reads_rest pl)).
  rewrite (apply_struct_items _ _ _ Hr Hlaw) by (destruct (Publish.packet_id p); repeat split).
  unfold mret, M_ret. cbn [d_self d_bytes_read]. rewrite <- Hpl, Publish_copy. do 3 f_equal.
  rewrite !len_app, len_vbi by (unfold MAX_VARIABLE_BYTE_INT; lia). lia.
Qed.

Lemma tame_Publish_arm pt st : tame (Publish_arm pt st).
Proof.
  destruct pt; simpl; auto with codec;
    (apply tame_bind; [| intros; try case_match; auto with codec]); auto with codec.
  - apply type_tame.
  - apply tame_bind; [auto with codec | intros []; auto with codec].
  - apply UserProperty_decode_shortens.
Qed.

Lemma header_qos_total h : header_qos h <> OutOfFuel.
Proof. unfold header_qos. by case_match. Qed.

Lemma tame_rest : tame decode_opt_vec_u8_raw.
Proof. intros b r b' Hb. rewrite reads_rest. intros [= <- <-]. split_and!; [done | constructor | simpl; lia]. Qed.

Lemma tame_Publish p : tame (Publish_decode p).
Proof.
  apply tame_bind; [auto with codec |]. intros [topic n].
  apply tame_bind; [apply tame_lift, header_qos_total |]. intros q.
  apply tame_bind; [case_match; [apply tame_bind |]; auto with codec |]. intros st.
  apply tame_bind; [apply tame_decode_properties, tame_Publish_arm |]. intros st2.
  apply tame_bind; [apply tame_rest | intros []; auto with codec].
Qed.
End codecs.

#[export] Hint Resolve tame_Publish tame_rest : codec.

(** ** The constructors keep the packet coherent *)

Lemma new_with_payload_spec packet_id topic qos payload :
  new_with_payload packet_id topic qos payload
  = if bool_decide (qos = QoSLevel.AtMostOnce <-> packet_id = None)
    then Ok (dflt <| Publish.fixed_header := header_set_qos qos (FixedHeader_new PacketType.Publish) |>
                  <| Publish.topic_name := topic |> <| Publish.packet_id := packet_id |>
                  <| Publish.payload := Some payload |>)
    else Err MqttCodecError_new.
Proof.
  case_bool_decide as H; destruct packet_id as [id|], qos; try reflexivity;
    exfalso; destruct H; try done; naive_solver.
Qed.

(** [new_with_payload] accepts exactly the combinations MQTT 2.2.1 allows, a
    packet identifier if and only if the QoS is above 0, and the packet it builds
    has the given topic, identifier, QoS and payload, with DUP and RETAIN clear. *)
Theorem new_with_payload_coherent (id : option Z) (topic : rstring) (q : QoSLevel)
    (payload : list Z) :
  match new_with_payload id topic q payload with
  | Ok p =>
      (q = QoSLevel.AtMostOnce <-> id = None)
      /\ publish_qos p = Ok q /\ Publish.packet_id p = id /\ Publish.topic_name p = topic
      /\ Publish.payload p = Some payload /\ publish_dup p = false /\ publish_retain p = false
      /\ publish_coherent p
  | Err _ => ~ (q = QoSLevel.AtMostOnce <-> id = None)
  | _ => False
  end.
Proof.
  rewrite new_with_payload_spec. case_bool_decide as H; [| done].
  split_and!; try done; try (by destruct q). exists q. split; [by destruct q | done].
Qed.
