(* ===== verification/Connect.v ===== *)
(** * CONNECT and the will message *)
(** vaux-mqtt/src/connect.rs and will.rs: the connect flags, the will message,
    the generated encoder and the hand-written decoder of CONNECT.  The client
    identifier of a new packet is a random UUID from the [uuid] crate, an
    argument of [Connect_new]. *)

From S2P Require Import Prelude Bytes Codec Fixed Property Macro MacroFacts Publish.

Definition CONNECT_FLAG_USERNAME : Z := 128.
Definition CONNECT_FLAG_PASSWORD : Z := 64.
Definition CONNECT_FLAG_WILL_RETAIN : Z := 32.
Definition CONNECT_FLAG_WILL_QOS : Z := 24.
Definition CONNECT_FLAG_WILL : Z := 4.
Definition CONNECT_FLAG_CLEAN_START : Z := 2.

Definition MQTT_PROTOCOL_NAME : rstring := Eval compute in str "MQTT".
Definition MQTT_PROTOCOL_VERSION : Z := 5.

(** ** Will *)

Module WillHeader.
Record WillHeader := mk {
  will_delay : option Z;
  payload_format : option PayloadFormat;
  message_expiry : option Z;
  content_type : option rstring;
  response_topic : option rstring;
  correlation_data : list Z;
  user_properties : UserProperty;
}.
End WillHeader.
Abbreviation WillHeader := WillHeader.WillHeader.

#[export] Instance WillHeader_eta : Eta WillHeader := fun w =>
  WillHeader.mk (WillHeader.will_delay w) (WillHeader.payload_format w)
    (WillHeader.message_expiry w) (WillHeader.content_type w) (WillHeader.response_topic w)
    (WillHeader.correlation_data w) (WillHeader.user_properties w).
#[export] Instance WillHeader_eq_dec : EqDecision WillHeader.
Proof. solve_decision. Defined.
#[export] Instance WillHeader_default : Default WillHeader :=
  WillHeader.mk None None None None None [] ∅.

Module WillMessage.
Record WillMessage := mk {
  header : WillHeader;
  topic : rstring;
  payload : list Z;
  qos : QoSLevel;
  retain : bool;
}.
End WillMessage.
Abbreviation WillMessage := WillMessage.WillMessage.

#[export] Instance WillMessage_eta : Eta WillMessage := fun w =>
  WillMessage.mk (WillMessage.header w) (WillMessage.topic w) (WillMessage.payload w)
    (WillMessage.qos w) (WillMessage.retain w).
#[export] Instance WillMessage_eq_dec : EqDecision WillMessage.
Proof. solve_decision. Defined.

Definition WillMessage_new (topic : rstring) (payload : list Z) (qos : QoSLevel) (retain : bool)
    : WillMessage := WillMessage.mk dflt topic payload qos retain.

Definition with_delay (delay : Z) (w : WillMessage) : WillMessage :=
  w <| WillMessage.header := (WillMessage.header w) <| WillHeader.will_delay := Some delay |> |>.
Definition with_payload_format (format : PayloadFormat) (w : WillMessage) : WillMessage :=
  w <| WillMessage.header :=
    (WillMessage.header w) <| WillHeader.payload_format := Some format |> |>.
Definition with_message_expiry (expiry : Z) (w : WillMessage) : WillMessage :=
  w <| WillMessage.header :=
    (WillMessage.header w) <| WillHeader.message_expiry := Some expiry |> |>.
Definition with_content_type (content_type : rstring) (w : WillMessage) : WillMessage :=
  w <| WillMessage.header :=
    (WillMessage.header w) <| WillHeader.content_type := Some content_type |> |>.
Definition with_response_topic (response_topic : rstring) (w : WillMessage) : WillMessage :=
  w <| WillMessage.header :=
    (WillMessage.header w) <| WillHeader.response_topic := Some response_topic |> |>.
Definition with_correlation_data (correlation_data : list Z) (w : WillMessage) : WillMessage :=
  w <| WillMessage.header :=
    (WillMessage.header w) <| WillHeader.correlation_data := correlation_data |> |>.
Definition with_user_properties (user_properties : UserProperty) (w : WillMessage) : WillMessage :=
  w <| WillMessage.header :=
    (WillMessage.header w) <| WillHeader.user_properties := user_properties |> |>.

(** ** Connect *)

Module Connect.
Record Connect := mk {
  fixed_header : FixedHeader;
  protocol_name : rstring;
  protocol_version : Z;
  connect_flags : Z;
  keep_alive : Z;
  session_expiry_interval : option Z;
  receive_maximum : option Z;
  max_packet_size : option Z;
  topic_alias_maximum : option Z;
  request_response_info : option bool;
  request_problem_info : option bool;
  auth_method : option rstring;
  auth_data : list Z;
  user_properties : UserProperty;
  client_id : rstring;
  will_properties : option WillHeader;
  will_payload : list Z;
  will_topic : option rstring;
  username : rstring;
  password : list Z;
}.
End Connect.
Abbreviation Connect := Connect.Connect.

#[export] Instance Connect_eta : Eta Connect := fun c =>
  Connect.mk (Connect.fixed_header c) (Connect.protocol_name c) (Connect.protocol_version c)
    (Connect.connect_flags c) (Connect.keep_alive c) (Connect.session_expiry_interval c)
    (Connect.receive_maximum c) (Connect.max_packet_size c) (Connect.topic_alias_maximum c)
    (Connect.request_response_info c) (Connect.request_problem_info c) (Connect.auth_method c)
    (Connect.auth_data c) (Connect.user_properties c) (Connect.client_id c)
    (Connect.will_properties c) (Connect.will_payload c) (Connect.will_topic c)
    (Connect.username c) (Connect.password c).
#[export] Instance Connect_eq_dec : EqDecision Connect.
Proof. solve_decision. Defined.

(** [Connect::new], also its [Default]; [uuid] is [Uuid::new_v4().to_string()]. *)
Definition Connect_new (uuid : rstring) : Connect :=
  Connect.mk (FixedHeader_new PacketType.Connect) MQTT_PROTOCOL_NAME MQTT_PROTOCOL_VERSION 0 60
    None None None None None None None [] ∅ uuid None [] None [] [].

Definition clean_start (c : Connect) : bool :=
  negb (Z.land (Connect.connect_flags c) CONNECT_FLAG_CLEAN_START =? 0).
Definition set_clean_start (clean_start : bool) (c : Connect) : Connect :=
  c <| Connect.connect_flags :=
    Z.lor (Z.land (Connect.connect_flags c) (not_u8 CONNECT_FLAG_CLEAN_START))
          (Z.shiftl (bool_byte clean_start) 1) |>.

Definition will_retain (c : Connect) : bool :=
  negb (Z.land (Connect.connect_flags c) CONNECT_FLAG_WILL_RETAIN =? 0).
Definition set_will_retain (will_retain : bool) (c : Connect) : Connect :=
  c <| Connect.connect_flags :=
    Z.lor (Z.land (Connect.connect_flags c) (not_u8 CONNECT_FLAG_WILL_RETAIN))
          (Z.shiftl (bool_byte will_retain) 5) |>.

Definition will_qos (c : Connect) : outcome MqttCodecError QoSLevel :=
  QoSLevel_try_from (Z.shiftr (Z.land (Connect.connect_flags c) CONNECT_FLAG_WILL_QOS) 3).
Definition set_will_qos (qos : QoSLevel) (c : Connect) : Connect :=
  c <| Connect.connect_flags :=
    Z.lor (Z.land (Connect.connect_flags c) (not_u8 CONNECT_FLAG_WILL_QOS))
          (Z.shiftl (QoSLevel_as_u8 qos) 3) |>.

Definition will (c : Connect) : bool :=
  negb (Z.land (Connect.connect_flags c) CONNECT_FLAG_WILL =? 0).
Definition set_will (will : bool) (c : Connect) : Connect :=
  c <| Connect.connect_flags :=
    Z.lor (Z.land (Connect.connect_flags c) (not_u8 CONNECT_FLAG_WILL))
          (Z.shiftl (bool_byte will) 2) |>.

Definition has_username (c : Connect) : bool :=
  negb (Z.land (Connect.connect_flags c) CONNECT_FLAG_USERNAME =? 0).
Definition set_username (username : option rstring) (c : Connect) : Connect :=
  let flags :=
    match username with
    | None => Z.land (Connect.connect_flags c) (not_u8 CONNECT_FLAG_USERNAME)
    | Some _ => Z.lor (Z.land (Connect.connect_flags c) (not_u8 CONNECT_FLAG_USERNAME))
                      (Z.shiftl 1 7)
    end in
  c <| Connect.connect_flags := flags |> <| Connect.username := default [] username |>.

Definition has_password (c : Connect) : bool :=
  negb (Z.land (Connect.connect_flags c) CONNECT_FLAG_PASSWORD =? 0).
Definition set_password (password : option (list Z)) (c : Connect) : Connect :=
  let flags :=
    match password with
    | None => Z.land (Connect.connect_flags c) (not_u8 CONNECT_FLAG_PASSWORD)
    | Some _ => Z.lor (Z.land (Connect.connect_flags c) (not_u8 CONNECT_FLAG_PASSWORD))
                      (Z.shiftl 1 6)
    end in
  c <| Connect.connect_flags := flags |> <| Connect.password := default [] password |>.

Definition set_session_expiry_interval (interval : Z) (c : Connect) : Connect :=
  if interval =? 0 then c <| Connect.session_expiry_interval := None |>
  else c <| Connect.session_expiry_interval := Some interval |>.

Definition will_message (c : Connect) : option WillMessage :=
  if will c then
    Some (WillMessage.mk (default dflt (Connect.will_properties c))
      (default [] (Connect.will_topic c)) (Connect.will_payload c)
      (match will_qos c with Ok q => q | _ => QoSLevel.AtMostOnce end) (will_retain c))
  else None.

Definition set_will_message (w : WillMessage) (c : Connect) : Connect :=
  let c := c <| Connect.will_topic := Some (WillMessage.topic w) |>
             <| Connect.will_payload := WillMessage.payload w |>
             <| Connect.will_properties := Some (WillMessage.header w) |> in
  set_will_retain (WillMessage.retain w) (set_will_qos (WillMessage.qos w) (set_will true c)).

(** [impl From<WillMessage> for Connect]. *)
Definition Connect_from_will (uuid : rstring) (w : WillMessage) : Connect :=
  set_will_message w (Connect_new uuid).

(** ** Codec *)

Section codecs.
Context {B : Buf} {HI : HashIter}.

Definition WillHeader_struct : struct WillHeader := Struct
  [ property PropertyType.WillDelay (Opt SU32) WillHeader.will_delay;
    property PropertyType.PayloadFormat (Opt SPropType) WillHeader.payload_format;
    property PropertyType.MessageExpiry (Opt SU32) WillHeader.message_expiry;
    property PropertyType.ContentType (Opt SString) WillHeader.content_type;
    property PropertyType.ResponseTopic (Opt SString) WillHeader.response_topic;
    property_skip_if PropertyType.CorrelationData is_empty VecU8 WillHeader.correlation_data;
    property PropertyType.UserProperty Props WillHeader.user_properties ]
  None None None.

#[export] Instance WillHeader_encode : Encode WillHeader := encode_of WillHeader_struct.
#[export] Instance WillHeader_decode : Decode WillHeader := decode_of WillHeader_struct.
#[export] Instance WillHeader_codec_size : CodecSize WillHeader := codec_size_of WillHeader_struct.

Definition WillHeader_ok (w : WillHeader) : Prop :=
  opt_ok is_u32 (WillHeader.will_delay w)
  /\ opt_ok is_u32 (WillHeader.message_expiry w)
  /\ opt_ok mqtt_string (WillHeader.content_type w)
  /\ opt_ok mqtt_string (WillHeader.response_topic w)
  /\ len (WillHeader.correlation_data w) <= u16_max
  /\ props_ok (WillHeader.user_properties w)
  /\ len (property_bytes (s_fields WillHeader_struct) w) <= MAX_VARIABLE_BYTE_INT.

(** Read back exactly: no user properties, which are over-counted, and no
    correlation data, which the generated decoder counts in the wrong variable. *)
Definition WillHeader_exact (w : WillHeader) : Prop :=
  WillHeader_ok w /\ WillHeader.correlation_data w = [] /\ WillHeader.user_properties w = ∅
  /\ len (property_bytes (s_fields WillHeader_struct) w) <= 2097151.

Lemma WillHeader_declared : declared WillHeader_struct.
Proof. constructor; try done. solve_lawful. Qed.

Lemma WillHeader_struct_ok w : WillHeader_ok w -> struct_ok WillHeader_struct w.
Proof.
  intros (? & ? & ? & ? & Hc & [? _] & Hl). split; [| exact Hl]. clear Hl.
  each_field; try (right; split; [done |]; simpl; first [done | by case_match]).
  destruct (WillHeader.correlation_data w) eqn:E; [left | right];
    unfold skipped, field_ok; simpl; by rewrite E.
Qed.

Lemma WillHeader_regular w :
  map_Forall (fun _ vs => vs <> []) (WillHeader.user_properties w) ->
  Forall (property_regular w) (List.filter is_property_field (s_fields WillHeader_struct)).
Proof. intros. by each_field. Qed.

Lemma WillHeader_decodable w : WillHeader_exact w -> decodable WillHeader_struct w dflt.
Proof.
  intros ((? & ? & ? & ? & _ & [? ?] & _) & Hc & Hu & Hl).
  destruct (properties_fit_exact WillHeader_struct w) as [Hfit _];
    [by apply WillHeader_regular | by each_field | exact Hl |].
  constructor; [clear Hl Hfit .. | exact Hl | apply Hfit].
  - each_field.
  - each_field.
  - each_field; (split; [done | simpl; first [done | by case_match]]).
  - exact I.
  - repeat split.
  - by destruct w.
Qed.

#[export, refine] Instance WillHeader_laws : CodecLaws WillHeader := {|
  type_ok := WillHeader_ok; type_exact := WillHeader_exact;
  type_bytes := body_bytes WillHeader_struct |}.
Proof.
  - intros w Hw. apply (writes_body WillHeader_struct). by apply WillHeader_struct_ok.
  - by intros w [].
  - intros w Hw t. pose proof (decode_full WillHeader_struct w dflt t WillHeader_declared
      (WillHeader_decodable w Hw) eq_refl (or_introl eq_refl)) as H.
    destruct Hw as ((_ & _ & _ & _ & _ & [_ ?] & _) & Hc & Hu & Hl).
    destruct (properties_fit_exact WillHeader_struct w) as [_ He];
      [by apply WillHeader_regular | by each_field | exact Hl |].
    rewrite He, Z.add_0_r in H. exact H.
  - intros w. apply tame_decode_of. by each_field.
  - intros w b a b' Hb H. unfold decode, WillHeader_decode in H.
    rewrite decode_of_start in H by apply WillHeader_declared. simpl in H.
    rewrite bind_ret, bind_has_remaining in H. simpl in H. rewrite bind_ret in H.
    revert b a b' Hb H. apply eats_bind_l.
    + apply decode_properties_shortens. intros. apply tame_decode_property. by each_field.
    + apply tame_decode_properties. intros. apply tame_decode_property. by each_field.
    + intros st. apply tame_bind; auto with codec.
Defined.

#[export] Instance WillHeader_size_law : SizeLaw WillHeader.
Proof. intros w Hw. apply codec_size_of_ok; [done | by apply WillHeader_struct_ok]. Qed.

Definition Connect_struct : struct Connect := Struct
  [ plain (Scalar SString) Connect.protocol_name;
    plain (Scalar SU8) Connect.protocol_version;
    plain (Scalar SU8) Connect.connect_flags;
    plain (Scalar SU16) Connect.keep_alive;
    property PropertyType.SessionExpiryInterval (Opt SU32) Connect.session_expiry_interval;
    property PropertyType.RecvMax (Opt SU16) Connect.receive_maximum;
    property PropertyType.MaxPacketSize (Opt SU32) Connect.max_packet_size;
    property PropertyType.TopicAliasMax (Opt SU16) Connect.topic_alias_maximum;
    property PropertyType.ReqRespInfo (Opt SBool) Connect.request_response_info;
    property PropertyType.ReqProblemInfo (Opt SBool) Connect.request_problem_info;
    property PropertyType.AuthMethod (Opt SString) Connect.auth_method;
    property_skip_if PropertyType.AuthData is_empty VecU8 Connect.auth_data;
    property PropertyType.UserProperty Props Connect.user_properties;
    payload_field (Scalar SString) Connect.client_id;
    payload_field (Opt SType) Connect.will_properties;
    payload_field_skip_if is_empty VecU8 Connect.will_payload;
    payload_field (Opt SString) Connect.will_topic;
    payload_field_skip_if is_empty (Scalar SString) Connect.username;
    payload_field_skip_if is_empty VecU8 Connect.password ]
  (Some Connect.fixed_header) None None.

#[export] Instance Connect_encode : Encode Connect := encode_of Connect_struct.
#[export] Instance Connect_codec_size : CodecSize Connect := codec_size_of Connect_struct.

(** The arms of the hand-written property loop. *)
Definition Connect_arm (p : PropertyType) (st : dstate Connect) : Codec (dstate Connect) :=
  match p with
  | PropertyType.SessionExpiryInterval =>
      '(value, n) ← u32_decode 0;
      mret (set_self (fun x => x <| Connect.session_expiry_interval := Some value |>)
             (count_read true n st))
  | PropertyType.RecvMax =>
      value ← get_u16;
      mret (count_read true 2 (set_self (fun x => x <| Connect.receive_maximum := Some value |>) st))
  | PropertyType.MaxPacketSize =>
      '(value, n) ← u32_decode 0;
      mret (set_self (fun x => x <| Connect.max_packet_size := Some value |>)
             (count_read true n st))
  | PropertyType.TopicAliasMax =>
      value ← get_u16;
      mret (count_read true 2
             (set_self (fun x => x <| Connect.topic_alias_maximum := Some value |>) st))
  | PropertyType.ReqRespInfo =>
      value ← get_u8;
      mret (count_read true 1
             (set_self (fun x => x <| Connect.request_response_info := Some (negb (value =? 0)) |>) st))
  | PropertyType.ReqProblemInfo =>
      value ← get_u8;
      mret (count_read true 1
             (set_self (fun x => x <| Connect.request_problem_info := Some (negb (value =? 0)) |>) st))
  | PropertyType.AuthMethod =>
      '(value, n) ← String_decode [];
      mret (set_self (fun x => x <| Connect.auth_method := Some value |>) (count_read true n st))
  | PropertyType.AuthData =>
      '(value, n) ← VecU8_decode [];
      mret (set_self (fun x => x <| Connect.auth_data := value |>) (count_read true n st))
  | PropertyType.UserProperty =>
      '(value, n) ← UserProperty_decode (Connect.user_properties (d_self st));
      mret (set_self (fun x => x <| Connect.user_properties := value |>) (count_read true n st))
  | p => raise (new_with_kind (UnsupportedProperty (PropertyType_as_u8 p)))
  end.

(** The will, only if the WILL flag is set: properties, payload, topic. *)
Definition Connect_decode_will (st : dstate Connect) : Codec (dstate Connect) :=
  if will (d_self st) then
    '(will_header, n1) ← WillHeader_decode dflt;
    let st := set_self (fun x => x <| Connect.will_properties := Some will_header |>)
                (count_read false n1 st) in
    '(payload, n2) ← VecU8_decode [];
    let st := set_self (fun x => x <| Connect.will_payload := payload |>)
                (count_read false n2 st) in
    '(topic, n3) ← String_decode [];
    mret (set_self (fun x => x <| Connect.will_topic := Some topic |>) (count_read false n3 st))
  else mret st.

Definition Connect_decode_username (st : dstate Connect) : Codec (dstate Connect) :=
  if has_username (d_self st) then
    '(username, n) ← String_decode (Connect.username (d_self st));
    mret (set_self (fun x => x <| Connect.username := username |>) (count_read false n st))
  else mret st.

Definition Connect_decode_password (st : dstate Connect) : Codec (dstate Connect) :=
  if has_password (d_self st) then
    '(password, n) ← VecU8_decode [];
    mret (set_self (fun x => x <| Connect.password := password |>) (count_read false n st))
  else mret st.

(** [impl Decode for Connect]. *)
#[export] Instance Connect_decode : Decode Connect := fun self =>
  '(protocol_name, n) ← String_decode (Connect.protocol_name self);
  protocol_version ← get_u8;
  connect_flags ← get_u8;
  keep_alive ← get_u16;
  let st := DState (self <| Connect.protocol_name := protocol_name |>
                         <| Connect.protocol_version := protocol_version |>
                         <| Connect.connect_flags := connect_flags |>
                         <| Connect.keep_alive := keep_alive |>) (n + 1 + 1 + 2) 0 in
  st ← decode_properties Connect_arm st;
  '(client_id, n) ← String_decode (Connect.client_id (d_self st));
  let st := set_self (fun x => x <| Connect.client_id := client_id |>) (count_read false n st) in
  st ← Connect_decode_will st;
  st ← Connect_decode_username st;
  st ← Connect_decode_password st;
  mret (d_self st, d_bytes_read st).

(** ** Values that fit the wire format *)

Definition Connect_ok (c : Connect) : Prop :=
  mqtt_string (Connect.protocol_name c)
  /\ is_u8 (Connect.protocol_version c)
  /\ is_u8 (Connect.connect_flags c)
  /\ is_u16 (Connect.keep_alive c)
  /\ opt_ok is_u32 (Connect.session_expiry_interval c)
  /\ opt_ok is_u16 (Connect.receive_maximum c)
  /\ opt_ok is_u32 (Connect.max_packet_size c)
  /\ opt_ok is_u16 (Connect.topic_alias_maximum c)
  /\ opt_ok mqtt_string (Connect.auth_method c)
  /\ len (Connect.auth_data c) <= u16_max
  /\ props_ok (Connect.user_properties c)
  /\ mqtt_string (Connect.client_id c)
  /\ opt_ok WillHeader_ok (Connect.will_properties c)
  /\ len (Connect.will_payload c) <= u16_max
  /\ opt_ok mqtt_string (Connect.will_topic c)
  /\ mqtt_string (Connect.username c)
  /\ len (Connect.password c) <= u16_max.

(** The flags announce exactly the payload fields that are present.  The
    encoder leaves out an empty will payload, user name or password whatever
    the flags say, so those have to be non-empty when announced. *)
Definition connect_coherent (c : Connect) : Prop :=
  (if will c then
     is_Some (Connect.will_properties c) /\ Connect.will_payload c <> []
     /\ is_Some (Connect.will_topic c)
   else Connect.will_properties c = None /\ Connect.will_payload c = []
        /\ Connect.will_topic c = None)
  /\ has_username c = negb (is_empty (Connect.username c))
  /\ has_password c = negb (is_empty (Connect.password c)).

Definition unless_empty (l : list Z) : list Z := if is_empty l then [] else prefixed l.

Definition will_bytes (c : Connect) : list Z :=
  match Connect.will_properties c with Some w => body_bytes WillHeader_struct w | None => [] end
  ++ unless_empty (Connect.will_payload c)
  ++ match Connect.will_topic c with Some t => prefixed t | None => [] end.

Lemma Connect_fields_ok c : Connect_ok c -> Forall (unskipped_ok c) (s_fields Connect_struct).
Proof.
  intros (? & ? & ? & ? & ? & ? & ? & ? & ? & Ha & [? _] & ? & ? & Hw & ? & ? & Hp).
  each_field; try (right; split; [done |]; simpl; first [done | by case_match]).
  - destruct (Connect.auth_data c) eqn:E; [left | right];
      unfold skipped, field_ok; simpl; by rewrite E.
  - destruct (Connect.will_payload c) eqn:E; [left | right];
      unfold skipped, field_ok; simpl; by rewrite E.
  - destruct (Connect.password c) eqn:E; [left | right];
      unfold skipped, field_ok; simpl; by rewrite E.
Qed.

Lemma Connect_body c :
  body_bytes Connect_struct c
  = prefixed (Connect.protocol_name c)
    ++ [Connect.protocol_version c] ++ [Connect.connect_flags c] ++ be16 (Connect.keep_alive c)
    ++ property_section (s_fields Connect_struct) c
    ++ prefixed (Connect.client_id c)
    ++ will_bytes c ++ unless_empty (Connect.username c) ++ unless_empty (Connect.password c).
Proof.
  unfold body_bytes. change (abbreviated Connect_struct c) with false. cbv iota.
  assert (E1 : fields_bytes (short_header Connect_struct) c
    = prefixed (Connect.protocol_name c)
      ++ [Connect.protocol_version c] ++ [Connect.connect_flags c] ++ be16 (Connect.keep_alive c))
    by done.
  assert (E2 : fields_bytes (payload_fields Connect_struct) c
    = prefixed (Connect.client_id c) ++ will_bytes c ++ unless_empty (Connect.username c)
      ++ unless_empty (Connect.password c)).
  { unfold fields_bytes, will_bytes. simpl. by rewrite app_nil_r, <- !app_assoc. }
  assert (E0 : fields_bytes (rest_header Connect_struct) c = []) by done.
  by rewrite E0, E1, E2, <- !app_assoc.
Qed.

Lemma Connect_regular c :
  map_Forall (fun _ vs => vs <> []) (Connect.user_properties c) ->
  Forall (property_regular c) (List.filter is_property_field (s_fields Connect_struct)).
Proof. intros. by each_field. Qed.

Lemma Connect_items_read c :
  Connect_ok c -> Forall (item_reads Connect_arm) (struct_items (s_fields Connect_struct) c).
Proof.
  intros (? & ? & ? & ? & ? & ? & ? & ? & ? & Ha & [? _] & _). unfold struct_items.
  apply Forall_concat, Forall_fmap. each_field; unfold compose, field_items;
    cbn [property property_skip_if f_property_type f_ty f_get f_set].
  - apply items_read_opt. destruct (Connect.session_expiry_interval c) as [v|]; [| done].
    eapply (item_reads_trait _ _ _ (fun v x => x <| Connect.session_expiry_interval := Some v |>));
      [done |]. by apply reads_u32.
  - apply items_read_opt. destruct (Connect.receive_maximum c) as [v|]; [| done].
    eapply (item_reads_get _ _ _ id (fun v x => x <| Connect.receive_maximum := Some v |>));
      [done | by apply reads_get_u16 | done].
  - apply items_read_opt. destruct (Connect.max_packet_size c) as [v|]; [| done].
    eapply (item_reads_trait _ _ _ (fun v x => x <| Connect.max_packet_size := Some v |>)); [done |].
    by apply reads_u32.
  - apply items_read_opt. destruct (Connect.topic_alias_maximum c) as [v|]; [| done].
    eapply (item_reads_get _ _ _ id (fun v x => x <| Connect.topic_alias_maximum := Some v |>));
      [done | by apply reads_get_u16 | done].
  - apply items_read_opt. destruct (Connect.request_response_info c) as [v|]; [| done].
    assert (Hr := item_reads_get Connect_arm PropertyType.ReqRespInfo _ (fun b => negb (b =? 0))
      (fun v x => x <| Connect.request_response_info := Some v |>) _ (bool_byte v) 1 (fun _ => eq_refl)
      (reads_get_u8 _) eq_refl). by destruct v.
  - apply items_read_opt. destruct (Connect.request_problem_info c) as [v|]; [| done].
    assert (Hr := item_reads_get Connect_arm PropertyType.ReqProblemInfo _ (fun b => negb (b =? 0))
      (fun v x => x <| Connect.request_problem_info := Some v |>) _ (bool_byte v) 1 (fun _ => eq_refl)
      (reads_get_u8 _) eq_refl). by destruct v.
  - apply items_read_opt. destruct (Connect.auth_method c) as [v|]; [| done].
    eapply (item_reads_trait _ _ _ (fun v x => x <| Connect.auth_method := Some v |>)); [done |].
    by apply reads_prefixed_string.
  - destruct (is_empty _); [constructor |]. apply Forall_singleton.
    eapply (item_reads_trait _ _ _ (fun v x => x <| Connect.auth_data := v |>)); [done |].
    by apply reads_prefixed_vec.
  - apply Forall_fmap. eapply Forall_impl; [| eassumption]. intros [k v] [Hk Hv].
    by apply item_reads_pair.
Qed.

(** Reading the announced payload fields. *)
Lemma reads_will c x br pr :
  Connect_ok c -> opt_ok WillHeader_exact (Connect.will_properties c) -> connect_coherent c ->
  Connect.connect_flags x = Connect.connect_flags c ->
  Connect.will_properties x = None -> Connect.will_payload x = [] -> Connect.will_topic x = None ->
  reads (Connect_decode_will (DState x br pr)) (will_bytes c)
    (DState (x <| Connect.will_properties := Connect.will_properties c |>
               <| Connect.will_payload := Connect.will_payload c |>
               <| Connect.will_topic := Connect.will_topic c |>) (br + len (will_bytes c)) pr).
Proof.
  intros (_ & _ & _ & _ & _ & _ & _ & _ & _ & _ & _ & _ & _ & Hp & Ht & _) Hw [Hc _] Hf Hx1 Hx2 Hx3.
  unfold Connect_decode_will, will_bytes. cbn [d_self].
  assert (Hwx : will x = will c) by (unfold will; by rewrite Hf). rewrite Hwx.
  destruct (will c).
  - destruct Hc as ([w E1] & Hne & [t E3]). rewrite E1, E3 in *. unfold unless_empty.
    destruct (is_empty (Connect.will_payload c)) eqn:Ee; [by destruct (Connect.will_payload c) |].
    eapply reads_bind; [change (type_exact w) in Hw; apply (type_reads w Hw) |]. cbv zeta beta.
    eapply reads_bind; [by apply reads_prefixed_vec |].
    eapply reads_bind_nil; [by apply reads_prefixed_string |].
    intros t'. unfold mret, M_ret, set_self, count_read. cbn [d_self d_bytes_read d_property_bytes_read].
    rewrite !len_app. do 3 f_equal. simpl. lia.
  - destruct Hc as (-> & -> & ->). simpl app. rewrite Z.add_0_r. intros t.
    unfold mret, M_ret. do 3 f_equal. destruct x. simpl in *. by subst.
Qed.

Lemma reads_username c x br pr :
  Connect_ok c -> connect_coherent c -> Connect.connect_flags x = Connect.connect_flags c ->
  Connect.username x = [] ->
  reads (Connect_decode_username (DState x br pr)) (unless_empty (Connect.username c))
    (DState (x <| Connect.username := Connect.username c |>)
       (br + len (unless_empty (Connect.username c))) pr).
Proof.
  intros (_ & _ & _ & _ & _ & _ & _ & _ & _ & _ & _ & _ & _ & _ & _ & Hu & _) (_ & Hc & _) Hf Hx.
  unfold Connect_decode_username. cbn [d_self].
  assert (Hux : has_username x = has_username c) by (unfold has_username; by rewrite Hf).
  rewrite Hux, Hc. unfold unless_empty. destruct (Connect.username c) as [|z u] eqn:E; simpl negb.
  - simpl is_empty. cbv iota. rewrite Z.add_0_r. intros t. unfold mret, M_ret. do 3 f_equal.
    destruct x. simpl in *. by subst.
  - simpl is_empty. cbv iota.
    eapply reads_bind_nil; [by apply reads_prefixed_string | apply reads_ret].
Qed.

Lemma reads_password c x br pr :
  Connect_ok c -> connect_coherent c -> Connect.connect_flags x = Connect.connect_flags c ->
  Connect.password x = [] ->
  reads (Connect_decode_password (DState x br pr)) (unless_empty (Connect.password c))
    (DState (x <| Connect.password := Connect.password c |>)
       (br + len (unless_empty (Connect.password c))) pr).
Proof.
  intros (_ & _ & _ & _ & _ & _ & _ & _ & _ & _ & _ & _ & _ & _ & _ & _ & Hu) (_ & _ & Hc) Hf Hx.
  unfold Connect_decode_password. cbn [d_self].
  assert (Hux : has_password x = has_password c) by (unfold has_password; by rewrite Hf).
  rewrite Hux, Hc. unfold unless_empty. destruct (Connect.password c) as [|z u] eqn:E; simpl negb.
  - simpl is_empty. cbv iota. rewrite Z.add_0_r. intros t. unfold mret, M_ret. do 3 f_equal.
    destruct x. simpl in *. by subst.
  - simpl is_empty. cbv iota.
    eapply reads_bind_nil; [by apply reads_prefixed_vec | apply reads_ret].
Qed.

Lemma Connect_copy uuid c :
  Connect.fixed_header c = FixedHeader_new PacketType.Connect ->
  (copy_fields (List.filter is_property_field (s_fields Connect_struct)) c
    ((Connect_new uuid) <| Connect.protocol_name := Connect.protocol_name c |>
       <| Connect.protocol_version := Connect.protocol_version c |>
       <| Connect.connect_flags := Connect.connect_flags c |>
       <| Connect.keep_alive := Connect.keep_alive c |>))
  <| Connect.client_id := Connect.client_id c |>
  <| Connect.will_properties := Connect.will_properties c |>
  <| Connect.will_payload := Connect.will_payload c |>
  <| Connect.will_topic := Connect.will_topic c |>
  <| Connect.username := Connect.username c |>
  <| Connect.password := Connect.password c |> = c.
Proof. destruct c. simpl. by intros ->. Qed.

(** The hand-written decoder undoes the generated encoder. *)
Lemma Connect_roundtrip uuid c :
  Connect_ok c -> opt_ok WillHeader_exact (Connect.will_properties c) -> connect_coherent c ->
  Connect.fixed_header c = FixedHeader_new PacketType.Connect -> properties_fit Connect_struct c ->
  Connect_decode (Connect_new uuid) (body_bytes Connect_struct c)
  = (Ok (c, len (body_bytes Connect_struct c) + excess Connect_struct c), []).
Proof.
  intros Hok Hw Hc Hh [Hl Hb]. pose proof (Connect_items_read c Hok) as Hi.
  pose proof Hok as (Hn & _ & _ & Hk & _ & _ & _ & _ & _ & _ & [_ Hm] & Hid & _).
  pose proof (Connect_regular c Hm) as Hr.
  assert (Hlaw : Forall lawful (s_fields Connect_struct)) by solve_lawful.
  unfold excess. change (abbreviated Connect_struct c) with false. cbv iota.
  rewrite <- (struct_items_bytes _ _ Hr) in *.
  rewrite Connect_body. unfold Connect_decode.
  rewrite (bind_ok _ _ _ _ _ (reads_prefixed_string _ _ Hn _)).
  rewrite (bind_ok _ _ _ _ _ (reads_get_u8 _ _)), (bind_ok _ _ _ _ _ (reads_get_u8 _ _)).
  rewrite (bind_ok _ _ _ _ _ (reads_get_u16 _ Hk _)). cbv zeta.
  unfold property_section. change (has_properties (s_fields Connect_struct)) with true. cbv iota.
  rewrite <- (struct_items_bytes _ _ Hr).
  rewrite (bind_ok _ _ _ _ _ (decode_properties_items _ _ _ _ _ Hi Hl Hb _)).
  rewrite (apply_struct_items _ _ _ Hr Hlaw) by (repeat split).
  rewrite (bind_ok _ _ _ _ _ (reads_prefixed_string _ _ Hid _)).
  unfold set_self, count_read. cbn [d_self d_bytes_read d_property_bytes_read].
  erewrite bind_ok; [| by apply reads_will].
  erewrite bind_ok; [| by apply reads_username].
  rewrite <- (app_nil_r (unless_empty (Connect.password c))) at 1.
  erewrite bind_ok; [| by apply reads_password].
  unfold mret, M_ret. cbn [d_self d_bytes_read]. rewrite (Connect_copy uuid c Hh). do 3 f_equal.
  rewrite !len_app, len_vbi by (unfold MAX_VARIABLE_BYTE_INT; lia). simpl (len [_]).
  change (len (be16 _)) with 2. lia.
Qed.

Lemma tame_Connect_arm pt st : tame (Connect_arm pt st).
Proof.
  destruct pt; simpl; auto with codec;
    (apply tame_bind; [| intros; try case_match; auto with codec]); auto with codec.
  apply UserProperty_decode_shortens.
Qed.

Lemma tame_Connect c : tame (Connect_decode c).
Proof.
  apply tame_bind; [auto with codec |]. intros [pn n].
  apply tame_bind; [auto with codec |]. intros pv. apply tame_bind; [auto with codec |]. intros cf.
  apply tame_bind; [auto with codec |]. intros ka.
  apply tame_bind; [apply tame_decode_properties, tame_Connect_arm |]. intros st.
  apply tame_bind; [auto with codec |]. intros [id m].
  apply tame_bind.
  { unfold Connect_decode_will. case_match; [| auto with codec].
    apply tame_bind; [apply (type_tame (A := WillHeader)) |]. intros [].
    apply tame_bind; [auto with codec |]. intros [].
    apply tame_bind; [auto with codec |]. intros []. auto with codec. }
  intros st1. apply tame_bind.
  { unfold Connect_decode_username. case_match; [| auto with codec].
    apply tame_bind; [auto with codec |]. intros []. auto with codec. }
  intros st2. apply tame_bind; [| auto with codec].
  unfold Connect_decode_password. case_match; [| auto with codec].
  apply tame_bind; [auto with codec |]. intros []. auto with codec.
Qed.
End codecs.

#[export] Hint Resolve tame_Connect : codec.

(** ** The flags byte *)

(** The flags as their getters see them. *)
Definition connect_view (c : Connect) :=
  (clean_start c, will c, will_qos c, will_retain c, has_password c, has_username c).

Ltac view_flags c :=
  unfold connect_view, clean_start, will, will_qos, will_retain, has_password, has_username; simpl;
  let f := fresh "f" in let H := fresh "H" in
  generalize dependent (Connect.connect_flags c); intros f H; by_bytes f.

Lemma connect_view_set_clean_start c b :
  is_u8 (Connect.connect_flags c) ->
  connect_view (set_clean_start b c)
  = (b, will c, will_qos c, will_retain c, has_password c, has_username c).
Proof. intros Hf. destruct b; view_flags c. Qed.

Definition set_will_flags (q : QoSLevel) (r : bool) (f : Z) : Z :=
  let f := Z.lor (Z.land f (not_u8 CONNECT_FLAG_WILL)) (Z.shiftl (bool_byte true) 2) in
  let f := Z.lor (Z.land f (not_u8 CONNECT_FLAG_WILL_QOS)) (Z.shiftl (QoSLevel_as_u8 q) 3) in
  Z.lor (Z.land f (not_u8 CONNECT_FLAG_WILL_RETAIN)) (Z.shiftl (bool_byte r) 5).

Definition flags_view (f : Z) :=
  (negb (Z.land f CONNECT_FLAG_CLEAN_START =? 0), negb (Z.land f CONNECT_FLAG_WILL =? 0),
   QoSLevel_try_from (Z.shiftr (Z.land f CONNECT_FLAG_WILL_QOS) 3),
   negb (Z.land f CONNECT_FLAG_WILL_RETAIN =? 0), negb (Z.land f CONNECT_FLAG_PASSWORD =? 0),
   negb (Z.land f CONNECT_FLAG_USERNAME =? 0)).

Lemma set_will_flags_view q r f :
  is_u8 f ->
  flags_view (set_will_flags q r f)
  = (negb (Z.land f CONNECT_FLAG_CLEAN_START =? 0), true, Ok q, r,
     negb (Z.land f CONNECT_FLAG_PASSWORD =? 0), negb (Z.land f CONNECT_FLAG_USERNAME =? 0)).
Proof. intros Hf. destruct q, r; by_bytes f. Qed.

(** A will message put into a packet is the one taken out of it, and the other
    flags are untouched. *)
Lemma will_message_set c w :
  is_u8 (Connect.connect_flags c) ->
  will_message (set_will_message w c) = Some w
  /\ clean_start (set_will_message w c) = clean_start c
  /\ has_username (set_will_message w c) = has_username c
  /\ has_password (set_will_message w c) = has_password c.
Proof.
  intros Hf. destruct w as [h t p q r].
  pose proof (set_will_flags_view q r _ Hf) as Hv. unfold flags_view in Hv.
  injection Hv as E1 E2 E3 E4 E5 E6.
  assert (Hw : will (set_will_message (WillMessage.mk h t p q r) c) = true) by exact E2.
  split; [| split_and!; [exact E1 | exact E6 | exact E5]].
  unfold will_message. rewrite Hw.
  assert (Hq : will_qos (set_will_message (WillMessage.mk h t p q r) c) = Ok q) by exact E3.
  assert (Hr : will_retain (set_will_message (WillMessage.mk h t p q r) c) = r) by exact E4.
  by rewrite Hq, Hr.
Qed.

(** ** The contract of the flags and the will *)

Lemma connect_view_set_username c (u : option rstring) :
  is_u8 (Connect.connect_flags c) ->
  connect_view (set_username u c)
  = (clean_start c, will c, will_qos c, will_retain c, has_password c, bool_decide (is_Some u)).
Proof.
  intros Hf. destruct u as [u|];
    [rewrite (bool_decide_true (is_Some _)) by (by eexists)
    | rewrite (bool_decide_false (is_Some _)) by (by intros [])];
    view_flags c.
Qed.

Lemma connect_view_set_password c (u : option (list Z)) :
  is_u8 (Connect.connect_flags c) ->
  connect_view (set_password u c)
  = (clean_start c, will c, will_qos c, will_retain c, bool_decide (is_Some u), has_username c).
Proof.
  intros Hf. destruct u as [u|];
    [rewrite (bool_decide_true (is_Some _)) by (by eexists)
    | rewrite (bool_decide_false (is_Some _)) by (by intros [])];
    view_flags c.
Qed.

(** CLEAN START, the user name flag and the password flag of the connect
    flags byte are independent of each other and of the three will flags; a user
    name or password that is set is announced, one that is removed is not. *)
Theorem connect_flags_independent (c : Connect) (b : bool) (u : option rstring)
    (pw : option (list Z)) :
  is_u8 (Connect.connect_flags c) ->
  let view c := (clean_start c, will c, will_qos c, will_retain c, has_password c, has_username c) in
  view (set_clean_start b c)
  = (b, will c, will_qos c, will_retain c, has_password c, has_username c)
  /\ view (set_username u c)
     = (clean_start c, will c, will_qos c, will_retain c, has_password c, bool_decide (is_Some u))
  /\ view (set_password pw c)
     = (clean_start c, will c, will_qos c, will_retain c, bool_decide (is_Some pw), has_username c).
Proof.
  intros Hf view. split_and!; [by apply connect_view_set_clean_start
    | by apply connect_view_set_username | by apply connect_view_set_password].
Qed.

(** A will message put into a CONNECT packet is the one the server takes out
    of it, with its topic, payload, QoS, RETAIN flag and properties, and the
    flags that do not concern the will are untouched. *)
Theorem will_message_roundtrip (c : Connect) (w : WillMessage) :
  is_u8 (Connect.connect_flags c) ->
  will_message (set_will_message w c) = Some w
  /\ clean_start (set_will_message w c) = clean_start c
  /\ has_username (set_will_message w c) = has_username c
  /\ has_password (set_will_message w c) = has_password c.
Proof. apply will_message_set. Qed.

Definition sample_will : WillMessage :=
  with_delay 30 (WillMessage_new (str "gone") [1; 2; 3] QoSLevel.AtLeastOnce true).

Definition sample_connect : Connect :=
  set_username (Some (str "me")) (set_clean_start true (Connect_new (str "id"))).

Lemma connect_flags_independent_witness :
  let view c := (clean_start c, will c, will_qos c, will_retain c, has_password c, has_username c) in
  let c := sample_connect in
  view (set_clean_start false c)
  = (false, will c, will_qos c, will_retain c, has_password c, has_username c)
  /\ view (set_username None c)
     = (clean_start c, will c, will_qos c, will_retain c, has_password c, false)
  /\ view (set_password (Some [1]) c)
     = (clean_start c, will c, will_qos c, will_retain c, true, has_username c).
Proof.
  apply (connect_flags_independent sample_connect false None (Some [1])).
  unfold is_u8. vm_compute. split; [discriminate | reflexivity].
Defined.

Lemma will_message_roundtrip_witness :
  let c := set_will_message sample_will sample_connect in
  will_message c = Some sample_will /\ clean_start c = true /\ has_username c = true
  /\ has_password c = false.
Proof.
  apply (will_message_roundtrip sample_connect sample_will).
  unfold is_u8. vm_compute. split; [discriminate | reflexivity].
Defined.
