(* ===== verification/PacketSyntax.v ===== *)
(** * vaux-mqtt: the packet structs as the macros see them *)
(** The struct declarations of vaux-mqtt, with their attributes, as syntax, and
    the proof that the descriptions used for the packets ([ConnAck_struct] and
    the others) are what these declarations say.  With [MacroCodecs] the codec
    theorems of the packets are theorems about the code the macros generate
    from the declarations. *)

From S2P Require Import Prelude Bytes MacroSyntax MacroExpand.
From S2P Require Import Codec Fixed Property Macro MacroFacts MacroMeaning MacroCorrect MacroCodecs.
From S2P Require Import Subscriptions Acks Publish Connect.

#[local] Open Scope string_scope.

(** ** Notation for declarations *)

Definition named (n : string) : ty := TypePath [] n PathNone.
Definition in_module (m n : string) : ty := TypePath [m] n PathNone.
Definition option_of (t : ty) : ty := TypePath [] "Option" (AngleBracketed [GenericType t]).
Definition vec_of (t : ty) : ty := TypePath [] "Vec" (AngleBracketed [GenericType t]).

(** [key = "text"] and [#[codec(...)]]. *)
Definition key_value (key text : string) : meta := MetaNameValue key (ExprLit (LitStr text)).
Definition codec (args : list meta) : attribute := Attribute CODEC_ATTR (Some args).
Definition derives (traits : list string) : attribute :=
  Attribute "derive" (Some (map MetaPath traits)).

Definition declare (name : string) (t : ty) : syn_field := SynField [] name t.
Definition declare_with (args : list meta) (name : string) (t : ty) : syn_field :=
  SynField [codec args] name t.
Definition declare_property (p name : string) (t : ty) : syn_field :=
  declare_with [key_value "property_type" p] name t.

Definition packet_type_arg (p : string) : meta := key_value "packet_type" p.

(** ** The declarations *)

Definition ConnAck_item : item_struct := ItemStruct
  [derives ["Debug"; "Default"; "Clone"; "PartialEq"; "Eq"]] "ConnAck" (Named
  [ declare "ack_flags" (named "u8");
    declare "reason" (named "Reason");
    declare_property "PropertyType::SessionExpiryInterval" "session_expiry_interval"
      (option_of (named "u32"));
    declare_property "PropertyType::RecvMax" "receive_maximum" (option_of (named "u16"));
    declare_property "PropertyType::MaxQoS" "maximum_qos" (option_of (named "QoSLevel"));
    declare_property "PropertyType::RetainAvail" "retain_available" (option_of (named "bool"));
    declare_property "PropertyType::MaxPacketSize" "maximum_packet_size"
      (option_of (named "u32"));
    declare_property "PropertyType::AssignedClientId" "assigned_client_id"
      (option_of (named "String"));
    declare_property "PropertyType::TopicAliasMax" "topic_alias_maximum"
      (option_of (named "u16"));
    declare_property "PropertyType::ReasonString" "reason_string" (option_of (named "String"));
    declare_property "PropertyType::SubIdAvail" "subscription_identifier_available"
      (option_of (named "bool"));
    declare_property "PropertyType::UserProperty" "user_properties" (named "UserProperty");
    declare_property "PropertyType::WildcardSubAvail" "wildcard_subscription_available"
      (option_of (named "bool"));
    declare_property "PropertyType::ShardSubAvail" "shared_subscription_available"
      (option_of (named "bool"));
    declare_property "PropertyType::KeepAlive" "server_keep_alive" (option_of (named "u16"));
    declare_property "PropertyType::RespInfo" "response_information"
      (option_of (named "String"));
    declare_property "PropertyType::ServerReference" "server_reference"
      (option_of (named "String"));
    declare_property "PropertyType::AuthMethod" "auth_method" (option_of (named "String"));
    declare_with [key_value "skip_if" "Vec::is_empty";
                  key_value "property_type" "PropertyType::AuthData"]
      "auth_data" (vec_of (named "u8")) ]).

Definition Connect_item : item_struct := ItemStruct
  [codec [MetaPath "skip_decode"]; derives ["Debug"; "Clone"; "PartialEq"; "Eq"]] "Connect" (Named
  [ declare "protocol_name" (named "String");
    declare "protocol_version" (named "u8");
    declare "connect_flags" (named "u8");
    declare "keep_alive" (named "u16");
    declare_property "PropertyType::SessionExpiryInterval" "session_expiry_interval"
      (option_of (named "u32"));
    declare_property "PropertyType::RecvMax" "receive_maximum" (option_of (named "u16"));
    declare_property "PropertyType::MaxPacketSize" "max_packet_size" (option_of (named "u32"));
    declare_property "PropertyType::TopicAliasMax" "topic_alias_maximum"
      (option_of (named "u16"));
    declare_property "PropertyType::ReqRespInfo" "request_response_info"
      (option_of (named "bool"));
    declare_property "PropertyType::ReqProblemInfo" "request_problem_info"
      (option_of (named "bool"));
    declare_property "PropertyType::AuthMethod" "auth_method" (option_of (named "String"));
    declare_with [key_value "skip_if" "Vec::is_empty";
                  key_value "property_type" "PropertyType::AuthData"]
      "auth_data" (vec_of (named "u8"));
    declare_property "PropertyType::UserProperty" "user_properties"
      (in_module "property" "UserProperty");
    declare_with [key_value "payload_type" "field"] "client_id" (named "String");
    declare_with [key_value "payload_type" "field"] "will_properties"
      (option_of (named "WillHeader"));
    declare_with [key_value "payload_type" "field"; key_value "skip_if" "Vec::is_empty"]
      "will_payload" (vec_of (named "u8"));
    declare_with [key_value "payload_type" "field"] "will_topic" (option_of (named "String"));
    declare_with [key_value "skip_if" "String::is_empty"; key_value "payload_type" "field"]
      "username" (named "String");
    declare_with [key_value "skip_if" "Vec::is_empty"; key_value "payload_type" "field"]
      "password" (vec_of (named "u8")) ]).

(** The attributes of the two identifiers kept as variable byte integers. *)
Definition subscription_id_args : list meta :=
  [ key_value "size_with" "codec::codec_size_opt_variable_byte_int_ref";
    key_value "encode_with" "codec::encode_opt_variable_byte_int_ref";
    key_value "decode_with" "codec::decode_opt_variable_byte_int" ].

Definition Publish_item : item_struct := ItemStruct
  [codec [MetaPath "skip_decode"]; derives ["Debug"; "Clone"; "Eq"; "PartialEq"]] "Publish" (Named
  [ declare "topic_name" (named "String");
    declare "packet_id" (option_of (named "u16"));
    declare_property "PropertyType::MessageExpiry" "message_expiry" (option_of (named "u32"));
    declare_property "PropertyType::PayloadFormat" "payload_format"
      (option_of (named "PayloadFormat"));
    declare_property "PropertyType::TopicAlias" "topic_alias" (option_of (named "u16"));
    declare_property "PropertyType::ResponseTopic" "response_topic" (option_of (named "String"));
    declare_with [key_value "property_type" "PropertyType::CorrelationData";
                  key_value "skip_if" "Vec::is_empty"]
      "correlation_data" (vec_of (named "u8"));
    SynField [codec [key_value "property_type" "PropertyType::SubscriptionIdentifier"];
              codec subscription_id_args]
      "subscription_identifiers" (option_of (named "u32"));
    declare_property "PropertyType::ContentType" "content_type" (option_of (named "String"));
    declare_property "PropertyType::UserProperty" "user_properties" (named "UserProperty");
    declare_with [key_value "payload_type" "remaining";
                  key_value "decode_with" "codec::decode_opt_vec_u8_raw";
                  key_value "encode_with" "codec::encode_opt_vec_u8_raw_ref";
                  key_value "size_with" "codec::codec_size_opt_vec_u8_raw"]
      "payload" (option_of (named "Bytes")) ]).

Definition abbreviated_disconnect : string :=
  "self.reason == Reason::NormalDisconnect && self.property_size() == 0".

Definition Disconnect_item : item_struct := ItemStruct
  [ derives ["Clone"; "Debug"; "PartialEq"; "Eq"; "PropertyCodecSize"; "PropertyEncode"; "Encode";
             "Decode"];
    codec [MetaPath "as_packet"; key_value "abbreviated_when" abbreviated_disconnect];
    derives ["CodecSize"] ] "Disconnect" (Named
  [ declare_with [MetaPath "skip"] "fixed_header" (in_module "codec" "FixedHeader");
    declare_with [MetaPath "non_abbreviated"] "reason" (named "Reason");
    declare_property "PropertyType::SessionExpiryInterval" "session_expiry_interval"
      (option_of (named "u32"));
    declare_property "PropertyType::ReasonString" "reason_string" (option_of (named "String"));
    declare_property "PropertyType::ServerReference" "server_reference"
      (option_of (named "String"));
    declare_property "PropertyType::UserProperty" "user_properties" (named "UserProperty") ]).

Definition abbreviated_response : string :=
  "self.reason.unwrap_or_default() == codec::Reason::Success && self.property_size() == 0".

Definition PubResp_item : item_struct := ItemStruct
  [ derives ["Default"; "Debug"; "Clone"; "PartialEq"; "Eq"; "PropertyCodecSize";
             "PropertyEncode"; "Encode"; "Decode"];
    codec [MetaPath "as_packet"; key_value "abbreviated_when" abbreviated_response];
    derives ["CodecSize"] ] "PubResp" (Named
  [ declare_with [MetaPath "skip"] "fixed_header" (in_module "codec" "FixedHeader");
    declare "packet_id" (named "u16");
    declare_with [MetaPath "non_abbreviated"] "reason" (option_of (in_module "codec" "Reason"));
    declare_property "PropertyType::ReasonString" "reason_desc" (option_of (named "String"));
    declare_property "PropertyType::UserProperty" "user_properties" (named "UserProperty") ]).

Definition SubAck_item : item_struct := ItemStruct
  [derives ["Debug"; "Default"; "Clone"; "PartialEq"; "Eq"]] "SubAck" (Named
  [ declare "packet_id" (named "u16");
    declare_property "PropertyType::ReasonString" "reason" (option_of (named "String"));
    declare_property "PropertyType::UserProperty" "user_properties" (named "UserProperty");
    declare_with [key_value "payload_type" "remaining";
                  key_value "size_with" "codec::codec_size_vec_reason"]
      "reason_codes" (vec_of (named "Reason")) ]).

Definition SubscriptionFilter_item : item_struct := ItemStruct
  [derives ["Debug"; "Default"; "Clone"; "PartialEq"; "Eq"; "Encode"; "Decode"; "CodecSize"]]
  "SubscriptionFilter" (Named
  [ declare "filter" (named "String"); declare "options" (named "u8") ]).

Definition Subscribe_item : item_struct := ItemStruct
  [derives ["Debug"; "Clone"; "PartialEq"; "Eq"]] "Subscribe" (Named
  [ declare "packet_id" (named "u16");
    SynField [codec [key_value "property_type" "PropertyType::SubscriptionIdentifier"];
              codec subscription_id_args]
      "subscription_id" (option_of (named "u32"));
    declare_property "PropertyType::UserProperty" "user_props" (named "UserProperty");
    declare_with [key_value "payload_type" "remaining"] "filter"
      (vec_of (named "SubscriptionFilter")) ]).

Definition UnsubAck_item : item_struct := ItemStruct
  [derives ["Debug"; "Default"; "Clone"; "PartialEq"; "Eq"]] "UnsubAck" (Named
  [ declare "packet_id" (named "u16");
    declare_property "PropertyType::ReasonString" "reason" (named "String");
    declare_property "PropertyType::UserProperty" "user_properties" (named "UserProperty");
    declare_with [key_value "payload_type" "remaining"] "reason_code"
      (vec_of (named "Reason")) ]).

Definition Unsubscribe_item : item_struct := ItemStruct
  [derives ["Debug"; "Default"; "Clone"; "PartialEq"; "Eq"]] "Unsubscribe" (Named
  [ declare "packet_id" (named "u16");
    declare_property "PropertyType::UserProperty" "props" (named "UserProperty");
    declare_with [key_value "payload_type" "remaining"] "topics" (vec_of (named "String")) ]).

Definition WillHeader_item : item_struct := ItemStruct
  [derives ["Debug"; "Default"; "Clone"; "Eq"; "PartialEq"; "Encode"; "Decode"; "PropertyEncode";
            "PropertyCodecSize"; "CodecSize"]] "WillHeader" (Named
  [ declare_property "PropertyType::WillDelay" "will_delay" (option_of (named "u32"));
    declare_property "PropertyType::PayloadFormat" "payload_format"
      (option_of (named "PayloadFormat"));
    declare_property "PropertyType::MessageExpiry" "message_expiry" (option_of (named "u32"));
    declare_property "PropertyType::ContentType" "content_type" (option_of (named "String"));
    declare_property "PropertyType::ResponseTopic" "response_topic" (option_of (named "String"));
    declare_with [key_value "skip_if" "Vec::is_empty";
                  key_value "property_type" "PropertyType::CorrelationData"]
      "correlation_data" (vec_of (named "u8"));
    declare_property "PropertyType::UserProperty" "user_properties" (named "UserProperty") ]).

Definition PingReq_item : item_struct := ItemStruct
  [derives ["Debug"; "Clone"; "Eq"; "PartialEq"]] "PingReq" Unit.
Definition PingResp_item : item_struct := ItemStruct
  [derives ["Debug"; "Clone"; "Eq"; "PartialEq"]] "PingResp" Unit.

(** ** The literals of the declarations *)

Definition source_paths : list string :=
  map fst PropertyType_paths ++
  [ "Vec::is_empty"; "String::is_empty";
    "codec::codec_size_opt_variable_byte_int_ref"; "codec::encode_opt_variable_byte_int_ref";
    "codec::decode_opt_variable_byte_int"; "codec::decode_opt_vec_u8_raw";
    "codec::encode_opt_vec_u8_raw_ref"; "codec::codec_size_opt_vec_u8_raw";
    "codec::codec_size_vec_reason"; "codec::PacketType::ConnAck"; "codec::PacketType::Connect";
    "codec::PacketType::Publish"; "codec::PacketType::SubAck"; "codec::PacketType::Subscribe";
    "codec::PacketType::UnsubAck"; "codec::PacketType::Unsubscribe"; "codec::PacketType::PingReq";
    "codec::PacketType::PingResp" ].

(** The literals that name paths parse as paths, the two conditions as
    expressions: the declarations compile. *)
Class SynAccepts `{Syn} := {
  accepts_path p : is_one_of source_paths p = true -> parse_path p = Some p;
  accepts_expr e : is_one_of [abbreviated_disconnect; abbreviated_response] e = true ->
    parse_expr e = Some e;
}.

#[export] Instance literal_syn_accepts : SynAccepts.
Proof. by constructor. Qed.

(** ** The descriptions say what the declarations say *)

#[local] Arguments is_one_of : simpl never.
#[local] Arguments resolve_property : simpl never.

Ltac accept :=
  unfold get_skip_if_path, get_packet_type;
  repeat (cbn; first [rewrite accepts_path by reflexivity | rewrite accepts_expr by reflexivity]);
  cbn.

Ltac solve_field_described :=
  constructor;
  lazymatch goal with
  | |- exists po, property_type _ = _ /\ _ => eexists; split; [accept; reflexivity | reflexivity]
  | |- exists so, get_skip_if_path _ = _ /\ _ => eexists; split; [accept; reflexivity | reflexivity]
  | |- declares_iff _ _ _ =>
      cbn; first [reflexivity
                 | eexists; eexists; eexists; eexists;
                   split_and!; [reflexivity | reflexivity | reflexivity |];
                   rewrite accepts_path by reflexivity; reflexivity]
  | |- _ => reflexivity
  end.

Ltac solve_described :=
  constructor;
  [ eexists; split_and!;
    [ reflexivity
    | repeat first [ apply rel_nil
                   | apply rel_cons; [solve [solve_field_described] |]
                   | apply rel_skip; [solve [constructor; reflexivity] |] ]
    | apply (bool_decide_unpack _); vm_compute; exact I ]
  | eexists; split; [accept; reflexivity | reflexivity]
  | reflexivity
  | eexists; split; reflexivity
  | cbn; lia
  | repeat constructor ].

Section packets.
Context {B : Buf} {HI : HashIter} {SY : Syn} {SA : SynAccepts}.

Lemma ConnAck_described : described true ConnAck_item ConnAck_struct.
Proof. solve_described. Qed.
Lemma Connect_described : described true Connect_item Connect_struct.
Proof. solve_described. Qed.
Lemma Publish_described : described true Publish_item Publish_struct.
Proof. solve_described. Qed.
Lemma Disconnect_described : described false Disconnect_item Disconnect_struct.
Proof. solve_described. Qed.
Lemma PubResp_described : described false PubResp_item PubResp_struct.
Proof. solve_described. Qed.
Lemma SubAck_described : described true SubAck_item SubAck_struct.
Proof. solve_described. Qed.
Lemma SubscriptionFilter_described :
  described false SubscriptionFilter_item SubscriptionFilter_struct.
Proof. solve_described. Qed.
Lemma Subscribe_described : described true Subscribe_item Subscribe_struct.
Proof. solve_described. Qed.
Lemma UnsubAck_described : described true UnsubAck_item UnsubAck_struct.
Proof. solve_described. Qed.
Lemma Unsubscribe_described : described true Unsubscribe_item Unsubscribe_struct.
Proof. solve_described. Qed.
Lemma WillHeader_described : described false WillHeader_item WillHeader_struct.
Proof. solve_described. Qed.
Lemma PingReq_described : described true PingReq_item PingReq_struct.
Proof. solve_described. Qed.
Lemma PingResp_described : described true PingResp_item PingResp_struct.
Proof. solve_described. Qed.

(** ** The generated code is the codec of the packets *)

(** The macros expand the declaration [it], and the generated methods are the
    given encoder, size and, where the macros generate it, decoder. *)
Definition generates {S} (args : option meta) (it : item_struct) (d : struct S)
    (size : S -> Z) (enc : S -> Codec unit) (dec : option (S -> Codec (S * Z))) : Prop :=
  exists x, expand args it = Ok x
    /\ (forall s, run_codec_size it d (x_codec_size x) (x_property_size x) s = Some (size s))
    /\ (forall s, exists m, run_encode it d x s = Some m /\ forall b, m b = enc s b)
    /\ match dec with
       | Some dec => exists m, run_decode it d x = Some m /\ forall self b, m self b = dec self b
       | None => True
       end.

Lemma described_generates {S} args it (d : struct S) size enc dec :
  args_ok args it -> described (bool_decide (is_Some args)) it d ->
  size = codec_size_of d -> enc = encode_of d ->
  match dec with Some dec => decode_generated args it = true /\ dec = decode_of d | None => True end ->
  generates args it d size enc dec.
Proof.
  intros Ha D -> -> Hd. destruct (expand_correct args it d Ha D) as (x & E & [_ H2 H3 H4]).
  exists x. split_and!; [done | done | exact H3 |].
  destruct dec as [dec|]; [| done]. destruct Hd as [Hg ->]. by rewrite Hg in H4.
Qed.

(** [#[packet(packet_type = "p")]]. *)
Definition packet_of (p : string) : option meta := Some (packet_type_arg p).

Lemma packet_args_ok p it b :
  is_one_of source_paths p = true -> is_skip_decode (item_attrs it) = Ok b ->
  args_ok (packet_of p) it.
Proof.
  intros Hp Hb. split; [| by eexists]. exists p. unfold get_packet_type, name_value_path. cbn.
  by rewrite accepts_path.
Qed.

(** C32: the packets of vaux-mqtt use the code the macros generate.  The struct
    declarations expand without error, and the size, the encoder and the decoder
    this library uses for each packet are what the expansion of its declaration
    computes.  CONNECT and PUBLISH have hand-written decoders, the pings no body. *)
Theorem packets_generated :
  generates (packet_of "codec::PacketType::ConnAck") ConnAck_item ConnAck_struct
    codec_size encode (Some decode)
  /\ generates (packet_of "codec::PacketType::Connect") Connect_item Connect_struct
    codec_size encode None
  /\ generates (packet_of "codec::PacketType::Publish") Publish_item Publish_struct
    codec_size encode None
  /\ generates None Disconnect_item Disconnect_struct codec_size encode (Some decode)
  /\ generates None PubResp_item PubResp_struct codec_size encode (Some decode)
  /\ generates (packet_of "codec::PacketType::SubAck") SubAck_item SubAck_struct
    codec_size encode (Some decode)
  /\ generates None SubscriptionFilter_item SubscriptionFilter_struct
    codec_size encode (Some decode)
  /\ generates (packet_of "codec::PacketType::Subscribe") Subscribe_item Subscribe_struct
    codec_size encode (Some decode)
  /\ generates (packet_of "codec::PacketType::UnsubAck") UnsubAck_item UnsubAck_struct
    codec_size encode (Some decode)
  /\ generates (packet_of "codec::PacketType::Unsubscribe") Unsubscribe_item Unsubscribe_struct
    codec_size encode (Some decode)
  /\ generates None WillHeader_item WillHeader_struct codec_size encode (Some decode)
  /\ generates (packet_of "codec::PacketType::PingReq") PingReq_item PingReq_struct
    (fun _ => 0) encode (Some (decode_of PingReq_struct))
  /\ generates (packet_of "codec::PacketType::PingResp") PingResp_item PingResp_struct
    (fun _ => 0) encode (Some (decode_of PingResp_struct)).
Proof.
  split_and!.
  - apply described_generates; [by apply (packet_args_ok _ _ false) | apply ConnAck_described | done ..].
  - apply described_generates; [by apply (packet_args_ok _ _ true) | apply Connect_described | done ..].
  - apply described_generates; [by apply (packet_args_ok _ _ true) | apply Publish_described | done ..].
  - apply described_generates; [done | apply Disconnect_described | done ..].
  - apply described_generates; [done | apply PubResp_described | done ..].
  - apply described_generates; [by apply (packet_args_ok _ _ false) | apply SubAck_described | done ..].
  - apply described_generates; [done | apply SubscriptionFilter_described | done ..].
  - apply described_generates; [by apply (packet_args_ok _ _ false) | apply Subscribe_described | done ..].
  - apply described_generates; [by apply (packet_args_ok _ _ false) | apply UnsubAck_described | done ..].
  - apply described_generates; [by apply (packet_args_ok _ _ false) | apply Unsubscribe_described | done ..].
  - apply described_generates; [done | apply WillHeader_described | done ..].
  - apply described_generates; [by apply (packet_args_ok _ _ false) | apply PingReq_described | done ..].
  - apply described_generates; [by apply (packet_args_ok _ _ false) | apply PingResp_described | done ..].
Qed.
End packets.

(** ** Witnesses *)

Lemma macro_expansion_correct_witness :
  exists x, expand (packet_of "codec::PacketType::SubAck") SubAck_item = Ok x
    /\ run_codec_size SubAck_item SubAck_struct (x_codec_size x) (x_property_size x) sample_suback
       = Some 5.
Proof.
  destruct (macro_expansion_correct (packet_of "codec::PacketType::SubAck") SubAck_item SubAck_struct
    (packet_args_ok "codec::PacketType::SubAck" SubAck_item false eq_refl eq_refl) SubAck_described) as (x & E & _ & H & _).
  exists x. split; [done |]. rewrite H. by vm_compute.
Defined.

Lemma generated_code_roundtrip_witness :
  exists x enc body, expand (packet_of "codec::PacketType::SubAck") SubAck_item = Ok x
    /\ run_encode SubAck_item SubAck_struct x sample_suback = Some enc
    /\ enc [] = (Ok tt, ([] ++ [header_byte (SubAck.fixed_header sample_suback)]
                            ++ vbi (len body) ++ body)%list)
    /\ (decode_generated (packet_of "codec::PacketType::SubAck") SubAck_item = true ->
         exists dec n, run_decode SubAck_item SubAck_struct x = Some dec
           /\ dec dflt body = (Ok (sample_suback, n), [])).
Proof.
  apply (generated_code_roundtrip (packet_of "codec::PacketType::SubAck") SubAck_item SubAck_struct
    sample_suback dflt SubAck.fixed_header []).
  - by apply (packet_args_ok _ _ false).
  - apply SubAck_described.
  - reflexivity.
  - apply SubAck_declared.
  - split; [apply SubAck_fields_ok, sample_suback_ok | by vm_compute].
  - apply SubAck_decodable; [apply sample_suback_ok | reflexivity | split; by vm_compute].
  - by vm_compute.
Defined.

Lemma packets_generated_witness :
  generates (packet_of "codec::PacketType::ConnAck") ConnAck_item ConnAck_struct
    codec_size encode (Some decode).
Proof. apply (proj1 (packets_generated (SY := literal_syn) (SA := literal_syn_accepts))). Defined.
