(* ===== verification/MacroTests.v ===== *)
(** * vaux-macro: the tests of the macros *)
(** The unit tests of size.rs, encode.rs and decode.rs, which compare the tokens
    of a generator with expected tokens, and the tests of vaux-macro/tests, which
    derive implementations and run them.  A test is the proposition or the
    boolean it asserts.  The derived code runs on the values a test puts into the
    fields of its struct.  Left out: the tests with [i8] to [i32] values that are
    encoded, [u64], [Option<Vec<u8>>] and types of the test itself, which are not
    field types of a description. *)

From S2P Require Import Prelude Bytes Codec Fixed Property Macro MacroSyntax MacroExpand.
From S2P Require Import MacroMeaning PacketSyntax.

#[local] Open Scope string_scope.

(** ** size.rs *)

Definition test_size_for_string : Prop :=
  size_for_string "test_string"
  = [AddTo TotalSize (Lit 2); AddTo TotalSize (Len (SelfDot "test_string"))].

Definition test_size_for_option_string : Prop :=
  size_for_option_string "opt_string"
  = [IfSome "value" "opt_string"
       [AddTo TotalSize (Lit 2); AddTo TotalSize (Len (Name "value"))]].

Definition arguments_of (t : ty) : path_arguments :=
  match t with TypePath _ _ a => a | TypeOther => PathNone end.

Definition test_size_for_vec_u8 : Prop :=
  size_for_vec "data" (arguments_of (vec_of (named "u8"))) false false
  = Ok [IfNotEmpty (SelfDot "data")
          [AddTo TotalSize (Plus (Lit 2) (Len (SelfDot "data")))]].

Definition test_size_for_u8_primitive : Prop :=
  size_for_primitive (named "u8") = [AddTo TotalSize (Lit 1)].
Definition test_size_for_u16_primitive : Prop :=
  size_for_primitive (named "u16") = [AddTo TotalSize (Lit 2)].
Definition test_size_for_u32_primitive : Prop :=
  size_for_primitive (named "u32") = [AddTo TotalSize (Lit 4)].

Definition test_size_for_option_u16_primitive : Prop :=
  size_for_primitive_optional "opt_u16" "u16" = [IfSome "_" "opt_u16" [AddTo TotalSize (Lit 2)]].
Definition test_size_option_u32_primitive : Prop :=
  size_for_primitive_optional "opt_u32" "u32" = [IfSome "_" "opt_u32" [AddTo TotalSize (Lit 4)]].

Definition test_field_size_for_option_u16 : Prop :=
  field_size (declare_property "TestProperty::PropertyOne" "opt_value" (option_of (named "u16")))
  = Ok [IfSome "_" "opt_value" [AddTo PropSize (Plus (Lit 1) (Lit 2))]].

Definition test_size_with_path : Prop :=
  size_with_path "custom_field" (codec [key_value "size_with" "custom_size_function"]) false false
  = Ok [AddTo TotalSize (CallSize "custom_size_function" "custom_field")].

(** ** encode.rs *)

Definition test_encode_for_primitive : Prop :=
  encode_for_primitive "test_field" "u16" false (Some "TestProperty::PropertyOne")
  = [PutProperty "TestProperty::PropertyOne"; PutInt U16 (SelfDot "test_field")].

Definition test_encode_for_option_primitive : Prop :=
  encode_for_option "test_field" (arguments_of (option_of (named "u8")))
    (Some "TestProperty::PropertyTwo")
  = Ok [EncIfSome "v" "test_field"
          [PutProperty "TestProperty::PropertyTwo"; PutInt U8 (Name "v")]].

Definition test_encode_for_string : Prop :=
  encode_for_string "test_string" false (Some "TestProperty::PropertyThree")
  = [PutProperty "TestProperty::PropertyThree"; EncodeString (SelfDot "test_string")].

Definition test_encode_for_vec : Prop :=
  encode_for_vec "data" (arguments_of (vec_of (named "u8"))) false
    (Some "TestProperty::PropertyFour")
  = Ok [PutProperty "TestProperty::PropertyFour"; EncodeArray (SelfDot "data")].

Definition test_encode_simple_struct_vec : Prop :=
  encode_for_vec "data" (arguments_of (vec_of (named "ComplexType"))) false
    (Some "TestProperty::PropertyFive")
  = Ok [ForItem (SelfDot "data")
          [PutProperty "TestProperty::PropertyFive"; EncodeTrait (Name "item")]]
  /\ encode_for_vec "data" (arguments_of (vec_of (named "ComplexType"))) false None
     = Ok [ForItem (SelfDot "data") [EncodeTrait (Name "item")]].

Definition test_encode_with_attr : Prop :=
  encode_for_encode_with "custom_field" (codec [key_value "encode_with" "custom_encode_function"])
    false (Some "TestProperty::PropertySix")
  = Ok [PutProperty "TestProperty::PropertySix";
        CallEncode "custom_encode_function" "custom_field"].

(** ** decode.rs *)

Definition test_decode_with_non_optional : Prop :=
  decode_for_decode_with "custom_field" (codec [key_value "decode_with" "custom_decode_fn"]) None
  = Ok [CallDecode "custom_decode_fn" "custom_field" bytes_read].

Definition test_decode_with_optional : Prop :=
  decode_for_decode_with "opt_field" (codec [key_value "decode_with" "decode_opt_value"]) None
  = Ok [CallDecode "decode_opt_value" "opt_field" bytes_read].

Definition test_decode_with_property : Prop :=
  decode_for_decode_with "prop_field" (codec [key_value "decode_with" "decode_prop_value"])
    (Some "PropertyType::TestProp")
  = Ok [CallDecode "decode_prop_value" "prop_field" property_bytes_read].

Definition test_decode_for_string_non_optional : Prop :=
  decode_for_string "name" false None = [DecodeSelf "name" bytes_read].
Definition test_decode_for_string_optional : Prop :=
  decode_for_string "name" true None = [DecodeSome (named "String") "name" bytes_read].
Definition test_decode_for_string_property : Prop :=
  decode_for_string "reason_string" true (Some "PropertyType::ReasonString")
  = [DecodeSome (named "String") "reason_string" property_bytes_read].

Definition test_decode_for_primitive_u16 : Prop :=
  decode_for_primitive "packet_id" (named "u16") false None
  = [AssignGet "packet_id" false (GetInt U16) bytes_read 2].
Definition test_decode_for_primitive_optional_u32 : Prop :=
  decode_for_primitive "expiry" (named "u32") true None
  = [AssignGet "expiry" true (GetInt U32) bytes_read 4].
Definition test_decode_for_primitive_property : Prop :=
  decode_for_primitive "max_qos" (named "u8") true (Some "PropertyType::MaxQoS")
  = [AssignGet "max_qos" true (GetInt U8) property_bytes_read 1].

(** ** vaux-macro/tests *)

(** An instance of a test struct: its declaration and the values of its fields. *)
Definition test_struct (fs : list syn_field) : item_struct := ItemStruct [] "TestStruct" (Named fs).

Definition given {A} (t : fty A) (v : A) : Macro.field unit :=
  Field t (fun _ => v) (fun _ s => s) None None None None false.
Definition given_skip_if {A} (skip : A -> bool) (t : fty A) (v : A) : Macro.field unit :=
  Field t (fun _ => v) (fun _ s => s) None None (Some skip) None false.
Definition given_size_with {A} (size : A -> Z) (t : fty A) (v : A) : Macro.field unit :=
  Field t (fun _ => v) (fun _ s => s) None None None (Some size) false.
Definition instance (values : list (Macro.field unit)) : struct unit := Struct values None None None.

(** [test_instance.codec_size()], [.property_size()] and the bytes of
    [.encode(dest)]; [None] where the derived code does not compile or fails. *)
Definition codec_size_at (it : item_struct) (values : list (Macro.field unit)) : option Z :=
  match derive_all it with
  | Ok x => run_codec_size it (instance values) (x_codec_size x) (x_property_size x) tt
  | _ => None
  end.
Definition property_size_at (it : item_struct) (values : list (Macro.field unit)) : option Z :=
  match derive_all it with
  | Ok x => run_property_size it (instance values) (x_property_size x) tt
  | _ => None
  end.
Definition encoded_at (it : item_struct) (values : list (Macro.field unit)) : option (list Z) :=
  match derive_all it with
  | Ok x =>
      m ← run_encode it (instance values) x tt;
      match m [] with (Ok _, dest) => Some dest | _ => None end
  | _ => None
  end.

(** *** codecsize_macro_test.rs *)

Definition test_size_impl_for_string : Prop :=
  codec_size_at (test_struct [declare "test_string" (named "String")])
    [given (Scalar SString) (str "hello")] = Some 7%Z.

Definition test_size_impl_for_option_string : Prop :=
  let it := test_struct [declare "optional_string" (option_of (named "String"))] in
  codec_size_at it [given (Opt SString) (Some (str "world"))] = Some 7%Z
  /\ codec_size_at it [given (Opt SString) None] = Some 0%Z.

(** The sizes of the signed fields do not look at their values. *)
Definition test_size_impl_for_primitive_types : Prop :=
  codec_size_at
    (test_struct [ declare "_a" (named "u8"); declare "_b" (named "u16"); declare "_c" (named "u32");
                   declare "_d" (named "i8"); declare "_e" (named "i16"); declare "_f" (named "i32") ])
    [given (Scalar SU8) 1%Z; given (Scalar SU16) 2%Z; given (Scalar SU32) 3%Z]
  = Some (1 + 2 + 4 + 1 + 2 + 4)%Z.

Definition test_size_impl_for_option_primitive_types : Prop :=
  let it := test_struct
    [ declare "_a" (option_of (named "u8")); declare "_b" (option_of (named "u16"));
      declare "_c" (option_of (named "u32")) ] in
  codec_size_at it [given (Opt SU8) (Some 1%Z); given (Opt SU16) (Some 2%Z);
                    given (Opt SU32) (Some 3%Z)] = Some (1 + 2 + 4)%Z
  /\ codec_size_at it [given (Opt SU8) None; given (Opt SU16) None; given (Opt SU32) None]
     = Some 0%Z.

Definition mixed_fields : list syn_field :=
  [ declare "test_string" (named "String"); declare "optional_string" (option_of (named "String"));
    declare "optional_w_none" (option_of (named "String")); declare "_a" (named "u8");
    declare "_b" (option_of (named "u16")) ].
Definition mixed_values : list (Macro.field unit) :=
  [ given (Scalar SString) (str "hello"); given (Opt SString) (Some (str "world"));
    given (Opt SString) None; given (Scalar SU8) 1%Z; given (Opt SU16) (Some 2%Z) ].

Definition test_size_impl_struct : Prop :=
  codec_size_at (test_struct mixed_fields) mixed_values = Some (7 + 7 + 0 + 1 + 2)%Z.

Definition custom_size (value : Z) : Z := add_u32 value 10.

Definition test_size_impl_size_with : Prop :=
  codec_size_at
    (test_struct [declare_with [key_value "size_with" "custom_size"] "custom_sized_field"
                    (named "u32")])
    [given_size_with custom_size (Scalar SU32) 5%Z] = Some (custom_size 5).

Definition is_zero (s : Z) : bool := (s =? 0)%Z.

Definition test_skip_if_impl : Prop :=
  let it := test_struct
    [ declare_with [key_value "skip_if" "is_zero"] "field_one" (named "u32");
      declare "field_two" (named "u16") ] in
  codec_size_at it [given_skip_if is_zero (Scalar SU32) 0%Z; given (Scalar SU16) 42%Z] = Some 2%Z
  /\ codec_size_at it [given_skip_if is_zero (Scalar SU32) 10%Z; given (Scalar SU16) 42%Z]
     = Some (4 + 2)%Z.

Definition test_complex_struct_size : Prop :=
  codec_size_at
    (test_struct (mixed_fields
       ++ [declare_with [key_value "skip_if" "Vec::is_empty";
                         key_value "property_type" "PropertyType::TestProperty"]
             "test_vec" (vec_of (named "u8"))])%list)
    (mixed_values ++ [given_skip_if is_empty VecU8 [1; 2; 3]%Z])%list
  = Some (7 + 7 + 0 + 1 + 2 + 1 + (1 + 2 + 3))%Z.

(** *** propertysize_macro_tests.rs *)

Definition test_property_size_impl_for_disconnect : Prop :=
  property_size_at
    (test_struct [ declare_property "TestProperty::PropertyOne" "reason" (option_of (named "String"));
                   declare_property "TestProperty::PropertyTwo" "property_one"
                     (option_of (named "u16")) ])
    [given (Opt SString) (Some (str "Some reason")); given (Opt SU16) (Some 42%Z)] = Some 17%Z.

Definition test_vec_property_size_impl : Prop :=
  property_size_at
    (test_struct [declare_property "TestProperty::PropertyOne" "data" (vec_of (named "u8"))])
    [given VecU8 [1; 2; 3; 4; 5]%Z] = Some 8%Z.

(** The argument is written [skip_if(Vec::is_empty)], which is not a
    name-value pair: nothing is skipped by it, the generated code leaves out an
    empty vector on its own. *)
Definition test_property_size_skip_if : Prop :=
  let it := test_struct
    [SynField [codec [key_value "property_type" "TestProperty::PropertyOne"];
               codec [MetaList "skip_if"]] "data" (vec_of (named "u8"))] in
  property_size_at it [given VecU8 []] = Some 0%Z
  /\ property_size_at it [given VecU8 [1; 2; 3]%Z] = Some 6%Z.

(** *** encode_macro_test.rs *)

Definition test_primitive_encode_impl : Prop :=
  encoded_at (test_struct [ declare "_a" (named "u8"); declare "_b" (named "u16");
                            declare "_c" (named "u32") ])
    [given (Scalar SU8) 1%Z; given (Scalar SU16) 15000%Z; given (Scalar SU32) 150000%Z]
  = Some [1; 0x3A; 0x98; 0x00; 0x02; 0x49; 0xF0]%Z.

Definition test_string_encode_impl : Prop :=
  encoded_at (test_struct [declare "test_string" (named "String")])
    [given (Scalar SString) (str "hello")] = Some ([0x00; 0x05]%Z ++ str "hello")%list.

Definition test_option_string_encode_impl : Prop :=
  let it := test_struct [declare "optional_string" (option_of (named "String"))] in
  encoded_at it [given (Opt SString) (Some (str "world"))]
  = Some ([0x00; 0x05]%Z ++ str "world")%list
  /\ encoded_at it [given (Opt SString) None] = Some [].

Definition test_encode_skip_if_impl : Prop :=
  let it := test_struct
    [ declare_with [key_value "skip_if" "is_zero"] "optional_w_none" (named "u32");
      declare_with [key_value "skip_if" "String::is_empty"] "optional_string" (named "String") ] in
  codec_size_at it [given_skip_if is_zero (Scalar SU32) 5%Z;
                    given_skip_if is_empty (Scalar SString) (str "hello")] = Some (4 + 2 + 5)%Z
  /\ codec_size_at it [given_skip_if is_zero (Scalar SU32) 0%Z;
                       given_skip_if is_empty (Scalar SString) []] = Some 0%Z.

Definition test_property_skip_if_impl : Prop :=
  let property p skip name t :=
    SynField [codec [key_value "property_type" p]; codec [key_value "skip_if" skip]] name t in
  let it := test_struct
    [ property "TestProperty::PropertyOne" "is_zero" "optional_w_none" (named "u32");
      property "TestProperty::PropertyTwo" "String::is_empty" "optional_string" (named "String") ] in
  let none := [ given_skip_if is_zero (Scalar SU32) 0%Z;
                given_skip_if is_empty (Scalar SString) [] ] in
  let some := [ given_skip_if is_zero (Scalar SU32) 5%Z;
                given_skip_if is_empty (Scalar SString) (str "hello") ] in
  property_size_at it some = Some (1 + 4 + 1 + 2 + 5)%Z
  /\ property_size_at it none = Some 0%Z
  /\ codec_size_at it none = Some 1%Z
  /\ codec_size_at it some = Some (1 + 1 + 4 + 1 + 2 + 5)%Z.

(** ** The tests pass *)

(** The unit tests of the generators hold of the model. *)
Theorem generator_tests_pass :
  (test_size_for_string /\ test_size_for_option_string /\ test_size_for_vec_u8
   /\ test_size_for_u8_primitive /\ test_size_for_u16_primitive /\ test_size_for_u32_primitive
   /\ test_size_for_option_u16_primitive /\ test_size_option_u32_primitive
   /\ test_field_size_for_option_u16 /\ test_size_with_path)
  /\ (test_encode_for_primitive /\ test_encode_for_option_primitive /\ test_encode_for_string
      /\ test_encode_for_vec /\ test_encode_simple_struct_vec /\ test_encode_with_attr)
  /\ test_decode_with_non_optional /\ test_decode_with_optional /\ test_decode_with_property
  /\ test_decode_for_string_non_optional /\ test_decode_for_string_optional
  /\ test_decode_for_string_property /\ test_decode_for_primitive_u16
  /\ test_decode_for_primitive_optional_u32 /\ test_decode_for_primitive_property.
Proof. repeat split. Qed.

(** The tests that derive implementations and run them hold of the model. *)
Theorem derive_tests_pass :
  (test_size_impl_for_string /\ test_size_impl_for_option_string
   /\ test_size_impl_for_primitive_types /\ test_size_impl_for_option_primitive_types
   /\ test_size_impl_struct /\ test_size_impl_size_with /\ test_skip_if_impl
   /\ test_complex_struct_size)
  /\ (test_property_size_impl_for_disconnect /\ test_vec_property_size_impl
      /\ test_property_size_skip_if)
  /\ test_primitive_encode_impl /\ test_string_encode_impl /\ test_option_string_encode_impl
  /\ test_encode_skip_if_impl /\ test_property_skip_if_impl.
Proof. repeat split; vm_compute; reflexivity. Qed.
