(* ===== verification/Packet.v ===== *)
(** * Packets: the entry points of the codec *)
(** vaux-mqtt/src/codec/mod.rs: the [Packet] enumeration, [Encode for Packet]
    and [codec::decode], which reads the fixed header and the remaining length,
    cuts the buffer to the packet and dispatches on the packet type. *)

From S2P Require Import Prelude Bytes Codec Fixed Property Macro MacroFacts.
From S2P Require Import Subscriptions Acks Publish Connect.

Module Packet.
Inductive Packet :=
| PingRequest (p : PingReq)
| PingResponse (p : PingResp)
| Connect (p : Connect)
| ConnAck (p : ConnAck)
| Publish (p : Publish)
| PubAck (p : PubResp)
| PubComp (p : PubResp)
| PubRec (p : PubResp)
| PubRel (p : PubResp)
| Disconnect (p : Disconnect)
| Subscribe (p : Subscribe)
| SubAck (p : SubAck)
| Unsubscribe (p : Unsubscribe)
| UnsubAck (p : UnsubAck).
End Packet.
Abbreviation Packet := Packet.Packet.

#[export] Instance Packet_eq_dec : EqDecision Packet.
Proof. solve_decision. Defined.

(** [impl From<&Packet> for PacketType]. *)
Definition PacketType_of (p : Packet) : PacketType :=
  match p with
  | Packet.PingRequest _ => PacketType.PingReq
  | Packet.PingResponse _ => PacketType.PingResp
  | Packet.Connect _ => PacketType.Connect
  | Packet.ConnAck _ => PacketType.ConnAck
  | Packet.Publish _ => PacketType.Publish
  | Packet.PubAck _ => PacketType.PubAck
  | Packet.PubComp _ => PacketType.PubComp
  | Packet.PubRec _ => PacketType.PubRec
  | Packet.PubRel _ => PacketType.PubRel
  | Packet.Disconnect _ => PacketType.Disconnect
  | Packet.Subscribe _ => PacketType.Subscribe
  | Packet.SubAck _ => PacketType.SubAck
  | Packet.Unsubscribe _ => PacketType.Unsubscribe
  | Packet.UnsubAck _ => PacketType.UnsubAck
  end.

Section codec.
Context {B : Buf} {HI : HashIter}.

#[export] Instance Packet_encode : Encode Packet := fun p =>
  match p with
  | Packet.PingRequest p => encode p
  | Packet.PingResponse p => encode p
  | Packet.Connect p => encode p
  | Packet.ConnAck p => encode p
  | Packet.Publish p => encode p
  | Packet.PubAck p => encode p
  | Packet.PubComp p => encode p
  | Packet.PubRec p => encode p
  | Packet.PubRel p => encode p
  | Packet.Disconnect p => encode p
  | Packet.Subscribe p => encode p
  | Packet.SubAck p => encode p
  | Packet.Unsubscribe p => encode p
  | Packet.UnsubAck p => encode p
  end.

(** [for idx in 0..=3]: the length bytes must be there before they are read. *)
Fixpoint length_bytes_present (idxs : list Z) : Codec unit :=
  match idxs with
  | [] => mret tt
  | idx :: idxs =>
      n ← remaining;
      if n <=? idx then raise (new_with_kind (InsufficientData (idx + 1) n))
      else
        byte ← gets (fun b => buf_index b idx);
        match byte with
        | None => panic
        | Some byte => if Z.land byte 0x80 =? 0 then mret tt else length_bytes_present idxs
        end
  end.

(** The [match] on the packet type; [uuid] is what [Connect::new] draws before
    the client identifier is read over it. *)
Definition decode_packet (uuid : rstring) (fixed_header : FixedHeader) (decode_len : Z)
    : Codec (option (Packet * Z)) :=
  match packet_type fixed_header with
  | PacketType.PingReq => mret (Some (Packet.PingRequest dflt, decode_len))
  | PacketType.PingResp => mret (Some (Packet.PingResponse dflt, decode_len))
  | PacketType.Connect =>
      '(p, n) ← Connect_decode (Connect_new uuid); mret (Some (Packet.Connect p, decode_len + n))
  | PacketType.Publish =>
      publish ← lift (new_from_header fixed_header);
      '(p, n) ← Publish_decode publish; mret (Some (Packet.Publish p, decode_len + n))
  | PacketType.PubAck =>
      '(p, n) ← PubResp_decode dflt; mret (Some (Packet.PubAck p, decode_len + n))
  | PacketType.PubComp =>
      '(p, n) ← PubResp_decode dflt; mret (Some (Packet.PubComp p, decode_len + n))
  | PacketType.PubRec =>
      '(p, n) ← PubResp_decode dflt; mret (Some (Packet.PubRec p, decode_len + n))
  | PacketType.PubRel =>
      '(p, n) ← PubResp_decode dflt; mret (Some (Packet.PubRel p, decode_len + n))
  | PacketType.Disconnect =>
      '(p, n) ← Disconnect_decode dflt; mret (Some (Packet.Disconnect p, decode_len + n))
  | PacketType.ConnAck =>
      '(p, n) ← ConnAck_decode dflt; mret (Some (Packet.ConnAck p, decode_len + n))
  | PacketType.Subscribe =>
      '(p, n) ← Subscribe_decode dflt; mret (Some (Packet.Subscribe p, decode_len + n))
  | PacketType.SubAck =>
      '(p, n) ← SubAck_decode dflt; mret (Some (Packet.SubAck p, decode_len + n))
  | PacketType.Unsubscribe =>
      '(p, n) ← Unsubscribe_decode dflt; mret (Some (Packet.Unsubscribe p, decode_len + n))
  | PacketType.UnsubAck =>
      '(p, n) ← UnsubAck_decode dflt; mret (Some (Packet.UnsubAck p, decode_len + n))
  | PacketType.Auth => raise MqttCodecError_new
  end.

(** [codec::decode]. *)
Definition codec_decode (uuid : rstring) : Codec (option (Packet * Z)) :=
  '(fixed_header, decode_len) ← FixedHeader_decode dflt;
  length_bytes_present [0; 1; 2; 3] ≫= fun _ =>
  '(packet_remaining, bytes_read) ← decode_variable_byte_int;
  rem ← remaining;
  if rem <? packet_remaining then
    raise (new_with_kind (InsufficientData packet_remaining rem))
  else
    let decode_len := decode_len + bytes_read in
    val ← remaining;
    (if val <? packet_remaining then
       raise (new_with_kind (InsufficientData packet_remaining val))
     else if packet_remaining <? val then
       total ← remaining;
       let index := total - (total - packet_remaining) in
       split_off index ≫= fun _ => mret tt
     else mret tt) ≫= fun _ =>
    decode_packet uuid fixed_header decode_len.

(** ** Termination *)

Lemma tame_length_bytes idxs : tame (length_bytes_present idxs).
Proof.
  induction idxs as [|i idxs IH]; simpl; [auto with codec |].
  apply tame_bind; [auto with codec |]. intros n. destruct (n <=? i); [auto with codec |].
  apply tame_bind; [apply tame_gets |]. intros [b|].
  - destruct (_ =? 0); auto with codec.
  - intros b r b' Hb [= <- <-]. done.
Qed.

Lemma tame_decode_packet uuid h n : tame (decode_packet uuid h n).
Proof.
  unfold decode_packet. destruct (packet_type h) eqn:E; auto with codec;
    try (apply tame_bind; [solve [auto with codec] | intros []; auto with codec]).
  unfold new_from_header. rewrite E. apply tame_bind; [by apply tame_lift |]. intros p.
  apply tame_bind; [auto with codec | intros []; auto with codec].
Qed.

(** Cutting the buffer to the packet. *)
Lemma cut_buffer L b {A} (k : unit -> Codec A) :
  0 <= L -> L <= len b ->
  (val ← remaining;
   (if val <? L then raise (new_with_kind (InsufficientData L val))
    else if L <? val then
      total ← remaining;
      let index := total - (total - L) in
      split_off index ≫= fun _ => mret tt
    else mret tt) ≫= k) b
  = k tt (take (Z.to_nat L) b).
Proof.
  intros H0 Hl. rewrite bind_remaining, (proj2 (Z.ltb_ge _ _)) by lia.
  destruct (Z.ltb_spec L (len b)) as [Hlt|Hge].
  - destruct (split_len L b) as (c & d & -> & ->); [lia |].
    rewrite Nat2Z.id, take_app_length. unfold mbind at 1, M_bind at 1. rewrite bind_remaining.
    cbv zeta. replace (len (c ++ d) - (len (c ++ d) - len c)) with (len c) by lia.
    unfold split_off, of_partial, mbind, M_bind. by rewrite split_off_app.
  - rewrite take_ge by lia. done.
Qed.

Lemma tame_codec_decode uuid : tame (codec_decode uuid).
Proof.
  apply tame_bind; [auto with codec |]. intros [h n].
  apply tame_bind; [apply tame_length_bytes |]. intros _ b r b' Hb H.
  unfold mbind at 1, M_bind at 1 in H.
  destruct (decode_variable_byte_int b) as [r1 b1] eqn:E1.
  pose proof (tame_decode_vbi _ _ _ Hb E1) as (N1 & B1 & L1).
  destruct r1 as [[L k]|e| |]; simplify_eq; auto.
  rewrite bind_remaining in H. destruct (Z.ltb_spec (len b1) L) as [|Hl].
  { injection H as <- <-. split_and!; done. }
  apply decode_vbi_nonneg in E1. rewrite cut_buffer in H by done.
  apply tame_decode_packet in H as (? & ? & H3); [| by apply Forall_take].
  rewrite length_take in H3. split_and!; [done | done | lia].
Qed.

(** ** Framing *)

(** One step of the scan of the length bytes. *)
Lemma length_bytes_step i idxs x b :
  0 <= i -> b !! Z.to_nat i = Some x ->
  length_bytes_present (i :: idxs) b
  = if Z.land x 0x80 =? 0 then (Ok tt, b) else length_bytes_present idxs b.
Proof.
  intros Hi Hx. simpl. rewrite bind_remaining.
  assert (i < len b) by (apply lookup_lt_Some in Hx; lia).
  rewrite (proj2 (Z.leb_gt _ _)) by lia.
  unfold gets, mbind, M_bind. rewrite index_lookup, Hx by done. by destruct (_ =? 0).
Qed.

Lemma length_bytes_missing i idxs b :
  len b <= i ->
  length_bytes_present (i :: idxs) b = (Err (new_with_kind (InsufficientData (i + 1) (len b))), b).
Proof. intros Hi. simpl. rewrite bind_remaining. by rewrite (proj2 (Z.leb_le _ _)) by lia. Qed.

Lemma last_length_byte x : 0 <= x < 128 -> (Z.land x 0x80 =? 0) = true.
Proof. intros. by rewrite land_128_small. Qed.
Lemma more_length_byte x : 0 <= x < 128 -> (Z.land (x + 128) 0x80 =? 0) = false.
Proof. intros. by rewrite land_128_big by lia. Qed.

(** The complete length of a packet of up to three length bytes passes the scan. *)
Lemma length_bytes_vbi L t :
  0 <= L <= 2097151 ->
  length_bytes_present [0; 1; 2; 3] (vbi L ++ t) = (Ok tt, vbi L ++ t).
Proof.
  intros HL. unfold vbi. pose proof (Z.mod_pos_bound L 128).
  pose proof (Z.mod_pos_bound (L / 128) 128).
  assert (L / 128 / 128 = L / 16384) by (rewrite Z.div_div by lia; done).
  pose proof (Z.div_mod L 128). pose proof (Z.div_mod (L / 128) 128).
  case_leb; try lia;
    repeat first
      [ erewrite length_bytes_step by (lia || reflexivity); rewrite more_length_byte by lia
      | erewrite length_bytes_step by (lia || reflexivity); rewrite last_length_byte by lia ];
    done.
Qed.

(** A complete packet reaches the dispatch with exactly its body; what follows
    it in the buffer is dropped. *)
Lemma codec_decode_framed uuid h body t :
  header_ok h -> len body <= 2097151 ->
  codec_decode uuid (packet_bytes h body ++ t)
  = decode_packet uuid h (1 + variable_byte_int_size (len body)) body.
Proof.
  intros Hh Hl. unfold codec_decode, packet_bytes. rewrite <- !app_assoc.
  destruct (vbi (len body)) as [|x v] eqn:Ev; [by apply vbi_nonempty in Ev |].
  cbn [app]. rewrite (bind_ok _ _ _ _ _ (decode_header dflt h x (v ++ body ++ t) Hh)).
  rewrite app_comm_cons, <- Ev.
  rewrite (bind_ok _ _ _ _ _ (length_bytes_vbi (len body) _ ltac:(lia))).
  rewrite (bind_ok _ _ _ _ _ (reads_vbi (len body) ltac:(lia) _)).
  rewrite bind_remaining, (proj2 (Z.ltb_ge _ _)) by (rewrite len_app; lia). cbv zeta.
  rewrite cut_buffer by (rewrite ?len_app; lia). by rewrite Nat2Z.id, take_app_length.
Qed.

(** ** The wire form of a packet *)

Definition packet_header (p : Packet) : FixedHeader :=
  match p with
  | Packet.PingRequest p => PingReq.fixed_header p
  | Packet.PingResponse p => PingResp.fixed_header p
  | Packet.Connect p => Connect.fixed_header p
  | Packet.ConnAck p => ConnAck.fixed_header p
  | Packet.Publish p => Publish.fixed_header p
  | Packet.PubAck p => PubResp.fixed_header p
  | Packet.PubComp p => PubResp.fixed_header p
  | Packet.PubRec p => PubResp.fixed_header p
  | Packet.PubRel p => PubResp.fixed_header p
  | Packet.Disconnect p => Disconnect.fixed_header p
  | Packet.Subscribe p => Subscribe.fixed_header p
  | Packet.SubAck p => SubAck.fixed_header p
  | Packet.Unsubscribe p => Unsubscribe.fixed_header p
  | Packet.UnsubAck p => UnsubAck.fixed_header p
  end.

(** The body, the property section of it, and how many bytes the decoder counts
    beyond it. *)
Definition packet_body (p : Packet) : list Z :=
  match p with
  | Packet.PingRequest p => body_bytes PingReq_struct p
  | Packet.PingResponse p => body_bytes PingResp_struct p
  | Packet.Connect p => body_bytes Connect_struct p
  | Packet.ConnAck p => body_bytes ConnAck_struct p
  | Packet.Publish p => body_bytes Publish_struct p
  | Packet.PubAck p => body_bytes PubResp_struct p
  | Packet.PubComp p => body_bytes PubResp_struct p
  | Packet.PubRec p => body_bytes PubResp_struct p
  | Packet.PubRel p => body_bytes PubResp_struct p
  | Packet.Disconnect p => body_bytes Disconnect_struct p
  | Packet.Subscribe p => body_bytes Subscribe_struct p
  | Packet.SubAck p => body_bytes SubAck_struct p
  | Packet.Unsubscribe p => body_bytes Unsubscribe_struct p
  | Packet.UnsubAck p => body_bytes UnsubAck_struct p
  end.

Definition packet_properties (p : Packet) : list Z :=
  match p with
  | Packet.PingRequest p => property_bytes (s_fields PingReq_struct) p
  | Packet.PingResponse p => property_bytes (s_fields PingResp_struct) p
  | Packet.Connect p => property_bytes (s_fields Connect_struct) p
  | Packet.ConnAck p => property_bytes (s_fields ConnAck_struct) p
  | Packet.Publish p => property_bytes (s_fields Publish_struct) p
  | Packet.PubAck p => property_bytes (s_fields PubResp_struct) p
  | Packet.PubComp p => property_bytes (s_fields PubResp_struct) p
  | Packet.PubRec p => property_bytes (s_fields PubResp_struct) p
  | Packet.PubRel p => property_bytes (s_fields PubResp_struct) p
  | Packet.Disconnect p => property_bytes (s_fields Disconnect_struct) p
  | Packet.Subscribe p => property_bytes (s_fields Subscribe_struct) p
  | Packet.SubAck p => property_bytes (s_fields SubAck_struct) p
  | Packet.Unsubscribe p => property_bytes (s_fields Unsubscribe_struct) p
  | Packet.UnsubAck p => property_bytes (s_fields UnsubAck_struct) p
  end.

Definition packet_excess (p : Packet) : Z :=
  match p with
  | Packet.PingRequest p => excess PingReq_struct p
  | Packet.PingResponse p => excess PingResp_struct p
  | Packet.Connect p => excess Connect_struct p
  | Packet.ConnAck p => excess ConnAck_struct p
  | Packet.Publish p => excess Publish_struct p
  | Packet.PubAck p => excess PubResp_struct p
  | Packet.PubComp p => excess PubResp_struct p
  | Packet.PubRec p => excess PubResp_struct p
  | Packet.PubRel p => excess PubResp_struct p
  | Packet.Disconnect p => excess Disconnect_struct p
  | Packet.Subscribe p => excess Subscribe_struct p
  | Packet.SubAck p => excess SubAck_struct p
  | Packet.Unsubscribe p => excess Unsubscribe_struct p
  | Packet.UnsubAck p => excess UnsubAck_struct p
  end.

(** The values of the Rust types that fit the wire format. *)
Definition fields_fit (p : Packet) : Prop :=
  match p with
  | Packet.PingRequest p => True
  | Packet.PingResponse p => True
  | Packet.Connect p => Connect_ok p
  | Packet.ConnAck p => ConnAck_ok p
  | Packet.Publish p => Publish_ok p
  | Packet.PubAck p => PubResp_ok p
  | Packet.PubComp p => PubResp_ok p
  | Packet.PubRec p => PubResp_ok p
  | Packet.PubRel p => PubResp_ok p
  | Packet.Disconnect p => Disconnect_ok p
  | Packet.Subscribe p => Subscribe_ok p
  | Packet.SubAck p => SubAck_ok p
  | Packet.Unsubscribe p => Unsubscribe_ok p
  | Packet.UnsubAck p => UnsubAck_ok p
  end.

Definition packet_ok (p : Packet) : Prop :=
  fields_fit p /\ len (packet_properties p) <= MAX_VARIABLE_BYTE_INT
  /\ len (packet_body p) <= MAX_VARIABLE_BYTE_INT.

(** *** Encoding *)

Lemma encode_packet_bytes p :
  packet_ok p -> writes (encode p) (packet_bytes (packet_header p) (packet_body p)).
Proof.
  intros (Hf & Hp & Hb).
  destruct p.
  - refine (writes_packet PingReq_struct p _ eq_refl eq_refl (conj _ Hp) Hb). constructor.
  - refine (writes_packet PingResp_struct p _ eq_refl eq_refl (conj _ Hp) Hb). constructor.
  - refine (writes_packet Connect_struct p _ eq_refl eq_refl (conj _ Hp) Hb). by apply Connect_fields_ok.
  - refine (writes_packet ConnAck_struct p _ eq_refl eq_refl (conj _ Hp) Hb). by apply ConnAck_fields_ok.
  - refine (writes_packet Publish_struct p _ eq_refl eq_refl (conj _ Hp) Hb). by apply Publish_fields_ok.
  - refine (writes_packet PubResp_struct p _ eq_refl eq_refl (conj _ Hp) Hb). by apply PubResp_fields_ok.
  - refine (writes_packet PubResp_struct p _ eq_refl eq_refl (conj _ Hp) Hb). by apply PubResp_fields_ok.
  - refine (writes_packet PubResp_struct p _ eq_refl eq_refl (conj _ Hp) Hb). by apply PubResp_fields_ok.
  - refine (writes_packet PubResp_struct p _ eq_refl eq_refl (conj _ Hp) Hb). by apply PubResp_fields_ok.
  - refine (writes_packet Disconnect_struct p _ eq_refl eq_refl (conj _ Hp) Hb). by apply Disconnect_fields_ok.
  - refine (writes_packet Subscribe_struct p _ eq_refl eq_refl (conj _ Hp) Hb). by apply Subscribe_fields_ok.
  - refine (writes_packet SubAck_struct p _ eq_refl eq_refl (conj _ Hp) Hb). by apply SubAck_fields_ok.
  - refine (writes_packet Unsubscribe_struct p _ eq_refl eq_refl (conj _ Hp) Hb). by apply Unsubscribe_fields_ok.
  - refine (writes_packet UnsubAck_struct p _ eq_refl eq_refl (conj _ Hp) Hb). by apply UnsubAck_fields_ok.
Qed.

(** *** Decoding *)

(** What a receiver sees: the fixed header of a publish response is lost, the
    decoder starts from the derived default. *)
Definition received (p : Packet) : Packet :=
  match p with
  | Packet.PubAck r => Packet.PubAck (r <| PubResp.fixed_header := dflt |>)
  | Packet.PubComp r => Packet.PubComp (r <| PubResp.fixed_header := dflt |>)
  | Packet.PubRec r => Packet.PubRec (r <| PubResp.fixed_header := dflt |>)
  | Packet.PubRel r => Packet.PubRel (r <| PubResp.fixed_header := dflt |>)
  | p => p
  end.

(** The packets the decoder reads back: the header is the one their type
    requires, flags and identifiers agree with the fields that are present, and
    the properties stay within what the property loop handles. *)
Definition packet_exact (p : Packet) : Prop :=
  match p with
  | Packet.PingRequest r => r = dflt
  | Packet.PingResponse r => r = dflt
  | Packet.Connect c =>
      opt_ok WillHeader_exact (Connect.will_properties c) /\ connect_coherent c
      /\ Connect.fixed_header c = FixedHeader_new PacketType.Connect
      /\ properties_fit Connect_struct c
  | Packet.ConnAck c =>
      ConnAck.auth_data c = [] /\ ConnAck.fixed_header c = FixedHeader_new PacketType.ConnAck
      /\ properties_fit ConnAck_struct c
  | Packet.Publish r =>
      opt_ok decodable_id (Publish.subscription_identifiers r) /\ publish_coherent r
      /\ is_Some (Publish.payload r) /\ packet_type (Publish.fixed_header r) = PacketType.Publish
      /\ 0 <= flags (Publish.fixed_header r) < 16 /\ properties_fit Publish_struct r
  | Packet.PubAck r =>
      PubResp.fixed_header r = FixedHeader_new PacketType.PubAck /\ response_reason r
      /\ properties_fit PubResp_struct r
  | Packet.PubComp r =>
      PubResp.fixed_header r = FixedHeader_new PacketType.PubComp /\ response_reason r
      /\ properties_fit PubResp_struct r
  | Packet.PubRec r =>
      PubResp.fixed_header r = FixedHeader_new PacketType.PubRec /\ response_reason r
      /\ properties_fit PubResp_struct r
  | Packet.PubRel r =>
      PubResp.fixed_header r = FixedHeader_new PacketType.PubRel /\ response_reason r
      /\ properties_fit PubResp_struct r
  | Packet.Disconnect r =>
      Disconnect.fixed_header r = FixedHeader_new PacketType.Disconnect
      /\ properties_fit Disconnect_struct r
  | Packet.Subscribe r =>
      opt_ok decodable_id (Subscribe.subscription_id r)
      /\ Subscribe.fixed_header r = FixedHeader_new PacketType.Subscribe
      /\ properties_fit Subscribe_struct r
  | Packet.SubAck r =>
      SubAck.fixed_header r = FixedHeader_new PacketType.SubAck /\ properties_fit SubAck_struct r
  | Packet.Unsubscribe r =>
      Unsubscribe.fixed_header r = FixedHeader_new PacketType.Unsubscribe
      /\ properties_fit Unsubscribe_struct r
  | Packet.UnsubAck r =>
      UnsubAck.fixed_header r = FixedHeader_new PacketType.UnsubAck
      /\ properties_fit UnsubAck_struct r
  end.

Lemma packet_header_ok p :
  packet_exact p ->
  header_ok (packet_header p) /\ packet_type (packet_header p) = PacketType_of p.
Proof.
  destruct p; cbn [packet_exact packet_header PacketType_of]; intros H; deex; subst;
    try (split; [apply header_new_ok | done]);
    try match goal with H : _ = FixedHeader_new _ |- _ => rewrite H; split; [apply header_new_ok | done] end.
  split; [| done]. split; [done |]. by match goal with H : packet_type _ = _ |- _ => rewrite H end.
Qed.

(** A response is read into the default header. *)
Lemma response_roundtrip (r : PubResp) :
  PubResp_ok r -> response_reason r -> properties_fit PubResp_struct r ->
  PubResp_decode dflt (body_bytes PubResp_struct r)
  = (Ok (r <| PubResp.fixed_header := dflt |>,
        len (body_bytes PubResp_struct r) + excess PubResp_struct r), []).
Proof.
  intros Hok Hr Hfit. destruct r as [h pid rs rd up].
  exact (decode_body PubResp_struct (PubResp.mk FixedHeader_default pid rs rd up) dflt PubResp_declared
    (PubResp_decodable (PubResp.mk FixedHeader_default pid rs rd up) Hok Hr eq_refl Hfit)).
Qed.

Lemma decode_packet_body uuid p n :
  fields_fit p -> packet_exact p ->
  decode_packet uuid (packet_header p) n (packet_body p)
  = (Ok (Some (received p, n + (len (packet_body p) + packet_excess p))), []).
Proof.
  intros Hf He. destruct (packet_header_ok p He) as [_ Ht]. unfold decode_packet. rewrite Ht.
  destruct p; cbn [PacketType_of packet_body packet_excess received fields_fit packet_exact] in *; deex.
  - subst. unfold mret, M_ret. do 4 f_equal. change (n = n + 0). lia.
  - subst. unfold mret, M_ret. do 4 f_equal. change (n = n + 0). lia.
  - erewrite bind_ok by by apply Connect_roundtrip. done.
  - erewrite bind_ok by by apply decode_body; [apply ConnAck_declared | apply ConnAck_decodable]. done.
  - rewrite (bind_lift_ok _ _ (dflt <| Publish.fixed_header := Publish.fixed_header p |>))
      by (unfold new_from_header; cbn [packet_header] in *; by rewrite Ht).
    erewrite bind_ok by by apply Publish_roundtrip. done.
  - erewrite bind_ok by by apply response_roundtrip. done.
  - erewrite bind_ok by by apply response_roundtrip. done.
  - erewrite bind_ok by by apply response_roundtrip. done.
  - erewrite bind_ok by by apply response_roundtrip. done.
  - erewrite bind_ok by by apply decode_body; [apply Disconnect_declared | apply Disconnect_decodable]. done.
  - erewrite bind_ok by by apply decode_body; [apply Subscribe_declared | apply Subscribe_decodable]. done.
  - erewrite bind_ok by by apply decode_body; [apply SubAck_declared | apply SubAck_decodable]. done.
  - erewrite bind_ok by by apply decode_body; [apply Unsubscribe_declared | apply Unsubscribe_decodable]. done.
  - erewrite bind_ok by by apply decode_body; [apply UnsubAck_declared | apply UnsubAck_decodable]. done.
Qed.

(** ** Truncated input *)

Definition insufficient (r : outcome MqttCodecError (option (Packet * Z)) * BytesMut) : Prop :=
  exists expected actual b, r = (Err (new_with_kind (InsufficientData expected actual)), b).

(** The scan fails on a proper prefix of the length bytes. *)
Lemma length_bytes_prefix L c x d :
  0 <= L <= 2097151 -> vbi L = c ++ x :: d ->
  exists e a, length_bytes_present [0; 1; 2; 3] c = (Err (new_with_kind (InsufficientData e a)), c).
Proof.
  intros HL. unfold vbi. pose proof (Z.mod_pos_bound L 128).
  pose proof (Z.mod_pos_bound (L / 128) 128).
  case_leb; try lia; destruct c as [|c0 [|c1 [|c2 c]]]; intros [=]; subst;
    try (by rewrite length_bytes_missing by (simpl; lia); eauto);
    try (by destruct c); do 2 eexists;
    repeat (erewrite length_bytes_step by (lia || reflexivity); rewrite more_length_byte by lia);
    rewrite length_bytes_missing by (simpl; lia); reflexivity.
Qed.

Lemma decode_short_body uuid h L b :
  header_ok h -> 0 <= L <= 2097151 -> len b < L ->
  insufficient (codec_decode uuid (header_byte h :: vbi L ++ b)).
Proof.
  intros Hh HL Hb. unfold codec_decode.
  destruct (vbi L) as [|x v] eqn:Ev; [by apply vbi_nonempty in Ev |]. cbn [app].
  rewrite (bind_ok _ _ _ _ _ (decode_header dflt h x (v ++ b) Hh)).
  rewrite app_comm_cons, <- Ev.
  rewrite (bind_ok _ _ _ _ _ (length_bytes_vbi L _ HL)).
  rewrite (bind_ok _ _ _ _ _ (reads_vbi L HL _)).
  rewrite bind_remaining, (proj2 (Z.ltb_lt _ _)) by lia. by repeat eexists.
Qed.

Lemma decode_short_length uuid h L c x d :
  header_ok h -> 0 <= L <= 2097151 -> vbi L = c ++ x :: d ->
  insufficient (codec_decode uuid (header_byte h :: c)).
Proof.
  intros Hh HL Hc. unfold codec_decode, insufficient.
  destruct c as [|y c].
  { unfold FixedHeader_decode, mbind at 1, M_bind at 1. rewrite bind_remaining. simpl.
    by repeat eexists. }
  rewrite (bind_ok _ _ _ _ _ (decode_header dflt h y c Hh)).
  destruct (length_bytes_prefix L (y :: c) x d HL Hc) as (e & a & He).
  unfold mbind at 1, M_bind at 1. rewrite He. by repeat eexists.
Qed.

Lemma decode_truncated uuid h body c x d :
  header_ok h -> len body <= 2097151 -> packet_bytes h body = c ++ x :: d ->
  insufficient (codec_decode uuid c).
Proof.
  intros Hh Hl Hc. unfold packet_bytes in Hc. destruct c as [|z c]; simpl in Hc.
  { unfold codec_decode, insufficient, FixedHeader_decode, mbind at 1, M_bind at 1.
    rewrite bind_remaining. simpl. by repeat eexists. }
  injection Hc as <- Hc. apply app_eq_inv in Hc as [([|y k] & Hk & Hd)|(k & -> & Hb)].
  - rewrite app_nil_r in Hk. rewrite <- Hk, <- (app_nil_r (vbi (len body))).
    apply decode_short_body; [done | lia |]. simpl in Hd. rewrite <- Hd. simpl. lia.
  - eapply decode_short_length; [done | | exact Hk]. lia.
  - apply decode_short_body; [done | lia |]. rewrite Hb, len_app. simpl. lia.
Qed.
End codec.

(** ** The contract of the codec *)

Section contract.
Context {B : Buf} {HI : HashIter}.

Lemma packet_decodes (uuid t d : list Z) (p : Packet) :
  packet_ok p -> packet_exact p -> len (packet_body p) <= 2097151 ->
  exists bs,
    encode p d = (Ok tt, d ++ bs)
    /\ codec_decode uuid (bs ++ t) = (Ok (Some (received p, len bs + packet_excess p)), []).
Proof.
  intros Hok He Hl. exists (packet_bytes (packet_header p) (packet_body p)).
  split; [by apply encode_packet_bytes |].
  destruct (packet_header_ok p He) as [Hh _]. rewrite codec_decode_framed by done.
  rewrite decode_packet_body; [| apply Hok | done].
  unfold packet_bytes. rewrite !len_app, len_vbi by (unfold MAX_VARIABLE_BYTE_INT; lia).
  do 4 f_equal. simpl (len [_]). lia.
Qed.

(** C1: round trip.  For every packet that fits the wire format ([packet_ok]), has
    no field the decoder misreads ([packet_exact]: among others no authentication
    data in a CONNACK, see [connack_auth_data_panics], and no user properties whose
    over-counted bytes end the property section early, see
    [user_property_leaks_into_payload]) and whose body has at most 2097151 bytes:
    whatever the bytes that follow in the buffer, decoding what was encoded returns
    the packet as its peer sees it ([received]: a publish response has the default
    fixed header, every other packet is unchanged), and counts as many bytes as
    were written plus four for each user property. *)
Theorem packet_roundtrip (uuid t d : list Z) (p : Packet) :
  packet_ok p -> packet_exact p -> len (packet_body p) <= 2097151 ->
  exists bs,
    encode p d = (Ok tt, d ++ bs)
    /\ codec_decode uuid (bs ++ t) = (Ok (Some (received p, len bs + packet_excess p)), []).
Proof. apply packet_decodes. Qed.

(** Framing.  An encoder appends the header byte, the length of the body as
    a variable byte integer and the body, and touches nothing that was in the
    buffer; the announced length is the length of the body, up to the largest
    value the format allows. *)
Theorem encode_framing (p : Packet) (d : list Z) :
  packet_ok p ->
  encode p d
  = (Ok tt, d ++ [header_byte (packet_header p)] ++ vbi (len (packet_body p)) ++ packet_body p).
Proof. intros Hok. apply (encode_packet_bytes p Hok d). Qed.

(** C27: incremental decoding.  Every proper prefix of an encoded packet is
    reported as [InsufficientData], never as a malformed packet and never as a
    packet: a reader may wait for more bytes and try again. *)
Theorem truncated_packet_is_insufficient (uuid : list Z) (p : Packet) (c d : list Z) (x : Z) :
  packet_ok p -> packet_exact p -> len (packet_body p) <= 2097151 ->
  encode p [] = (Ok tt, c ++ x :: d) ->
  exists expected actual b,
    codec_decode uuid c = (Err (CodecError (InsufficientData expected actual)), b).
Proof.
  intros Hok He Hl H. rewrite (encode_packet_bytes p Hok []) in H. injection H as H.
  destruct (packet_header_ok p He) as [Hh _].
  apply (decode_truncated uuid (packet_header p) (packet_body p) c x d Hh Hl H).
Qed.

(** C28: totality.  On every buffer of bytes the decoder returns (a packet, an
    error or a panic, but no endless loop), and leaves a buffer of bytes that is
    not longer than the one it was given. *)
Theorem decode_terminates (uuid b : list Z) :
  Forall is_u8 b ->
  (codec_decode uuid b).1 <> OutOfFuel
  /\ Forall is_u8 (codec_decode uuid b).2
  /\ (length (codec_decode uuid b).2 <= length b)%nat.
Proof.
  intros Hb. destruct (codec_decode uuid b) as [r b'] eqn:E.
  apply (tame_codec_decode uuid b r b' Hb E).
Qed.
End contract.

(** *** Sample packets *)

Lemma props_ok_empty {HI : HashIter} : props_ok ∅.
Proof. split; [rewrite pairs_empty; constructor | apply map_Forall_empty]. Qed.

(** PUBLISH on topic [a/b], QoS 1, packet identifier 7, with correlation data. *)
Definition sample_publish : Publish :=
  Publish.mk (mkFixedHeader PacketType.Publish 2) (str "a/b") (Some 7) (Some 60) None None None
    [1; 2] None None ∅ (Some (str "hi")).

Lemma sample_publish_ok : packet_ok (Packet.Publish sample_publish).
Proof.
  split; [| by vm_compute].
  repeat first [apply props_ok_empty | split]; simpl; unfold u16_max, is_u16, is_u32; try lia; done.
Qed.

Lemma sample_publish_exact : packet_exact (Packet.Publish sample_publish).
Proof.
  split_and!; try done. by exists QoSLevel.AtLeastOnce.
Qed.

Lemma packet_roundtrip_witness :
  exists bs, encode (Packet.Publish sample_publish) [] = (Ok tt, [] ++ bs)
  /\ codec_decode [] (bs ++ [0x40; 0])
     = (Ok (Some (Packet.Publish sample_publish, len bs + 0)), []).
Proof.
  exact (packet_roundtrip [] [0x40; 0] [] (Packet.Publish sample_publish) sample_publish_ok
    sample_publish_exact ltac:(vm_compute; discriminate)).
Defined.

Lemma encode_framing_witness :
  encode (Packet.Publish sample_publish) [9]
  = (Ok tt, [9; 0x32; 20; 0; 3; 97; 47; 98; 0; 7; 10; 2; 0; 0; 0; 60; 9; 0; 2; 1; 2; 104; 105]).
Proof. exact (encode_framing (Packet.Publish sample_publish) [9] sample_publish_ok). Defined.

Lemma truncated_packet_witness :
  exists expected actual b,
    codec_decode [] [0x32; 20; 0; 3; 97] = (Err (CodecError (InsufficientData expected actual)), b).
Proof.
  apply (truncated_packet_is_insufficient [] (Packet.Publish sample_publish) [0x32; 20; 0; 3; 97]
    [98; 0; 7; 10; 2; 0; 0; 0; 60; 9; 0; 2; 1; 2; 104; 105] 47).
  - exact sample_publish_ok.
  - exact sample_publish_exact.
  - vm_compute. discriminate.
  - reflexivity.
Defined.

Lemma decode_terminates_witness :
  (codec_decode [] [0x30; 3; 0]).1 <> OutOfFuel
  /\ Forall is_u8 (codec_decode [] [0x30; 3; 0]).2
  /\ (length (codec_decode [] [0x30; 3; 0]%Z).2 <= 3)%nat.
Proof.
  apply (decode_terminates [] [0x30; 3; 0]). repeat constructor; unfold is_u8; lia.
Defined.

(** ** Where the codec departs from the format *)

Section departures.
Context {B : Buf} {HI : HashIter}.

(** A PUBLISH whose two QoS bits are both set, which MQTT 3.3.1.2 requires to
    be treated as a malformed packet, is not reported as an error: the decoder
    panics as soon as it has read the topic, whatever follows. *)
Theorem publish_qos3_panics (uuid : list Z) (f : Z) (topic : rstring) (body t : list Z) :
  0 <= f < 16 -> Z.land f 6 = 6 -> mqtt_string topic -> len (prefixed topic ++ body) <= 2097151 ->
  (codec_decode uuid
     ([header_byte (mkFixedHeader PacketType.Publish f)]
      ++ vbi (len (prefixed topic ++ body)) ++ (prefixed topic ++ body) ++ t)).1 = Panic.
Proof.
  intros Hf Hq Ht Hl.
  pose proof (codec_decode_framed uuid (mkFixedHeader PacketType.Publish f)
    (prefixed topic ++ body) t ltac:(split; done) Hl) as E.
  unfold packet_bytes in E. rewrite <- !app_assoc in *. rewrite E. clear E.
  unfold decode_packet. cbn [packet_type]. unfold lift, new_from_header.
  cbn [packet_type]. rewrite (bind_ok _ _ _ _ _ eq_refl).
  unfold Publish_decode. unfold mbind at 1, M_bind at 1.
  rewrite (bind_ok _ _ _ _ _ (reads_prefixed_string _ _ Ht _)). cbv zeta.
  unfold publish_qos, header_qos. cbn [d_self]. change QOS_MASK with 6.
  change (flags _) with f. by rewrite Hq.
Qed.

Lemma response_plain pt id :
  property_bytes PubResp_fields (new_response pt id) = []
  /\ struct_items PubResp_fields (new_response pt id) = []
  /\ abbreviated PubResp_struct (new_response pt id) = true.
Proof.
  split_and!.
  - unfold property_bytes, fields_bytes. simpl. unfold unskipped_bytes, field_bytes. simpl.
    by rewrite pairs_empty.
  - unfold struct_items, field_items. simpl. by rewrite pairs_empty.
  - unfold abbreviated. simpl. unfold property_size, PubResp_property_size, property_size_of,
      sizes_of. simpl. unfold add_field_size, field_size. simpl.
    unfold property_size, UserProperty_property_size. by rewrite pairs_empty.
Qed.

(** A publish response is sent with its own fixed header but received with
    that of CONNECT, and [set_reason] refuses every reason on what was received. *)
Theorem received_response_refuses_reasons (uuid t : list Z) (id : Z) (r : Reason) :
  is_u16 id ->
  exists bs p n,
    encode (Packet.PubAck (new_puback_with_packet_id id)) [] = (Ok tt, bs)
    /\ codec_decode uuid (bs ++ t) = (Ok (Some (Packet.PubAck p, n)), [])
    /\ PubResp.packet_id p = id
    /\ packet_type (PubResp.fixed_header p) = PacketType.Connect
    /\ PubResp_set_reason r p = Err (new_with_kind (UnsupportedReason (Reason_as_u8 r))).
Proof.
  intros Hid. set (q := new_puback_with_packet_id id). destruct (response_plain PacketType.PubAck id) as (Hp & Hi & Ha).
  change (new_response _ _) with q in Hp, Hi, Ha.
  assert (Hok : PubResp_ok q) by (split_and!; [done | done | apply props_ok_empty]).
  assert (Hb : body_bytes PubResp_struct q = be16 id).
  { unfold body_bytes. by rewrite Ha. }
  exists (packet_bytes (FixedHeader_new PacketType.PubAck) (be16 id)),
    (q <| PubResp.fixed_header := dflt |>). eexists. split_and!; [| | done | done | done].
  - rewrite <- Hb. refine (encode_packet_bytes (Packet.PubAck q) _ []). split; [done |].
    change (len (property_bytes PubResp_fields q) <= MAX_VARIABLE_BYTE_INT
            /\ len (body_bytes PubResp_struct q) <= MAX_VARIABLE_BYTE_INT).
    rewrite Hb. rewrite Hp. by vm_compute.
  - rewrite codec_decode_framed; [| apply header_new_ok | by vm_compute]. rewrite <- Hb.
    unfold decode_packet. cbn [packet_type FixedHeader_new].
    rewrite (bind_ok _ _ _ _ _ (response_roundtrip q Hok
      ltac:(unfold response_reason; fold q in Ha; by rewrite Ha)
      ltac:(unfold properties_fit; simpl s_fields; rewrite Hp, Hi; by vm_compute))).
    done.
Qed.
End departures.

Lemma publish_qos3_panics_witness :
  (codec_decode [] ([0x36] ++ vbi 7 ++ (prefixed (str "a/b") ++ [0; 0]) ++ [])).1 = Panic.
Proof.
  apply (publish_qos3_panics [] 6 (str "a/b") [0; 0] []);
    [lia | reflexivity | split; [reflexivity | by vm_compute] | by vm_compute].
Defined.

Lemma received_response_refuses_reasons_witness :
  exists bs p n,
    encode (Packet.PubAck (new_puback_with_packet_id 7)) [] = (Ok tt, bs)
    /\ codec_decode [] (bs ++ []) = (Ok (Some (Packet.PubAck p, n)), [])
    /\ PubResp.packet_id p = 7
    /\ packet_type (PubResp.fixed_header p) = PacketType.Connect
    /\ PubResp_set_reason Reason.QuotaExceeded p
       = Err (new_with_kind (UnsupportedReason (Reason_as_u8 Reason.QuotaExceeded))).
Proof. apply (received_response_refuses_reasons [] [] 7). unfold is_u16. lia. Defined.

(** Three user properties with empty keys and values. *)
Definition three_pairs : Publish :=
  sample_publish <| Publish.message_expiry := None |> <| Publish.correlation_data := [] |>
                 <| Publish.user_properties := {[ [] := [[]; []; []] ]} |>.

(** User properties are counted with four bytes too many each, so that the
    property loop can stop before the last of them: of three empty pairs sent
    with a payload, the receiver gets two, and the bytes of the third at the
    front of the payload. *)
Theorem user_property_leaks_into_payload :
  exists bs,
    encode (Packet.Publish three_pairs) [] = (Ok tt, bs)
    /\ codec_decode [] bs
       = (Ok (Some (Packet.Publish
           (three_pairs <| Publish.user_properties := {[ [] := [[]; []] ]} |>
                        <| Publish.payload := Some ([0x26; 0; 0; 0; 0] ++ str "hi") |>),
           len bs + 8)), []).
Proof. eexists. split; [vm_compute; reflexivity | vm_compute; reflexivity]. Qed.

(** CONNACK with authentication data and no other property. *)
Definition connack_auth : ConnAck := dflt <| ConnAck.auth_data := [1; 2; 3] |>.

(** The generated decoder does not count a byte vector among the property
    bytes it has read and keeps looking for properties: decoding a CONNACK that
    this library has encoded with authentication data panics, with nothing left
    to read. *)
Theorem connack_auth_data_panics :
  exists bs,
    encode (Packet.ConnAck connack_auth) [] = (Ok tt, bs)
    /\ codec_decode [] bs = (Panic, []).
Proof. eexists. split; [vm_compute; reflexivity | vm_compute; reflexivity]. Qed.
