(* ===== verification/Decoded.v ===== *)
(** * What the decoder returns *)
(** Whatever bytes it is given, a packet the decoder returns is a value of the
    packet's type that fits the wire format: integers in range, valid strings of
    at most 65535 bytes, identifiers of PUBLISH where the QoS level asks for one.
    [gives P m] says that [m], on a buffer of bytes, leaves bytes and returns only
    values with [P]. *)

From S2P Require Import Prelude Bytes Codec Fixed Property Macro MacroFacts.
From S2P Require Import Subscriptions Acks Publish Connect Packet.

Section gives.
Context {B : Buf} {HI : HashIter}.

Definition gives {A} (P : A -> Prop) (m : Codec A) : Prop :=
  forall b a b', bytes b -> m b = (Ok a, b') -> P a /\ bytes b'.

Lemma gives_ret {A} (P : A -> Prop) a : P a -> gives P (mret a).
Proof. intros Ha b a' b' Hb [= <- <-]. done. Qed.
Lemma gives_raise {A} (P : A -> Prop) e : gives P (raise e).
Proof. by intros b a b' Hb. Qed.
Lemma gives_lift {A} (P : A -> Prop) o : (forall a, o = Ok a -> P a) -> gives P (lift o).
Proof. intros Ho b a b' Hb [= E <-]. auto. Qed.
Lemma gives_gets {A} (f : BytesMut -> A) : gives (fun _ => True) (gets f).
Proof. by intros b a b' Hb [= _ <-]. Qed.
Lemma gives_no_fuel {A} (P : A -> Prop) : gives P no_fuel.
Proof. by intros b a b' Hb. Qed.

Lemma gives_bind {A C} (P : A -> Prop) (Q : C -> Prop) (m : Codec A) (f : A -> Codec C) :
  gives P m -> (forall a, P a -> gives Q (f a)) -> gives Q (m ≫= f).
Proof.
  intros Hm Hf b c b' Hb (a & b1 & H1 & H2)%bind_ok_inv.
  destruct (Hm b a b1 Hb H1) as [Ha Hb1]. by apply (Hf a Ha b1).
Qed.

Lemma gives_weaken {A} (P Q : A -> Prop) (m : Codec A) : gives P m -> (forall a, P a -> Q a) -> gives Q m.
Proof. intros Hm HPQ b a b' Hb H. destruct (Hm b a b' Hb H). auto. Qed.

Lemma gives_tame {A} (m : Codec A) : tame m -> gives (fun _ => True) m.
Proof. intros Hm b a b' Hb H. by destruct (Hm b (Ok a) b' Hb H) as (_ & ? & _). Qed.

(** The value of a decoder of values with their lengths. *)
Definition reads_as {A} (P : A -> Prop) (m : Codec (A * Z)) : Prop := gives (fun x => P x.1) m.

(** ** Integers, strings, identifiers *)

Lemma gives_get_u8 : gives is_u8 get_u8.
Proof.
  intros [|x b] a b' Hb; unfold get_u8, of_partial; [by rewrite get_u8_nil |].
  rewrite get_u8_cons. intros [= <- <-]. by apply Forall_cons_1 in Hb.
Qed.

Lemma gives_get_u16 : gives is_u16 get_u16.
Proof.
  intros [|x [|y b]] a b' Hb; unfold get_u16, of_partial; [rewrite get_u16_short by (simpl; lia); done .. |].
  rewrite get_u16_cons. intros [= <- <-]. apply Forall_cons_1 in Hb as [Hx Hb].
  apply Forall_cons_1 in Hb as [Hy Hb]. split; [| done]. unfold is_u8, is_u16, of_be16 in *. lia.
Qed.

Lemma gives_get_u32 : gives is_u32 get_u32.
Proof.
  intros [|x [|y [|z [|v b]]]] a b' Hb; unfold get_u32, of_partial;
    [rewrite get_u32_short by (simpl; lia); done .. |].
  rewrite get_u32_cons. intros [= <- <-].
  repeat (apply Forall_cons_1 in Hb as [? Hb]). split; [| done]. unfold is_u8, is_u32, of_be32 in *. lia.
Qed.

Lemma gives_copy n err : 0 <= n -> gives (fun d => len d = n) (try_copy_to_slice n err).
Proof.
  intros Hn b a b' Hb. unfold try_copy_to_slice. destruct (decide (n <= len b)) as [Hl|Hl].
  - destruct (split_len n b) as (c & d & -> & ->); [lia |]. rewrite try_copy_app.
    intros [= <- <-]. by apply Forall_app in Hb as [_ Hb].
  - by rewrite try_copy_short by lia.
Qed.

Lemma u8_typed v0 : reads_as is_u8 (u8_decode v0).
Proof. eapply gives_bind; [apply gives_get_u8 | intros; by apply gives_ret]. Qed.
Lemma u16_typed v0 : reads_as is_u16 (u16_decode v0).
Proof. eapply gives_bind; [apply gives_get_u16 | intros; by apply gives_ret]. Qed.
Lemma u32_typed v0 : reads_as is_u32 (u32_decode v0).
Proof. eapply gives_bind; [apply gives_get_u32 | intros; by apply gives_ret]. Qed.

Lemma string_typed s0 : reads_as mqtt_string (String_decode s0).
Proof.
  eapply gives_bind; [apply gives_gets |]. intros n _. destruct (n <? 2); [apply gives_raise |].
  eapply gives_bind; [apply gives_get_u16 |]. intros l Hl. unfold is_u16 in Hl.
  eapply gives_bind; [apply gives_copy; lia |]. intros d Hd.
  destruct (utf8_valid d) eqn:Hu; [| apply gives_raise]. apply gives_ret. split; [done |].
  cbn [fst]. cbv beta in Hd. unfold u16_max. lia.
Qed.

Lemma vec_typed c0 : reads_as (fun d => len d <= u16_max) (VecU8_decode c0).
Proof.
  eapply gives_bind; [apply gives_gets |]. intros n _. destruct (n <? 2); [apply gives_raise |].
  eapply gives_bind; [apply gives_get_u16 |]. intros l Hl. unfold is_u16 in Hl.
  eapply gives_bind; [apply gives_copy; lia |]. intros d Hd.
  apply gives_ret. cbn [fst]. cbv beta in Hd. unfold u16_max. lia.
Qed.

(** A variable byte integer has at most three bytes. *)
Lemma gives_vbi_loop fuel : forall r s x,
  0 <= s -> 0 <= r < 2 ^ s -> is_u8 x ->
  reads_as decodable_id (decode_variable_byte_int_loop fuel r s x).
Proof.
  induction fuel as [|fuel IH]; intros r s x Hs Hr Hx; cbn [decode_variable_byte_int_loop]; [apply gives_no_fuel |].
  assert (H7 : 0 <= Z.land x 0x7f < 128) 
    by (unfold is_u8 in Hx; rewrite land_127 by lia; apply Z.mod_pos_bound; lia).
  assert (Hn : 0 <= r + Z.shiftl (Z.land x 0x7f) s < 2 ^ (s + 7)).
  { rewrite Z.shiftl_mul_pow2, Z.pow_add_r by lia. change (2 ^ 7) with 128. nia. }
  destruct (Z.land x 0x80 =? 0).
  - destruct (Z.ltb_spec 21 (s + 7)); [apply gives_raise | apply gives_ret]. simpl. split; [lia |].
    assert (2 ^ (s + 7) <= 2 ^ 21) by (apply Z.pow_le_mono_r; lia). change (2 ^ 21) with 2097152 in *. lia.
  - eapply gives_bind; [apply gives_gets |]. intros more _. destruct more; [| apply gives_raise]. cbn [negb].
    eapply gives_bind; [apply gives_get_u8 |]. intros y Hy.
    destruct (21 <? s + 7); [apply gives_raise |]. apply IH; [lia | done | done].
Qed.

Lemma vbi_typed : reads_as decodable_id decode_variable_byte_int.
Proof.
  eapply gives_bind; [apply gives_gets |]. intros more _. destruct more; [| apply gives_raise]. cbn [negb].
  eapply gives_bind; [apply gives_get_u8 |]. intros x Hx. apply gives_vbi_loop; [lia | lia | done].
Qed.

Lemma opt_vbi_typed : reads_as (opt_ok encodable_id) decode_opt_variable_byte_int.
Proof.
  eapply gives_bind; [apply vbi_typed |]. intros [v n] Hv. apply gives_ret. simpl in *.
  unfold decodable_id, encodable_id, MAX_VARIABLE_BYTE_INT in *. lia.
Qed.

Lemma payload_format_typed : reads_as (fun _ => True) (PayloadFormat_decode dflt).
Proof. apply gives_tame. exact (@type_tame PayloadFormat _ _ _ _ PayloadFormat_laws dflt). Qed.

(** ** User properties *)

Lemma elem_of_pairs (m : UserProperty) k v : (k, v) ∈ pairs m <-> exists vs, m !! k = Some vs /\ v ∈ vs.
Proof.
  unfold pairs, flat_pairs. rewrite list_elem_of_bind. split.
  - intros ([k' vs] & Hv & Hin). apply list_elem_of_fmap in Hv as (v' & [= -> ->] & Hv).
    exists vs. split; [| done]. apply elem_of_map_to_list. by rewrite <- (hash_iter_perm m).
  - intros (vs & Hm & Hv). exists (k, vs). split; [apply list_elem_of_fmap; by exists v |].
    rewrite (hash_iter_perm m). by apply elem_of_map_to_list.
Qed.

Lemma props_ok_add k v m : mqtt_string k -> mqtt_string v -> props_ok m -> props_ok (UserProperty_add k v m).
Proof.
  intros Hk Hv [Hp He]. unfold UserProperty_add. rewrite list.Forall_forall in Hp. split.
  - apply list.Forall_forall. intros [k' v'] (vs & Hl & Hin)%elem_of_pairs.
    destruct (decide (k' = k)) as [->|]; [| rewrite lookup_insert_ne in Hl by done].
    + rewrite lookup_insert_eq in Hl. injection Hl as <-. apply elem_of_app in Hin as [Hin|Hin].
      * apply Hp, elem_of_pairs. unfold lookup_total, map_lookup_total in Hin.
        destruct (m !! k) as [vs|]; [by exists vs | by apply elem_of_nil in Hin].
      * apply list_elem_of_singleton in Hin as ->. done.
    + apply Hp, elem_of_pairs. eauto.
  - apply map_Forall_insert_2; [| done]. by destruct (m !!! k).
Qed.

Lemma props_typed m : props_ok m -> reads_as props_ok (UserProperty_decode m).
Proof.
  intros Hm. eapply gives_bind; [apply string_typed |]. intros [k n] Hk.
  eapply gives_bind; [apply string_typed |]. intros [v n'] Hv. apply gives_ret. by apply props_ok_add.
Qed.

(** ** Lists *)

Lemma gives_while {A} (P : A -> Prop) (item : Codec (A * Z)) fuel : forall acc n,
  reads_as P item -> Forall P acc -> reads_as (Forall P) (decode_while_remaining fuel item acc n).
Proof.
  induction fuel as [|fuel IH]; intros acc n Hi Ha; cbn [decode_while_remaining];
    (eapply gives_bind; [apply gives_gets |]; intros more _; destruct more; [| by apply gives_ret]).
  - apply gives_no_fuel.
  - cbn [negb]. eapply gives_bind; [exact Hi |]. intros [a k] Hk. apply IH; [done |].
    apply Forall_app_2; [done | by repeat constructor].
Qed.

Lemma items_typed {A} (P : A -> Prop) (item : Codec (A * Z)) acc :
  reads_as P item -> Forall P acc -> reads_as (Forall P) (decode_items item acc).
Proof.
  intros Hi Ha. apply (gives_bind (fun _ => True)); [apply gives_gets |]. intros b _. by apply gives_while.
Qed.

(** ** Generated decoders *)

Section generated.
Context {S : Type} (I : S -> Prop).

(** The decoder of the field keeps what is known of the value. *)
Definition field_typed (f : field S) : Prop :=
  forall st, I (d_self st) -> gives (fun st' => I (d_self st')) (decode_field f st).

Abbreviation typed := (gives (fun st => I (d_self st))).

Lemma d_self_count b n (st : dstate S) : d_self (count_read b n st) = d_self st.
Proof. by destruct b. Qed.

Lemma gives_fields fs : Forall field_typed fs -> forall st, I (d_self st) -> typed (decode_fields fs st).
Proof.
  induction 1 as [|f fs Hf _ IH]; intros st Hst; cbn [decode_fields]; [by apply gives_ret |].
  eapply gives_bind; [by apply Hf | exact IH].
Qed.

Lemma gives_property_loop arm fuel : forall L st,
  (forall p st, I (d_self st) -> typed (arm p st)) -> I (d_self st) -> typed (property_loop fuel arm L st).
Proof.
  induction fuel as [|fuel IH]; intros L st Ha Hst; cbn [property_loop];
    (destruct (_ <? L); [| by apply gives_ret]); [apply gives_no_fuel |].
  eapply gives_bind; [apply gives_get_u8 |]. intros x _.
  eapply (gives_bind (fun _ => True)); [by apply gives_lift |]. intros p _.
  eapply gives_bind; [apply Ha; by rewrite d_self_count |]. intros st' Hst'. by apply IH.
Qed.

Lemma gives_properties arm st :
  (forall p st, I (d_self st) -> typed (arm p st)) -> I (d_self st) -> typed (decode_properties arm st).
Proof.
  intros Ha Hst. eapply gives_bind; [apply vbi_typed |]. intros [L n] _.
  apply (gives_bind (fun _ => True)); [apply gives_gets |]. intros b _.
  eapply gives_bind; [by apply gives_property_loop |]. intros st' Hst'. by apply gives_ret.
Qed.

Lemma gives_property fs p st : Forall field_typed fs -> I (d_self st) -> typed (decode_property fs p st).
Proof.
  intros Hfs Hst. unfold decode_property. destruct (list_find _ fs) as [[i f]|] eqn:E; [| apply gives_raise].
  apply list_find_Some in E as (E & _). by apply (Forall_lookup_1 _ _ _ _ Hfs E).
Qed.

Lemma forall_filtered (q : field S -> bool) fs : Forall field_typed fs -> Forall field_typed (List.filter q fs).
Proof. apply forall_filter. Qed.

(** A generated decoder keeps what its fields keep. *)
Lemma struct_typed d s0 : Forall field_typed (s_fields d) -> I s0 -> reads_as I (decode_of d s0).
Proof.
  intros Hfs H0. unfold decode_of.
  assert (Hcheck : forall m n, gives (fun _ => True) (min_size_check m n))
    by (intros; apply gives_tame, tame_min_size_check).
  assert (Hdone : forall st : dstate S, I (d_self st) -> reads_as I (mret (d_self st, d_bytes_read st)))
    by (intros; by apply gives_ret).
  eapply gives_bind; [apply Hcheck |]. intros stop _. destruct stop; [by apply Hdone |].
  eapply gives_bind; [by apply gives_fields; [apply forall_filtered, forall_filtered |] |]. intros st1 H1.
  eapply gives_bind; [apply gives_gets |]. intros more _. destruct (_ && _); [by apply Hdone |].
  eapply gives_bind; [by apply gives_fields; [apply forall_filtered, forall_filtered |] |]. intros st2 H2.
  eapply gives_bind; [apply Hcheck |]. intros stop' _. destruct stop'; [by apply Hdone |].
  eapply (gives_bind (fun st => I (d_self st))).
  { destruct (has_properties _); [| by apply gives_ret].
    apply gives_properties; [| done]. intros. by apply gives_property. }
  intros st3 H3. eapply gives_bind; [by apply gives_fields; [apply forall_filtered |] |]. intros st4 H4.
  eapply gives_bind; [by apply gives_fields; [apply forall_filtered |] |]. exact Hdone.
Qed.
End generated.
End gives.

(** The items of vectors. *)
Create HintDb typed.

(** The decoder of a value. *)
Ltac typed_read :=
  first [ apply u8_typed | apply u16_typed | apply u32_typed | apply string_typed | apply vec_typed
        | apply opt_vbi_typed | apply props_typed; solve [eauto | tauto] | apply gives_get_u8
        | apply gives_get_u16 | apply items_typed; [solve [eauto with typed] | constructor]
        | apply payload_format_typed | apply gives_tame, type_tame
        | apply gives_tame; solve [auto with codec] ].

(** One field of a struct: read its value, store it. *)
Tactic Notation "typed_field" reference(ok) :=
  intros st Hst;
  cbn [decode_field plain property property_skip_if non_abbreviated payload_remaining payload_field
       payload_remaining_size_with f_ty f_get f_set sty_plain_decode sty_trait_decode with_decode
       VecString subscription_id_fns];
  eapply gives_bind;
  [ unfold ok in Hst; typed_read
  | intros [v n] Hv; apply gives_ret; rewrite d_self_count; cbn [fst] in Hv;
    destruct st as [s ? ?]; destruct s; unfold ok in *; cbn in *; tauto ].

Section packets.
Context {B : Buf} {HI : HashIter}.

Lemma ConnAck_typed : Forall (field_typed ConnAck_ok) (s_fields ConnAck_struct).
Proof. each_field; typed_field ConnAck_ok. Qed.
Lemma PubResp_typed : Forall (field_typed PubResp_ok) (s_fields PubResp_struct).
Proof. each_field; typed_field PubResp_ok. Qed.
Lemma Disconnect_typed : Forall (field_typed Disconnect_ok) (s_fields Disconnect_struct).
Proof. each_field; typed_field Disconnect_ok. Qed.
Lemma filter_fields_typed : Forall (field_typed filter_ok) (s_fields SubscriptionFilter_struct).
Proof. each_field; typed_field filter_ok. Qed.

Lemma filter_typed : reads_as filter_ok (decode dflt).
Proof. apply struct_typed; [apply filter_fields_typed | by split]. Qed.
Lemma topic_typed : reads_as mqtt_string (@decode rstring String_Decode String_Default).
Proof. apply string_typed. Qed.
Lemma reason_typed : reads_as (fun _ : Reason => True) (decode dflt).
Proof. apply gives_tame, type_tame. Qed.
#[local] Hint Resolve filter_typed topic_typed reason_typed : typed.

Lemma SubAck_typed : Forall (field_typed SubAck_ok) (s_fields SubAck_struct).
Proof. each_field; typed_field SubAck_ok. Qed.
Lemma UnsubAck_typed : Forall (field_typed UnsubAck_ok) (s_fields UnsubAck_struct).
Proof. each_field; typed_field UnsubAck_ok. Qed.
Lemma Subscribe_typed : Forall (field_typed Subscribe_ok) (s_fields Subscribe_struct).
Proof. each_field; typed_field Subscribe_ok. Qed.
Lemma Unsubscribe_typed : Forall (field_typed Unsubscribe_ok) (s_fields Unsubscribe_struct).
Proof. each_field; typed_field Unsubscribe_ok. Qed.

(** A will without a bound on its encoding: what fits separately need not fit together. *)
Definition will_typed (w : WillHeader) : Prop :=
  opt_ok is_u32 (WillHeader.will_delay w)
  /\ opt_ok is_u32 (WillHeader.message_expiry w)
  /\ opt_ok mqtt_string (WillHeader.content_type w)
  /\ opt_ok mqtt_string (WillHeader.response_topic w)
  /\ len (WillHeader.correlation_data w) <= u16_max
  /\ props_ok (WillHeader.user_properties w).

Lemma will_fields_typed : Forall (field_typed will_typed) (s_fields WillHeader_struct).
Proof. each_field; typed_field will_typed. Qed.

Lemma will_header_typed : reads_as will_typed (WillHeader_decode dflt).
Proof.
  apply struct_typed; [apply will_fields_typed |]. split_and!; try done. apply props_ok_empty.
Qed.

(** An arm of a hand-written property loop: read a value, store it. *)
Ltac typed_arm :=
  (eapply gives_bind; [ typed_read |]); first [ intros [v n] Hv | intros v Hv ];
  apply gives_ret; cbn in *; tauto.

Definition publish_typed (p : Publish) : Prop :=
  Publish_ok p /\ publish_coherent p
  /\ header_ok (Publish.fixed_header p) /\ packet_type (Publish.fixed_header p) = PacketType.Publish.

Lemma Publish_arm_typed p st :
  publish_typed (d_self st) -> gives (fun st => publish_typed (d_self st)) (Publish_arm p st).
Proof.
  intros Hst. destruct p; cbn [Publish_arm]; try apply gives_raise;
    destruct st as [[] ? ?]; unfold publish_typed, Publish_ok, publish_coherent, publish_qos in *;
    cbn in Hst; typed_arm.
Qed.

(** The packet identifier is read exactly above QoS 0. *)
Lemma publish_decode_typed p :
  Publish_ok p -> Publish.packet_id p = None -> header_ok (Publish.fixed_header p) ->
  packet_type (Publish.fixed_header p) = PacketType.Publish -> reads_as publish_typed (Publish_decode p).
Proof.
  intros Hp Hid Hh Hy. eapply gives_bind; [apply string_typed |]. intros [topic n] Ht. cbn [fst] in Ht. cbv zeta.
  eapply (gives_bind (fun q => publish_qos p = Ok q)); [by apply gives_lift |]. intros q Hq.
  eapply (gives_bind (fun st => publish_typed (d_self st))).
  - destruct p. unfold publish_typed, Publish_ok, publish_coherent, publish_qos in *. cbn in *. subst.
    case_bool_decide as E; cbn [negb].
    + apply gives_ret. split; [cbn; tauto |]. split; [by exists q | done].
    + eapply gives_bind; [apply gives_get_u16 |]. intros id Hi. apply gives_ret. split; [cbn; tauto |].
      split; [by exists q | done].
  - intros st Hst. eapply gives_bind; [apply gives_properties; [apply Publish_arm_typed | done] |].
    intros st' Hst'. eapply (gives_bind (fun _ => True)); [apply gives_tame; auto with codec |].
    intros [v k] _. apply gives_ret. by destruct st' as [[] ? ?].
Qed.

(** Everything of a CONNECT but the client identifier, which replaces the
    identifier drawn by [Connect::new]. *)
Definition connect_rest_typed (c : Connect) : Prop :=
  mqtt_string (Connect.protocol_name c)
  /\ is_u8 (Connect.protocol_version c)
  /\ is_u8 (Connect.connect_flags c)
  /\ is_u16 (Connect.keep_alive c)
  /\ opt_ok is_u32 (Connect.session_expiry_interval c)
  /\ opt_ok is_u16 (Connect.receive_maximum c)
  /\ opt_ok is_u32 (Connect.max_packet_size c)
  /\ opt_ok is_u16 (Connect.topic_alias_maximum c)
  /\ opt_ok mqtt_string (Connect.auth_method c)
  /\ len (Connect.auth_data c) <= u16_max
  /\ props_ok (Connect.user_properties c)
  /\ opt_ok will_typed (Connect.will_properties c)
  /\ len (Connect.will_payload c) <= u16_max
  /\ opt_ok mqtt_string (Connect.will_topic c)
  /\ mqtt_string (Connect.username c)
  /\ len (Connect.password c) <= u16_max.

Definition connect_typed (c : Connect) : Prop :=
  connect_rest_typed c /\ mqtt_string (Connect.client_id c).

Ltac connect_value :=
  match goal with st : dstate Connect |- _ => destruct st as [[] ? ?] end;
  unfold connect_typed, connect_rest_typed in *; cbn in *; tauto.

Lemma Connect_arm_typed p st :
  connect_rest_typed (d_self st) -> gives (fun st => connect_rest_typed (d_self st)) (Connect_arm p st).
Proof.
  intros Hst. destruct p; cbn [Connect_arm]; try apply gives_raise;
    destruct st as [[] ? ?]; unfold connect_rest_typed in *; cbn in Hst; typed_arm.
Qed.

Lemma decode_will_typed st :
  connect_typed (d_self st) -> gives (fun st => connect_typed (d_self st)) (Connect_decode_will st).
Proof.
  intros Hst. unfold Connect_decode_will. destruct (will _); [| by apply gives_ret].
  eapply gives_bind; [apply will_header_typed |]. intros [w n] Hw.
  eapply gives_bind; [apply vec_typed |]. intros [d k] Hd.
  eapply gives_bind; [apply string_typed |]. intros [t m] Ht. apply gives_ret. connect_value.
Qed.

Lemma decode_username_typed st :
  connect_typed (d_self st) -> gives (fun st => connect_typed (d_self st)) (Connect_decode_username st).
Proof.
  intros Hst. unfold Connect_decode_username. destruct (has_username _); [| by apply gives_ret].
  eapply gives_bind; [apply string_typed |]. intros [u n] Hu. apply gives_ret. connect_value.
Qed.

Lemma decode_password_typed st :
  connect_typed (d_self st) -> gives (fun st => connect_typed (d_self st)) (Connect_decode_password st).
Proof.
  intros Hst. unfold Connect_decode_password. destruct (has_password _); [| by apply gives_ret].
  eapply gives_bind; [apply vec_typed |]. intros [d n] Hd. apply gives_ret. connect_value.
Qed.

Lemma connect_decode_typed c : connect_rest_typed c -> reads_as connect_typed (Connect_decode c).
Proof.
  intros Hc. eapply gives_bind; [apply string_typed |]. intros [name n] Hn.
  eapply gives_bind; [apply gives_get_u8 |]. intros version Hv.
  eapply gives_bind; [apply gives_get_u8 |]. intros flags Hf.
  eapply gives_bind; [apply gives_get_u16 |]. intros alive Hk. cbv zeta.
  eapply gives_bind; [apply (gives_properties connect_rest_typed); [apply Connect_arm_typed |] |].
  { destruct c. unfold connect_rest_typed in *. cbn in *. tauto. }
  intros st Hst. cbv beta in Hst. eapply gives_bind; [apply string_typed |]. intros [id k] Hid. cbv zeta.
  eapply gives_bind; [apply decode_will_typed; connect_value |]. clear. intros st Hst.
  eapply gives_bind; [by apply decode_username_typed |]. clear. intros st Hst.
  eapply gives_bind; [by apply decode_password_typed |]. clear. intros st Hst. by apply gives_ret.
Qed.

(** ** Packets *)

(** What the decoder promises of a packet. *)
Definition packet_typed (p : Packet) : Prop :=
  match p with
  | Packet.Connect p => connect_typed p
  | Packet.Publish p => publish_typed p
  | p => fields_fit p
  end.

Lemma header_typed : reads_as header_ok (FixedHeader_decode dflt).
Proof.
  eapply gives_bind; [apply gives_gets |]. intros n _. destruct (n <? 2); [apply gives_raise |].
  eapply gives_bind; [apply gives_get_u8 |]. intros x Hx. cbv zeta.
  destruct (flags_accepted _ _) eqn:E; [| apply gives_raise]. apply gives_ret. split; [| done].
  cbn. change 15 with (Z.ones 4). rewrite Z.land_ones by lia. apply Z.mod_pos_bound. lia.
Qed.

Definition found_typed (r : option (Packet * Z)) : Prop := opt_ok (fun r => packet_typed r.1) r.

Lemma found_as {A} (P : A -> Prop) (m : Codec (A * Z)) (mk : A -> Packet) n :
  reads_as P m -> (forall a, P a -> packet_typed (mk a)) ->
  gives found_typed ('(p, k) ← m; mret (Some (mk p, n + k))).
Proof. intros Hm Hmk. eapply gives_bind; [exact Hm |]. intros [p k] Hp. apply gives_ret. by apply Hmk. Qed.

Lemma decode_packet_typed uuid h n : header_ok h -> gives found_typed (decode_packet uuid h n).
Proof.
  pose proof props_ok_empty as He. intros Hh. unfold decode_packet. destruct (packet_type h) eqn:E.
  all: try (by apply gives_ret); try apply gives_raise.
  3: { unfold new_from_header. rewrite E.
    eapply (gives_bind (fun p => p = dflt <| Publish.fixed_header := h |>)); [by apply gives_lift; intros ? [= <-] |].
    intros p ->. apply (found_as publish_typed); [| done]. apply publish_decode_typed; try done. }
  1: { apply (found_as connect_typed); [| done]. apply connect_decode_typed. by split_and!. }
  all: eapply found_as; [| intros a Ha; exact Ha]; apply struct_typed.
  all: first [apply ConnAck_typed | apply PubResp_typed | apply Disconnect_typed | apply Subscribe_typed
             | apply SubAck_typed | apply Unsubscribe_typed | apply UnsubAck_typed | by split_and!].
Qed.

Lemma codec_decode_typed uuid : gives found_typed (codec_decode uuid).
Proof.
  eapply gives_bind; [apply header_typed |]. intros [h n] Hh.
  eapply (gives_bind (fun _ => True)); [apply gives_tame, tame_length_bytes |]. intros _ _.
  eapply gives_bind; [apply vbi_typed |]. intros [L k] HL.
  intros b r b' Hb H. rewrite bind_remaining in H. destruct (Z.ltb_spec (len b) L) as [|Hl]; [done |].
  rewrite cut_buffer in H by (apply HL || done).
  by apply (decode_packet_typed uuid h _ Hh) in H; [| apply Forall_take].
Qed.

(** C29: whatever bytes arrive, a packet that the decoder returns is a value of its
    type that fits the wire format: integers within their widths, strings valid
    UTF-8 of at most 65535 bytes, subscription identifiers encodable, user
    properties without an empty key list; a PUBLISH carries an accepted fixed
    header with a valid QoS level, and a packet identifier exactly above QoS 0.
    This is what the handlers of client and broker take for granted. *)
Theorem decoded_packets_typed uuid b p n b' :
  Forall is_u8 b -> codec_decode uuid b = (Ok (Some (p, n)), b') -> packet_typed p.
Proof. intros Hb H. apply (codec_decode_typed uuid b _ b' Hb H). Qed.
End packets.

(** A QoS 1 PUBLISH followed by the start of another packet. *)
Lemma decoded_packets_typed_witness : packet_typed (Packet.Publish sample_publish).
Proof.
  apply (decoded_packets_typed []
    [0x32; 20; 0; 3; 97; 47; 98; 0; 7; 10; 2; 0; 0; 0; 60; 9; 0; 2; 1; 2; 104; 105; 0x40] _ 22 []).
  - repeat constructor; unfold is_u8; lia.
  - vm_compute. reflexivity.
Defined.
