(* ===== verification/CodecTests.v ===== *)
(** * vaux-mqtt: the tests of the codec *)
(** The tests of vaux-mqtt/src/test and of publish.rs, each as a function that runs the test on
    the model and answers whether its assertions hold.  The identifier that
    [Connect::default] draws is an argument.  [test_packet_type_display] is left
    out: it tests text. *)

From S2P Require Import Prelude Bytes Codec Fixed Property Macro.
From S2P Require Import Subscriptions Acks Publish Connect Packet.

(** [assert_eq!(a, b)] and [assert!(matches!(o, ..))]. *)
Notation "a == b" := (bool_decide (a = b)) (at level 70) : bool_scope.
#[local] Open Scope bool_scope.

Definition all (l : list bool) : bool := forallb id l.

(** ** codec_test.rs *)

Definition test_control_packet_type_from : bool := all
  [ PacketType.Connect == PacketType_from 0x12;
    PacketType.ConnAck == PacketType_from 0x2f;
    PacketType.Publish == PacketType_from 0x35;
    PacketType.PubAck == PacketType_from 0x47;
    PacketType.PubRec == PacketType_from 0x5f;
    PacketType.PubRel == PacketType_from 0x6f;
    PacketType.PubComp == PacketType_from 0x7f;
    PacketType.Subscribe == PacketType_from 0x8f;
    PacketType.SubAck == PacketType_from 0x9f;
    PacketType.Unsubscribe == PacketType_from 0xaf;
    PacketType.UnsubAck == PacketType_from 0xbf;
    PacketType.PingReq == PacketType_from 0xcf;
    PacketType.PingResp == PacketType_from 0xdf;
    PacketType.Auth == PacketType_from 0xff ].

Definition text_encode_single_byte_var_int : bool :=
  let value := 100 in
  match encode_variable_byte_int value [] with
  | (Ok _, dest) => all [1 == len dest; Some (u8 value) == dest !! 0%nat]
  | _ => false
  end.

Definition test_encode_var_int : bool :=
  match encode_variable_byte_int 128 [], encode_variable_byte_int 777 [] with
  | (Ok _, e1), (Ok _, e2) =>
      all [Some 0x80 == e1 !! 0%nat; Some 0x01 == e1 !! 1%nat;
           Some 0x89 == e2 !! 0%nat; Some 0x06 == e2 !! 1%nat]
  | _, _ => false
  end.

Definition test_decode_var_int : bool :=
  match decode_variable_byte_int [0x80; 0x01], decode_variable_byte_int [0x89; 0x06] with
  | (Ok (v1, _), _), (Ok (v2, _), _) => all [128 == v1; 777 == v2]
  | _, _ => false
  end.

(** ** packet_codec_test.rs *)

Section packet_codec_test.
Variable uuid : rstring.

(** [None] where one of the [expect]s panics. *)
Definition encode_decode (packet : Packet) : option Packet :=
  match encode packet [] with
  | (Ok _, dest) =>
      match codec_decode uuid dest with
      | (Ok (Some (decoded, _)), _) => Some decoded
      | _ => None
      end
  | _ => None
  end.

(** [.unwrap()] of a constructor or setter. *)
Definition unwrapped {E A} (o : outcome E A) (test : A -> bool) : bool :=
  match o with Ok a => test a | _ => false end.

Definition test_pingreq_roundtrip : bool :=
  match encode_decode (Packet.PingRequest dflt) with
  | Some (Packet.PingRequest _) => true
  | _ => false
  end.

Definition test_pingresp_roundtrip : bool :=
  match encode_decode (Packet.PingResponse dflt) with
  | Some (Packet.PingResponse _) => true
  | _ => false
  end.

Definition test_connect_minimal_roundtrip : bool :=
  let connect := set_clean_start true
    ((Connect_new uuid) <| Connect.client_id := str "test-client" |> <| Connect.keep_alive := 60 |>) in
  match encode_decode (Packet.Connect connect) with
  | Some (Packet.Connect c) =>
      all [Connect.client_id c == str "test-client"; Connect.keep_alive c == 60; clean_start c]
  | _ => false
  end.

Definition test_connect_with_properties : bool :=
  let connect := (Connect_new uuid) <| Connect.client_id := str "props-client" |>
    <| Connect.session_expiry_interval := Some 300 |> <| Connect.receive_maximum := Some 100 |>
    <| Connect.max_packet_size := Some 65536 |> <| Connect.topic_alias_maximum := Some 10 |>
    <| Connect.request_response_info := Some true |>
    <| Connect.request_problem_info := Some false |> in
  match encode_decode (Packet.Connect connect) with
  | Some (Packet.Connect c) => all
      [ Connect.session_expiry_interval c == Some 300; Connect.receive_maximum c == Some 100;
        Connect.max_packet_size c == Some 65536; Connect.topic_alias_maximum c == Some 10;
        Connect.request_response_info c == Some true;
        Connect.request_problem_info c == Some false ]
  | _ => false
  end.

Definition test_connect_with_credentials : bool :=
  let connect := set_password (Some [1; 2; 3; 4]) (set_username (Some (str "user"))
    ((Connect_new uuid) <| Connect.client_id := str "auth-client" |>)) in
  match encode_decode (Packet.Connect connect) with
  | Some (Packet.Connect c) => all [has_username c; has_password c]
  | _ => false
  end.

Definition test_connect_with_will : bool :=
  let will_msg :=
    WillMessage_new (str "will/topic") (str "goodbye") QoSLevel.AtLeastOnce true in
  let connect := set_will_message will_msg
    ((Connect_new uuid) <| Connect.client_id := str "will-client" |>) in
  match encode_decode (Packet.Connect connect) with
  | Some (Packet.Connect c) =>
      all [will c; will_retain c;
           unwrapped (will_qos c) (fun q => q == QoSLevel.AtLeastOnce);
           match will_message c with
           | Some wm => all [WillMessage.topic wm == str "will/topic";
                             WillMessage.payload wm == str "goodbye"]
           | None => false
           end]
  | _ => false
  end.

Definition test_connack_minimal_roundtrip : bool :=
  match encode_decode (Packet.ConnAck dflt) with
  | Some (Packet.ConnAck c) => all [ConnAck.reason c == Reason.Success; negb (session_present c)]
  | _ => false
  end.

Definition test_connack_with_properties : bool :=
  let connack := (set_session_present true dflt) <| ConnAck.reason := Reason.Success |> in
  let connack := set_server_keep_alive 30 (set_receive_max 50 (set_session_expiry 600 connack)) in
  let connack := connack <| ConnAck.maximum_packet_size := Some 1048576 |>
    <| ConnAck.topic_alias_maximum := Some 20 |>
    <| ConnAck.assigned_client_id := Some (str "server-assigned-id") |>
    <| ConnAck.reason_string := Some (str "all good") |> in
  match encode_decode (Packet.ConnAck connack) with
  | Some (Packet.ConnAck c) => all
      [ session_present c; ConnAck.session_expiry_interval c == Some 600;
        receive_max c == Some 50; ConnAck.server_keep_alive c == Some 30;
        ConnAck.maximum_packet_size c == Some 1048576; ConnAck.topic_alias_maximum c == Some 20;
        ConnAck.assigned_client_id c == Some (str "server-assigned-id");
        ConnAck.reason_string c == Some (str "all good") ]
  | _ => false
  end.

Definition test_publish_qos0_roundtrip : bool :=
  unwrapped (new_with_message None (str "test/topic") QoSLevel.AtMostOnce (str "hello mqtt"))
    (fun publish =>
      match encode_decode (Packet.Publish (publish_set_retain true publish)) with
      | Some (Packet.Publish p) =>
          all [Publish.topic_name p == str "test/topic"; Publish.payload p == Some (str "hello mqtt");
               unwrapped (publish_qos p) (fun q => q == QoSLevel.AtMostOnce);
               publish_retain p; Publish.packet_id p == None]
      | _ => false
      end).

Definition test_publish_qos1_roundtrip : bool :=
  unwrapped (new_with_payload (Some 42) (str "sensor/temp") QoSLevel.AtLeastOnce
               [0xDE; 0xAD; 0xBE; 0xEF])
    (fun publish =>
      match encode_decode (Packet.Publish publish) with
      | Some (Packet.Publish p) =>
          all [Publish.topic_name p == str "sensor/temp"; Publish.packet_id p == Some 42;
               unwrapped (publish_qos p) (fun q => q == QoSLevel.AtLeastOnce);
               Publish.payload p == Some [0xDE; 0xAD; 0xBE; 0xEF]]
      | _ => false
      end).

Definition test_publish_with_properties : bool :=
  unwrapped (new_with_message (Some 100) (str "props/topic") QoSLevel.ExactlyOnce (str "payload"))
    (fun publish =>
      let publish := with_topic_alias 5 (publish <| Publish.message_expiry := Some 3600 |>
        <| Publish.content_type := Some (str "text/plain") |>
        <| Publish.response_topic := Some (str "reply/topic") |>) in
      match encode_decode (Packet.Publish publish) with
      | Some (Packet.Publish p) =>
          all [Publish.message_expiry p == Some 3600;
               Publish.content_type p == Some (str "text/plain");
               Publish.response_topic p == Some (str "reply/topic");
               Publish.topic_alias p == Some 5;
               unwrapped (publish_qos p) (fun q => q == QoSLevel.ExactlyOnce)]
      | _ => false
      end).

Definition test_puback_success_abbreviated : bool :=
  match encode_decode (Packet.PubAck (new_puback_with_packet_id 1)) with
  | Some (Packet.PubAck p) => all [PubResp.packet_id p == 1; PubResp.reason p == None]
  | _ => false
  end.

Definition test_puback_with_reason : bool :=
  unwrapped (PubResp_set_reason Reason.NoSubscribers (new_puback_with_packet_id 99))
    (fun puback =>
      match encode_decode (Packet.PubAck puback) with
      | Some (Packet.PubAck p) =>
          all [PubResp.packet_id p == 99; PubResp.reason p == Some Reason.NoSubscribers]
      | _ => false
      end).

Definition test_pubrec_success_abbreviated : bool :=
  match encode_decode (Packet.PubRec (new_pubrec_with_packet_id 10)) with
  | Some (Packet.PubRec p) => all [PubResp.packet_id p == 10; PubResp.reason p == None]
  | _ => false
  end.

Definition test_pubrec_with_reason : bool :=
  unwrapped (PubResp_set_reason Reason.QuotaExceeded (new_pubrec_with_packet_id 200))
    (fun pubrec =>
      match encode_decode (Packet.PubRec pubrec) with
      | Some (Packet.PubRec p) =>
          all [PubResp.packet_id p == 200; PubResp.reason p == Some Reason.QuotaExceeded]
      | _ => false
      end).

Definition test_pubrel_success_abbreviated : bool :=
  match encode_decode (Packet.PubRel (new_pubrel_with_packet_id 7)) with
  | Some (Packet.PubRel p) => all [PubResp.packet_id p == 7; PubResp.reason p == None]
  | _ => false
  end.

Definition test_pubrel_with_reason : bool :=
  unwrapped (PubResp_set_reason Reason.PacketIdInUse (new_pubrel_with_packet_id 55))
    (fun pubrel =>
      match encode_decode (Packet.PubRel pubrel) with
      | Some (Packet.PubRel p) =>
          all [PubResp.packet_id p == 55; PubResp.reason p == Some Reason.PacketIdInUse]
      | _ => false
      end).

Definition test_pubcomp_success_abbreviated : bool :=
  match encode_decode (Packet.PubComp (new_pubcomp_with_packet_id 33)) with
  | Some (Packet.PubComp p) => all [PubResp.packet_id p == 33; PubResp.reason p == None]
  | _ => false
  end.

Definition test_pubcomp_with_reason : bool :=
  unwrapped (PubResp_set_reason Reason.PacketIdInUse (new_pubcomp_with_packet_id 44))
    (fun pubcomp =>
      match encode_decode (Packet.PubComp pubcomp) with
      | Some (Packet.PubComp p) =>
          all [PubResp.packet_id p == 44; PubResp.reason p == Some Reason.PacketIdInUse]
      | _ => false
      end).

(** [filter[i].filter] and [filter[i].qos()]. *)
Definition filter_at (i : nat) (s : Subscribe) : option (rstring * QoSLevel) :=
  (fun f => (SubscriptionFilter.filter f, filter_qos f)) <$> Subscribe.filter s !! i.

Definition test_subscribe_single_filter : bool :=
  let sub := add_filter (SubscriptionFilter_new (str "test/topic") QoSLevel.AtLeastOnce)
    (Subscribe_new_with_packet_id 1) in
  match encode_decode (Packet.Subscribe sub) with
  | Some (Packet.Subscribe s) =>
      all [Subscribe.packet_id s == 1; len (Subscribe.filter s) == 1;
           filter_at 0 s == Some (str "test/topic", QoSLevel.AtLeastOnce)]
  | _ => false
  end.

Definition test_subscribe_multiple_filters : bool :=
  let filters := [ SubscriptionFilter_new (str "sensor/#") QoSLevel.ExactlyOnce;
                   SubscriptionFilter_new (str "cmd/+/exec") QoSLevel.AtMostOnce ] in
  match encode_decode (Packet.Subscribe (Subscribe_new_with_filter 5 filters)) with
  | Some (Packet.Subscribe s) =>
      all [Subscribe.packet_id s == 5; len (Subscribe.filter s) == 2;
           filter_at 0 s == Some (str "sensor/#", QoSLevel.ExactlyOnce);
           filter_at 1 s == Some (str "cmd/+/exec", QoSLevel.AtMostOnce)]
  | _ => false
  end.

Definition test_suback_roundtrip : bool :=
  unwrapped (SubAck_new_with_packet_id 3) (fun suback =>
    let suback := suback <| SubAck.reason_codes := SubAck.reason_codes suback
                              ++ [Reason.GrantedQoS1] ++ [Reason.GrantedQoS2] |> in
    match encode_decode (Packet.SubAck suback) with
    | Some (Packet.SubAck s) =>
        all [SubAck.packet_id s == 3; len (SubAck.reason_codes s) == 2;
             SubAck.reason_codes s !! 0%nat == Some Reason.GrantedQoS1;
             SubAck.reason_codes s !! 1%nat == Some Reason.GrantedQoS2]
    | _ => false
    end).

Definition test_unsubscribe_roundtrip : bool :=
  match encode_decode (Packet.Unsubscribe (Unsubscribe_new 7 [str "topic/a"; str "topic/b"])) with
  | Some (Packet.Unsubscribe u) =>
      all [Unsubscribe.packet_id u == 7; len (Unsubscribe.topics u) == 2;
           Unsubscribe.topics u !! 0%nat == Some (str "topic/a");
           Unsubscribe.topics u !! 1%nat == Some (str "topic/b")]
  | _ => false
  end.

Definition test_unsuback_roundtrip : bool :=
  let unsuback := dflt <| UnsubAck.packet_id := 9 |>
    <| UnsubAck.reason_code := [Reason.Success; Reason.NoSubscribers] |> in
  match encode_decode (Packet.UnsubAck unsuback) with
  | Some (Packet.UnsubAck u) =>
      all [UnsubAck.packet_id u == 9; len (UnsubAck.reason_code u) == 2;
           UnsubAck.reason_code u !! 0%nat == Some Reason.Success;
           UnsubAck.reason_code u !! 1%nat == Some Reason.NoSubscribers]
  | _ => false
  end.

Definition test_disconnect_normal_abbreviated : bool :=
  all [ match encode (Packet.Disconnect dflt) [] with
        | (Ok _, dest) => len dest == 2
        | _ => false
        end;
        match encode_decode (Packet.Disconnect dflt) with
        | Some (Packet.Disconnect d) => Disconnect.reason d == Reason.NormalDisconnect
        | _ => false
        end ].

Definition test_disconnect_with_reason : bool :=
  match encode_decode (Packet.Disconnect (Disconnect_new Reason.ServerShutdown)) with
  | Some (Packet.Disconnect d) => Disconnect.reason d == Reason.ServerShutdown
  | _ => false
  end.

Definition test_disconnect_with_properties : bool :=
  let disconnect := (Disconnect_new Reason.NormalDisconnect)
    <| Disconnect.session_expiry_interval := Some 120 |>
    <| Disconnect.reason_string := Some (str "closing") |>
    <| Disconnect.server_reference := Some (str "other-server:1883") |> in
  match encode_decode (Packet.Disconnect disconnect) with
  | Some (Packet.Disconnect d) => all
      [ Disconnect.reason d == Reason.NormalDisconnect;
        Disconnect.session_expiry_interval d == Some 120;
        Disconnect.reason_string d == Some (str "closing");
        Disconnect.server_reference d == Some (str "other-server:1883") ]
  | _ => false
  end.

Definition test_connack_with_user_properties : bool :=
  let connack := dflt <| ConnAck.user_properties :=
    UserProperty_add (str "key2") (str "value2")
      (UserProperty_add (str "key1") (str "value1") (ConnAck.user_properties dflt)) |> in
  match encode_decode (Packet.ConnAck connack) with
  | Some (Packet.ConnAck c) =>
      all [UserProperty_get (str "key1") (ConnAck.user_properties c) == Some [str "value1"];
           UserProperty_get (str "key2") (ConnAck.user_properties c) == Some [str "value2"]]
  | _ => false
  end.
End packet_codec_test.

(** ** publish.rs *)

Definition test_new_with_message : bool :=
  unwrapped (new_with_message (Some 10) (str "topic") QoSLevel.AtLeastOnce (str "hello")) (fun publish =>
    all [str "topic" == Publish.topic_name publish; Some 10 == Publish.packet_id publish;
         Some PayloadFormat.Utf8 == Publish.payload_format publish;
         Some (str "hello") == Publish.payload publish]).

Definition test_new_with_payload : bool :=
  unwrapped (new_with_payload (Some 10) (str "topic") QoSLevel.AtLeastOnce (str "hello")) (fun publish =>
    all [str "topic" == Publish.topic_name publish; Some 10 == Publish.packet_id publish;
         None == Publish.payload_format publish; Some (str "hello") == Publish.payload publish]).

(** Both expect an error; the text of its reason is not modelled. *)
Definition refused {E A} (o : outcome E A) : bool := match o with Err _ => true | _ => false end.

Definition test_new_with_payload_no_packet_id : bool :=
  refused (new_with_payload None (str "topic") QoSLevel.AtLeastOnce (str "hello")).
Definition test_new_with_message_no_packet_id : bool :=
  refused (new_with_message None (str "topic") QoSLevel.AtLeastOnce (str "hello")).

(** ** The tests pass *)

(** The tests of the codec pass on the model.  Every test of codec_test.rs,
    packet_codec_test.rs and publish.rs, run on the definitions of this library, meets all
    of its assertions, whatever identifier a new CONNECT draws; the one test of
    [Display] aside. *)
Theorem packet_codec_tests_pass uuid :
  all [ test_control_packet_type_from; text_encode_single_byte_var_int; test_encode_var_int;
        test_decode_var_int;
        test_pingreq_roundtrip uuid; test_pingresp_roundtrip uuid;
        test_connect_minimal_roundtrip uuid; test_connect_with_properties uuid;
        test_connect_with_credentials uuid; test_connect_with_will uuid;
        test_connack_minimal_roundtrip uuid; test_connack_with_properties uuid;
        test_publish_qos0_roundtrip uuid; test_publish_qos1_roundtrip uuid;
        test_publish_with_properties uuid;
        test_puback_success_abbreviated uuid; test_puback_with_reason uuid;
        test_pubrec_success_abbreviated uuid; test_pubrec_with_reason uuid;
        test_pubrel_success_abbreviated uuid; test_pubrel_with_reason uuid;
        test_pubcomp_success_abbreviated uuid; test_pubcomp_with_reason uuid;
        test_subscribe_single_filter uuid; test_subscribe_multiple_filters uuid;
        test_suback_roundtrip uuid; test_unsubscribe_roundtrip uuid; test_unsuback_roundtrip uuid;
        test_disconnect_normal_abbreviated uuid; test_disconnect_with_reason uuid;
        test_disconnect_with_properties uuid; test_connack_with_user_properties uuid;
        test_new_with_message; test_new_with_payload; test_new_with_payload_no_packet_id;
        test_new_with_message_no_packet_id ] = true.
Proof. vm_compute. reflexivity. Qed.
