(* ===== verification/Topic.v ===== *)
(** * vaux-broker/src/topic.rs: the subscription tree *)
(** The broker keeps its subscriptions in a tree of topic levels, stored as a
    vector of nodes that refer to each other by [u32] index.  The model keeps
    the vector and the indices; an index out of range is a panic.

    The abstract specification is a finite map from (filter, session) to the
    subscription options, with the wildcard rules of MQTT 4.7.1: [subscription]
    is the abstraction function, and the operations are proved to act on it as
    map update, deletion and lookup.  The rule of 4.7.2 on topics that begin with
    [$] is not implemented by the code ([reserved_topics_leak]). *)

From S2P Require Import Prelude Codec.

Definition ROOT_NODE : Z := 0.

Module Subscriber.
Record Subscriber := mk { session_id : rstring; qos : QoSLevel; no_local : bool }.
End Subscriber.
Abbreviation Subscriber := Subscriber.Subscriber.

#[export] Instance Subscriber_eta : Eta Subscriber := fun s =>
  Subscriber.mk (Subscriber.session_id s) (Subscriber.qos s) (Subscriber.no_local s).
#[export] Instance Subscriber_eq_dec : EqDecision Subscriber.
Proof. solve_decision. Defined.

Module TopicNode.
Record TopicNode := mk {
  parent : Z;
  segment : rstring;
  children : gmap rstring Z;
  subscribers : list Subscriber;
  wildcard_subscribers : list Subscriber;
}.
End TopicNode.
Abbreviation TopicNode := TopicNode.TopicNode.

#[export] Instance TopicNode_eta : Eta TopicNode := fun n =>
  TopicNode.mk (TopicNode.parent n) (TopicNode.segment n) (TopicNode.children n)
    (TopicNode.subscribers n) (TopicNode.wildcard_subscribers n).

(** [struct TopicTree { nodes: Vec<TopicNode> }]. *)
Abbreviation TopicTree := (list TopicNode).
Abbreviation Tree := (M TopicTree Empty_set).

Definition PLUS : rstring := Eval compute in str "+".
Definition HASH : rstring := Eval compute in str "#".
Definition SLASH : Z := 47.
Definition DOLLAR : Z := 36.

(** [str::split('/')]: one more segment than there are separators. *)
Fixpoint split_slash (s : rstring) : list rstring :=
  match s with
  | [] => [[]]
  | c :: s =>
      match split_slash s with
      | [] => [[c]]
      | seg :: segs => if c =? SLASH then [] :: seg :: segs else (c :: seg) :: segs
      end
  end.

Definition TopicTree_new : TopicTree := [TopicNode.mk 0 [] ∅ [] []].

(** [self.nodes[idx as usize]]. *)
Definition node_at (idx : Z) : Tree TopicNode :=
  nodes ← get;
  lift (unwrap (nodes !! Z.to_nat idx)).

Definition update_node (idx : Z) (f : TopicNode -> TopicNode) : Tree unit :=
  n ← node_at idx;
  modify (fun nodes => <[Z.to_nat idx := f n]> nodes).

Fixpoint ensure_path_from (current : Z) (segments : list rstring) : Tree Z :=
  match segments with
  | [] => mret current
  | segment :: segments =>
      n ← node_at current;
      match TopicNode.children n !! segment with
      | Some child_idx => ensure_path_from child_idx segments
      | None =>
          new_idx ← gets (fun nodes => u32 (len nodes));
          modify (fun nodes => nodes ++ [TopicNode.mk current segment ∅ [] []]) ≫= fun _ =>
          update_node current (fun n =>
            n <| TopicNode.children := <[segment := new_idx]> (TopicNode.children n) |>) ≫= fun _ =>
          ensure_path_from new_idx segments
      end
  end.

Definition ensure_path (segments : list rstring) : Tree Z := ensure_path_from ROOT_NODE segments.

Fixpoint find_path_from (current : Z) (segments : list rstring) : Tree (option Z) :=
  match segments with
  | [] => mret (Some current)
  | segment :: segments =>
      n ← node_at current;
      match TopicNode.children n !! segment with
      | Some child => find_path_from child segments
      | None => mret None
      end
  end.

Definition find_path (segments : list rstring) : Tree (option Z) :=
  find_path_from ROOT_NODE segments.

(** [list.iter_mut().find(...)]: the first entry of the session is updated, a
    missing one is pushed. *)
Fixpoint upsert (sub : Subscriber) (l : list Subscriber) : list Subscriber :=
  match l with
  | [] => [sub]
  | s :: l =>
      if bool_decide (Subscriber.session_id s = Subscriber.session_id sub) then
        (s <| Subscriber.qos := Subscriber.qos sub |>
           <| Subscriber.no_local := Subscriber.no_local sub |>) :: l
      else s :: upsert sub l
  end.

(** [list.retain(|s| s.session_id != session_id)]. *)
Definition retain_others (session_id : rstring) (l : list Subscriber) : list Subscriber :=
  List.filter (fun s => negb (bool_decide (Subscriber.session_id s = session_id))) l.

(** The list a filter's subscribers live in: the wildcard list of its node when
    the last segment is [#]. *)
Definition on_list (last_segment : rstring) (f : list Subscriber -> list Subscriber)
    (n : TopicNode) : TopicNode :=
  if bool_decide (last_segment = HASH) then
    n <| TopicNode.wildcard_subscribers := f (TopicNode.wildcard_subscribers n) |>
  else n <| TopicNode.subscribers := f (TopicNode.subscribers n) |>.

Definition list_of (last_segment : rstring) (n : TopicNode) : list Subscriber :=
  if bool_decide (last_segment = HASH) then TopicNode.wildcard_subscribers n
  else TopicNode.subscribers n.

Definition subscribe (filter session_id : rstring) (qos : QoSLevel) (no_local : bool)
    : Tree unit :=
  let segments := split_slash filter in
  node_idx ← ensure_path segments;
  last_segment ← lift (unwrap (list.last segments));
  update_node node_idx (on_list last_segment (upsert (Subscriber.mk session_id qos no_local))).

Definition unsubscribe (filter session_id : rstring) : Tree bool :=
  let segments := split_slash filter in
  found ← find_path segments;
  match found with
  | None => mret false
  | Some node_idx =>
      last_segment ← lift (unwrap (list.last segments));
      n ← node_at node_idx;
      let before := len (list_of last_segment n) in
      update_node node_idx (on_list last_segment (retain_others session_id)) ≫= fun _ =>
      n ← node_at node_idx;
      mret (len (list_of last_segment n) <? before)
  end.

Definition unsubscribe_all (session_id : rstring) : Tree unit :=
  modify (fmap (fun n =>
    n <| TopicNode.subscribers := retain_others session_id (TopicNode.subscribers n) |>
      <| TopicNode.wildcard_subscribers :=
           retain_others session_id (TopicNode.wildcard_subscribers n) |>)).

(** The wildcard list of the [#] child, where there is one. *)
Definition hash_subscribers (n : TopicNode) : Tree (list Subscriber) :=
  match TopicNode.children n !! HASH with
  | Some hash_idx => hash_node ← node_at hash_idx; mret (TopicNode.wildcard_subscribers hash_node)
  | None => mret []
  end.

(** [collect_matches]; [segments] is the part of the topic from [depth] on, and
    [results] is what is appended. *)
Fixpoint collect_matches (node_idx : Z) (segments : list rstring) : Tree (list Subscriber) :=
  n ← node_at node_idx;
  match segments with
  | [] =>
      hash ← hash_subscribers n;
      mret (TopicNode.wildcard_subscribers n ++ TopicNode.subscribers n ++ hash)
  | segment :: segments =>
      exact ← match TopicNode.children n !! segment with
              | Some child_idx => collect_matches child_idx segments
              | None => mret []
              end;
      plus ← match TopicNode.children n !! PLUS with
             | Some plus_idx => collect_matches plus_idx segments
             | None => mret []
             end;
      hash ← hash_subscribers n;
      mret (TopicNode.wildcard_subscribers n ++ exact ++ plus ++ hash)
  end.

Definition matching_subscribers (topic : rstring) : Tree (list Subscriber) :=
  collect_matches ROOT_NODE (split_slash topic).

Definition node_count (t : TopicTree) : Z := len t.

(** ** Specification *)

(** The wildcards of MQTT 4.7.1: [#] as the last level matches its parent and
    everything below, [+] matches one level, other levels match themselves.
    This is the rule the tree implements; [mqtt_matches] below adds the rule of
    4.7.2 for topics that begin with [$], which the tree does not have. *)
Fixpoint filter_matches (filter topic : list rstring) : bool :=
  match filter, topic with
  | [], [] => true
  | f :: fs, ts =>
      if bool_decide (f = HASH) && bool_decide (fs = []) then true
      else
        match ts with
        | [] => false
        | t :: ts => (bool_decide (f = PLUS) || bool_decide (f = t)) && filter_matches fs ts
        end
  | [], _ :: _ => false
  end.

(** A topic whose first character is [$]. *)
Definition reserved_topic (topic : list rstring) : bool :=
  match topic with (c :: _) :: _ => bool_decide (c = DOLLAR) | _ => false end.

Definition starts_with_wildcard (filter : list rstring) : bool :=
  match filter with f :: _ => bool_decide (f = HASH) || bool_decide (f = PLUS) | [] => false end.

(** All of MQTT 4.7: also [MQTT-4.7.2-1], a filter that starts with a wildcard
    does not match a topic that begins with [$]. *)
Definition mqtt_matches (filter topic : list rstring) : bool :=
  filter_matches filter topic && negb (reserved_topic topic && starts_with_wildcard filter).

(** A topic name has no wildcard levels. *)
Definition topic_name (topic : list rstring) : Prop := (PLUS ∉ topic) /\ (HASH ∉ topic).

(** *** The shape of the tree *)

Definition child (t : TopicTree) (i : Z) (s : rstring) : option Z :=
  t !! Z.to_nat i ≫= fun n => TopicNode.children n !! s.

Fixpoint walk (t : TopicTree) (i : Z) (segments : list rstring) : option Z :=
  match segments with
  | [] => Some i
  | s :: segments => child t i s ≫= fun c => walk t c segments
  end.

Definition in_range (t : TopicTree) (i : Z) : Prop := 0 <= i < len t.

(** Sessions appear once in a list; the wildcard list is used by [#] nodes and
    the other list by the rest; nobody subscribes to the root itself. *)
Definition lists_ok (n : TopicNode) : Prop :=
  NoDup (Subscriber.session_id <$> TopicNode.subscribers n)
  /\ NoDup (Subscriber.session_id <$> TopicNode.wildcard_subscribers n)
  /\ (TopicNode.segment n = HASH -> TopicNode.subscribers n = [])
  /\ (TopicNode.segment n <> HASH -> TopicNode.wildcard_subscribers n = []).

Record tree_ok (t : TopicTree) : Prop := {
  t_size : len t <= 4294967296;
  t_root : exists n, t !! 0%nat = Some n /\ TopicNode.segment n = []
                     /\ TopicNode.subscribers n = [];
  t_child i s c : 0 <= i -> child t i s = Some c ->
    i < c < len t /\ exists n, t !! Z.to_nat c = Some n
                               /\ TopicNode.parent n = i /\ TopicNode.segment n = s;
  t_lists i n : t !! i = Some n -> lists_ok n;
}.

(** The options of the subscription of a session to a filter. *)
Definition find_session (session_id : rstring) (l : list Subscriber) : option (QoSLevel * bool) :=
  match list_find (fun s => Subscriber.session_id s = session_id) l with
  | Some (_, s) => Some (Subscriber.qos s, Subscriber.no_local s)
  | None => None
  end.

Definition subscribers_at (t : TopicTree) (filter : list rstring) : list Subscriber :=
  match walk t ROOT_NODE filter, list.last filter with
  | Some i, Some seg => match t !! Z.to_nat i with Some n => list_of seg n | None => [] end
  | _, _ => []
  end.

Definition subscription (t : TopicTree) (filter : list rstring) (session_id : rstring)
    : option (QoSLevel * bool) := find_session session_id (subscribers_at t filter).

(** ** Facts about the tree *)

Lemma walk_app t i p q : walk t i (p ++ q) = walk t i p ≫= fun j => walk t j q.
Proof.
  revert i. induction p as [|s p IH]; intros i; [done |]. simpl.
  destruct (child t i s); simpl; [apply IH | done].
Qed.

Lemma in_range_lookup t i : in_range t i -> exists n, t !! Z.to_nat i = Some n.
Proof. intros [H0 H1]. apply lookup_lt_is_Some_2. lia. Qed.

Section shape.
Context (t : TopicTree) (Hok : tree_ok t).

Lemma root_in_range : in_range t ROOT_NODE.
Proof. destruct (t_root t Hok) as (n & Hn & _). apply lookup_lt_Some in Hn. unfold in_range, ROOT_NODE. lia. Qed.

Lemma walk_in_range i p j : in_range t i -> walk t i p = Some j -> in_range t j.
Proof.
  revert i. induction p as [|s p IH]; intros i Hi H; simpl in H; [by simplify_eq |].
  destruct (child t i s) as [c|] eqn:Hc; [| done]. simpl in H. apply (IH c); [| done].
  apply (t_child t Hok) in Hc as [Hc _]; unfold in_range in *; lia.
Qed.

(** The node at the end of a path is named by the last segment. *)
Lemma walk_snoc p s j :
  walk t ROOT_NODE (p ++ [s]) = Some j ->
  exists i n, walk t ROOT_NODE p = Some i /\ 0 <= i < j /\ t !! Z.to_nat j = Some n
    /\ TopicNode.parent n = i /\ TopicNode.segment n = s.
Proof.
  rewrite walk_app. destruct (walk t ROOT_NODE p) as [i|] eqn:Hi; [| done]. simpl.
  destruct (child t i s) as [c|] eqn:Hc; [| done]. intros [= ->].
  apply walk_in_range in Hi; [| apply root_in_range].
  apply (t_child t Hok) in Hc as [Hc (n & Hn & Hp & Hs)]; [| apply Hi].
  exists i, n. split_and!; try done; apply Hi || lia.
Qed.

(** Two paths to the same node are the same path. *)
Lemma walk_inj p q i : walk t ROOT_NODE p = Some i -> walk t ROOT_NODE q = Some i -> p = q.
Proof.
  revert q i. induction p as [|s p IH] using rev_ind; intros q i Hp Hq.
  - destruct q as [|s q _] using rev_ind; [done |]. simpl in Hp. injection Hp as <-.
    apply walk_snoc in Hq as (j & n & _ & H & _). unfold ROOT_NODE in H. lia.
  - apply walk_snoc in Hp as (j & n & Hj & H & Hn & Hpar & Hseg).
    destruct q as [|s' q _] using rev_ind.
    { simpl in Hq. injection Hq as <-. unfold ROOT_NODE in H. lia. }
    apply walk_snoc in Hq as (j' & n' & Hj' & H' & Hn' & Hpar' & Hseg').
    rewrite Hn in Hn'. injection Hn' as <-. subst.
    by rewrite (IH q (TopicNode.parent n)).
Qed.
End shape.

Lemma tree_ok_new : tree_ok TopicTree_new.
Proof.
  split.
  - simpl. lia.
  - by eexists.
  - intros i s c Hi Hc. unfold child in Hc. destruct (Z.to_nat i) as [|k]; [| done].
    change ((∅ : gmap rstring Z) !! s = Some c) in Hc. by rewrite lookup_empty in Hc.
  - intros [|i] n Hn; [| done]. injection Hn as <-. repeat split; simpl; try constructor; done.
Qed.

(** ** Running the operations *)

Lemma bind_node_at {A} (k : TopicNode -> Tree A) i n t :
  t !! Z.to_nat i = Some n -> (node_at i ≫= k) t = k n t.
Proof.
  intros Hn. unfold node_at. unfold mbind at 1, M_bind at 1. rewrite bind_get.
  unfold lift, unwrap. by rewrite Hn.
Qed.

Lemma bind_update_node {A} (k : unit -> Tree A) i f n t :
  t !! Z.to_nat i = Some n -> (update_node i f ≫= k) t = k tt (<[Z.to_nat i := f n]> t).
Proof.
  intros Hn. unfold update_node. unfold mbind at 1, M_bind at 1.
  by rewrite (bind_node_at _ _ _ _ Hn).
Qed.

Lemma update_node_run i f n t :
  t !! Z.to_nat i = Some n -> update_node i f t = (Ok tt, <[Z.to_nat i := f n]> t).
Proof. intros Hn. unfold update_node. by rewrite (bind_node_at _ _ _ _ Hn). Qed.

Lemma find_path_from_run t i p :
  tree_ok t -> in_range t i -> find_path_from i p t = (Ok (walk t i p), t).
Proof.
  intros Hok. revert i. induction p as [|s p IH]; intros i Hi; [done |]. simpl.
  destruct (in_range_lookup t i Hi) as [n Hn]. rewrite (bind_node_at _ _ _ _ Hn).
  assert (Hc : child t i s = TopicNode.children n !! s) by (unfold child; by rewrite Hn).
  rewrite Hc. destruct (TopicNode.children n !! s) as [c|]; [| done]. simpl. apply IH.
  apply (t_child t Hok) in Hc as [Hc _]; unfold in_range in *; lia.
Qed.

(** *** Growing a path by one node *)

Definition grow (t : TopicTree) (i : Z) (s : rstring) (n : TopicNode) : TopicTree :=
  <[Z.to_nat i := n <| TopicNode.children := <[s := len t]> (TopicNode.children n) |>]>
    (t ++ [TopicNode.mk i s ∅ [] []]).

Section grow.
Context (t : TopicTree) (Hok : tree_ok t) (i : Z) (s : rstring) (n : TopicNode).
Hypothesis Hn : t !! Z.to_nat i = Some n.
Hypothesis Hi : 0 <= i.
Hypothesis Hnew : child t i s = None.

Lemma grow_lt : i < len t.
Proof. apply lookup_lt_Some in Hn. lia. Qed.

Lemma len_grow : len (grow t i s n) = len t + 1.
Proof. unfold grow. rewrite length_insert, length_app. simpl. lia. Qed.

Lemma lookup_grow k m :
  grow t i s n !! k = Some m ->
  k = length t /\ m = TopicNode.mk i s ∅ [] []
  \/ exists m', t !! k = Some m' /\ TopicNode.parent m = TopicNode.parent m'
     /\ TopicNode.segment m = TopicNode.segment m'
     /\ TopicNode.subscribers m = TopicNode.subscribers m'
     /\ TopicNode.wildcard_subscribers m = TopicNode.wildcard_subscribers m'.
Proof.
  pose proof grow_lt. unfold grow. destruct (decide (k = Z.to_nat i)) as [->|Hk].
  - rewrite list_lookup_insert_eq by (rewrite length_app; lia). intros [= <-].
    right. by exists n.
  - rewrite list_lookup_insert_ne by done. rewrite lookup_app.
    destruct (t !! k) as [m'|] eqn:Hm; [intros [= <-]; right; by exists m' |].
    apply lookup_ge_None in Hm. destruct (k - length t)%nat as [|d] eqn:Hd; [| done].
    intros [= <-]. left. split; [lia | done].
Qed.

Lemma child_grow j s' :
  0 <= j ->
  child (grow t i s n) j s' = if decide (j = i /\ s' = s) then Some (len t) else child t j s'.
Proof.
  intros Hj. pose proof grow_lt. unfold child, grow. destruct (decide (j = i)) as [->|Hne].
  - rewrite list_lookup_insert_eq by (rewrite length_app; lia). rewrite Hn. simpl.
    case_decide as Hd.
    + destruct Hd as [_ ->]. apply lookup_insert_eq.
    + rewrite lookup_insert_ne by (intros <-; tauto). done.
  - rewrite decide_False by tauto. rewrite list_lookup_insert_ne by lia. rewrite lookup_app.
    destruct (t !! Z.to_nat j) as [m|] eqn:Hm; [done |]. simpl.
    destruct (Z.to_nat j - length t)%nat as [|d]; [| done]. apply lookup_empty.
Qed.

Lemma grow_leaf s' : child (grow t i s n) (len t) s' = None.
Proof.
  pose proof grow_lt. rewrite child_grow by lia. rewrite decide_False by lia.
  unfold child. rewrite lookup_ge_None_2 by lia. done.
Qed.

Lemma walk_grow_mono p j k : in_range t j -> walk t j p = Some k -> walk (grow t i s n) j p = Some k.
Proof.
  revert j. induction p as [|s' p IH]; intros j Hj H; [done |]. simpl in *.
  destruct (child t j s') as [c|] eqn:Hc; [| done]. simpl in H.
  rewrite child_grow by apply Hj. rewrite decide_False.
  2: { intros [-> ->]. congruence. }
  rewrite Hc. simpl. apply IH; [| done].
  apply (t_child t Hok) in Hc as [Hc _]; unfold in_range in *; lia.
Qed.

Lemma walk_grow_inv p j k :
  in_range t j -> walk (grow t i s n) j p = Some k -> walk t j p = Some k \/ k = len t.
Proof.
  revert j. induction p as [|s' p IH]; intros j Hj H; [by left |]. simpl in H.
  destruct (child (grow t i s n) j s') as [c|] eqn:Hc; [| done]. simpl in H.
  rewrite child_grow in Hc by apply Hj. case_decide as Hd.
  - injection Hc as <-. right. destruct p as [|s'' p]; simpl in H; [by simplify_eq |].
    by rewrite grow_leaf in H.
  - simpl. rewrite Hc. simpl. apply IH; [| done].
    apply (t_child t Hok) in Hc as [Hc _]; unfold in_range in *; lia.
Qed.

Lemma tree_ok_grow : len t < 4294967296 -> tree_ok (grow t i s n).
Proof.
  intros Hl. pose proof grow_lt. split.
  - rewrite len_grow. lia.
  - destruct (t_root t Hok) as (r & Hr & Hseg & Hsub). unfold grow.
    destruct (decide (Z.to_nat i = 0%nat)) as [E|E].
    + rewrite E in *. rewrite list_lookup_insert_eq by (rewrite length_app; lia).
      rewrite Hr in Hn. injection Hn as <-. by eexists.
    + rewrite list_lookup_insert_ne by done. rewrite lookup_app, Hr. by eexists.
  - intros j s' c Hj Hc. rewrite child_grow in Hc by done. rewrite len_grow. case_decide as Hd.
    + injection Hc as <-. destruct Hd as [-> ->]. split; [lia |].
      unfold grow. rewrite list_lookup_insert_ne by lia. rewrite Nat2Z.id, lookup_app_r by lia.
      rewrite Nat.sub_diag. by eexists.
    + apply (t_child t Hok) in Hc as [Hc (m & Hm & Hp & Hs)]; [| done]. split; [lia |].
      unfold grow. destruct (decide (Z.to_nat c = Z.to_nat i)) as [E|E].
      * rewrite E, list_lookup_insert_eq by (rewrite length_app; lia).
        rewrite E, Hn in Hm. injection Hm as <-. by eexists.
      * rewrite list_lookup_insert_ne by done. rewrite lookup_app, Hm. by eexists.
  - intros k m Hm. apply lookup_grow in Hm as [[_ ->]|(m' & Hm' & _ & E1 & E2 & E3)].
    + repeat split; simpl; try constructor; done.
    + apply (t_lists t Hok) in Hm'. unfold lists_ok in *. by rewrite E1, E2, E3.
Qed.

(** Growing the tree adds no subscription and loses none. *)
Lemma subscribers_at_grow f : subscribers_at (grow t i s n) f = subscribers_at t f.
Proof.
  pose proof (root_in_range t Hok) as Hr. unfold subscribers_at.
  destruct (list.last f) as [seg|]; [| by repeat case_match].
  destruct (walk t ROOT_NODE f) as [k|] eqn:Hk.
  - rewrite (walk_grow_mono _ _ _ Hr Hk).
    destruct (in_range_lookup t k (walk_in_range t Hok _ _ _ Hr Hk)) as [m Hm]. rewrite Hm.
    destruct (grow t i s n !! Z.to_nat k) as [m'|] eqn:Hm'.
    + apply lookup_grow in Hm' as [[E _]|(m1 & Hm1 & _ & _ & E2 & E3)].
      * apply lookup_lt_Some in Hm. lia.
      * rewrite Hm in Hm1. injection Hm1 as <-. unfold list_of. by rewrite E2, E3.
    + apply lookup_ge_None in Hm'. apply lookup_lt_Some in Hm. pose proof len_grow. lia.
  - destruct (walk (grow t i s n) ROOT_NODE f) as [k|] eqn:Hk'; [| done].
    apply walk_grow_inv in Hk' as [?| ->]; [congruence | | done].
    destruct (grow t i s n !! Z.to_nat (len t)) as [m'|] eqn:Hm'; [| done].
    apply lookup_grow in Hm' as [[_ ->]|(m1 & Hm1 & _)].
    + unfold list_of. by case_bool_decide.
    + rewrite Nat2Z.id in Hm1. apply lookup_lt_Some in Hm1. lia.
Qed.
End grow.

Lemma ensure_path_from_cons t i n s p :
  t !! Z.to_nat i = Some n ->
  ensure_path_from i (s :: p) t
  = match TopicNode.children n !! s with
    | Some c => ensure_path_from c p t
    | None =>
        ensure_path_from (u32 (len t)) p
          (<[Z.to_nat i := n <| TopicNode.children := <[s := u32 (len t)]> (TopicNode.children n) |>]>
            (t ++ [TopicNode.mk i s ∅ [] []]))
    end.
Proof.
  intros Hn. cbn [ensure_path_from]. rewrite (bind_node_at _ _ _ _ Hn).
  destruct (TopicNode.children n !! s) as [c|]; [done |].
  unfold gets, modify. unfold mbind at 1, M_bind at 1. unfold mbind at 1, M_bind at 1.
  by rewrite (bind_update_node _ _ _ n) by (rewrite lookup_app, Hn; done).
Qed.

(** Whatever the tree, [ensure_path] adds at most a node per segment. *)
Lemma ensure_path_from_len p : forall t i,
  len t <= len (ensure_path_from i p t).2 <= len t + len p.
Proof.
  induction p as [|s p IH]; intros t i; [simpl; lia |].
  destruct (t !! Z.to_nat i) as [n|] eqn:Hn.
  - rewrite (ensure_path_from_cons t i n s p Hn). cbn [length].
    destruct (TopicNode.children n !! s) as [c|].
    + pose proof (IH t c). lia.
    + match goal with |- context [ensure_path_from ?c p ?t'] => pose proof (IH t' c) as H end.
      rewrite length_insert, length_app in H. simpl length in H. lia.
  - assert (E : ensure_path_from i (s :: p) t = (Panic, t)).
    { cbn [ensure_path_from]. unfold node_at, lift. unfold mbind at 1, M_bind at 1.
      by rewrite bind_get, Hn. }
    rewrite E. simpl. lia.
Qed.

(** [ensure_path] adds the missing nodes and returns the end of the path, as
    long as the indices of the nodes fit their type. *)
Lemma ensure_path_from_run p : forall t i,
  tree_ok t -> in_range t i -> len (ensure_path_from i p t).2 <= 4294967296 ->
  exists j t',
    ensure_path_from i p t = (Ok j, t') /\ tree_ok t' /\ walk t' i p = Some j
    /\ (forall f, subscribers_at t' f = subscribers_at t f)
    /\ (forall a s c, 0 <= a -> child t a s = Some c -> child t' a s = Some c).
Proof.
  induction p as [|s p IH]; intros t i Hok Hi Hl; [by exists i, t |].
  destruct (in_range_lookup t i Hi) as [n Hn].
  rewrite (ensure_path_from_cons t i n s p Hn) in *.
  assert (Hc : child t i s = TopicNode.children n !! s) by (unfold child; by rewrite Hn).
  destruct (TopicNode.children n !! s) as [c|] eqn:Hs.
  - pose proof (t_child t Hok i s c ltac:(apply Hi) Hc) as [Hr _].
    destruct (IH t c Hok) as (j & t' & Hrun & Hok' & Hw & Hsub & Hch);
      [unfold in_range in *; lia | done |].
    exists j, t'. rewrite Hrun. split_and!; try done.
    simpl. rewrite (Hch _ _ _ ltac:(apply Hi) Hc). done.
  - assert (len t < 4294967296).
    { match type of Hl with context [ensure_path_from ?c p ?t'] =>
        pose proof (ensure_path_from_len p t' c) as H end.
      rewrite length_insert, length_app in H. simpl in H. lia. }
    rewrite u32_small in * by lia. fold (grow t i s n) in *.
    pose proof (tree_ok_grow t Hok i s n Hn ltac:(apply Hi) ltac:(lia)) as Hokg.
    pose proof (len_grow t i s n) as Hlg.
    destruct (IH (grow t i s n) (len t) Hokg) as (j & t' & Hrun & Hok' & Hw & Hsub & Hch);
      [unfold in_range; lia | done |].
    pose proof (child_grow t i s n Hn ltac:(apply Hi)) as Hcg.
    exists j, t'. rewrite Hrun. split_and!; try done.
    + simpl. rewrite (Hch i s (len t)); [done | apply Hi |].
      rewrite Hcg by apply Hi. by rewrite decide_True.
    + intros f. rewrite Hsub. apply subscribers_at_grow; try done. apply Hi.
    + intros a s' c Ha Hc'. apply Hch; [done |]. rewrite Hcg by done.
      rewrite decide_False; [done |]. intros [-> ->]. congruence.
Qed.

(** *** Changing the list of one node *)

Section set_list.
Context (t : TopicTree) (Hok : tree_ok t) (p : list rstring) (seg : rstring) (i : Z) (n : TopicNode).
Context (g : list Subscriber -> list Subscriber).
Hypothesis Hw : walk t ROOT_NODE (p ++ [seg]) = Some i.
Hypothesis Hn : t !! Z.to_nat i = Some n.

Let t' : TopicTree := <[Z.to_nat i := on_list seg g n]> t.

Lemma set_list_fields :
  TopicNode.children (on_list seg g n) = TopicNode.children n
  /\ TopicNode.parent (on_list seg g n) = TopicNode.parent n
  /\ TopicNode.segment (on_list seg g n) = TopicNode.segment n.
Proof. unfold on_list. by case_bool_decide. Qed.

Lemma set_list_child j s : child t' j s = child t j s.
Proof.
  unfold child, t'. destruct (decide (Z.to_nat j = Z.to_nat i)) as [->|Hne].
  - rewrite list_lookup_insert_eq by (by eapply lookup_lt_Some). rewrite Hn. simpl.
    by rewrite (proj1 set_list_fields).
  - by rewrite list_lookup_insert_ne by done.
Qed.

Lemma set_list_walk j q : walk t' j q = walk t j q.
Proof.
  revert j. induction q as [|s q IH]; intros j; [done |]. simpl. rewrite set_list_child.
  destruct (child t j s); simpl; [apply IH | done].
Qed.

Lemma node_named : TopicNode.segment n = seg /\ 0 < i.
Proof.
  destruct (walk_snoc t Hok p seg i Hw) as (j & m & _ & Hj & Hm & _ & Hs).
  rewrite Hn in Hm. injection Hm as <-. split; [done | lia].
Qed.

Lemma set_list_tree_ok :
  (NoDup (Subscriber.session_id <$> list_of seg n) ->
   NoDup (Subscriber.session_id <$> g (list_of seg n))) ->
  tree_ok t'.
Proof.
  intros Hg. destruct node_named as [Hseg Hi]. destruct set_list_fields as (Hc & Hp & Hs).
  pose proof (lookup_lt_Some _ _ _ Hn) as Hlt. split.
  - unfold t'. rewrite length_insert. apply (t_size t Hok).
  - unfold t'. rewrite list_lookup_insert_ne by lia. apply (t_root t Hok).
  - intros j s c Hj Hcj. rewrite set_list_child in Hcj. unfold t'. rewrite length_insert.
    apply (t_child t Hok) in Hcj as [Hr (m & Hm & Hpm & Hsm)]; [| done]. split; [done |].
    destruct (decide (Z.to_nat c = Z.to_nat i)) as [E|E].
    + rewrite E, list_lookup_insert_eq by done. rewrite E, Hn in Hm. injection Hm as <-.
      eexists. split; [done |]. by rewrite Hp, Hs.
    + rewrite list_lookup_insert_ne by done. eauto.
  - intros k m Hm. unfold t' in Hm. destruct (decide (k = Z.to_nat i)) as [->|Hne].
    + rewrite list_lookup_insert_eq in Hm by done. injection Hm as <-.
      pose proof (t_lists t Hok _ _ Hn) as (H1 & H2 & H3 & H4). unfold lists_ok.
      rewrite Hs. unfold on_list, list_of in *.
      case_bool_decide as E; simpl; split_and!; try done; [by apply Hg | | by apply Hg |];
        intros; exfalso; congruence.
    + rewrite list_lookup_insert_ne in Hm by done. by apply (t_lists t Hok k).
Qed.

(** The subscribers of the filter change, those of the other filters do not. *)
Lemma set_list_subscribers f :
  subscribers_at t' f
  = if decide (f = p ++ [seg]) then g (subscribers_at t (p ++ [seg])) else subscribers_at t f.
Proof.
  unfold subscribers_at. rewrite !set_list_walk. case_decide as Hf.
  - subst f. rewrite Hw, last_snoc. unfold t'.
    rewrite list_lookup_insert_eq by (by eapply lookup_lt_Some). rewrite Hn.
    unfold on_list, list_of. by case_bool_decide.
  - destruct (walk t ROOT_NODE f) as [k|] eqn:Hk; [| done].
    destruct (list.last f); [| done]. unfold t'.
    destruct (decide (Z.to_nat k = Z.to_nat i)) as [E|E]; [| by rewrite list_lookup_insert_ne].
    exfalso. apply Hf. apply (walk_inj t Hok f (p ++ [seg]) i); [| done].
    apply walk_in_range in Hk as Hr; [| done | by apply root_in_range].
    apply walk_in_range in Hw as Hr'; [| done | by apply root_in_range].
    rewrite Hk. f_equal. unfold in_range in *. lia.
Qed.
End set_list.

(** *** Subscriber lists *)

Lemma find_session_cons sid s l :
  find_session sid (s :: l)
  = if decide (Subscriber.session_id s = sid) then Some (Subscriber.qos s, Subscriber.no_local s)
    else find_session sid l.
Proof.
  unfold find_session. simpl. case_decide; [done |].
  by destruct (list_find _ l) as [[]|].
Qed.

Lemma find_session_upsert sid sub l :
  find_session sid (upsert sub l)
  = if decide (sid = Subscriber.session_id sub)
    then Some (Subscriber.qos sub, Subscriber.no_local sub) else find_session sid l.
Proof.
  induction l as [|s l IH]; simpl.
  - rewrite find_session_cons. by do 2 case_decide.
  - case_bool_decide as E; rewrite !find_session_cons; simpl.
    + repeat case_decide; subst; done || congruence.
    + rewrite IH. repeat case_decide; subst; done || congruence.
Qed.

Lemma upsert_ids sub l x :
  x ∈ Subscriber.session_id <$> upsert sub l ->
  x = Subscriber.session_id sub \/ x ∈ Subscriber.session_id <$> l.
Proof.
  induction l as [|s l IH]; simpl; [rewrite list_elem_of_singleton; tauto |].
  case_bool_decide; simpl; rewrite !list.elem_of_cons; tauto.
Qed.

Lemma upsert_nodup sub l :
  NoDup (Subscriber.session_id <$> l) -> NoDup (Subscriber.session_id <$> upsert sub l).
Proof.
  induction l as [|s l IH]; simpl; intros H; [apply NoDup_singleton |].
  apply list.NoDup_cons in H as [H1 H2]. case_bool_decide as E; simpl; apply list.NoDup_cons.
  - done.
  - split; [| by apply IH]. intros [|]%upsert_ids; done.
Qed.

Lemma find_session_retain sid s l :
  find_session sid (retain_others s l) = if decide (sid = s) then None else find_session sid l.
Proof.
  unfold retain_others. induction l as [|x l IH]; simpl; [by case_decide |].
  case_bool_decide as E; simpl; rewrite ?find_session_cons, IH;
    repeat case_decide; subst; done || congruence.
Qed.

Lemma retain_ids s l x :
  x ∈ Subscriber.session_id <$> retain_others s l -> x ∈ Subscriber.session_id <$> l.
Proof.
  unfold retain_others. induction l as [|y l IH]; simpl; [done |].
  case_bool_decide; simpl; rewrite !list.elem_of_cons; tauto.
Qed.

Lemma retain_nodup s l :
  NoDup (Subscriber.session_id <$> l) -> NoDup (Subscriber.session_id <$> retain_others s l).
Proof.
  unfold retain_others. induction l as [|y l IH]; simpl; [done |]. intros H.
  apply list.NoDup_cons in H as [H1 H2]. case_bool_decide; simpl; [by apply IH |].
  apply list.NoDup_cons. split; [| by apply IH]. intros Hin. apply H1. by eapply retain_ids.
Qed.

(** A list gets shorter exactly when the session was in it. *)
Lemma retain_shorter s l :
  (len (retain_others s l) <? len l) = bool_decide (is_Some (find_session s l)).
Proof.
  assert (Hle : forall k, (length (retain_others s k) <= length k)%nat).
  { intros k. unfold retain_others. induction k; simpl; [lia |]. case_bool_decide; simpl; lia. }
  induction l as [|x l IH].
  { rewrite bool_decide_false; [done | by intros [? ?]]. }
  rewrite find_session_cons. unfold retain_others in *. simpl.
  destruct (decide (Subscriber.session_id x = s)) as [E|E].
  - rewrite (bool_decide_true _ E), (bool_decide_true (is_Some _)) by (by eexists). simpl.
    apply Z.ltb_lt. specialize (Hle l). lia.
  - rewrite (bool_decide_false _ E), <- IH. simpl. apply Bool.eq_iff_eq_true.
    rewrite !Z.ltb_lt. lia.
Qed.

Lemma split_slash_snoc s : exists p seg, split_slash s = p ++ [seg].
Proof.
  assert (H : split_slash s <> []).
  { destruct s as [|c s]; simpl; [done |]. destruct (split_slash s); [done |]. by case_match. }
  destruct (split_slash s) as [|x l _] using rev_ind; [done |]. by exists l, x.
Qed.

(** ** The operations implement the abstract map *)

(** The number of nodes after a subscription, on any tree. *)
Lemma subscribe_len_eq t filter sid qos no_local :
  len (subscribe filter sid qos no_local t).2 = len (ensure_path (split_slash filter) t).2.
Proof.
  destruct (split_slash_snoc filter) as (p & seg & Hp). unfold subscribe.
  unfold mbind at 1, M_bind at 1.
  destruct (ensure_path (split_slash filter) t) as [[i| | |] t1]; try done.
  rewrite Hp, last_snoc. simpl. unfold lift, unwrap. unfold mbind at 1, M_bind at 1.
  destruct (t1 !! Z.to_nat i) as [n|] eqn:Hn.
  - rewrite (update_node_run _ _ _ _ Hn). simpl. by rewrite length_insert.
  - unfold update_node, node_at, lift, unwrap, mbind, M_bind, get. by rewrite Hn.
Qed.

Lemma subscribe_len t filter sid qos no_local :
  len t <= len (subscribe filter sid qos no_local t).2 <= len t + len (split_slash filter).
Proof. rewrite subscribe_len_eq. apply ensure_path_from_len. Qed.

Lemma subscribe_run t filter sid qos no_local :
  tree_ok t -> len (subscribe filter sid qos no_local t).2 <= 4294967296 ->
  exists t',
    subscribe filter sid qos no_local t = (Ok tt, t') /\ tree_ok t'
    /\ forall f s, subscription t' f s
         = if decide (f = split_slash filter /\ s = sid) then Some (qos, no_local)
           else subscription t f s.
Proof.
  intros Hok Hl. destruct (split_slash_snoc filter) as (p & seg & Hp).
  rewrite subscribe_len_eq in Hl. unfold subscribe.
  destruct (ensure_path_from_run (split_slash filter) t ROOT_NODE Hok) as
    (i & t1 & Hrun & Hok1 & Hw & Hsub & _); [by apply root_in_range | done |].
  unfold ensure_path. rewrite (bind_ok _ _ _ _ _ Hrun). rewrite Hp in *. rewrite last_snoc. simpl.
  unfold lift, unwrap. unfold mbind, M_bind.
  destruct (in_range_lookup t1 i) as [n Hn].
  { eapply walk_in_range; [done | by apply root_in_range | exact Hw]. }
  rewrite (update_node_run _ _ _ _ Hn). eexists. split; [reflexivity |]. split_and!.
  - apply (set_list_tree_ok t1 Hok1 p seg i n _ Hw Hn). apply upsert_nodup.
  - intros f s. unfold subscription.
    rewrite (set_list_subscribers t1 Hok1 p seg i n _ Hw Hn f), !Hsub.
    case_decide as Hf; [subst f; rewrite find_session_upsert; simpl |].
    + repeat case_decide; try done; tauto.
    + rewrite decide_False by tauto. done.
Qed.

Lemma unsubscribe_run t filter sid :
  tree_ok t ->
  exists t',
    unsubscribe filter sid t
    = (Ok (bool_decide (is_Some (subscription t (split_slash filter) sid))), t')
    /\ tree_ok t' /\ len t' = len t
    /\ forall f s, subscription t' f s
         = if decide (f = split_slash filter /\ s = sid) then None else subscription t f s.
Proof.
  intros Hok. destruct (split_slash_snoc filter) as (p & seg & Hp). unfold unsubscribe, find_path.
  rewrite (bind_ok _ _ _ _ _ (find_path_from_run t ROOT_NODE (split_slash filter) Hok
    (root_in_range t Hok))).
  rewrite Hp in *. destruct (walk t ROOT_NODE (p ++ [seg])) as [i|] eqn:Hw.
  - destruct (in_range_lookup t i) as [n Hn].
    { eapply walk_in_range; [done | by apply root_in_range | exact Hw]. }
    rewrite last_snoc. unfold lift at 1, unwrap at 1, mbind at 1, M_bind at 1.
    rewrite (bind_node_at _ _ _ _ Hn). cbv zeta. rewrite (bind_update_node _ _ _ _ _ Hn).
    erewrite bind_node_at by (apply list_lookup_insert_eq; by eapply lookup_lt_Some).
    assert (Hs : subscribers_at t (p ++ [seg]) = list_of seg n).
    { unfold subscribers_at. by rewrite Hw, last_snoc, Hn. }
    exists (<[Z.to_nat i := on_list seg (retain_others sid) n]> t). split_and!.
    + unfold subscription. rewrite Hs, <- retain_shorter. unfold mret, M_ret, on_list, list_of.
      by destruct (bool_decide (seg = HASH)).
    + apply (set_list_tree_ok t Hok p seg i n _ Hw Hn). apply retain_nodup.
    + by rewrite length_insert.
    + intros f s. unfold subscription.
      rewrite (set_list_subscribers t Hok p seg i n _ Hw Hn f).
      case_decide as Hf; [subst f; rewrite find_session_retain |].
      * repeat case_decide; try done; tauto.
      * rewrite decide_False by tauto. done.
  - assert (Hn : forall s, subscription t (p ++ [seg]) s = None).
    { intros s. unfold subscription, subscribers_at. by rewrite Hw. }
    exists t. rewrite Hn. split_and!; try done. intros f s. case_decide as E; [| done].
    destruct E as [-> ->]. apply Hn.
Qed.

(** *** Leaving every filter *)

Definition clear_session (sid : rstring) (n : TopicNode) : TopicNode :=
  n <| TopicNode.subscribers := retain_others sid (TopicNode.subscribers n) |>
    <| TopicNode.wildcard_subscribers := retain_others sid (TopicNode.wildcard_subscribers n) |>.

Section clear_session.
Context (t : TopicTree) (Hok : tree_ok t) (sid : rstring).

Let t' : TopicTree := clear_session sid <$> t.

Lemma clear_child i s : child t' i s = child t i s.
Proof. unfold child, t'. rewrite list_lookup_fmap. by destruct (t !! Z.to_nat i). Qed.

Lemma clear_walk i p : walk t' i p = walk t i p.
Proof.
  revert i. induction p as [|s p IH]; intros i; [done |]. simpl. rewrite clear_child.
  destruct (child t i s); simpl; [apply IH | done].
Qed.

Lemma clear_subscribers_at f : subscribers_at t' f = retain_others sid (subscribers_at t f).
Proof.
  unfold subscribers_at. rewrite clear_walk. destruct (walk t ROOT_NODE f) as [i|]; [| done].
  destruct (list.last f) as [seg|]; [| done]. unfold t'. rewrite list_lookup_fmap.
  destruct (t !! Z.to_nat i) as [n|]; [| done]. simpl. unfold list_of. by case_bool_decide.
Qed.

Lemma clear_lists_ok n : lists_ok n -> lists_ok (clear_session sid n).
Proof.
  intros (H1 & H2 & H3 & H4). split_and!; simpl; [by apply retain_nodup .. | |].
  - intros H. by rewrite H3.
  - intros H. by rewrite H4.
Qed.

Lemma clear_tree_ok : tree_ok t'.
Proof.
  unfold t'. split.
  - rewrite length_fmap. apply (t_size t Hok).
  - destruct (t_root t Hok) as (n & Hn & Hs & Hl). rewrite list_lookup_fmap, Hn.
    eexists. split; [done |]. simpl. by rewrite Hl.
  - intros i s c Hi Hc'. pose proof (clear_child i s) as Hc. unfold t' in Hc. rewrite Hc' in Hc.
    symmetry in Hc. rewrite length_fmap, list_lookup_fmap.
    apply (t_child t Hok) in Hc as [Hc (n & -> & Hp & Hs)]; [| done].
    split; [done |]. by eexists.
  - intros i n Hn. rewrite list_lookup_fmap in Hn. destruct (t !! i) as [m|] eqn:Hm; [| done].
    injection Hn as <-. apply clear_lists_ok. by apply (t_lists t Hok i).
Qed.
End clear_session.

Lemma unsubscribe_all_run t sid :
  tree_ok t ->
  exists t',
    unsubscribe_all sid t = (Ok tt, t') /\ tree_ok t' /\ len t' = len t
    /\ forall f s, subscription t' f s = if decide (s = sid) then None else subscription t f s.
Proof.
  intros Hok. exists (clear_session sid <$> t). split_and!; [done | by apply clear_tree_ok | |].
  - by rewrite length_fmap.
  - intros f s. unfold subscription. rewrite (clear_subscribers_at t sid f).
    apply find_session_retain.
Qed.

(** *** Matching *)

Lemma filter_matches_nil g : filter_matches g [] = true <-> g = [] \/ g = [HASH].
Proof.
  destruct g as [|f fs]; simpl; [tauto |]. split.
  - destruct (decide (f = HASH)) as [->|]; [destruct (decide (fs = [])) as [->|] |].
    + by right.
    + by rewrite (bool_decide_false (fs = [])), andb_false_r.
    + by rewrite bool_decide_false.
  - intros [H|H]; [done | by injection H as -> ->].
Qed.

Lemma filter_matches_cons g s topic :
  s <> HASH ->
  filter_matches g (s :: topic) = true
  <-> g = [HASH] \/ exists f fs, g = f :: fs /\ (f = s \/ f = PLUS) /\ filter_matches fs topic = true.
Proof.
  intros Hs. destruct g as [|f fs]; simpl.
  { split; [done | by intros [?|(?&?&?&?)]]. }
  destruct (bool_decide (f = HASH) && bool_decide (fs = [])) eqn:E.
  - apply andb_prop in E as [->%bool_decide_eq_true ->%bool_decide_eq_true]. tauto.
  - rewrite andb_true_iff, orb_true_iff, !bool_decide_eq_true. split.
    + intros [H1 H2]. right. exists f, fs. tauto.
    + intros [H|(f' & fs' & H & H1 & H2)]; injection H as -> ->; [by simpl in E | tauto].
Qed.

Lemma find_session_elem l x :
  NoDup (Subscriber.session_id <$> l) ->
  x ∈ l <-> find_session (Subscriber.session_id x) l = Some (Subscriber.qos x, Subscriber.no_local x).
Proof.
  induction l as [|y l IH]; [by split; [intros ?%list.elem_of_nil |] |].
  simpl. intros [H1 H2]%list.NoDup_cons. rewrite find_session_cons, list.elem_of_cons, (IH H2).
  split.
  - intros [->|Hx]; [by rewrite decide_True |]. rewrite decide_False; [done |].
    intros E. apply H1. rewrite E. apply list_elem_of_fmap_2. by apply (IH H2).
  - case_decide as E; [| tauto]. intros [= E1 E2]. left. destruct x, y; simpl in *. congruence.
Qed.

Lemma subscribers_nodup t f : tree_ok t -> NoDup (Subscriber.session_id <$> subscribers_at t f).
Proof.
  intros Hok. unfold subscribers_at.
  destruct (walk t ROOT_NODE f) as [i|]; [| constructor].
  destruct (list.last f) as [seg|]; [| constructor].
  destruct (t !! Z.to_nat i) as [n|] eqn:Hn; [| constructor].
  apply (t_lists t Hok) in Hn as (H1 & H2 & _). unfold list_of. by case_bool_decide.
Qed.

Section matching.
Context (t : TopicTree) (Hok : tree_ok t).

Lemma walk_node q i : walk t ROOT_NODE q = Some i -> exists n, t !! Z.to_nat i = Some n.
Proof.
  intros Hw. apply in_range_lookup. eapply walk_in_range; [done | by apply root_in_range | exact Hw].
Qed.

(** The entries of a filter [q ++ s :: g], seen from the node of [q]. *)
Lemma subscribers_below q i n s g :
  walk t ROOT_NODE q = Some i -> t !! Z.to_nat i = Some n ->
  TopicNode.children n !! s = None -> subscribers_at t (q ++ s :: g) = [].
Proof.
  intros Hw Hn Hs. unfold subscribers_at. rewrite walk_app, Hw. simpl. unfold child.
  by rewrite Hn; simpl; rewrite Hs.
Qed.

Lemma walk_down q i n s c :
  walk t ROOT_NODE q = Some i -> t !! Z.to_nat i = Some n ->
  TopicNode.children n !! s = Some c -> walk t ROOT_NODE (q ++ [s]) = Some c.
Proof.
  intros Hw Hn Hs. rewrite walk_app, Hw. simpl. unfold child. rewrite Hn. simpl. by rewrite Hs.
Qed.

Lemma hash_subscribers_run q i n :
  walk t ROOT_NODE q = Some i -> t !! Z.to_nat i = Some n ->
  hash_subscribers n t = (Ok (subscribers_at t (q ++ [HASH])), t).
Proof.
  intros Hw Hn. unfold hash_subscribers.
  destruct (TopicNode.children n !! HASH) as [c|] eqn:Hc.
  - pose proof (walk_down _ _ _ _ _ Hw Hn Hc) as Hw'. destruct (walk_node _ _ Hw') as [m Hm].
    rewrite (bind_node_at _ _ _ _ Hm). unfold subscribers_at. by rewrite Hw', last_snoc, Hm.
  - by rewrite (subscribers_below _ _ _ _ [] Hw Hn Hc).
Qed.

(** A node that is not a [#] node holds its subscribers in the plain list. *)
Lemma plain_node q i n :
  walk t ROOT_NODE q = Some i -> t !! Z.to_nat i = Some n -> list.last q <> Some HASH ->
  TopicNode.wildcard_subscribers n = [] /\ TopicNode.subscribers n = subscribers_at t q.
Proof.
  intros Hw Hn Hq. pose proof (t_lists t Hok _ _ Hn) as (_ & _ & _ & H4).
  destruct q as [|seg q _] using rev_ind.
  - injection Hw as <-. destruct (t_root t Hok) as (m & Hm & Hs & Hl).
    change (t !! 0%nat = Some n) in Hn. rewrite Hm in Hn. injection Hn as <-.
    split; [by apply H4; rewrite Hs | done].
  - rewrite last_snoc in Hq. pose proof (node_named t Hok q seg i n Hw Hn) as [Hs _].
    unfold subscribers_at. rewrite Hw, last_snoc, Hn. unfold list_of.
    rewrite bool_decide_false by congruence. split; [apply H4; congruence | done].
Qed.

(** The filters that match a topic, in the order of the search. *)
Fixpoint matching_filters (topic : list rstring) : list (list rstring) :=
  match topic with
  | [] => [[]; [HASH]]
  | s :: topic =>
      (cons s <$> matching_filters topic) ++ (cons PLUS <$> matching_filters topic) ++ [[HASH]]
  end.

Lemma elem_of_matching_filters topic g :
  topic_name topic -> g ∈ matching_filters topic <-> filter_matches g topic = true.
Proof.
  revert g. induction topic as [|s topic IH]; intros g [Hp Hh]; cbn [matching_filters].
  - rewrite filter_matches_nil, !list.elem_of_cons, list.elem_of_nil. tauto.
  - assert (Ht : topic_name topic) by (split; intros H; [apply Hp | apply Hh]; by right).
    rewrite filter_matches_cons by (intros ->; apply Hh; by left).
    rewrite !list.elem_of_app, !list_elem_of_fmap, list_elem_of_singleton. split.
    + intros [(g' & -> & H)|[(g' & -> & H)|H]]; [right | right | by left];
        (do 2 eexists; split; [done |]); rewrite <- IH by done; tauto.
    + intros [->|(f & fs & -> & [->| ->] & H)]; [tauto | left | right; left];
        exists fs; (split; [done |]); by apply IH.
Qed.

Lemma matching_filters_nodup topic : topic_name topic -> NoDup (matching_filters topic).
Proof.
  induction topic as [|s topic IH]; intros [Hp Hh]; cbn [matching_filters].
  { apply list.NoDup_cons; split; [by rewrite list_elem_of_singleton | apply NoDup_singleton]. }
  assert (Hn : NoDup (matching_filters topic)).
  { apply IH. split; intros H; [apply Hp | apply Hh]; by right. }
  apply list.NoDup_app. split_and!; [by apply NoDup_fmap_2; [apply _ |] | |].
  - intros g (g' & -> & _)%list_elem_of_fmap. rewrite list.elem_of_app, list_elem_of_fmap, list_elem_of_singleton.
    intros [(g'' & [= -> _] & _)|[= -> _]]; [apply Hp | apply Hh]; by left.
  - apply list.NoDup_app. split_and!; [by apply NoDup_fmap_2; [apply _ |] | | apply NoDup_singleton].
    intros g (g' & -> & _)%list_elem_of_fmap. by rewrite list_elem_of_singleton.
Qed.

(** One branch of the search: the child of a level, where there is one. *)
Lemma collect_branch q i n s topic l :
  (forall c, walk t ROOT_NODE (q ++ [s]) = Some c ->
     collect_matches c topic t = (Ok (l ≫= fun g => subscribers_at t ((q ++ [s]) ++ g)), t)) ->
  walk t ROOT_NODE q = Some i -> t !! Z.to_nat i = Some n ->
  match TopicNode.children n !! s with Some c => collect_matches c topic | None => mret [] end t
  = (Ok ((cons s <$> l) ≫= fun g => subscribers_at t (q ++ g)), t).
Proof.
  intros IH Hw Hn. assert (Hl : (cons s <$> l) ≫= (fun g => subscribers_at t (q ++ g))
    = l ≫= fun g => subscribers_at t ((q ++ [s]) ++ g)).
  { clear. induction l as [|g l IH]; [done |]. simpl. f_equal; [by rewrite <- app_assoc | apply IH]. }
  rewrite Hl. destruct (TopicNode.children n !! s) as [c|] eqn:Hc; [by apply IH, walk_down with i n |].
  unfold mret, M_ret. do 2 f_equal. clear IH Hl. induction l as [|g l IH]; [done |]. simpl.
  rewrite <- app_assoc. simpl. by rewrite (subscribers_below _ _ _ _ _ Hw Hn Hc).
Qed.

(** The search appends the subscribers of every filter that matches, each
    filter once. *)
Lemma collect_matches_run topic : forall q i,
  topic_name topic -> walk t ROOT_NODE q = Some i -> list.last q <> Some HASH ->
  collect_matches i topic t = (Ok (matching_filters topic ≫= fun g => subscribers_at t (q ++ g)), t).
Proof.
  induction topic as [|s topic IH]; intros q i [Hp Hh] Hw Hq;
    destruct (walk_node _ _ Hw) as [n Hn]; destruct (plain_node _ _ _ Hw Hn Hq) as [Hwild Hplain];
    cbn [collect_matches matching_filters]; rewrite (bind_node_at _ _ _ _ Hn).
  - rewrite (bind_ok _ _ _ _ _ (hash_subscribers_run _ _ _ Hw Hn)), Hwild, Hplain.
    cbn. by rewrite !app_nil_r.
  - assert (IHs : forall s', s' = s \/ s' = PLUS -> forall c,
        walk t ROOT_NODE (q ++ [s']) = Some c ->
        collect_matches c topic t
        = (Ok (matching_filters topic ≫= fun g => subscribers_at t ((q ++ [s']) ++ g)), t)).
    { intros s' Hs' c Hc. apply IH; [| done |].
      - split; intros H; [apply Hp | apply Hh]; by right.
      - rewrite last_snoc. destruct Hs' as [->| ->]; [| done].
        intros [= ->]. apply Hh. by left. }
    rewrite (bind_ok _ _ _ _ _ (collect_branch q i n s topic _ (IHs s (or_introl eq_refl)) Hw Hn)).
    rewrite (bind_ok _ _ _ _ _ (collect_branch q i n PLUS topic _ (IHs PLUS (or_intror eq_refl)) Hw Hn)).
    rewrite (bind_ok _ _ _ _ _ (hash_subscribers_run _ _ _ Hw Hn)), Hwild, !bind_app.
    cbn [mbind list_bind]. unfold mret, M_ret. by rewrite !app_nil_r.
Qed.
End matching.

(** Topics with wildcard levels, which a publisher may send, are searched too. *)
Lemma collect_matches_total t topic : tree_ok t -> forall i,
  in_range t i -> exists r, collect_matches i topic t = (Ok r, t).
Proof.
  intros Hok. assert (Hc : forall i n s c, in_range t i -> t !! Z.to_nat i = Some n ->
    TopicNode.children n !! s = Some c -> in_range t c).
  { intros i n s c Hi Hn Hs. assert (Hch : child t i s = Some c) by (unfold child; by rewrite Hn).
    apply (t_child t Hok) in Hch as [Hch _]; unfold in_range in *; lia. }
  assert (Hh : forall i n, in_range t i -> t !! Z.to_nat i = Some n ->
    exists r, hash_subscribers n t = (Ok r, t)).
  { intros i n Hi Hn. unfold hash_subscribers.
    destruct (TopicNode.children n !! HASH) as [c|] eqn:E; [| by eexists].
    destruct (in_range_lookup t c) as [m Hm]; [by eapply Hc |].
    rewrite (bind_node_at _ _ _ _ Hm). by eexists. }
  induction topic as [|s topic IH]; intros i Hi; destruct (in_range_lookup t i Hi) as [n Hn];
    destruct (Hh i n Hi Hn) as [rh Hrh]; cbn [collect_matches]; rewrite (bind_node_at _ _ _ _ Hn).
  - rewrite (bind_ok _ _ _ _ _ Hrh). by eexists.
  - assert (Hb : forall s, exists r, (match TopicNode.children n !! s with
      | Some c => collect_matches c topic | None => mret [] end) t = (Ok r, t)).
    { intros s'. destruct (TopicNode.children n !! s') as [c|] eqn:E; [| by eexists].
      apply IH. by eapply Hc. }
    destruct (Hb s) as [r1 H1], (Hb PLUS) as [r2 H2].
    rewrite (bind_ok _ _ _ _ _ H1), (bind_ok _ _ _ _ _ H2), (bind_ok _ _ _ _ _ Hrh). by eexists.
Qed.

Lemma matching_total t topic :
  tree_ok t -> exists r, matching_subscribers topic t = (Ok r, t).
Proof. intros Hok. apply collect_matches_total; [done | by apply root_in_range]. Qed.

(** *** No operation removes a node, on any tree *)

Definition grows {A} (m : Tree A) : Prop := forall t, len t <= len (m t).2.

Lemma grows_bind {A C} (m : Tree A) (k : A -> Tree C) :
  grows m -> (forall a, grows (k a)) -> grows (m ≫= k).
Proof.
  intros Hm Hk t. specialize (Hm t). unfold mbind, M_bind.
  destruct (m t) as [[a| | |] t1]; try done. simpl in *. pose proof (Hk a t1). lia.
Qed.

Lemma grows_pure {A} (o : outcome Empty_set A) : grows (lift o).
Proof. intros t. simpl. lia. Qed.

Lemma grows_ret {A} (a : A) : grows (mret a).
Proof. apply (grows_pure (Ok a)). Qed.

Lemma grows_node_at i : grows (node_at i).
Proof. intros t. simpl. lia. Qed.

Lemma grows_update_node i f : grows (update_node i f).
Proof.
  apply grows_bind; [apply grows_node_at |]. intros n t. simpl. rewrite length_insert. lia.
Qed.

Create HintDb grows.
#[local] Hint Resolve grows_bind grows_pure grows_ret grows_node_at grows_update_node : grows.

Lemma grows_find_path_from p : forall i, grows (find_path_from i p).
Proof.
  induction p as [|s p IH]; intros i; simpl; [auto with grows |].
  apply grows_bind; [auto with grows |]. intros n. destruct (_ !! s); auto with grows.
Qed.

Lemma grows_hash n : grows (hash_subscribers n).
Proof. unfold hash_subscribers. destruct (_ !! _); auto with grows. Qed.

#[local] Hint Resolve grows_find_path_from grows_hash : grows.

Lemma grows_unsubscribe filter sid : grows (unsubscribe filter sid).
Proof.
  apply grows_bind; [apply grows_find_path_from |]. intros [i|]; [| auto with grows].
  repeat (apply grows_bind; [auto with grows |]; intros ?). auto with grows.
Qed.

Lemma grows_collect p : forall i, grows (collect_matches i p).
Proof.
  induction p as [|s p IH]; intros i; simpl; (apply grows_bind; [auto with grows |]); intros n.
  - apply grows_bind; auto with grows.
  - repeat (apply grows_bind; [repeat case_match; auto with grows |]; intros ?). auto with grows.
Qed.

(** *** The abstract subscription table *)

(** What the broker promises: one entry per filter and session. *)
Abbreviation table := (gmap (list rstring * rstring) (QoSLevel * bool)).

Definition implements (t : TopicTree) (m : table) : Prop :=
  tree_ok t /\ forall f s, subscription t f s = m !! (f, s).

Lemma implements_new : implements TopicTree_new ∅.
Proof.
  split; [apply tree_ok_new |]. intros f s. rewrite lookup_empty. unfold subscription, subscribers_at.
  destruct f as [|x f]; [done |]. simpl walk. unfold child. simpl. by rewrite lookup_empty.
Qed.

Lemma implements_insert t m t' f s o :
  implements t m -> tree_ok t' ->
  (forall f' s', subscription t' f' s'
     = if decide (f' = f /\ s' = s) then Some o else subscription t f' s') ->
  implements t' (<[(f, s) := o]> m).
Proof.
  intros [_ Hm] Hok Hsub. split; [done |]. intros f' s'. rewrite Hsub, Hm. case_decide as E.
  - destruct E as [-> ->]. by rewrite lookup_insert_eq.
  - rewrite lookup_insert_ne; [done | intros [= H1 H2]; by apply E].
Qed.

Lemma subscribe_adds t m filter sid qos no_local :
  implements t m -> len (subscribe filter sid qos no_local t).2 <= 4294967296 ->
  exists t', subscribe filter sid qos no_local t = (Ok tt, t')
    /\ implements t' (<[(split_slash filter, sid) := (qos, no_local)]> m).
Proof.
  intros Him Hl. destruct (subscribe_run t filter sid qos no_local (proj1 Him) Hl) as
    (t' & Hrun & Hok' & Hsub). exists t'. split; [done |]. by eapply implements_insert.
Qed.

(** C5: [TopicTree::subscribe] implements insertion into the subscription table:
    the entry of exactly that filter and session is set to the given options,
    replacing earlier ones, and the tree stays well formed.  The vector must
    have room for one node per level in its [u32] index space. *)
Theorem subscribe_implements t m filter sid qos no_local :
  implements t m -> len t + len (split_slash filter) <= 4294967296 ->
  exists t', subscribe filter sid qos no_local t = (Ok tt, t')
    /\ implements t' (<[(split_slash filter, sid) := (qos, no_local)]> m).
Proof.
  intros Him Hl. apply subscribe_adds; [done |].
  pose proof (subscribe_len t filter sid qos no_local). lia.
Qed.

Lemma unsubscribe_deletes t m filter sid :
  implements t m ->
  exists t', unsubscribe filter sid t
      = (Ok (bool_decide (is_Some (m !! (split_slash filter, sid)))), t')
    /\ implements t' (delete (split_slash filter, sid) m).
Proof.
  intros [Hok Hm]. destruct (unsubscribe_run t filter sid Hok) as (t' & Hrun & Hok' & _ & Hsub).
  exists t'. rewrite Hrun, Hm. split; [done |]. split; [done |]. intros f s.
  rewrite Hsub, Hm. case_decide as E.
  - destruct E as [-> ->]. by rewrite lookup_delete_eq.
  - rewrite lookup_delete_ne; [done | intros [= H1 H2]; by apply E].
Qed.

(** C6: [TopicTree::unsubscribe] implements deletion from the subscription table
    and answers whether the entry was there. *)
Theorem unsubscribe_implements t m filter sid :
  implements t m ->
  exists t', unsubscribe filter sid t
      = (Ok (bool_decide (is_Some (m !! (split_slash filter, sid)))), t')
    /\ implements t' (delete (split_slash filter, sid) m).
Proof. apply unsubscribe_deletes. Qed.

(** [TopicTree::unsubscribe_all] removes every entry of the session from the
    subscription table and no other. *)
Theorem unsubscribe_all_implements t m sid :
  implements t m ->
  exists t', unsubscribe_all sid t = (Ok tt, t')
    /\ implements t' (filter (fun e => e.1.2 <> sid) m).
Proof.
  intros [Hok Hm]. destruct (unsubscribe_all_run t sid Hok) as (t' & Hrun & Hok' & _ & Hsub).
  exists t'. split; [done |]. split; [done |]. intros f s. rewrite Hsub, Hm, map_lookup_filter.
  destruct (m !! (f, s)) as [o|]; simpl; [| by case_decide].
  case_decide as E; [by rewrite option_guard_False; [| tauto] | by rewrite option_guard_True].
Qed.

(** The subscribers a topic is due to: one per entry of the table whose filter
    matches. *)
Definition subscriber_of (e : (list rstring * rstring) * (QoSLevel * bool)) : Subscriber :=
  Subscriber.mk e.1.2 e.2.1 e.2.2.

Definition entries_by (matches : list rstring -> list rstring -> bool) (m : table) (topic : rstring)
    : list Subscriber :=
  subscriber_of <$> map_to_list (filter (fun e => matches e.1.1 (split_slash topic) = true) m).

Definition matching_entries : table -> rstring -> list Subscriber := entries_by filter_matches.

Lemma elem_of_entries_by matches m topic x :
  x ∈ entries_by matches m topic
  <-> exists f, matches f (split_slash topic) = true
        /\ m !! (f, Subscriber.session_id x) = Some (Subscriber.qos x, Subscriber.no_local x).
Proof.
  unfold entries_by. rewrite list_elem_of_fmap. split.
  - intros ([[f s] [q nl]] & -> & H). apply elem_of_map_to_list, map_lookup_filter_Some in H as [H1 H2].
    by exists f.
  - intros (f & H1 & H2). exists ((f, Subscriber.session_id x), (Subscriber.qos x, Subscriber.no_local x)).
    split; [by destruct x |]. by apply elem_of_map_to_list, map_lookup_filter_Some.
Qed.

(** The entries of a filter, with the filter and the session they stand under. *)
Definition tagged (t : TopicTree) (f : list rstring)
    : list ((list rstring * rstring) * (QoSLevel * bool)) :=
  (fun x => ((f, Subscriber.session_id x), (Subscriber.qos x, Subscriber.no_local x)))
    <$> subscribers_at t f.

Lemma elem_of_tagged t m f e :
  implements t m -> e ∈ tagged t f <-> e.1.1 = f /\ m !! e.1 = Some e.2.
Proof.
  intros [Hok Hm]. unfold tagged. rewrite list_elem_of_fmap. destruct e as [[f' s] [q nl]]. simpl.
  rewrite <- Hm. split.
  - intros (x & [= -> -> -> ->] & Hx). split; [done |].
    apply find_session_elem; [by apply subscribers_nodup | done].
  - intros [-> H]. exists (Subscriber.mk s q nl). split; [done |].
    apply find_session_elem; [by apply subscribers_nodup | done].
Qed.

Lemma tagged_nodup t f : tree_ok t -> NoDup (tagged t f).
Proof.
  intros Hok. pose proof (subscribers_nodup t f Hok) as H. unfold tagged.
  apply (NoDup_fmap_1 (fun e => e.1.2)). by rewrite <- list_fmap_compose.
Qed.

Lemma tagged_untagged t (l : list (list rstring)) :
  subscriber_of <$> (l ≫= tagged t) = l ≫= subscribers_at t.
Proof.
  induction l as [|f l IH]; [done |]. cbn. rewrite fmap_app, IH. f_equal.
  unfold tagged. rewrite <- list_fmap_compose. rewrite <- (list_fmap_id (subscribers_at t f)) at 2.
  apply list_fmap_ext. by intros ? [] ?.
Qed.

Lemma matching_counts t m topic :
  implements t m -> topic_name (split_slash topic) ->
  exists r, matching_subscribers topic t = (Ok r, t) /\ r ≡ₚ matching_entries m topic.
Proof.
  intros Him Ht. pose proof (proj1 Him) as Hok. eexists. split.
  { apply (collect_matches_run t Hok (split_slash topic) [] ROOT_NODE); done. }
  change (matching_filters (split_slash topic) ≫= subscribers_at t ≡ₚ matching_entries m topic).
  rewrite <- tagged_untagged. apply fmap_Permutation, NoDup_Permutation; [| apply NoDup_map_to_list |].
  - apply NoDup_bind; [| intros; by apply tagged_nodup | by apply matching_filters_nodup].
    intros f f' e _ _ H H'. apply (elem_of_tagged t m) in H as [H _], H' as [H' _]; [congruence | done..].
  - intros [k v]. rewrite elem_of_map_to_list, map_lookup_filter_Some, list_elem_of_bind. simpl.
    setoid_rewrite elem_of_matching_filters; [| done].
    setoid_rewrite (elem_of_tagged t m); [| done]. simpl.
    split; [by intros (f & [<- H] & Hf) | intros [H Hf]; by exists k.1].
Qed.

Lemma matching_finds t m topic :
  implements t m -> topic_name (split_slash topic) ->
  exists r, matching_subscribers topic t = (Ok r, t)
    /\ forall x, x ∈ r <-> exists f, filter_matches f (split_slash topic) = true
         /\ m !! (f, Subscriber.session_id x) = Some (Subscriber.qos x, Subscriber.no_local x).
Proof.
  intros Him Ht. destruct (matching_counts t m topic Him Ht) as (r & Hr & Hp). exists r.
  split; [done |]. intros x. rewrite Hp. apply elem_of_entries_by.
Qed.

(** Without a leading [$] the two rules agree. *)
Lemma entries_unreserved m topic :
  reserved_topic (split_slash topic) = false ->
  entries_by mqtt_matches m topic = matching_entries m topic.
Proof.
  intros H. unfold matching_entries, entries_by. f_equal. f_equal. apply map_filter_ext.
  intros k v _. unfold mqtt_matches. by rewrite H, andb_true_r.
Qed.

(** C4: for every topic name without wildcard levels,
    [TopicTree::matching_subscribers] returns one subscriber for every entry of
    the subscription table whose filter matches the topic by the wildcard rules
    of MQTT 4.7.1, with the entry's options, and nothing else: the result is a
    permutation of these entries, so that an entry occurs exactly once.  It does
    not panic and leaves the tree unchanged.  For a topic that does not begin
    with [$] these are the entries that match by all of MQTT 4.7; for the others
    see [reserved_topics_leak]. *)
Theorem matching_implements t m topic :
  implements t m -> topic_name (split_slash topic) ->
  exists r, matching_subscribers topic t = (Ok r, t)
    /\ r ≡ₚ matching_entries m topic
    /\ (reserved_topic (split_slash topic) = false -> r ≡ₚ entries_by mqtt_matches m topic).
Proof.
  intros Him Ht. destruct (matching_counts t m topic Him Ht) as (r & Hr & Hp).
  exists r. split_and!; [done.. |]. intros H. by rewrite entries_unreserved.
Qed.


(** *** A tree with three subscriptions *)

Definition room1 : rstring := Eval compute in str "sensor/temp/room1".
Definition plus_room1 : rstring := Eval compute in str "sensor/+/room1".
Definition sensor_hash : rstring := Eval compute in str "sensor/#".

Definition sample_tree : TopicTree :=
  ((subscribe room1 (str "a") QoSLevel.AtLeastOnce true ≫= fun _ =>
   subscribe plus_room1 (str "b") QoSLevel.ExactlyOnce false ≫= fun _ =>
   subscribe sensor_hash (str "c") QoSLevel.AtMostOnce false) TopicTree_new).2.

Definition sample_table : table :=
  <[(split_slash sensor_hash, str "c") := (QoSLevel.AtMostOnce, false)]>
  (<[(split_slash plus_room1, str "b") := (QoSLevel.ExactlyOnce, false)]>
  (<[(split_slash room1, str "a") := (QoSLevel.AtLeastOnce, true)]> ∅)).

Lemma sample_implements : implements sample_tree sample_table.
Proof.
  unfold sample_tree.
  destruct (subscribe_adds TopicTree_new ∅ room1 (str "a") QoSLevel.AtLeastOnce true)
    as (t1 & R1 & O1); [apply implements_new | by vm_compute |].
  pose proof (subscribe_len TopicTree_new room1 (str "a") QoSLevel.AtLeastOnce true) as L1.
  rewrite R1 in L1. simpl in L1. rewrite (bind_ok _ _ _ _ _ R1).
  pose proof (subscribe_len t1 plus_room1 (str "b") QoSLevel.ExactlyOnce false) as L2. simpl in L2.
  destruct (subscribe_adds t1 _ plus_room1 (str "b") QoSLevel.ExactlyOnce false O1)
    as (t2 & R2 & O2); [simpl; lia |].
  rewrite R2 in L2. simpl in L2. rewrite (bind_ok _ _ _ _ _ R2).
  pose proof (subscribe_len t2 sensor_hash (str "c") QoSLevel.AtMostOnce false) as L3. simpl in L3.
  destruct (subscribe_adds t2 _ sensor_hash (str "c") QoSLevel.AtMostOnce false O2)
    as (t3 & R3 & O3); [simpl; lia |].
  by rewrite R3.
Qed.

Lemma subscribe_implements_witness :
  exists t', subscribe sensor_hash (str "a") QoSLevel.AtMostOnce false sample_tree = (Ok tt, t')
    /\ implements t' (<[(split_slash sensor_hash, str "a") := (QoSLevel.AtMostOnce, false)]> sample_table).
Proof. apply (subscribe_implements sample_tree sample_table); [apply sample_implements | by vm_compute]. Defined.

Lemma unsubscribe_implements_witness :
  exists t', unsubscribe sensor_hash (str "c") sample_tree = (Ok true, t')
    /\ implements t' (delete (split_slash sensor_hash, str "c") sample_table).
Proof. apply (unsubscribe_implements sample_tree sample_table). apply sample_implements. Defined.

Lemma unsubscribe_all_implements_witness :
  exists t', unsubscribe_all (str "b") sample_tree = (Ok tt, t')
    /\ implements t' (filter (fun e => e.1.2 <> str "b") sample_table).
Proof. apply (unsubscribe_all_implements sample_tree sample_table). apply sample_implements. Defined.

Lemma matching_implements_witness :
  exists r, matching_subscribers room1 sample_tree = (Ok r, sample_tree)
    /\ r ≡ₚ [Subscriber.mk (str "a") QoSLevel.AtLeastOnce true;
            Subscriber.mk (str "b") QoSLevel.ExactlyOnce false;
            Subscriber.mk (str "c") QoSLevel.AtMostOnce false]
    /\ r ≡ₚ entries_by mqtt_matches sample_table room1.
Proof.
  destruct (matching_implements sample_tree sample_table room1) as (r & Hr & H1 & H2);
    [apply sample_implements | split; refine (bool_decide_unpack _ _); by vm_compute |].
  exists r. split_and!; [done | | by apply H2]. rewrite H1.
  refine (bool_decide_unpack _ _). by vm_compute.
Defined.

(** A session that asked for everything receives [$SYS] topics. *)
Definition sys_topic : rstring := Eval compute in str "$SYS/broker/load".

