(* ===== verification/Stream.v ===== *)
(** * vaux-async/src/stream/packet.rs: packets over a byte stream *)
(** [PacketStream] keeps the bytes read so far in a growing buffer and decodes
    the packet at its front, reading more while the decoder reports
    [InsufficientData].  The connection (a TCP or TLS stream of tokio) is the
    class [Transport]: an arbitrary one, which delivers the peer's bytes in
    order, in chunks of its choosing, and may fail at any read. *)

From S2P Require Import Prelude Bytes Codec Fixed Property MacroFacts Acks Publish Packet.

Definition READ_BUFFER_SIZE : Z := 4096.
Definition MAX_BUFFER_SIZE : Z := 4096 * 1024.

Inductive IoErrorKind := WouldBlock | TimedOut | OtherIo.

Module StreamError.
Inductive Error :=
| Io (e : IoErrorKind)
| ReadTimeout (e : IoErrorKind)
| ReadBuffer
| Codec (e : MqttCodecError).
End StreamError.
Abbreviation StreamError := StreamError.Error.

(** [AsyncReadExt::read] into a slice of [n] bytes, [write_all] and [shutdown].
    [t_incoming] is what the peer has sent and the reader has not read yet,
    [t_outgoing] what has been written. *)
Class Transport := {
  t_state : Type;
  t_read : Z -> t_state -> outcome IoErrorKind (list Z) * t_state;
  t_write_all : list Z -> t_state -> outcome IoErrorKind unit * t_state;
  t_shutdown : t_state -> outcome IoErrorKind unit * t_state;
  t_incoming : t_state -> list Z;
  t_outgoing : t_state -> list Z;

  (** a read returns at most [n] bytes, none only at the end of the stream, and
      a failed read loses nothing *)
  read_law n t :
    0 < n ->
    match t_read n t with
    | (Ok c, t') => t_incoming t = c ++ t_incoming t' /\ len c <= n
                    /\ (c = [] -> t_incoming t = [])
    | (Err _, t') => t_incoming t' = t_incoming t
    | _ => False
    end;
  (** and writes nothing *)
  read_outgoing n t : t_outgoing (snd (t_read n t)) = t_outgoing t;
  write_law bs t :
    match t_write_all bs t with
    | (Ok _, t') => t_outgoing t' = t_outgoing t ++ bs /\ t_incoming t' = t_incoming t
    | (Err _, t') => t_incoming t' = t_incoming t
    | _ => False
    end;
}.

(** ** The stream *)

Section stream.
Context {B : Buf} {HI : HashIter} {T : Transport}.

Record PacketStream := mkPacketStream {
  read_buffer : list Z;
  read_offset : Z;
  initial_buffer_size : Z;
  max_buffer_size : Z;
  stream : t_state;
}.

#[export] Instance PacketStream_eta : Eta PacketStream := fun s =>
  mkPacketStream (read_buffer s) (read_offset s) (initial_buffer_size s) (max_buffer_size s)
    (stream s).

Abbreviation Stream := (M PacketStream StreamError).

Definition PacketStream_new (t : t_state) (initial_size max_size : option Z) : PacketStream :=
  let initial := default READ_BUFFER_SIZE initial_size in
  mkPacketStream (replicate (Z.to_nat initial) 0) 0 initial (default MAX_BUFFER_SIZE max_size) t.

Definition buffer_size (s : PacketStream) : Z := len (read_buffer s).

(** [Vec::resize(n, 0)]. *)
Definition vec_resize (n : Z) (v : list Z) : list Z :=
  take (Z.to_nat n) v ++ replicate (Z.to_nat n - length v) 0.

(** [v[..n]]. *)
Definition slice_to (n : Z) (v : list Z) : option (list Z) :=
  if n <=? len v then Some (take (Z.to_nat n) v) else None.

(** [v.copy_within(from..to, 0)]. *)
Definition copy_within (from to : Z) (v : list Z) : list Z :=
  drop (Z.to_nat from) (take (Z.to_nat to) v) ++ drop (Z.to_nat (to - from)) v.

(** Bytes written into the slice [v[off..]]. *)
Definition write_at (off : Z) (c v : list Z) : list Z :=
  take (Z.to_nat off) v ++ c ++ drop (Z.to_nat off + length c) v.

Definition codec_error (e : MqttCodecError) : StreamError := StreamError.Codec e.

(** What becomes of a packet at the front of the buffer; [rest] is what the
    decoder left of its copy of the buffer. *)
Definition take_packet (with_bytes : bool) (bytes_read : Z) (packet : Packet) (decode_len : Z)
    (rest : BytesMut) : Stream (option (Packet * option (list Z))) :=
  if with_bytes then
    match buf_split_to decode_len rest with
    | None => panic
    | Some (packet_bytes, _) =>
        modify (fun s =>
          if len (read_buffer s) <? initial_buffer_size s
          then s <| read_buffer := vec_resize (initial_buffer_size s) (read_buffer s) |> else s)
        ≫= fun _ => mret (Some (packet, Some packet_bytes))
    end
  else
    (if decode_len <? bytes_read then
       modify (fun s => s <| read_buffer := copy_within decode_len bytes_read (read_buffer s) |>
                          <| read_offset := bytes_read - decode_len |>)
     else modify (fun s => s <| read_offset := 0 |>)) ≫= fun _ =>
    mret (Some (packet, None)).

(** The socket read at the end of an iteration: [None] for end of stream. *)
Definition read_more (bytes_read : Z) : Stream (option Z) :=
  s ← get;
  match slice_to (read_offset s) (read_buffer s) with
  | None => panic
  | Some _ =>
      match t_read (len (read_buffer s) - read_offset s) (stream s) with
      | (Ok c, t) =>
          modify (fun s => s <| stream := t |>
                             <| read_buffer := write_at (read_offset s) c (read_buffer s) |>) ≫= fun _ =>
          if (len c =? 0) && (bytes_read =? 0) then mret None
          else
            let bytes_read := bytes_read + len c in
            modify (fun s => s <| read_offset := bytes_read |>) ≫= fun _ =>
            modify (fun s =>
              if len (read_buffer s) <=? read_offset s then
                s <| read_buffer := vec_resize
                       (Z.min (len (read_buffer s) * 2) (max_buffer_size s)) (read_buffer s) |>
              else s) ≫= fun _ =>
            mret (Some bytes_read)
      | (Err e, t) =>
          modify (fun s => s <| stream := t |>) ≫= fun _ =>
          match e with
          | WouldBlock | TimedOut => raise (StreamError.ReadTimeout e)
          | OtherIo => raise (StreamError.Io e)
          end
      | (Panic, t) => modify (fun s => s <| stream := t |>) ≫= fun _ => panic
      | (OutOfFuel, t) => no_fuel
      end
  end.

(** The loop of [read_internal].  Every iteration that reads again has received
    at least a byte, unless the peer has closed the connection: fuel bounds the
    number of reads. *)
Fixpoint read_loop (fuel : nat) (uuid : rstring) (with_bytes : bool) (bytes_read : Z)
    : Stream (option (Packet * option (list Z))) :=
  match fuel with
  | O => no_fuel
  | S fuel =>
      let again : Stream (option (Packet * option (list Z))) :=
        more ← read_more bytes_read;
        match more with
        | None => mret None
        | Some bytes_read => read_loop fuel uuid with_bytes bytes_read
        end in
      if 0 <? bytes_read then
        s ← get;
        match slice_to bytes_read (read_buffer s) with
        | None => panic
        | Some bytes_mut =>
            match codec_decode uuid bytes_mut with
            | (Ok (Some (packet, decode_len)), rest) =>
                take_packet with_bytes bytes_read packet decode_len rest
            | (Ok None, _) => mret None
            | (Err e, _) =>
                match kind e with
                | InsufficientData _ _ =>
                    if max_buffer_size s <=? read_offset s then raise StreamError.ReadBuffer
                    else again
                | _ => raise (codec_error e)
                end
            | (Panic, _) => panic
            | (OutOfFuel, _) => no_fuel
            end
        end
      else again
  end.

Definition read_internal (fuel : nat) (uuid : rstring) (with_bytes : bool)
    : Stream (option (Packet * option (list Z))) :=
  bytes_read ← gets read_offset;
  read_loop fuel uuid with_bytes bytes_read.

Definition read (fuel : nat) (uuid : rstring) : Stream (option Packet) :=
  result ← read_internal fuel uuid false;
  match result with
  | Some (packet, _) => mret (Some packet)
  | None => mret None
  end.

Definition read_raw (fuel : nat) (uuid : rstring) : Stream (option (Packet * list Z)) :=
  result ← read_internal fuel uuid true;
  match result with
  | Some (packet, Some bytes) => mret (Some (packet, bytes))
  | Some (_, None) => raise StreamError.ReadBuffer
  | None => mret None
  end.

Definition write (packet : Packet) : Stream unit :=
  match encode packet [] with
  | (Err e, _) => raise (codec_error e)
  | (Ok _, dest) =>
      s ← get;
      match t_write_all dest (stream s) with
      | (Ok _, t) => modify (fun s => s <| stream := t |>)
      | (Err e, t) => modify (fun s => s <| stream := t |>) ≫= fun _ => raise (StreamError.Io e)
      | _ => panic
      end
  | (Panic, _) => panic
  | (OutOfFuel, _) => no_fuel
  end.

Definition shutdown : Stream unit :=
  s ← get;
  match t_shutdown (stream s) with
  | (Ok _, t) => modify (fun s => s <| stream := t |>)
  | (Err e, t) => modify (fun s => s <| stream := t |>) ≫= fun _ => raise (StreamError.Io e)
  | _ => panic
  end.
End stream.

(** ** A transport *)

(** A connection that delivers a byte string in chunks of at most [limit + 1]
    bytes and never fails: the instance the witnesses run on. *)
Record Chunked := mkChunked { c_incoming : list Z; c_limit : nat; c_outgoing : list Z }.

Definition chunked_read (n : Z) (t : Chunked) : outcome IoErrorKind (list Z) * Chunked :=
  let k := Nat.min (Z.to_nat n) (S (c_limit t)) in
  (Ok (take k (c_incoming t)), mkChunked (drop k (c_incoming t)) (c_limit t) (c_outgoing t)).

#[refine, export] Instance chunked_transport : Transport | 100 := {|
  t_state := Chunked;
  t_read := chunked_read;
  t_write_all bs t := (Ok tt, mkChunked (c_incoming t) (c_limit t) (c_outgoing t ++ bs));
  t_shutdown t := (Ok tt, t);
  t_incoming := c_incoming;
  t_outgoing := c_outgoing;
|}.
Proof.
  - intros n t Hn. unfold chunked_read. simpl. split_and!.
    + by rewrite take_drop.
    + rewrite length_take. lia.
    + destruct (c_incoming t); [done |]. destruct (Z.to_nat n) eqn:E; [lia | done].
  - done.
  - by intros bs [].
Defined.

(** ** The bytes of the stream *)

Section facts.
Context {B : Buf} {HI : HashIter} {T : Transport}.
Implicit Types s : PacketStream.

(** What has been read and not decoded, and with it all that is to come. *)
Definition buffered s : list Z := take (Z.to_nat (read_offset s)) (read_buffer s).
Definition wire s : list Z := buffered s ++ t_incoming (stream s).

Record stream_ok s : Prop := {
  so_offset : 0 <= read_offset s <= len (read_buffer s);
  so_size : 0 < len (read_buffer s) <= max_buffer_size s;
  so_room : read_offset s < len (read_buffer s) \/ len (read_buffer s) = max_buffer_size s;
}.

Definition stream_okb s : bool :=
  (0 <=? read_offset s) && (read_offset s <=? len (read_buffer s))
  && (0 <? len (read_buffer s)) && (len (read_buffer s) <=? max_buffer_size s)
  && ((read_offset s <? len (read_buffer s)) || (len (read_buffer s) =? max_buffer_size s)).

Lemma stream_okb_sound s : stream_okb s = true -> stream_ok s.
Proof. unfold stream_okb. intros H. constructor; lia. Qed.

Lemma len_buffered s : stream_ok s -> len (buffered s) = read_offset s.
Proof. intros []. unfold buffered. rewrite length_take. lia. Qed.

Lemma stream_ok_new t i m :
  0 < default READ_BUFFER_SIZE i <= default MAX_BUFFER_SIZE m ->
  stream_ok (PacketStream_new t i m) /\ wire (PacketStream_new t i m) = t_incoming t.
Proof.
  intros H. split; [| done].
  constructor; simpl; rewrite ?length_replicate; lia.
Qed.

Lemma length_vec_resize n v : 0 <= n -> len (vec_resize n v) = n.
Proof. intros H. unfold vec_resize. rewrite length_app, length_take, length_replicate. lia. Qed.

Lemma take_vec_resize k n v :
  (k <= Z.to_nat n)%nat -> (k <= length v)%nat -> take k (vec_resize n v) = take k v.
Proof.
  intros H1 H2. unfold vec_resize. rewrite take_app_le by (rewrite length_take; lia).
  rewrite take_take. f_equal. lia.
Qed.

Lemma take_write_at off c v :
  0 <= off -> off + len c <= len v ->
  take (Z.to_nat (off + len c)) (write_at off c v) = take (Z.to_nat off) v ++ c.
Proof.
  intros H1 H2. unfold write_at. rewrite app_assoc, take_app_le.
  - apply take_ge. rewrite length_app, length_take. lia.
  - rewrite length_app, length_take. lia.
Qed.

Lemma length_write_at off c v :
  0 <= off -> off + len c <= len v -> len (write_at off c v) = len v.
Proof.
  intros H1 H2. unfold write_at. rewrite !length_app, length_take, length_drop. lia.
Qed.

(** Sizes that never change. *)
Definition same_limits s s' : Prop :=
  max_buffer_size s' = max_buffer_size s /\ initial_buffer_size s' = initial_buffer_size s.

(** One socket read: bytes move from the connection to the buffer, and none is
    lost, duplicated or reordered. *)
Lemma read_more_run s :
  stream_ok s -> read_offset s < len (read_buffer s) ->
  match read_more (read_offset s) s with
  | (Ok None, s') => wire s = [] /\ read_offset s = 0
  | (Ok (Some br), s') =>
      stream_ok s' /\ same_limits s s' /\ wire s' = wire s /\ read_offset s' = br
      /\ read_offset s <= br /\ (br = read_offset s -> t_incoming (stream s) = [])
  | (Err e, s') =>
      stream_ok s' /\ same_limits s s' /\ wire s' = wire s
      /\ exists k, e = StreamError.Io k \/ e = StreamError.ReadTimeout k
  | _ => False
  end.
Proof.
  intros Hok Hlt. pose proof Hok as [Ho Hs Hr]. unfold read_more. rewrite bind_get.
  unfold slice_to. rewrite (proj2 (Z.leb_le _ _)) by lia.
  pose proof (read_law (len (read_buffer s) - read_offset s) (stream s) ltac:(lia)) as Hlaw.
  destruct (t_read _ (stream s)) as [[c|e| |] t]; [| | done | done].
  - destruct Hlaw as (Hin & Hc & Hnil). unfold modify. unfold mbind at 1, M_bind at 1.
    destruct (Z.eqb_spec (len c) 0) as [E|E]; destruct (Z.eqb_spec (read_offset s) 0) as [E'|E'];
      simpl andb; cbv iota.
    1: { assert (c = []) as -> by (by destruct c). split; [| done]. unfold wire, buffered.
         rewrite E'. simpl. by apply Hnil. }
    all: unfold mbind, M_bind, mret, M_ret; cbn;
      assert (Hw := take_write_at (read_offset s) c (read_buffer s) ltac:(lia) ltac:(lia));
      assert (Hlen := length_write_at (read_offset s) c (read_buffer s) ltac:(lia) ltac:(lia));
      destruct (Z.leb_spec (len (write_at (read_offset s) c (read_buffer s))) (read_offset s + len c));
      (split_and!;
       [ constructor; cbn; rewrite ?length_vec_resize by lia; lia | done
       | unfold wire, buffered; cbn; rewrite ?take_vec_resize by lia; rewrite Hw, Hin, <- app_assoc; done
       | done | lia
       | intros; apply Hnil; destruct c; [done | simpl in *; lia] ]).
  - destruct e; unfold modify, mbind, M_bind, raise; cbn;
      (split_and!; [constructor; cbn; lia | done | unfold wire, buffered; cbn; by rewrite Hlaw | eauto]).
Qed.

(** *** Reading a packet *)

Definition wire_bytes (p : Packet) : list Z := packet_bytes (packet_header p) (packet_body p).

(** The packets the stream carries faithfully. *)
Definition sendable (p : Packet) : Prop :=
  packet_ok p /\ packet_exact p /\ packet_excess p = 0 /\ len (packet_body p) <= 2097151.

Lemma decode_complete uuid p t :
  sendable p -> codec_decode uuid (wire_bytes p ++ t) = (Ok (Some (received p, len (wire_bytes p))), []).
Proof.
  intros (Hok & He & Hx & Hl). destruct (packet_header_ok p He) as [Hh _]. unfold wire_bytes.
  rewrite codec_decode_framed by done. rewrite decode_packet_body; [| apply Hok | done].
  unfold packet_bytes. rewrite !len_app, len_vbi by (unfold MAX_VARIABLE_BYTE_INT; lia).
  rewrite Hx. do 4 f_equal. simpl (len [_]). lia.
Qed.

Lemma decode_partial uuid p c x d :
  sendable p -> wire_bytes p = c ++ x :: d -> insufficient (codec_decode uuid c).
Proof.
  intros (Hok & He & Hx & Hl) H. destruct (packet_header_ok p He) as [Hh _].
  by eapply decode_truncated.
Qed.

Lemma wire_bytes_pos p : 0 < len (wire_bytes p).
Proof. unfold wire_bytes, packet_bytes. rewrite len_app. simpl. lia. Qed.

(** Either the packet is in the buffer, or the buffer holds a proper prefix. *)
Lemma wire_cases s bs rest :
  wire s = bs ++ rest ->
  (exists t, buffered s = bs ++ t /\ rest = t ++ t_incoming (stream s))
  \/ (exists x d, bs = buffered s ++ x :: d /\ t_incoming (stream s) = x :: d ++ rest).
Proof.
  unfold wire. intros H. apply app_eq_inv in H as [(k & Hk & Hd)|([|x d] & Hk & Hd)].
  - left. by exists k.
  - left. exists []. rewrite app_nil_r in *. simpl in *. split; congruence.
  - right. by exists x, d.
Qed.

Lemma buffered_slice s : stream_ok s -> slice_to (read_offset s) (read_buffer s) = Some (buffered s).
Proof. intros [Ho _ _]. unfold slice_to. by rewrite (proj2 (Z.leb_le _ _)) by lia. Qed.

(** A packet taken off the buffer leaves what follows it. *)
Lemma take_packet_run s p bs t rest :
  stream_ok s -> buffered s = bs ++ t ->
  exists s', take_packet false (read_offset s) p (len bs) rest s = (Ok (Some (p, None)), s')
    /\ stream_ok s' /\ same_limits s s' /\ wire s' = t ++ t_incoming (stream s)
    /\ stream s' = stream s.
Proof.
  intros Hok Hb. pose proof (len_buffered s Hok) as Hl. pose proof Hok as [Ho Hs Hr].
  rewrite Hb, len_app in Hl. unfold take_packet. destruct (Z.ltb_spec (len bs) (read_offset s)).
  - eexists. split; [reflexivity |].
    assert (Hc : len (copy_within (len bs) (read_offset s) (read_buffer s)) = len (read_buffer s)).
    { unfold copy_within. rewrite length_app, !length_drop, length_take. lia. }
    split_and!; [constructor; simpl; rewrite ?Hc; lia | done | | done].
    unfold wire, buffered in *. simpl. f_equal. unfold copy_within.
    rewrite Hb, Nat2Z.id, drop_app_length. rewrite take_app_le by lia. apply take_ge. lia.
  - assert (t = []) as -> by (destruct t; [done | simpl in *; lia]).
    eexists. split; [reflexivity |]. split_and!; [constructor; simpl; lia | done | done | done].
Qed.

(** What a call of [read] may come back with when a packet [p] is next. *)
Definition reads_next (p : Packet) (rest : list Z) (s : PacketStream)
    (r : outcome StreamError (option (Packet * option (list Z))) * PacketStream) : Prop :=
  match r with
  | (Ok o, s') => o = Some (received p, None) /\ stream_ok s' /\ same_limits s s' /\ wire s' = rest
  | (Err e, s') => (exists k, e = StreamError.Io k \/ e = StreamError.ReadTimeout k)
                   /\ stream_ok s' /\ same_limits s s' /\ wire s' = wire s
  | _ => False
  end.

Lemma reads_next_step s s1 p rest r :
  same_limits s s1 -> wire s1 = wire s -> reads_next p rest s1 r -> reads_next p rest s r.
Proof.
  intros [H1 H2] Hw. unfold reads_next, same_limits. destruct r as [[o|e| |] s2]; [.. | done | done].
  - intros (? & ? & [? ?] & ?). split_and!; (done || congruence).
  - intros (? & ? & [? ?] & ?). split_and!; (done || congruence).
Qed.

Lemma read_loop_next uuid p rest : sendable p -> forall fuel s,
  stream_ok s -> wire s = wire_bytes p ++ rest -> len (wire_bytes p) <= max_buffer_size s ->
  (length (wire_bytes p) - Z.to_nat (read_offset s) < fuel)%nat ->
  reads_next p rest s (read_loop fuel uuid false (read_offset s) s).
Proof.
  intros Hp. induction fuel as [|fuel IH]; intros s Hok Hw Hmax Hfuel; [lia |].
  pose proof (len_buffered s Hok) as Hlb.
  assert (Hagain : forall x d, wire_bytes p = buffered s ++ x :: d ->
    t_incoming (stream s) = x :: d ++ rest ->
    reads_next p rest s ((more ← read_more (read_offset s);
      match more with None => mret None | Some br => read_loop fuel uuid false br end) s)).
  { intros x d Hb Hin. assert (Hlt : read_offset s < len (wire_bytes p)).
    { rewrite Hb, len_app, Hlb. simpl. lia. }
    pose proof (read_more_run s Hok) as H. destruct Hok as [Ho Hs Hr].
    specialize (H ltac:(destruct Hr; lia)). unfold mbind, M_bind.
    destruct (read_more (read_offset s) s) as [[[br|]|e| |] s1]; [| | | done | done].
    - destruct H as (Hok1 & Hlim & Hw1 & <- & Hle & Hstuck). pose proof Hlim as [Hl1 Hl2].
      assert (read_offset s1 <> read_offset s) by (intros E; apply Hstuck in E; congruence).
      specialize (IH s1 Hok1 ltac:(congruence) ltac:(lia) ltac:(lia)).
      apply (reads_next_step s s1); done.
    - destruct H as [H _]. rewrite Hw in H. by apply app_nil in H as [H%(f_equal length) _];
        pose proof (wire_bytes_pos p); simpl in H; lia.
    - unfold reads_next. destruct H as (? & ? & ? & ?). done. }
  destruct (wire_cases s _ _ Hw) as [(t & Hb & Hrest)|(x & d & Hb & Hin)].
  - pose proof (wire_bytes_pos p). assert (0 < read_offset s).
    { rewrite <- Hlb, Hb, len_app. lia. }
    cbn [read_loop]. cbv zeta. rewrite (proj2 (Z.ltb_lt _ _)) by lia. rewrite bind_get, buffered_slice by done.
    rewrite Hb, (decode_complete uuid p t Hp). cbv iota beta.
    destruct (take_packet_run s (received p) (wire_bytes p) t [] Hok Hb) as (s' & -> & ? & ? & Hw' & _).
    unfold reads_next. rewrite Hw', <- Hrest. done.
  - specialize (Hagain x d Hb Hin). cbn [read_loop]. cbv zeta. destruct (Z.ltb_spec 0 (read_offset s)); [| done].
    rewrite bind_get, buffered_slice by done.
    destruct (decode_partial uuid p (buffered s) x d Hp Hb) as (e & a & b & ->).
    cbn [kind new_with_kind]. rewrite (proj2 (Z.leb_gt _ _)); [done |].
    rewrite Hb, len_app, Hlb in Hmax. simpl in Hmax. lia.
Qed.

(** A connection on which no read fails. *)
Definition reliable : Prop := forall n t, exists c t', t_read n t = (Ok c, t').

Definition io_error (e : StreamError) : Prop :=
  exists k, e = StreamError.Io k \/ e = StreamError.ReadTimeout k.

Lemma read_more_reliable br s e s' : reliable -> read_more br s = (Err e, s') -> False.
Proof.
  intros Hr. unfold read_more. rewrite bind_get. destruct (slice_to _ _); [| done].
  destruct (Hr (len (read_buffer s) - read_offset s) (stream s)) as (c & t & ->).
  unfold modify, mbind, M_bind. by destruct (_ && _).
Qed.

Lemma read_loop_reliable uuid fuel : reliable -> forall br s e s',
  read_loop fuel uuid false br s = (Err e, s') -> ~ io_error e.
Proof.
  intros Hr. induction fuel as [|fuel IH]; intros br s e s' H; [done |]. cbn [read_loop] in H.
  assert (Hagain : (more ← read_more br;
      match more with None => mret None | Some br => read_loop fuel uuid false br end) s = (Err e, s') ->
      ~ io_error e).
  { unfold mbind, M_bind. destruct (read_more br s) as [[[br'|]|e'| |] s1] eqn:E; try done.
    - apply IH.
    - by apply read_more_reliable in E. }
  cbv zeta in H. destruct (0 <? br); [| auto]. rewrite bind_get in H.
  destruct (slice_to br (read_buffer s)) as [bm|]; [| done].
  destruct (codec_decode uuid bm) as [[[[q n]|]|e'| |] rest]; try done.
  - unfold take_packet in H. by destruct (n <? br).
  - destruct (kind e'); try (injection H as <- <-; intros [k [?|?]]; done).
    destruct (max_buffer_size s <=? read_offset s); [| auto].
    injection H as <- <-. intros [k [?|?]]; done.
Qed.

(** The end of the stream inside a packet: reading returns nothing, forever. *)
Lemma read_loop_stuck uuid p : sendable p -> reliable -> forall fuel s x d,
  stream_ok s -> t_incoming (stream s) = [] -> buffered s <> [] ->
  wire_bytes p = buffered s ++ x :: d -> len (wire_bytes p) <= max_buffer_size s ->
  exists s', read_loop fuel uuid false (read_offset s) s = (OutOfFuel, s').
Proof.
  intros Hp Hr. induction fuel as [|fuel IH]; intros s x d Hok Hin Hne Hb Hmax; [by eexists |].
  pose proof (len_buffered s Hok) as Hlb.
  assert (0 < read_offset s) by (rewrite <- Hlb; destruct (buffered s); [done | simpl; lia]).
  assert (Hlt : read_offset s < max_buffer_size s).
  { rewrite Hb, len_app, Hlb in Hmax. simpl in Hmax. lia. }
  cbn [read_loop]. cbv zeta. rewrite (proj2 (Z.ltb_lt _ _)) by lia.
  rewrite bind_get, buffered_slice by done.
  destruct (decode_partial uuid p (buffered s) x d Hp Hb) as (e & a & b & ->).
  cbn [kind new_with_kind]. rewrite (proj2 (Z.leb_gt _ _)) by lia.
  pose proof (read_more_run s Hok) as H'. pose proof Hok as [Ho Hs Hro].
  specialize (H' ltac:(destruct Hro; lia)).
  destruct (read_more (read_offset s) s) as [[[br|]|e'| |] s1] eqn:E; try done.
  - destruct H' as (Hok1 & [Hl1 _] & Hw1 & <- & Hle & _).
    assert (Hsum : len (buffered s1) + len (t_incoming (stream s1)) = len (buffered s)).
    { rewrite <- !len_app. unfold wire in Hw1. rewrite Hw1, Hin. by rewrite app_nil_r. }
    rewrite (len_buffered s1 Hok1), Hlb in Hsum.
    assert (Hin1 : t_incoming (stream s1) = []) by (destruct (t_incoming (stream s1)); [done | simpl in Hsum; lia]).
    assert (Hb1 : buffered s1 = buffered s).
    { unfold wire in Hw1. by rewrite Hin, Hin1, !app_nil_r in Hw1. }
    unfold mbind, M_bind. rewrite E. apply (IH s1 x d); rewrite ?Hb1; (done || lia).
  - destruct H' as [_ H']. lia.
  - by apply read_more_reliable in E.
Qed.

(** A packet that does not fit the largest buffer is refused. *)
Lemma read_loop_oversized uuid p rest : sendable p -> forall fuel s,
  stream_ok s -> wire s = wire_bytes p ++ rest -> max_buffer_size s < len (wire_bytes p) ->
  (Z.to_nat (max_buffer_size s) - Z.to_nat (read_offset s) < fuel)%nat ->
  exists e s', read_loop fuel uuid false (read_offset s) s = (Err e, s')
    /\ (e = StreamError.ReadBuffer \/ io_error e) /\ stream_ok s' /\ wire s' = wire s.
Proof.
  intros Hp. induction fuel as [|fuel IH]; intros s Hok Hw Hmax Hfuel; [lia |].
  pose proof (len_buffered s Hok) as Hlb. pose proof Hok as [Ho Hs Hro].
  destruct (wire_cases s _ _ Hw) as [(t & Hb & _)|(x & d & Hb & Hin)].
  { rewrite Hb, len_app in Hlb. lia. }
  assert (Hagain : read_offset s < max_buffer_size s -> exists e s',
    (more ← read_more (read_offset s);
      match more with None => mret None | Some br => read_loop fuel uuid false br end) s = (Err e, s')
    /\ (e = StreamError.ReadBuffer \/ io_error e) /\ stream_ok s' /\ wire s' = wire s).
  { intros Hlt. pose proof (read_more_run s Hok ltac:(destruct Hro; lia)) as H. unfold mbind, M_bind.
    destruct (read_more (read_offset s) s) as [[[br|]|e| |] s1]; [| | | done | done].
    - destruct H as (Hok1 & [Hl1 _] & Hw1 & <- & Hle & Hstuck).
      assert (read_offset s1 <> read_offset s) by (intros E; apply Hstuck in E; congruence).
      destruct (IH s1) as (e & s2 & Hrun & He & Hok2 & Hw2); [done | congruence | lia | lia |].
      exists e, s2. split_and!; (done || congruence).
    - destruct H as [H _]. rewrite Hw in H. pose proof (wire_bytes_pos p).
      by apply (f_equal length) in H; rewrite length_app in H; simpl in H; lia.
    - destruct H as (? & _ & ? & ?). exists e, s1. split_and!; [done | by right | done | done]. }
  cbn [read_loop]. cbv zeta. destruct (Z.ltb_spec 0 (read_offset s)); [| apply Hagain; lia].
  rewrite bind_get, buffered_slice by done.
  destruct (decode_partial uuid p (buffered s) x d Hp Hb) as (e & a & b & ->).
  cbn [kind new_with_kind]. destruct (Z.leb_spec (max_buffer_size s) (read_offset s)).
  - exists StreamError.ReadBuffer, s. split_and!; [done | by left | done | done].
  - apply Hagain. lia.
Qed.
End facts.

(** ** The contract of the stream *)

Section contract.
Context {B : Buf} {HI : HashIter} {T : Transport}.

Lemma read_next fuel uuid s p rest :
  stream_ok s -> sendable p -> wire s = wire_bytes p ++ rest ->
  len (wire_bytes p) <= max_buffer_size s -> (length (wire_bytes p) < fuel)%nat ->
  match read fuel uuid s with
  | (Ok o, s') => o = Some (received p) /\ stream_ok s' /\ same_limits s s' /\ wire s' = rest
  | (Err e, s') => io_error e /\ stream_ok s' /\ same_limits s s' /\ wire s' = wire s
  | _ => False
  end.
Proof.
  intros Hok Hp Hw Hmax Hfuel.
  pose proof (read_loop_next uuid p rest Hp fuel s Hok Hw Hmax ltac:(lia)) as H.
  unfold reads_next in H. unfold read, read_internal, gets, mbind, M_bind.
  destruct (read_loop fuel uuid false (read_offset s) s) as [[o|e| |] s']; [| done | done | done].
  by destruct H as (-> & ? & ? & ?).
Qed.

(** C2: when the bytes to come begin with a complete packet that is [sendable]
    (it round trips by [packet_roundtrip] and has no user properties, which the
    decoder over-counts) and fits the maximal buffer, [PacketStream::read] returns
    that packet and leaves exactly the bytes that follow it, however the
    connection splits it into chunks and whatever part of it was already
    buffered.  If the connection fails, the read reports the error and loses no
    byte, so that the call can be repeated.  Under these conditions it neither
    panics nor loops; [packet_after_user_property_lost] and
    [close_inside_packet_livelocks] show what happens without them. *)
Theorem read_returns_next_packet (fuel : nat) (uuid : rstring) (s : PacketStream) (p : Packet)
    (rest : list Z) :
  stream_ok s -> sendable p -> wire s = wire_bytes p ++ rest ->
  len (wire_bytes p) <= max_buffer_size s -> (length (wire_bytes p) < fuel)%nat ->
  match read fuel uuid s with
  | (Ok o, s') => o = Some (received p) /\ stream_ok s' /\ wire s' = rest
  | (Err e, s') => io_error e /\ stream_ok s' /\ wire s' = wire s
  | _ => False
  end.
Proof.
  intros Hok Hp Hw Hmax Hfuel. pose proof (read_next fuel uuid s p rest Hok Hp Hw Hmax Hfuel) as H.
  destruct (read fuel uuid s) as [[o|e| |] s']; [| | done | done];
    destruct H as (? & ? & _ & ?); done.
Qed.

(** A read that is dropped while it waits for the socket leaves what it has
    received in the buffer. *)
Lemma read_loop_cancelled uuid fuel : forall s s',
  stream_ok s -> read_loop fuel uuid false (read_offset s) s = (OutOfFuel, s') ->
  stream_ok s' /\ same_limits s s' /\ wire s' = wire s.
Proof.
  induction fuel as [|fuel IH]; intros s s' Hok Hrun;
    [by injection Hrun as <- |].
  assert (Hagain : read_offset s < len (read_buffer s) ->
    (more ← read_more (read_offset s);
     match more with
     | None => mret None
     | Some bytes_read => read_loop fuel uuid false bytes_read
     end) s = (OutOfFuel, s') ->
    stream_ok s' /\ same_limits s s' /\ wire s' = wire s).
  { intros Hroom. pose proof (read_more_run s Hok Hroom) as H. unfold mbind, M_bind.
    destruct (read_more (read_offset s) s) as [[[br|]|e| |] s1]; try done.
    destruct H as (Hok1 & [Hl1 Hl2] & Hw & Hbr & _). rewrite <- Hbr. intros Hr.
    destruct (IH s1 s' Hok1 Hr) as (Hok' & [Hl3 Hl4] & Hw').
    split_and!; [done | split; congruence | congruence]. }
  cbn [read_loop] in Hrun. cbv zeta in Hrun. destruct Hok as [Ho Hs Hr].
  destruct (Z.ltb_spec 0 (read_offset s)); [| apply Hagain; [lia | done]].
  rewrite bind_get in Hrun. destruct (slice_to _ _) as [bs|]; [| done].
  destruct (codec_decode uuid bs) as [[[[p n]|]|e| |] rest]; try done.
  - unfold take_packet in Hrun. by destruct (n <? read_offset s).
  - destruct (kind e); try done. destruct (Z.leb_spec (max_buffer_size s) (read_offset s)); [done |].
    apply Hagain; [lia | done].
  - by injection Hrun as <-.
Qed.

(** C26: [read] is cancel safe: however far a read of the next packet got before it
    was dropped, the next call returns that packet as if nothing had happened. *)
Theorem read_cancel_safe (fuel fuel' : nat) (uuid : rstring) (s s1 : PacketStream) (p : Packet)
    (rest : list Z) :
  stream_ok s -> sendable p -> wire s = wire_bytes p ++ rest ->
  len (wire_bytes p) <= max_buffer_size s -> (length (wire_bytes p) < fuel')%nat ->
  read fuel uuid s = (OutOfFuel, s1) ->
  match read fuel' uuid s1 with
  | (Ok o, s') => o = Some (received p) /\ stream_ok s' /\ wire s' = rest
  | (Err e, s') => io_error e /\ stream_ok s' /\ wire s' = wire s
  | _ => False
  end.
Proof.
  intros Hok Hp Hw Hmax Hfuel Hcut.
  assert (H : stream_ok s1 /\ same_limits s s1 /\ wire s1 = wire s).
  { unfold read, read_internal, gets, mbind, M_bind in Hcut.
    destruct (read_loop fuel uuid false (read_offset s) s) as [[[[]|]|e| |] s2] eqn:E; simplify_eq/=.
    by apply (read_loop_cancelled _ _ _ _ Hok E). }
  destruct H as (Hok1 & [Hl _] & Hw1). rewrite <- Hw1.
  pose proof (read_next fuel' uuid s1 p rest Hok1 Hp ltac:(congruence) ltac:(lia) Hfuel) as H.
  destruct (read fuel' uuid s1) as [[o|e| |] s']; [| | done | done];
    destruct H as (? & ? & _ & ?); done.
Qed.

(** Reading writes nothing. *)
Lemma read_loop_outgoing uuid wb fuel : forall br s,
  t_outgoing (stream (snd (read_loop fuel uuid wb br s))) = t_outgoing (stream s).
Proof.
  induction fuel as [|fuel IH]; intros br s; [done |].
  assert (Hagain : t_outgoing (stream (snd ((more ← read_more br;
    match more with
    | None => mret None
    | Some bytes_read => read_loop fuel uuid wb bytes_read
    end) s))) = t_outgoing (stream s)).
  { assert (Hm : t_outgoing (stream (snd (read_more br s))) = t_outgoing (stream s)).
    { unfold read_more, get, modify, mbind, M_bind. destruct (slice_to _ _); [| done].
      pose proof (read_outgoing (len (read_buffer s) - read_offset s) (stream s)) as H.
      destruct (t_read _ _) as [[c|e| |] t]; cbn in *; [| by destruct e | done | done].
      destruct ((len c =? 0) && (br =? 0)); [done |]. cbn. by case_match. }
    unfold mbind, M_bind. destruct (read_more br s) as [[[br'|]|e| |] s1]; [| done..]. by rewrite IH. }
  cbn [read_loop]. cbv zeta. destruct (0 <? br); [| apply Hagain]. rewrite bind_get.
  destruct (slice_to br (read_buffer s)) as [bs|]; [| done].
  destruct (codec_decode uuid bs) as [[[[p n]|]|e| |] rest]; try done.
  - unfold take_packet, modify, mbind, M_bind. destruct wb.
    + destruct (buf_split_to n rest) as [[pb ?]|]; [| done]. cbn. by case_match.
    + by destruct (n <? br).
  - destruct (kind e); try done. destruct (max_buffer_size s <=? read_offset s); [done | apply Hagain].
Qed.

Lemma read_keeps_outgoing fuel uuid s :
  t_outgoing (stream (snd (read fuel uuid s))) = t_outgoing (stream s).
Proof.
  rewrite <- (read_loop_outgoing uuid false fuel (read_offset s) s).
  unfold read, read_internal, gets, mbind, M_bind.
  by destruct (read_loop fuel uuid false (read_offset s) s) as [[[[]|]|e| |] s'].
Qed.

(** Over a connection that does not fail, the next packet is read. *)
Lemma read_reliable fuel uuid s p rest :
  reliable -> stream_ok s -> sendable p -> wire s = wire_bytes p ++ rest ->
  len (wire_bytes p) <= max_buffer_size s -> (length (wire_bytes p) < fuel)%nat ->
  exists s', read fuel uuid s = (Ok (Some (received p)), s')
    /\ stream_ok s' /\ same_limits s s' /\ wire s' = rest
    /\ t_outgoing (stream s') = t_outgoing (stream s).
Proof.
  intros Hr Hok Hp Hw Hmax Hfuel. pose proof (read_next fuel uuid s p rest Hok Hp Hw Hmax Hfuel) as H.
  pose proof (read_keeps_outgoing fuel uuid s) as Ho.
  destruct (read fuel uuid s) as [[o|e| |] s1] eqn:E; [| | done | done].
  - destruct H as (-> & ? & ? & ?). by exists s1.
  - exfalso. destruct H as [He _]. unfold read, read_internal, gets, mbind, M_bind in E.
    destruct (read_loop fuel uuid false (read_offset s) s) as [[o|e'| |] s2] eqn:E'; try done.
    + by destruct o as [[]|].
    + injection E as <- <-. by eapply read_loop_reliable.
Qed.

(** Calls of [read] in a row. *)
Fixpoint read_many (n fuel : nat) (uuid : rstring) : M PacketStream StreamError (list Packet) :=
  match n with
  | O => mret []
  | S n =>
      o ← read fuel uuid;
      match o with
      | None => mret []
      | Some p => ps ← read_many n fuel uuid; mret (p :: ps)
      end
  end.

Definition fits (fuel : nat) (s : PacketStream) (p : Packet) : Prop :=
  sendable p /\ len (wire_bytes p) <= max_buffer_size s /\ (length (wire_bytes p) < fuel)%nat.

(** C3: over a connection that does not fail, [sendable] packets (no user
    properties, see [packet_after_user_property_lost]) that fit the maximal buffer
    are received in the order they were sent, each exactly once, and nothing is
    left over. *)
Theorem packets_arrive_in_order (ps : list Packet) (fuel : nat) (uuid : rstring) (s : PacketStream) :
  reliable -> stream_ok s -> Forall (fits fuel s) ps -> wire s = concat (wire_bytes <$> ps) ->
  exists s', read_many (length ps) fuel uuid s = (Ok (received <$> ps), s') /\ wire s' = [].
Proof.
  intros Hr. revert s. induction ps as [|p ps IH]; intros s Hok Hf Hw; [by exists s |].
  apply Forall_cons_1 in Hf as [(Hp & Hmax & Hfuel) Hf]. simpl in Hw.
  destruct (read_reliable fuel uuid s p _ Hr Hok Hp Hw Hmax Hfuel) as (s1 & E & Hok1 & [Hl _] & Hw1 & _).
  cbn [length read_many]. rewrite (bind_ok _ _ _ _ _ E).
  destruct (IH s1 Hok1) as (s2 & Hrun & Hw2); [| done |].
  { eapply Forall_impl; [| exact Hf]. intros q (? & ? & ?). split_and!; [done | lia | done]. }
  exists s2. rewrite (bind_ok _ _ _ _ _ Hrun). done.
Qed.

(** A packet larger than the maximal buffer is refused with [ReadBuffer]
    before the buffer outgrows its bound. *)
Theorem oversized_packet_refused (fuel : nat) (uuid : rstring) (s : PacketStream) (p : Packet)
    (rest : list Z) :
  stream_ok s -> sendable p -> wire s = wire_bytes p ++ rest ->
  max_buffer_size s < len (wire_bytes p) -> (Z.to_nat (max_buffer_size s) < fuel)%nat ->
  exists e s', read fuel uuid s = (Err e, s')
    /\ (e = StreamError.ReadBuffer \/ io_error e)
    /\ buffer_size s' <= max_buffer_size s' /\ wire s' = wire s.
Proof.
  intros Hok Hp Hw Hmax Hfuel.
  destruct (read_loop_oversized uuid p rest Hp fuel s Hok Hw Hmax ltac:(lia))
    as (e & s' & Hrun & He & [_ Hs _] & Hw'). exists e, s'.
  unfold read, read_internal, gets, mbind, M_bind. rewrite Hrun. split_and!; [done.. | apply Hs | done].
Qed.

(** A write touches the connection only. *)
Lemma write_run s p :
  packet_ok p ->
  match write p s with
  | (Ok _, s') => exists t, s' = s <| stream := t |>
      /\ t_outgoing t = t_outgoing (stream s) ++ wire_bytes p /\ t_incoming t = t_incoming (stream s)
  | (Err e, s') => io_error e
      /\ exists t, s' = s <| stream := t |> /\ t_incoming t = t_incoming (stream s)
  | _ => False
  end.
Proof.
  intros Hok. unfold write. rewrite (encode_packet_bytes p Hok []). cbn [app]. rewrite bind_get.
  pose proof (write_law (wire_bytes p) (stream s)) as H. fold (wire_bytes p).
  destruct (t_write_all (wire_bytes p) (stream s)) as [[u|e| |] t]; [| | done | done].
  - destruct H. by exists t.
  - split; [exists e; by left | by exists t].
Qed.

(** [PacketStream::write] puts exactly the encoding of the packet on the
    connection, after what was written before, or reports an error. *)
Theorem write_appends_packet (s : PacketStream) (p : Packet) :
  packet_ok p ->
  match write p s with
  | (Ok _, s') => t_outgoing (stream s') = t_outgoing (stream s) ++ wire_bytes p /\ wire s' = wire s
  | (Err e, s') => io_error e /\ wire s' = wire s
  | _ => False
  end.
Proof.
  intros Hok. pose proof (write_run s p Hok) as H.
  destruct (write p s) as [[u|e| |] s']; [| | done | done].
  - destruct H as (t & -> & H1 & H2). unfold wire, buffered. simpl. by rewrite H2.
  - destruct H as (He & t & -> & H2). unfold wire, buffered. simpl. by rewrite H2.
Qed.

(** When the peer closes the connection inside a packet, [read] does not
    return: it decodes the same bytes and reads the end of the stream again and
    again, however often. *)
Theorem close_inside_packet_livelocks (fuel : nat) (uuid : rstring) (s : PacketStream) (p : Packet)
    (x : Z) (d : list Z) :
  reliable -> stream_ok s -> sendable p -> len (wire_bytes p) <= max_buffer_size s ->
  wire_bytes p = buffered s ++ x :: d -> buffered s <> [] -> t_incoming (stream s) = [] ->
  exists s', read fuel uuid s = (OutOfFuel, s').
Proof.
  intros Hr Hok Hp Hmax Hb Hne Hin.
  destruct (read_loop_stuck uuid p Hp Hr fuel s x d Hok Hin Hne Hb Hmax) as [s' H].
  exists s'. unfold read, read_internal, gets, mbind, M_bind. by rewrite H.
Qed.

(** [read_raw] panics on every complete packet: it splits the packet's bytes
    off the buffer the decoder has already emptied. *)
Theorem read_raw_panics (fuel : nat) (uuid : rstring) (s : PacketStream) (p : Packet) (t : list Z) :
  stream_ok s -> sendable p -> buffered s = wire_bytes p ++ t ->
  read_raw (S fuel) uuid s = (Panic, s).
Proof.
  intros Hok Hp Hb. pose proof (wire_bytes_pos p). pose proof (len_buffered s Hok) as Hl.
  rewrite Hb, len_app in Hl. unfold read_raw, read_internal, gets.
  unfold mbind at 1, M_bind at 1. unfold mbind at 1, M_bind at 1. cbn [read_loop]. cbv zeta.
  rewrite (proj2 (Z.ltb_lt _ _)) by lia. rewrite bind_get, buffered_slice by done.
  rewrite Hb, (decode_complete uuid p t Hp). unfold take_packet. by rewrite split_to_short by (simpl; lia).
Qed.
End contract.

(** *** Examples *)

Definition ping : Packet := Packet.PingRequest dflt.
Definition hello : Packet := Packet.Publish sample_publish.

Lemma hello_sendable : sendable hello.
Proof.
  split_and!; [apply sample_publish_ok | apply sample_publish_exact | by vm_compute | by vm_compute].
Qed.

Lemma ping_sendable : sendable ping.
Proof.
  split_and!; [| done | by vm_compute | by vm_compute]. split; [done |]. split; by vm_compute.
Qed.

(** A fresh stream whose peer sends [bs] in chunks of [k + 1] bytes. *)
Definition stream_of (k : nat) (max : Z) (bs : list Z) : PacketStream :=
  PacketStream_new (mkChunked bs k []) (Some 8) (Some max).

Lemma chunked_reliable : reliable.
Proof. intros n t. by do 2 eexists. Qed.

Lemma stream_of_ok k max bs :
  8 <= max -> stream_ok (stream_of k max bs) /\ wire (stream_of k max bs) = bs.
Proof.
  intros H. apply (stream_ok_new (T := chunked_transport) (mkChunked bs k []) (Some 8) (Some max)).
  simpl. lia.
Qed.

Lemma read_returns_next_packet_witness :
  match read 100 [] (stream_of 2 64 (wire_bytes hello ++ [0xc0; 0])) with
  | (Ok o, s') => o = Some hello /\ stream_ok s' /\ wire s' = [0xc0; 0]
  | (Err e, s') => io_error e /\ stream_ok s'
      /\ wire s' = wire (stream_of 2 64 (wire_bytes hello ++ [0xc0; 0]))
  | _ => False
  end.
Proof.
  apply (read_returns_next_packet 100 [] (stream_of 2 64 (wire_bytes hello ++ [0xc0; 0])) hello [0xc0; 0]).
  - by apply stream_of_ok.
  - apply hello_sendable.
  - reflexivity.
  - by vm_compute.
  - vm_compute. lia.
Defined.

Lemma read_cancel_safe_witness :
  let s := stream_of 2 64 (wire_bytes hello) in
  exists s1, read 2 [] s = (OutOfFuel, s1) /\ buffered s1 <> []
    /\ match read 200 [] s1 with
       | (Ok o, s') => o = Some (received hello) /\ stream_ok s' /\ wire s' = []
       | (Err e, s') => io_error e /\ stream_ok s' /\ wire s' = wire s
       | _ => False
       end.
Proof.
  intros s. destruct (stream_of_ok 2 64 (wire_bytes hello)) as [Hok Hw]; [lia |].
  exists (snd (read 2 [] s)).
  assert (E : read 2 [] s = (OutOfFuel, snd (read 2 [] s))) by (vm_compute; reflexivity).
  split_and!; [exact E | by vm_compute |].
  apply (read_cancel_safe 2 200 [] s (snd (read 2 [] s)) hello []); [done | apply hello_sendable | | | | done].
  - by rewrite app_nil_r.
  - apply Z.leb_le. vm_compute. reflexivity.
  - apply Nat.ltb_lt. vm_compute. reflexivity.
Defined.

Lemma packets_arrive_in_order_witness :
  exists s', read_many 3 100 [] (stream_of 2 64 (concat (wire_bytes <$> [ping; hello; ping])))
             = (Ok [ping; hello; ping], s') /\ wire s' = [].
Proof.
  apply (packets_arrive_in_order [ping; hello; ping] 100 []).
  - apply chunked_reliable.
  - by apply stream_of_ok.
  - pose proof hello_sendable. pose proof ping_sendable.
    repeat (constructor; [split_and!; [done | by vm_compute | vm_compute; lia] |]). constructor.
  - reflexivity.
Defined.

Lemma oversized_packet_refused_witness :
  exists e s', read 100 [] (stream_of 2 16 (wire_bytes hello)) = (Err e, s')
    /\ (e = StreamError.ReadBuffer \/ io_error e)
    /\ buffer_size s' <= max_buffer_size s' /\ wire s' = wire (stream_of 2 16 (wire_bytes hello)).
Proof.
  apply (oversized_packet_refused 100 [] (stream_of 2 16 (wire_bytes hello)) hello []).
  - by apply stream_of_ok.
  - apply hello_sendable.
  - by rewrite app_nil_r.
  - by vm_compute.
  - vm_compute. lia.
Defined.

Lemma write_appends_packet_witness :
  match write ping (stream_of 0 8 [7]) with
  | (Ok _, s') => t_outgoing (stream s') = [] ++ [0xc0; 0] /\ wire s' = [7]
  | (Err e, s') => io_error e /\ wire s' = [7]
  | _ => False
  end.
Proof. apply (write_appends_packet (stream_of 0 8 [7]) ping). apply ping_sendable. Defined.

(** The first three bytes of a packet have been read and the peer is gone. *)
Definition cut_stream : PacketStream :=
  mkPacketStream (take 3 (wire_bytes hello) ++ replicate 61 0) 3 64 64 (mkChunked [] 2 []).

Lemma close_inside_packet_livelocks_witness :
  exists s', read 1000 [] cut_stream = (OutOfFuel, s').
Proof.
  apply (close_inside_packet_livelocks 1000 [] cut_stream hello 3 (drop 4 (wire_bytes hello))).
  - apply chunked_reliable.
  - apply stream_okb_sound. by vm_compute.
  - apply hello_sendable.
  - by vm_compute.
  - reflexivity.
  - discriminate.
  - reflexivity.
Defined.

Definition ping_stream : PacketStream :=
  mkPacketStream (wire_bytes ping ++ replicate 6 0) 2 8 8 (mkChunked [] 2 []).

Lemma read_raw_panics_witness :
  read_raw 1 [] ping_stream = (Panic, ping_stream).
Proof.
  apply (read_raw_panics 0 [] ping_stream ping []).
  - apply stream_okb_sound. by vm_compute.
  - apply ping_sendable.
  - reflexivity.
Defined.

(** A PUBLISH with one user property. *)
Definition one_pair : Publish :=
  sample_publish <| Publish.user_properties := {[ str "k" := [str "v"] ]} |>.

(** The four bytes counted in excess for a user property are taken from what
    follows: a PINGREQ sent right behind such a PUBLISH, and received with it, is
    silently dropped. *)
Theorem packet_after_user_property_lost :
  let bs := wire_bytes (Packet.Publish one_pair) ++ wire_bytes ping in
  exists s', read_many 2 200 [] (stream_of 99 128 bs) = (Ok [Packet.Publish one_pair], s').
Proof. eexists. vm_compute. reflexivity. Qed.
