(* ===== verification/Tasks.v ===== *)
(** * Tasks that wait for locks *)
(** An [async] function as a program that other tasks interrupt at its [await]
    points: pieces of code that run at once, and the acquisition and release of
    read-write locks.  [run] forgets the interruptions, [advance] is the next
    step of a task among tasks that hold locks.  [wp] is a rely-guarantee logic
    for such programs. *)

From S2P Require Import Prelude.

Module Mode.
Inductive mode := Read | Write.
End Mode.
Abbreviation mode := Mode.mode.

#[export] Instance mode_eq_dec : EqDecision mode.
Proof. solve_decision. Defined.

(** ** Programs *)

Section programs.
Context {L : Type} `{EqDecision L} {S E : Type}.

Inductive prog (A : Type) : Type :=
| Value (a : A)
| Do {X : Type} (m : M S E X) (k : X -> prog A)
| Lock (l : L) (m : mode) (k : prog A)
| Unlock (l : L) (m : mode) (k : prog A).
#[global] Arguments Value {A}.
#[global] Arguments Do {A X}.
#[global] Arguments Lock {A}.
#[global] Arguments Unlock {A}.

#[export] Instance prog_ret : MRet prog := fun A a => Value a.

Fixpoint prog_then {A C} (p : prog A) (k : A -> prog C) : prog C :=
  match p with
  | Value a => k a
  | Do m f => Do m (fun x => prog_then (f x) k)
  | Lock l m p => Lock l m (prog_then p k)
  | Unlock l m p => Unlock l m (prog_then p k)
  end.
#[export] Instance prog_bind : MBind prog := fun A C k p => prog_then p k.

(** Code without an [await]. *)
Definition act {A} (m : M S E A) : prog A := Do m Value.

(** [{ let guard = l.read().await; p }], or with [write]. *)
Definition under {A} (l : L) (m : mode) (p : prog A) : prog A :=
  Lock l m (prog_then p (fun a => Unlock l m (Value a))).

(** The program when nothing interrupts it. *)
Fixpoint run {A} (p : prog A) : M S E A :=
  match p with
  | Value a => mret a
  | Do m k => m ≫= fun x => run (k x)
  | Lock _ _ p => run p
  | Unlock _ _ p => run p
  end.

Lemma run_bind {A C} (p : prog A) (k : A -> prog C) s :
  run (p ≫= k) s = (run p ≫= fun a => run (k a)) s.
Proof.
  revert s. induction p as [a|X m f IH|l m p IH|l m p IH]; intros s; simpl; [done | | apply IH ..].
  unfold mbind, M_bind in *. by destruct (m s) as [[x|e| |] s1].
Qed.

Lemma run_act {A} (m : M S E A) s : run (act m) s = m s.
Proof. simpl. unfold mbind, M_bind, mret, M_ret. by destruct (m s) as [[]]. Qed.

Lemma run_under {A} l m (p : prog A) s : run (under l m p) s = run p s.
Proof.
  simpl. change (prog_then p (fun a => Unlock l m (Value a))) with (p ≫= fun a => Unlock l m (Value a)).
  rewrite run_bind. simpl. unfold mbind, M_bind, mret, M_ret. by destruct (run p s) as [[]].
Qed.

(** ** Steps *)

Definition locks : Type := list (L * mode).

(** What a read-write lock guarantees: several readers or one writer.  Which of
    the tasks that wait gets it next is left open. *)
Definition admits (held : locks) (l : L) (m : mode) : bool :=
  match m with
  | Mode.Read => negb (bool_decide ((l, Mode.Write) ∈ held))
  | Mode.Write => negb (bool_decide ((l, Mode.Write) ∈ held)) && negb (bool_decide ((l, Mode.Read) ∈ held))
  end.

Definition drop_guard (l : L) (m : mode) (held : locks) : locks :=
  List.filter (fun g => negb (bool_decide (g = (l, m)))) held.

(** What a step leaves: the rest of the program with the locks it holds, or its
    outcome, after which the guards are dropped. *)
Inductive progress (A : Type) :=
| Running (p : prog A) (held : locks)
| Finished (o : outcome E A).
#[global] Arguments Running {A}.
#[global] Arguments Finished {A}.

(** The next step of a program; there is none while it waits for a lock that
    [others] or itself hold, or for a channel. *)
Definition advance {A} (others : locks) (held : locks) (p : prog A) (s : S) : option (progress A * S) :=
  match p with
  | Value a => Some (Finished (Ok a), s)
  | Do m k =>
      match m s with
      | (Ok x, s') => Some (Running (k x) held, s')
      | (OutOfFuel, _) => None
      | (Err e, s') => Some (Finished (Err e), s')
      | (Panic, s') => Some (Finished Panic, s')
      end
  | Lock l m k => if admits (others ++ held) l m then Some (Running k ((l, m) :: held), s) else None
  | Unlock l m k => Some (Running k (drop_guard l m held), s)
  end.

(** ** Discipline *)

(** A program takes no lock it holds; [Q] is the result with the locks that are
    held at the end. *)
Fixpoint tidy {A} (held : locks) (p : prog A) (Q : A -> locks -> Prop) : Prop :=
  match p with
  | Value a => Q a held
  | Do m k => forall x, tidy held (k x) Q
  | Lock l m k => (l ∉ held.*1) /\ tidy ((l, m) :: held) k Q
  | Unlock l m k => tidy (drop_guard l m held) k Q
  end.

(** A program that gives back the locks it takes. *)
Definition balanced {A} (held : locks) (p : prog A) : Prop := tidy held p (fun _ h => h = held).

Lemma tidy_bind {A C} held (p : prog A) (k : A -> prog C) P Q :
  tidy held p P -> (forall a h, P a h -> tidy h (k a) Q) -> tidy held (p ≫= k) Q.
Proof.
  intros Hp Hk. revert held Hp. induction p as [a|X m f IH|l m p IH|l m p IH]; intros held; simpl.
  - apply Hk.
  - intros Hp x. apply IH, Hp.
  - intros [? ?]. split; [done |]. by apply IH.
  - apply IH.
Qed.

Lemma balanced_ret {A} held (a : A) : balanced held (mret a).
Proof. done. Qed.

Lemma balanced_act {A} held (m : M S E A) : balanced held (act m).
Proof. done. Qed.

Lemma balanced_bind {A C} held (p : prog A) (k : A -> prog C) :
  balanced held p -> (forall a, balanced held (k a)) -> balanced held (p ≫= k).
Proof. intros Hp Hk. eapply tidy_bind; [exact Hp |]. intros a h ->. apply Hk. Qed.

Lemma drop_guard_cons l m held : l ∉ held.*1 -> drop_guard l m ((l, m) :: held) = held.
Proof.
  intros Hn. unfold drop_guard. cbn [List.filter]. rewrite bool_decide_eq_true_2 by done. cbn [negb].
  induction held as [|[l' m'] held IH]; [done |]. rewrite fmap_cons, not_elem_of_cons in Hn.
  destruct Hn as [Hne Hn]. cbn [List.filter].
  rewrite bool_decide_eq_false_2 by (simpl in Hne; congruence). cbn [negb]. by rewrite (IH Hn).
Qed.

Lemma balanced_under {A} held l m (p : prog A) :
  l ∉ held.*1 -> balanced ((l, m) :: held) p -> balanced held (under l m p).
Proof.
  intros Hl Hp. split; [done |]. apply (tidy_bind _ p _ (fun _ h => h = (l, m) :: held)); [done |].
  intros a h ->. simpl. by apply drop_guard_cons.
Qed.

Lemma admits_fresh held l m : l ∉ held.*1 -> admits held l m = true.
Proof.
  intros Hl. assert (H : forall m', bool_decide ((l, m') ∈ held) = false).
  { intros m'. apply bool_decide_eq_false. intros Hin. apply Hl. by apply (list_elem_of_fmap_2 fst) in Hin. }
  destruct m; simpl; by rewrite !H.
Qed.
(** What a step does to the locks of the task. *)
Lemma advance_held {A} others held (p : prog A) s p' held' s' :
  advance others held p s = Some (Running p' held', s') ->
  (forall g, g ∈ held' -> g ∈ held) \/ exists l m, held' = (l, m) :: held /\ admits (others ++ held) l m = true.
Proof.
  destruct p as [a|X m k|l m k|l m k]; simpl; intros Hs.
  - done.
  - destruct (m s) as [[x|e| |] s1]; simplify_eq. by left.
  - destruct (admits _ l m) eqn:Ha; simplify_eq. right. eauto.
  - simplify_eq. left. intros g. unfold drop_guard. rewrite list_elem_of_In, filter_In, <- list_elem_of_In. tauto.
Qed.
End programs.
#[global] Arguments prog L S E A : clear implicits.
#[global] Arguments progress L S E A : clear implicits.
#[global] Arguments locks L : clear implicits.

(** ** Rely and guarantee *)

(** One lock is distinguished: who holds it for writing may break [free], a
    property of the state, and relies on more. *)
Section logic.
Context {L : Type} `{EqDecision L} {S E : Type} (guarded : L) (free : S -> Prop).
Context (rely guarantee : bool -> S -> S -> Prop).
Context `{!forall b, PreOrder (rely b)}.

Definition owner (held : locks L) : bool := bool_decide ((guarded, Mode.Write) ∈ held).

(** The program may start in a state that others change as [rely] says; its own
    steps are within [guarantee], and it leaves the distinguished lock, or ends,
    only when [free] holds again. *)
Fixpoint wp {A} (held : locks L) (p : prog L S E A) (Q : A -> locks L -> S -> Prop) (s : S) : Prop :=
  match p with
  | Value a => forall s1, rely (owner held) s s1 -> Q a held s1
  | Do m k => forall s1, rely (owner held) s s1 ->
      match m s1 with
      | (Ok x, s2) => guarantee (owner held) s1 s2 /\ wp held (k x) Q s2
      | (OutOfFuel, _) => True
      | (_, s2) => guarantee (owner held) s1 s2 /\ (owner held = true -> free s2)
      end
  | Lock l m k => forall s1, rely (owner held) s s1 ->
      (l = guarded -> m = Mode.Write -> free s1) -> wp ((l, m) :: held) k Q s1
  | Unlock l m k => forall s1, rely (owner held) s s1 ->
      (l = guarded -> m = Mode.Write -> free s1) /\ wp (drop_guard l m held) k Q s1
  end.

Lemma wp_rely {A} held (p : prog L S E A) Q s s1 :
  rely (owner held) s s1 -> wp held p Q s -> wp held p Q s1.
Proof. intros Hr. destruct p; simpl; intros Hp s2 Hr2; apply Hp; by etrans. Qed.

Lemma wp_bind {A C} held (p : prog L S E A) (k : A -> prog L S E C) Q s :
  wp held p (fun a h s => wp h (k a) Q s) s -> wp held (p ≫= k) Q s.
Proof.
  revert held s. induction p as [a|X m f IH|l m p IH|l m p IH]; intros held s; simpl; intros Hp.
  - by apply Hp.
  - intros s1 Hr. specialize (Hp s1 Hr). destruct (m s1) as [[x|e| |] s2]; try done.
    destruct Hp. split; [done | by apply IH].
  - intros s1 Hr Hf. apply IH. auto.
  - intros s1 Hr. destruct (Hp s1 Hr). split; [done | by apply IH].
Qed.

Lemma wp_mono {A} held (p : prog L S E A) (P Q : A -> locks L -> S -> Prop) s :
  (forall a h s, P a h s -> Q a h s) -> wp held p P s -> wp held p Q s.
Proof.
  intros HPQ. revert held s. induction p as [a|X m f IH|l m p IH|l m p IH]; intros held s; simpl; intros Hp.
  - auto.
  - intros s1 Hr. specialize (Hp s1 Hr). destruct (m s1) as [[x|e| |] s2]; try done.
    destruct Hp. split; [done | by apply IH].
  - intros s1 Hr Hf. apply IH. auto.
  - intros s1 Hr. destruct (Hp s1 Hr). split; [done | by apply IH].
Qed.

(** A fact that neither the others nor the program's own steps invalidate. *)
Lemma wp_frame {A} (F : S -> Prop) held (p : prog L S E A) Q s :
  (forall b s s', rely b s s' -> F s -> F s') -> (forall b s s', guarantee b s s' -> F s -> F s') ->
  F s -> wp held p Q s -> wp held p (fun a h s => F s /\ Q a h s) s.
Proof.
  intros HR HG. revert held s. induction p as [a|X m f IH|l m p IH|l m p IH]; intros held s HF; simpl; intros Hp.
  - eauto.
  - intros s1 Hr. specialize (Hp s1 Hr). destruct (m s1) as [[x|e| |] s2]; try done.
    destruct Hp. split; [done |]. apply IH; eauto.
  - intros s1 Hr Hf. apply IH; eauto.
  - intros s1 Hr. destruct (Hp s1 Hr). split; [done |]. apply IH; eauto.
Qed.

Lemma owner_drop l m held :
  owner held = true -> owner (drop_guard l m held) = false -> l = guarded /\ m = Mode.Write.
Proof.
  unfold owner. rewrite bool_decide_eq_true, bool_decide_eq_false. intros Hin Hn.
  destruct (decide ((guarded, Mode.Write) = (l, m))) as [[= <- <-]|Hne]; [done |]. destruct Hn.
  unfold drop_guard. rewrite list_elem_of_In, filter_In, <- list_elem_of_In. split; [done |].
  by rewrite bool_decide_eq_false_2.
Qed.

(** A step of a program that obeys the logic: it obeys it afterwards, was within
    the guarantee, and gave the distinguished lock back only with [free]. *)
Lemma wp_advance {A} others held (p : prog L S E A) Q s res s' :
  wp held p Q s -> advance others held p s = Some (res, s') ->
  (admits (others ++ held) guarded Mode.Write = true -> free s) ->
  (s' = s \/ guarantee (owner held) s s')
  /\ match res with
     | Running p' held' => wp held' p' Q s' /\ (owner held = true -> owner held' = false -> free s')
     | Finished (Ok a) => Q a held s'
     | Finished _ => owner held = true -> free s'
     end.
Proof.
  intros Hp Hs Hf. destruct p as [a|X m k|l m k|l m k]; simpl in *.
  - simplify_eq. split; [by left |]. by apply Hp.
  - specialize (Hp s (reflexivity s)).
    destruct (m s) as [[x|e| |] s2]; simplify_eq; destruct Hp as [Hg Hp]; (split; [by right |]); [| done ..].
    split; [done | congruence].
  - destruct (admits _ l m) eqn:Ha; simplify_eq. split; [by left |]. split.
    + apply Hp; [done |]. intros -> ->. auto.
    + unfold owner. rewrite bool_decide_eq_true, bool_decide_eq_false, elem_of_cons. tauto.
  - simplify_eq. destruct (Hp s' (reflexivity s')) as [Hl Hk]. split; [by left |]. split; [done |].
    intros Ho Ho'. destruct (owner_drop l m held Ho Ho'). auto.
Qed.
End logic.
