(* ===== verification/ClientSession.v ===== *)
(** * vaux-client/src/session.rs and lib.rs: the session of a client *)
(** The client's side of a connection: the CONNECT handshake, the packets it
    sends and receives, and the acknowledgements of QoS 1 and 2 it owes and
    waits for.  [ClientSession] is the state, with its packet stream; every
    method is a function in the monad [Client] of that state and [MqttError].
    The text of an error is left out.  [usize] arithmetic panics or wraps with
    the build profile, the class [Build]. *)

From S2P Require Import Prelude Bytes Runtime Codec Fixed Property MacroFacts Subscriptions.
From S2P Require Import Acks Publish Connect Packet Stream.

(** ** Errors *)

Module ErrorKind.
Inductive ErrorKind :=
| Codec
| Protocol (r : Reason)
| IO
| Connection
| Timeout
| Transport
| Session
| Channel.
End ErrorKind.
Abbreviation ErrorKind := ErrorKind.ErrorKind.

Module MqttError.
Record MqttError := new { kind : ErrorKind }.
End MqttError.
Abbreviation MqttError := MqttError.MqttError.

Definition protocol_error : MqttError := MqttError.new (ErrorKind.Protocol Reason.ProtocolErr).
Definition malformed_packet : MqttError := MqttError.new (ErrorKind.Protocol Reason.MalformedPacket).

(** ** Machine words *)

Definition usize_max : Z := 18446744073709551615.

(** Whether arithmetic overflow panics (the dev profile) or wraps (release). *)
Class Build := overflow_checks : bool.

Definition overflowing `{Build} {E} (v : Z) : outcome E Z :=
  if (0 <=? v) && (v <=? usize_max) then Ok v
  else if overflow_checks then Panic else Ok (v mod (usize_max + 1)).

(** ** Messages in flight *)

Module QoSPacket.
Inductive QoSPacket := PubAck | PubRec | PubRel | PubComp.
End QoSPacket.
Abbreviation QoSPacket := QoSPacket.QoSPacket.

#[export] Instance QoSPacket_eq_dec : EqDecision QoSPacket.
Proof. solve_decision. Defined.

Module QoSPacketState.
Record QoSPacketState := mk { packet_id : Z; packet : option Packet; next : QoSPacket }.
End QoSPacketState.
Abbreviation QoSPacketState := QoSPacketState.QoSPacketState.

Definition new_qos1 (packet : Packet) : QoSPacketState :=
  QoSPacketState.mk 0 (Some packet) QoSPacket.PubAck.
Definition new_qos2 (packet : Packet) : QoSPacketState :=
  QoSPacketState.mk 0 (Some packet) QoSPacket.PubRec.

(** [QoSPacketState::next]. *)
Definition qos_next (p : QoSPacketState) : option QoSPacketState :=
  match QoSPacketState.next p with
  | QoSPacket.PubAck => None
  | QoSPacket.PubRec => Some (QoSPacketState.mk (QoSPacketState.packet_id p) None QoSPacket.PubRel)
  | QoSPacket.PubRel => Some (QoSPacketState.mk (QoSPacketState.packet_id p) None QoSPacket.PubComp)
  | QoSPacket.PubComp => None
  end.

(** ** Session state *)

Definition DEFAULT_MAX_PACKET_SIZE : Z := 64 * 1024.
Definition DEFAULT_CLIENT_ID_PREFIX : rstring := Eval compute in str "vaux-client".
Definition DEFAULT_CLIENT_KEEP_ALIVE : Z := secs 60.
Definition DEFAULT_SESSION_EXPIRY : Z := secs 600.

Module SessionState.
Record SessionState := mk {
  client_id : option rstring;
  keep_alive : Z;
  session_expiry : Z;
  qos_send_remaining : Z;
  pending_qos_send : gmap Z QoSPacketState;
  qos_recv_remaining : Z;
  pending_qos_recv : gmap Z QoSPacketState;
  max_packet_size : Z;
  auto_packet_id : bool;
  last_packet_id : Z;
  auto_ack : bool;
  pingresp : bool;
  keep_alive_enabled : bool;
}.
End SessionState.
Abbreviation SessionState := SessionState.SessionState.

#[export] Instance SessionState_eta : Eta SessionState := fun s =>
  SessionState.mk (SessionState.client_id s) (SessionState.keep_alive s)
    (SessionState.session_expiry s) (SessionState.qos_send_remaining s)
    (SessionState.pending_qos_send s) (SessionState.qos_recv_remaining s)
    (SessionState.pending_qos_recv s) (SessionState.max_packet_size s)
    (SessionState.auto_packet_id s) (SessionState.last_packet_id s) (SessionState.auto_ack s)
    (SessionState.pingresp s) (SessionState.keep_alive_enabled s).

(** [SessionState::new]; [uuid] is [Uuid::new_v4()]. *)
Definition SessionState_new (uuid : rstring) : SessionState :=
  SessionState.mk (Some (DEFAULT_CLIENT_ID_PREFIX ++ str "-" ++ uuid)) DEFAULT_CLIENT_KEEP_ALIVE
    DEFAULT_SESSION_EXPIRY u16_max ∅ u16_max ∅ DEFAULT_MAX_PACKET_SIZE true 0 true false true.

(** The session of a running client; [connected] is the session's own flag. *)
Module ClientSession.
Record ClientSession `{Transport} := mk {
  connected : bool;
  packet_stream : PacketStream;
  last_active : Z;
  state : SessionState;
  usable : bool;
}.
Arguments mk {_}.
End ClientSession.
Abbreviation ClientSession := ClientSession.ClientSession.

#[export] Instance ClientSession_eta `{Transport} : Eta ClientSession := fun c =>
  ClientSession.mk (ClientSession.connected c) (ClientSession.packet_stream c)
    (ClientSession.last_active c) (ClientSession.state c) (ClientSession.usable c).

Section session.
Context {B : Buf} {HI : HashIter} {T : Transport} {V : Build}.

Abbreviation Client := (M ClientSession MqttError).

(** ** Access to the state *)

Definition state_of {A} (f : SessionState -> A) : Client A :=
  gets (fun c => f (ClientSession.state c)).

Definition with_state (f : SessionState -> SessionState) : Client unit :=
  modify (fun c => c <| ClientSession.state := f (ClientSession.state c) |>).

Definition put_send (id : Z) (p : QoSPacketState) : Client unit :=
  with_state (fun s =>
    s <| SessionState.pending_qos_send := <[id := p]> (SessionState.pending_qos_send s) |>).
Definition put_recv (id : Z) (p : QoSPacketState) : Client unit :=
  with_state (fun s =>
    s <| SessionState.pending_qos_recv := <[id := p]> (SessionState.pending_qos_recv s) |>).

(** [HashMap::remove]. *)
Definition remove_send (id : Z) : Client (option QoSPacketState) :=
  p ← state_of (fun s => SessionState.pending_qos_send s !! id);
  with_state (fun s =>
    s <| SessionState.pending_qos_send := delete id (SessionState.pending_qos_send s) |>) ≫= fun _ =>
  mret p.
Definition remove_recv (id : Z) : Client (option QoSPacketState) :=
  p ← state_of (fun s => SessionState.pending_qos_recv s !! id);
  with_state (fun s =>
    s <| SessionState.pending_qos_recv := delete id (SessionState.pending_qos_recv s) |>) ≫= fun _ =>
  mret p.

(** [qos_send_remaining += n] and [qos_recv_remaining += n]. *)
Definition add_send_remaining (n : Z) : Client unit :=
  r ← state_of SessionState.qos_send_remaining;
  r ← lift (overflowing (r + n));
  with_state (fun s => s <| SessionState.qos_send_remaining := r |>).
Definition add_recv_remaining (n : Z) : Client unit :=
  r ← state_of SessionState.qos_recv_remaining;
  r ← lift (overflowing (r + n));
  with_state (fun s => s <| SessionState.qos_recv_remaining := r |>).

Definition set_session_connected (b : bool) : Client unit :=
  modify (fun c => c <| ClientSession.connected := b |>).

(** A stream operation and its error. *)
Definition on_packet_stream {A} (m : M PacketStream StreamError A) : Client A := fun c =>
  let '(r, s) := m (ClientSession.packet_stream c) in
  (map_err (fun _ => MqttError.new ErrorKind.Transport) r, c <| ClientSession.packet_stream := s |>).

Definition send_packet (packet : Packet) : Client unit := on_packet_stream (write packet).

Definition read_next (fuel : nat) (uuid : rstring) : Client (option Packet) :=
  on_packet_stream (read fuel uuid).

(** [let _ = self.packet_stream.shutdown().await]. *)
Definition shutdown_stream : Client unit :=
  attempt (on_packet_stream shutdown) ≫= fun _ => mret tt.

(** ** Creation and end *)

(** [ClientSession::new_from_client] once the client has given its state and
    stream away. *)
Definition new_from_state (st : SessionState) (t : t_state) (now : Z) : ClientSession :=
  ClientSession.mk false (PacketStream_new t None (Some (SessionState.max_packet_size st))) now st true.

(** The state is taken out and the session poisoned. *)
Definition end_session (uuid : rstring) : Client SessionState :=
  st ← gets ClientSession.state;
  modify (fun c => c <| ClientSession.usable := false |>
                     <| ClientSession.state := SessionState_new uuid |>) ≫= fun _ =>
  mret st.

(** ** Connecting *)

(** [handle_connack]: the guard of the client identifier's mutex is held to the
    end, so that locking it again never returns. *)
Definition handle_connack (connack : ConnAck) : Client ConnAck :=
  client_id_set ← state_of (fun s => bool_decide (is_Some (SessionState.client_id s)));
  (if negb (bool_decide (ConnAck.reason connack = Reason.Success)) then
     set_session_connected false ≫= fun _ =>
     raise (MqttError.new (ErrorKind.Protocol (ConnAck.reason connack)))
   else set_session_connected true) ≫= fun _ =>
  (if negb client_id_set then
     match ConnAck.assigned_client_id connack with
     | Some _ => no_fuel
     | None => raise (MqttError.new (ErrorKind.Protocol Reason.InvalidClientId))
     end
   else mret tt) ≫= fun _ =>
  match ConnAck.server_keep_alive connack with
  | Some server_keep_alive =>
      with_state (fun s => s <| SessionState.keep_alive := secs server_keep_alive |>)
  | None => mret tt
  end ≫= fun _ =>
  match ConnAck.session_expiry_interval connack with
  | Some server_session_expiry =>
      with_state (fun s => s <| SessionState.session_expiry := secs server_session_expiry |>)
  | None => mret tt
  end ≫= fun _ =>
  match ConnAck.receive_maximum connack with
  | Some receive_max => with_state (fun s => s <| SessionState.qos_send_remaining := receive_max |>)
  | None => mret tt
  end ≫= fun _ =>
  mret connack.

(** The CONNECT packet of the session; [uuid] is drawn by [Connect::default]. *)
Definition connect_packet (uuid : rstring) (credentials : option (rstring * rstring))
    (clean_start : bool) (will : option WillMessage) (st : SessionState) : Connect :=
  let connect := (Connect_new uuid)
    <| Connect.keep_alive := u16 (as_secs (SessionState.keep_alive st)) |> in
  let connect := set_clean_start clean_start connect in
  let connect := match SessionState.client_id st with
                 | Some id => connect <| Connect.client_id := id |>
                 | None => connect
                 end in
  let connect := set_session_expiry_interval (u32 (as_secs (SessionState.session_expiry st))) connect in
  let connect := match credentials with
                 | Some (username, password) =>
                     set_password (Some password) (set_username (Some username) connect)
                 | None => connect
                 end in
  match will with Some will => set_will_message will connect | None => connect end.

(** The loop that waits for CONNACK; [elapsed k] is the time at its [k]-th
    check.  [fuel] bounds its iterations and [read_fuel] the reads of each. *)
Fixpoint await_connack (fuel read_fuel : nat) (uuid : rstring) (elapsed : nat -> Z) (k : nat)
    (max_connect_wait : Z) : Client ConnAck :=
  if elapsed k <? max_connect_wait then
    match fuel with
    | O => no_fuel
    | S fuel =>
        result ← attempt (read_next read_fuel uuid);
        match result with
        | inr (Some (Packet.ConnAck connack)) => handle_connack connack
        | inr (Some (Packet.Disconnect disconnect)) =>
            raise (MqttError.new (ErrorKind.Protocol (Disconnect.reason disconnect)))
        | inr (Some _) => raise protocol_error
        | inr None => raise protocol_error
        | inl e =>
            match MqttError.kind e with
            | ErrorKind.Timeout => await_connack fuel read_fuel uuid elapsed (S k) max_connect_wait
            | _ => raise (MqttError.new ErrorKind.Transport)
            end
        end
    end
  else raise (MqttError.new ErrorKind.Timeout).

Definition connect (fuel read_fuel : nat) (uuid uuid' : rstring) (elapsed : nat -> Z)
    (max_connect_wait : Z) (credentials : option (rstring * rstring)) (clean_start : bool)
    (will : option WillMessage) : Client ConnAck :=
  usable ← gets ClientSession.usable;
  if negb usable then raise (MqttError.new ErrorKind.Session)
  else
    connect ← state_of (connect_packet uuid credentials clean_start will);
    lift (or_panic (fst (encode connect []))) ≫= fun _ =>
    written ← attempt (send_packet (Packet.Connect connect));
    match written with
    | inr _ => await_connack fuel read_fuel uuid' elapsed 0 max_connect_wait
    | inl _ => raise (MqttError.new ErrorKind.Transport)
    end.

(** ** Sending *)

(** The search for a packet identifier that is not in flight. *)
Fixpoint skip_used_ids (fuel : nat) : Client unit :=
  match fuel with
  | O => no_fuel
  | S fuel =>
      used ← state_of (fun s => bool_decide (is_Some
               (SessionState.pending_qos_send s !! SessionState.last_packet_id s)));
      if (used : bool) then
        with_state (fun s =>
          s <| SessionState.last_packet_id := u16 (SessionState.last_packet_id s + 1) |>) ≫= fun _ =>
        skip_used_ids fuel
      else mret tt
  end.

(** One step for each of the 65536 identifiers is enough. *)
Definition ID_FUEL : nat := Z.to_nat 65537.

(** The packet with the identifier it is sent with. *)
Definition choose_packet_id (p : Publish) : Client Publish :=
  match Publish.packet_id p with
  | Some packet_id =>
      used ← state_of (fun s => bool_decide (is_Some (SessionState.pending_qos_send s !! packet_id)));
      if (used : bool) then raise malformed_packet else mret p
  | None =>
      auto ← state_of SessionState.auto_packet_id;
      if (auto : bool) then
        with_state (fun s =>
          s <| SessionState.last_packet_id := u16 (SessionState.last_packet_id s + 1) |>) ≫= fun _ =>
        skip_used_ids ID_FUEL ≫= fun _ =>
        id ← state_of SessionState.last_packet_id;
        lift (map_err (fun _ => malformed_packet) (publish_set_packet_id (Some id) p))
      else raise malformed_packet
  end.

(** A PUBLISH above QoS 0 that is sent waits for its acknowledgement. *)
Definition track_send (q : QoSLevel) (p : Publish) : Client unit :=
  match q with
  | QoSLevel.AtLeastOnce =>
      id ← lift (unwrap (Publish.packet_id p)); put_send id (new_qos1 (Packet.Publish p))
  | QoSLevel.ExactlyOnce =>
      id ← lift (unwrap (Publish.packet_id p)); put_send id (new_qos2 (Packet.Publish p))
  | QoSLevel.AtMostOnce => mret tt
  end.

Definition write_publish (p : Publish) : Client unit :=
  q ← lift (or_panic (publish_qos p));
  (if bool_decide (q = QoSLevel.AtMostOnce) then mret p
   else
     full ← state_of (fun s => (u16_max <=? Z.of_nat (size (SessionState.pending_qos_send s)))
                               || (SessionState.qos_send_remaining s =? 0));
     if (full : bool) then raise protocol_error
     else
       p ← choose_packet_id p;
       track_send q p ≫= fun _ => mret p) ≫= fun p =>
  send_packet (Packet.Publish p).

Definition write_next (packet : Packet) : Client unit :=
  match packet with
  | Packet.Publish p => write_publish p
  | Packet.Disconnect d =>
      send_packet (Packet.Disconnect d) ≫= fun _ =>
      shutdown_stream ≫= fun _ =>
      set_session_connected false
  | packet => send_packet packet
  end.

(** ** Receiving *)

(** A received PUBLISH; the identifier is unwrapped before it is looked at. *)
Definition recv_qos1 (publish : Publish) : Client unit :=
  remaining ← state_of SessionState.qos_recv_remaining;
  if remaining =? 0 then raise protocol_error
  else
    id ← lift (unwrap (Publish.packet_id publish));
    put_recv id (new_qos1 (Packet.Publish publish)) ≫= fun _ =>
    auto_ack ← state_of SessionState.auto_ack;
    add_recv_remaining (-1) ≫= fun _ =>
    if (auto_ack : bool) then
      sent ← attempt (send_packet (Packet.PubAck (new_puback_with_packet_id id)));
      match sent with
      | inr _ => remove_recv id ≫= fun _ => add_recv_remaining 1
      | inl _ => raise (MqttError.new ErrorKind.Transport)
      end
    else mret tt.

Definition recv_qos2 (publish : Publish) : Client unit :=
  id ← lift (unwrap (Publish.packet_id publish));
  put_recv id (new_qos2 (Packet.Publish publish)) ≫= fun _ =>
  add_recv_remaining (-1) ≫= fun _ =>
  auto_ack ← state_of SessionState.auto_ack;
  if (auto_ack : bool) then
    sent ← attempt (send_packet (Packet.PubRec (new_pubrec_with_packet_id id)));
    match sent with
    | inr _ =>
        p ← remove_recv id;
        match p with
        | Some p => next ← lift (unwrap (qos_next p)); put_recv id next
        | None => raise (MqttError.new ErrorKind.Session)
        end
    | inl _ => raise (MqttError.new ErrorKind.Transport)
    end
  else mret tt.

Definition handle_recv_publish (publish : Publish) : Client unit :=
  q ← lift (or_panic (publish_qos publish));
  match q with
  | QoSLevel.AtMostOnce => mret tt
  | QoSLevel.AtLeastOnce => recv_qos1 publish
  | QoSLevel.ExactlyOnce => recv_qos2 publish
  end.

Definition handle_puback (packet_id : Z) : Client unit :=
  p ← state_of (fun s => SessionState.pending_qos_send s !! packet_id);
  match p with
  | Some p =>
      match QoSPacketState.next p with
      | QoSPacket.PubAck => remove_send packet_id ≫= fun _ => add_send_remaining 1
      | _ => raise protocol_error
      end
  | None => raise protocol_error
  end.

(** PUBREL is sent; the entry moves on when that succeeded. *)
Definition release_send (packet_id : Z) (p : QoSPacketState) : Client unit :=
  pubrec_state ← lift (ok_or (qos_next p) (MqttError.new ErrorKind.Session));
  put_send packet_id pubrec_state ≫= fun _ =>
  sent ← attempt (send_packet (Packet.PubRel (new_pubrel_with_packet_id packet_id)));
  match sent with
  | inr _ =>
      pubrec_packet ← remove_send packet_id;
      match pubrec_packet with
      | Some pubrec_packet =>
          match QoSPacketState.next pubrec_packet with
          | QoSPacket.PubRel =>
              next ← lift (ok_or (qos_next pubrec_packet) (MqttError.new ErrorKind.Session));
              put_send packet_id next
          | _ => put_send packet_id pubrec_packet ≫= fun _ => raise protocol_error
          end
      | None => mret tt
      end
  | inl _ => raise (MqttError.new ErrorKind.Transport)
  end.

Definition handle_pubrec (packet_id : Z) : Client unit :=
  p ← remove_send packet_id;
  match p with
  | Some p =>
      match QoSPacketState.next p with
      | QoSPacket.PubRec =>
          auto_ack ← state_of SessionState.auto_ack;
          if (auto_ack : bool) then release_send packet_id p else mret tt
      | _ => put_send packet_id p ≫= fun _ => raise protocol_error
      end
  | None => raise protocol_error
  end.

Definition handle_pubrel (packet_id : Z) : Client unit :=
  p ← remove_recv packet_id;
  match p with
  | Some p =>
      match QoSPacketState.next p with
      | QoSPacket.PubRel =>
          auto_ack ← state_of SessionState.auto_ack;
          if (auto_ack : bool) then
            sent ← attempt (send_packet (Packet.PubComp (new_pubcomp_with_packet_id packet_id)));
            match sent with
            | inr _ => remove_recv packet_id ≫= fun _ => add_recv_remaining 1
            | inl _ => put_recv packet_id p ≫= fun _ => raise (MqttError.new ErrorKind.Transport)
            end
          else mret tt
      | _ => put_recv packet_id p ≫= fun _ => raise protocol_error
      end
  | None => raise protocol_error
  end.

Definition handle_pubcomp (packet_id : Z) : Client unit :=
  p ← remove_send packet_id;
  match p with
  | Some p =>
      match QoSPacketState.next p with
      | QoSPacket.PubComp => add_send_remaining 1
      | _ => put_send packet_id p ≫= fun _ => raise protocol_error
      end
  | None => raise protocol_error
  end.

(** The packet for the consumer, if it is to see it. *)
Definition handle_packet (packet : Packet) : Client (option Packet) :=
  match packet with
  | Packet.PingResponse _ =>
      to_consumer ← state_of SessionState.pingresp;
      mret (if (to_consumer : bool) then Some packet else None)
  | Packet.Disconnect d =>
      shutdown_stream ≫= fun _ =>
      raise (MqttError.new (ErrorKind.Protocol (Disconnect.reason d)))
  | Packet.Publish publish => handle_recv_publish publish ≫= fun _ => mret (Some packet)
  | Packet.PubAck puback => handle_puback (PubResp.packet_id puback) ≫= fun _ => mret (Some packet)
  | Packet.PubRec pubrec => handle_pubrec (PubResp.packet_id pubrec) ≫= fun _ => mret (Some packet)
  | Packet.PubRel pubrel => handle_pubrel (PubResp.packet_id pubrel) ≫= fun _ => mret (Some packet)
  | Packet.PubComp pubcomp => handle_pubcomp (PubResp.packet_id pubcomp) ≫= fun _ => mret (Some packet)
  | packet => mret (Some packet)
  end.

Definition handle_keep_alive (now : Z) : Client unit :=
  send_packet (Packet.PingRequest dflt) ≫= fun _ =>
  modify (fun c => c <| ClientSession.last_active := now |>).
End session.
