(* ===== verification/Connection.v ===== *)
(** * vaux-client/src/connection.rs and vaux-async/src/stream/mod.rs: connections *)
(** [MqttStream] is the sum of the three kinds of stream a connection may use,
    and a [Transport] because each of them is.  [MqttConnection] is the client's
    description of the broker; its [connect] resolves the host, opens the
    socket and, if asked to, the TLS session over it.  Name resolution, sockets
    and TLS come from [tokio], [async_std] and [rustls]: they are the class
    [Network]. *)

From stdpp Require Import pretty.
From S2P Require Import Prelude Bytes Codec Property Packet Stream ClientSession.

Class Network := {
  tcp : Transport;
  client_tls : Transport;
  server_tls : Transport;
  SocketAddr : Type;
  ServerName : Type;
  RootCertStore : Type;
  (** [to_socket_addrs], [None] when the host cannot be resolved *)
  to_socket_addrs : rstring -> option (list SocketAddr);
  (** [timeout(_, TcpStream::connect(_))], [None] when the time is over *)
  tcp_connect : SocketAddr -> Z -> option (option (@t_state tcp));
  (** [ServerName::try_from] *)
  server_name : rstring -> option ServerName;
  (** [TlsConnector::connect] *)
  tls_connect : RootCertStore -> ServerName -> @t_state tcp -> option (@t_state client_tls);
}.

(** ** The streams *)

Module MqttStream.
Inductive MqttStream `{Network} :=
| TcpStream (s : @t_state tcp)
| ClientTlsStream (s : @t_state client_tls)
| ServerTlsStream (s : @t_state server_tls).
End MqttStream.
Abbreviation MqttStream := MqttStream.MqttStream.

Section streams.
Context {N : Network}.

Definition poll_read (n : Z) (s : MqttStream) : outcome IoErrorKind (list Z) * MqttStream :=
  match s with
  | MqttStream.TcpStream s => prod_map id MqttStream.TcpStream (t_read n s)
  | MqttStream.ClientTlsStream s => prod_map id MqttStream.ClientTlsStream (t_read n s)
  | MqttStream.ServerTlsStream s => prod_map id MqttStream.ServerTlsStream (t_read n s)
  end.

(** [poll_write] until all bytes are written. *)
Definition poll_write (bs : list Z) (s : MqttStream) : outcome IoErrorKind unit * MqttStream :=
  match s with
  | MqttStream.TcpStream s => prod_map id MqttStream.TcpStream (t_write_all bs s)
  | MqttStream.ClientTlsStream s => prod_map id MqttStream.ClientTlsStream (t_write_all bs s)
  | MqttStream.ServerTlsStream s => prod_map id MqttStream.ServerTlsStream (t_write_all bs s)
  end.

Definition poll_shutdown (s : MqttStream) : outcome IoErrorKind unit * MqttStream :=
  match s with
  | MqttStream.TcpStream s => prod_map id MqttStream.TcpStream (t_shutdown s)
  | MqttStream.ClientTlsStream s => prod_map id MqttStream.ClientTlsStream (t_shutdown s)
  | MqttStream.ServerTlsStream s => prod_map id MqttStream.ServerTlsStream (t_shutdown s)
  end.

Definition stream_bytes (f : forall T : Transport, t_state -> list Z) (s : MqttStream) : list Z :=
  match s with
  | MqttStream.TcpStream s => f tcp s
  | MqttStream.ClientTlsStream s => f client_tls s
  | MqttStream.ServerTlsStream s => f server_tls s
  end.

(** [AsyncMqttStream] behaves as the stream it wraps. *)
#[refine, export] Instance AsyncMqttStream : Transport := {|
  t_state := MqttStream;
  t_read := poll_read;
  t_write_all := poll_write;
  t_shutdown := poll_shutdown;
  t_incoming := stream_bytes (fun T => t_incoming);
  t_outgoing := stream_bytes (fun T => t_outgoing);
|}.
Proof.
  - intros n [s|s|s] Hn; simpl; pose proof (read_law n s Hn) as H;
      destruct (t_read n s) as [[c|e| |] s']; apply H.
  - intros n [s|s|s]; simpl; rewrite <- (read_outgoing n s); by destruct (t_read n s).
  - intros bs [s|s|s]; simpl; pose proof (write_law bs s) as H;
      destruct (t_write_all bs s) as [[c|e| |] s']; apply H.
Defined.
End streams.

(** ** Packets over a wrapped stream *)

Section embedding.
Context {B : Buf} {HI : HashIter} (T1 T2 : Transport) (wrap : @t_state T1 -> @t_state T2).
Context (Hread : forall n t, t_read n (wrap t) = prod_map id wrap (t_read n t)).
Context (Hwrite : forall bs t, t_write_all bs (wrap t) = prod_map id wrap (t_write_all bs t)).
Context (Hshut : forall t, t_shutdown (wrap t) = prod_map id wrap (t_shutdown t)).

Definition wrapped (s : @PacketStream T1) : @PacketStream T2 :=
  mkPacketStream (read_buffer s) (read_offset s) (initial_buffer_size s) (max_buffer_size s)
    (wrap (stream s)).

(** The same operation on both sides. *)
Definition same {A} (m1 : M (@PacketStream T1) StreamError A) (m2 : M (@PacketStream T2) StreamError A) : Prop :=
  forall s, m2 (wrapped s) = prod_map id wrapped (m1 s).

Lemma same_bind {A A'} m1 m2 (f1 : A -> M _ _ A') (f2 : A -> M _ _ A') :
  same m1 m2 -> (forall a, same (f1 a) (f2 a)) -> same (m1 ≫= f1) (m2 ≫= f2).
Proof.
  intros Hm Hf s. unfold mbind, M_bind. rewrite Hm. destruct (m1 s) as [[a|e| |] s']; cbn; [apply Hf | done..].
Qed.

Lemma same_read_more br : same (read_more br) (read_more br).
Proof.
  intros s. unfold read_more, get, modify, mbind, M_bind. cbn.
  destruct (slice_to (read_offset s) (read_buffer s)); [| done]. rewrite Hread.
  destruct (t_read _ (stream s)) as [[c|e| |] t]; cbn; [| by destruct e | done | done].
  destruct ((len c =? 0) && (br =? 0)); [done |]. cbn.
  by destruct (len (write_at (read_offset s) c (read_buffer s)) <=? br + len c).
Qed.

Lemma same_read_loop uuid fuel : forall br,
  same (read_loop fuel uuid false br) (read_loop fuel uuid false br).
Proof.
  induction fuel as [|fuel IH]; intros br; [by intros s |].
  assert (Hagain : same
    (more ← read_more (T := T1) br;
     match more with None => mret None | Some br => read_loop fuel uuid false br end)
    (more ← read_more (T := T2) br;
     match more with None => mret None | Some br => read_loop fuel uuid false br end)).
  { apply same_bind; [apply same_read_more |]. intros [br'|]; [apply IH | by intros s]. }
  intros s. cbn [read_loop]. cbv zeta. destruct (0 <? br); [| apply Hagain]. rewrite !bind_get. cbn.
  destruct (slice_to br (read_buffer s)) as [bs|]; [| done].
  destruct (codec_decode uuid bs) as [[[[p n]|]|e| |] rest]; try done.
  - unfold take_packet. by destruct (n <? br).
  - destruct (kind e); try done. destruct (max_buffer_size s <=? read_offset s); [done | apply Hagain].
Qed.

Lemma same_read fuel uuid : same (read fuel uuid) (read fuel uuid).
Proof.
  apply same_bind; [| intros [[p o]|]; by intros s].
  intros s. unfold read_internal, gets, mbind, M_bind. cbn. apply same_read_loop.
Qed.

Lemma same_write p : same (write p) (write p).
Proof.
  intros s. unfold write. destruct (encode p []) as [[u|e| |] bs]; try done. rewrite !bind_get. cbn.
  rewrite Hwrite. by destruct (t_write_all bs (stream s)) as [[u'|e| |] t].
Qed.

Lemma same_shutdown : same shutdown shutdown.
Proof.
  intros s. unfold shutdown. rewrite !bind_get. cbn. rewrite Hshut.
  by destruct (t_shutdown (stream s)) as [[u|e| |] t].
Qed.
End embedding.

(** Packets over an [AsyncMqttStream] are read, written and the stream shut
    down exactly as over the TCP stream, the client's TLS stream or the server's
    TLS stream it wraps. *)
Theorem wrapped_stream_equivalent {B : Buf} {HI : HashIter} {N : Network} (fuel : nat) (uuid : rstring)
    (p : Packet) :
  let agree (T : Transport) wrap :=
    same T AsyncMqttStream wrap (read fuel uuid) (read fuel uuid)
    /\ same T AsyncMqttStream wrap (write p) (write p)
    /\ same T AsyncMqttStream wrap shutdown shutdown in
  agree tcp MqttStream.TcpStream /\ agree client_tls MqttStream.ClientTlsStream
  /\ agree server_tls MqttStream.ServerTlsStream.
Proof.
  intros agree. unfold agree. split_and!;
    first [by apply same_read | by apply same_write | by apply same_shutdown].
Qed.

(** ** Connections *)

Module MqttConnection.
Definition DEFAULT_HOST : rstring := Eval compute in str "localhost".
Definition DEFAULT_PORT : Z := 1883.
Definition DEFAULT_SECURE_PORT : Z := 8883.
(** In milliseconds. *)
Definition DEFAULT_CONNECTION_TIMEOUT : Z := 30000.

(** The verifier of the [developer] feature carries no data. *)
Record MqttConnection `{Network} := mk {
  host : rstring;
  port : option Z;
  username : option rstring;
  password : option rstring;
  tls : bool;
  trusted_ca : option RootCertStore;
  stream : option MqttStream;
}.
Arguments mk {_}.

#[global] Instance MqttConnection_eta `{Network} : Eta MqttConnection := fun c =>
  mk (host c) (port c) (username c) (password c) (tls c) (trusted_ca c) (stream c).

Section connection.
Context {N : Network}.

Definition new : MqttConnection := mk DEFAULT_HOST None None None false None None.

Definition credentials (c : MqttConnection) : option (rstring * rstring) :=
  match username c, password c with
  | Some username, Some password => Some (username, password)
  | _, _ => None
  end.

Definition with_credentials (u p : rstring) (c : MqttConnection) : MqttConnection :=
  c <| username := Some u |> <| password := Some p |>.

Definition with_tls (c : MqttConnection) : MqttConnection :=
  let c := c <| tls := true |> in
  match port c with None => c <| port := Some DEFAULT_SECURE_PORT |> | Some _ => c end.

Definition with_host (h : rstring) (c : MqttConnection) : MqttConnection := c <| host := h |>.
Definition with_port (p : Z) (c : MqttConnection) : MqttConnection := c <| port := Some p |>.
Definition with_trust_store (ca : RootCertStore) (c : MqttConnection) : MqttConnection :=
  c <| trusted_ca := Some ca |>.

Abbreviation Conn := (M MqttConnection MqttError).

Definition take_stream : Conn (option MqttStream) :=
  s ← gets stream; modify (fun c => c <| stream := None |>) ≫= fun _ => mret s.

Definition connection_error : MqttError := MqttError.new ErrorKind.Connection.

(** A refused certificate store is reported after the host name. *)
Definition connect_tls (s : @t_state tcp) : Conn MqttStream :=
  c ← get;
  name ← lift (ok_or (server_name (host c)) connection_error);
  match trusted_ca c with
  | Some ca =>
      s ← lift (ok_or (tls_connect ca name s) connection_error);
      mret (MqttStream.ClientTlsStream s)
  | None => raise connection_error
  end.

Definition connect_with_timeout (timeout : Z) : Conn unit :=
  modify (fun c => match port c with
                   | None => c <| port := Some DEFAULT_PORT |>
                   | Some _ => c
                   end) ≫= fun _ =>
  c ← get;
  p ← lift (unwrap (port c));
  let addr := host c ++ str ":" ++ str (pretty p) in
  addrs ← lift (ok_or (to_socket_addrs addr) connection_error);
  addr ← lift (unwrap (head addrs));
  match tcp_connect addr timeout with
  | Some (Some s) =>
      s ← (if tls c then connect_tls s else mret (MqttStream.TcpStream s));
      modify (fun c => c <| stream := Some s |>)
  | Some None => raise connection_error
  | None => raise (MqttError.new ErrorKind.Timeout)
  end.

Definition connect : Conn unit := connect_with_timeout (DEFAULT_CONNECTION_TIMEOUT * 1000000).
End connection.
End MqttConnection.
Abbreviation MqttConnection := MqttConnection.MqttConnection.
