(* ===== verification/Client.v ===== *)
(** * vaux-client/src/client.rs and builder.rs: the client *)
(** [MqttClient] is the handle of the application; [start] gives the session to
    a task that runs the loop of [select!].  The application and the task meet
    in the channels, kept in the store [Channels] because they are shared, and
    in the flag [connected].  [client_step] is the system of the application,
    the handle and the task: every branch of the loop is one step, and so is
    every use the application makes of a channel.

    The cells [keep_alive] and [session_expiry] of the client are those of its
    session state, so that they are kept there only. *)

From S2P Require Import Prelude Bytes Runtime Codec Fixed Property MacroFacts Subscriptions.
From S2P Require Import Acks Publish Connect Packet Stream ClientSession Connection.

#[export] Instance PacketType_countable : Countable PacketType.
Proof. by refine (inj_countable' PacketType_as_u8 PacketType_from _); intros []. Defined.

(** ** Channels *)

Definition DEFAULT_CHANNEL_SIZE : Z := 128.
Definition MAX_CONNECT_WAIT : Z := secs 5.

(** The channels there are, and the name of the next one. *)
Module Channels.
Record Channels `{Runtime} := mk { store : gmap Z (chan Packet); next : Z }.
Arguments mk {_}.

#[global] Instance Channels_eta `{Runtime} : Eta Channels := fun c => mk (store c) (next c).
End Channels.
Abbreviation Channels := Channels.Channels.

(** What [try_send] answers. *)
Inductive Sent := SentOk | SentFull (packet : Packet) | SentClosed.

Section channels.
Context {R : Runtime} {E : Type}.

Abbreviation Chans := (M Channels E).

(** [mpsc::channel(size)] panics without room for a message. *)
Definition mpsc_channel (size : Z) : Chans Z :=
  if size =? 0 then panic
  else
    ch ← gets Channels.next;
    modify (fun s => s <| Channels.store := <[ch := chan_new size]> (Channels.store s) |>
                       <| Channels.next := ch + 1 |>) ≫= fun _ =>
    mret ch.

Definition channel_at (ch : Z) : Chans (chan Packet) :=
  s ← get; lift (unwrap (Channels.store s !! ch)).

Definition put_channel (ch : Z) (c : chan Packet) : Chans unit :=
  modify (fun s => s <| Channels.store := <[ch := c]> (Channels.store s) |>).

(** [Sender::try_send]. *)
Definition try_send (ch : Z) (packet : Packet) : Chans Sent :=
  c ← channel_at ch;
  if chan_closed c then mret SentClosed
  else match chan_try_send packet c with
       | Some c => put_channel ch c ≫= fun _ => mret SentOk
       | None => mret (SentFull packet)
       end.

(** [Sender::send] waits for room: a send that waits has not happened. *)
Definition chan_send (error : E) (ch : Z) (packet : Packet) : Chans unit :=
  sent ← try_send ch packet;
  match sent with
  | SentOk => mret tt
  | SentFull _ => no_fuel
  | SentClosed => raise error
  end.

(** The end of a [Receiver]. *)
Definition drop_receiver (ch : Z) : Chans unit :=
  c ← channel_at ch; put_channel ch (chan_close c).
End channels.

Module PacketChannel.
Record PacketChannel := mk { sender : Z; receiver : option Z }.

#[global] Instance PacketChannel_eta : Eta PacketChannel := fun c => mk (sender c) (receiver c).

Definition new_with_size {R : Runtime} {E} (size : Z) : M Channels E PacketChannel :=
  ch ← mpsc_channel size; mret (mk ch (Some ch)).

Definition new {R : Runtime} {E} : M Channels E PacketChannel := new_with_size DEFAULT_CHANNEL_SIZE.

Definition new_from_channel (s r : Z) : PacketChannel := mk s (Some r).

Definition take_receiver (c : PacketChannel) : option Z * PacketChannel :=
  (receiver c, c <| receiver := None |>).
End PacketChannel.
Abbreviation PacketChannel := PacketChannel.PacketChannel.

(** ** The client *)

Module ClientError.
Record ClientError := new { mqtt_error : MqttError; state : SessionState }.

Definition kind (e : ClientError) : ErrorKind := MqttError.kind (mqtt_error e).
End ClientError.
Abbreviation ClientError := ClientError.ClientError.

(** The task of [start]: the session, the ends of the channels it owns and what
    it keeps between iterations. *)
Module Task.
Record Task `{Transport} := mk {
  session : ClientSession;
  filter_channel : gmap PacketType Z;
  packet_out : Z;
  packet_in : Z;
  pending_forward : option Packet;
  keep_alive : Z;
  keep_alive_enabled : bool;
  iteration : Z;  (** when the current iteration of the loop began *)
}.
Arguments mk {_}.

#[global] Instance Task_eta `{Transport} : Eta Task := fun t =>
  mk (session t) (filter_channel t) (packet_out t) (packet_in t) (pending_forward t)
    (keep_alive t) (keep_alive_enabled t) (iteration t).
End Task.
Abbreviation Task := Task.Task.

(** The arguments of the session's [connect]. *)
Module Handshake.
Record Handshake := mk {
  max_connect_wait : Z;
  credentials : option (rstring * rstring);
  clean_start : bool;
  will_message : option WillMessage;
}.
End Handshake.
Abbreviation Handshake := Handshake.Handshake.

Module MqttClient.
Record MqttClient `{Network} := mk {
  connection : option MqttConnection;
  filter_channel : gmap PacketType Z;
  connected : bool;
  packet_in : PacketChannel;
  packet_out : PacketChannel;
  err_chan : option Z;
  max_connect_wait : Z;
  will_message : option WillMessage;
  session_state : option SessionState;
}.
Arguments mk {_}.

#[global] Instance MqttClient_eta `{Network} : Eta MqttClient := fun c =>
  mk (connection c) (filter_channel c) (connected c) (packet_in c) (packet_out c) (err_chan c)
    (max_connect_wait c) (will_message c) (session_state c).

Section client.
Context {N : Network} {R : Runtime}.

Definition new {E} (state : SessionState) (channel_size : option Z) : M Channels E MqttClient :=
  packet_in ← PacketChannel.new_with_size (default DEFAULT_CHANNEL_SIZE channel_size);
  packet_out ← PacketChannel.new_with_size (default DEFAULT_CHANNEL_SIZE channel_size);
  mret (mk None ∅ false packet_in packet_out None MAX_CONNECT_WAIT None (Some state)).

Definition new_with_connection {E} (conn : MqttConnection) (state : SessionState)
    (channel_size : option Z) : M Channels E MqttClient :=
  client ← new state channel_size;
  mret (client <| connection := Some conn |>).

Definition add_filtered_packet_handler (packet_type : PacketType) (sender : Z) (c : MqttClient)
    : MqttClient :=
  c <| filter_channel := <[packet_type := sender]> (filter_channel c) |>.

Definition packet_producer (c : MqttClient) : Z := PacketChannel.sender (packet_in c).

Definition take_packet_consumer (c : MqttClient) : option Z * MqttClient :=
  let '(receiver, ch) := PacketChannel.take_receiver (packet_out c) in
  (receiver, c <| packet_out := ch |>).

Definition set_error_out (error_out : Z) (c : MqttClient) : MqttClient :=
  c <| err_chan := Some error_out |>.
Definition set_max_connect_wait (d : Z) (c : MqttClient) : MqttClient :=
  c <| max_connect_wait := d |>.
Definition set_will_message (will : option WillMessage) (c : MqttClient) : MqttClient :=
  c <| will_message := will |>.

(** ** Commands of the application *)

(** They work on the channels and the client. *)
Abbreviation App E := (M (Channels * MqttClient) E).

Definition on_channels {E A} (m : M Channels E A) : App E A := fun '(s, c) =>
  let '(r, s) := m s in (r, (s, c)).

Definition on_client {E} (f : MqttClient -> MqttClient) : App E unit :=
  modify (fun '(s, c) => (s, f c)).

Definition in_client {E A} (f : MqttClient -> A) : App E A := gets (fun '(s, c) => f c).

Definition ping : App unit unit :=
  ch ← in_client packet_producer;
  on_channels (chan_send tt ch (Packet.PingRequest dflt)).

Definition subscribe (packet_id : Z) (topic_filter : list rstring) (qos : QoSLevel) : App unit unit :=
  let s := dflt <| Subscribe.packet_id := packet_id |> in
  let s := foldl (fun s topic => add_filter (SubscriptionFilter_new topic qos) s) s topic_filter in
  ch ← in_client packet_producer;
  on_channels (chan_send tt ch (Packet.Subscribe s)).

Definition stop : App MqttError unit :=
  ch ← in_client packet_producer;
  on_channels (chan_send (MqttError.new ErrorKind.Transport) ch (Packet.Disconnect dflt)).

(** [ClientSession::new_from_client]: the check of the connection builds an
    error and drops it. *)
Definition new_from_client (now : Z) : App MqttError ClientSession :=
  st ← in_client session_state;
  on_client (fun c => c <| session_state := None |>) ≫= fun _ =>
  st ← lift (unwrap st);
  conn ← in_client connection;
  on_client (fun c => c <| connection := None |>) ≫= fun _ =>
  conn ← lift (unwrap conn);
  s ← lift (unwrap (MqttConnection.stream conn));
  mret (new_from_state st s now).

(** The connection is opened where it is. *)
Definition open_connection (conn : MqttConnection) : App MqttError unit := fun '(s, c) =>
  let '(r, conn) := MqttConnection.connect conn in
  (map_err (fun _ => MqttError.new ErrorKind.Transport) r,
   (s, c <| connection := Some conn |>)).

(** A failure of [m] drops the receiver that [start] has taken. *)
Definition holding {A} (rx : Z) (m : App MqttError A) : App MqttError A := fun '(s, c) =>
  match m (s, c) with
  | (Ok a, sc) => (Ok a, sc)
  | (r, (s, c)) => (r, (snd (drop_receiver (E := MqttError) rx s), c))
  end.

(** What [start] does before the task runs, which begins with the handshake. *)
Definition start (now : Z) (clean_start : bool) : App MqttError (Handshake * Task) :=
  c ← in_client id;
  match connection c with
  | None => raise (MqttError.new ErrorKind.Connection)
  | Some conn =>
      let '(rx, ch) := PacketChannel.take_receiver (packet_in c) in
      on_client (fun c => c <| packet_in := ch |>) ≫= fun _ =>
      rx ← lift (ok_or rx (MqttError.new ErrorKind.Transport));
      holding rx
        (open_connection conn ≫= fun _ =>
         session ← new_from_client now;
         mret (Handshake.mk (max_connect_wait c) (MqttConnection.credentials conn) clean_start
                 (will_message c),
               Task.mk session (filter_channel c) (PacketChannel.sender (packet_out c)) rx None 0
                 false now))
  end.

(** The end of [try_start]: [in_time] is whether the client was seen connected
    before [max_wait] was over. *)
Definition try_start_end {A} (handle : outcome MqttError A) (in_time : bool) : App MqttError A :=
  if in_time then lift handle
  else
    connected ← in_client connected;
    (if (connected : bool) then stop else mret tt) ≫= fun _ =>
    raise (MqttError.new ErrorKind.Transport).
End client.
End MqttClient.
Abbreviation MqttClient := MqttClient.MqttClient.

(** ** The builder *)

Module BuilderError.
Inductive BuilderError := ProducerRequired | ConsumerRequired | MinKeepAlive.
End BuilderError.
Abbreviation BuilderError := BuilderError.BuilderError.

Module ClientBuilder.
Definition MIN_KEEP_ALIVE : Z := secs 30.
Definition MAX_CONNECT_WAIT : Z := secs 5.

Record ClientBuilder `{Network} := mk {
  connection : MqttConnection;
  state : SessionState;
  max_connect_wait : Z;
  channel_size : option Z;
  filtered_consumer : option (gmap PacketType Z);
  error_out : option Z;
  will_message : option WillMessage;
}.
Arguments mk {_}.

#[global] Instance ClientBuilder_eta `{Network} : Eta ClientBuilder := fun b =>
  mk (connection b) (state b) (max_connect_wait b) (channel_size b) (filtered_consumer b)
    (error_out b) (will_message b).

Section builder.
Context {N : Network} {R : Runtime}.
Implicit Types b : ClientBuilder.

(** [uuid] is drawn by [SessionState::default]. *)
Definition new (uuid : rstring) (conn : MqttConnection) : ClientBuilder :=
  mk conn (SessionState_new uuid) MAX_CONNECT_WAIT None None None None.

Definition with_state (conn : MqttConnection) (st : SessionState) b : ClientBuilder :=
  b <| connection := conn |> <| state := st |>.

Definition set_state {A} (f : SessionState -> A) `{!Setter f} (v : A) b : ClientBuilder :=
  b <| state := set_field f (fun _ => v) (state b) |>.

Definition with_auto_ack : bool -> ClientBuilder -> ClientBuilder := set_state SessionState.auto_ack.
Definition with_auto_packet_id : bool -> ClientBuilder -> ClientBuilder :=
  set_state SessionState.auto_packet_id.
Definition with_receive_max : Z -> ClientBuilder -> ClientBuilder :=
  set_state SessionState.qos_recv_remaining.
Definition with_session_expiry : Z -> ClientBuilder -> ClientBuilder :=
  set_state SessionState.session_expiry.
Definition with_client_id (client_id : rstring) : ClientBuilder -> ClientBuilder :=
  set_state SessionState.client_id (Some client_id).
Definition with_max_packet_size : Z -> ClientBuilder -> ClientBuilder :=
  set_state SessionState.max_packet_size.
Definition with_keep_alive : Z -> ClientBuilder -> ClientBuilder :=
  set_state SessionState.keep_alive.
Definition with_keep_alive_enabled : bool -> ClientBuilder -> ClientBuilder :=
  set_state SessionState.keep_alive_enabled.
Definition with_pingresp : bool -> ClientBuilder -> ClientBuilder := set_state SessionState.pingresp.

Definition with_max_connect_wait (d : Z) b : ClientBuilder := b <| max_connect_wait := d |>.
Definition with_error_handler (error : Z) b : ClientBuilder := b <| error_out := Some error |>.
Definition with_will_message (will : WillMessage) b : ClientBuilder :=
  b <| will_message := Some will |>.
Definition with_channel_size (size : Z) b : ClientBuilder := b <| channel_size := Some size |>.

Definition with_filtered_consumer (packet_type : PacketType) (sender : Z) b : ClientBuilder :=
  let b := match filtered_consumer b with
           | None => b <| filtered_consumer := Some ∅ |>
           | Some _ => b
           end in
  match filtered_consumer b with
  | Some consumer => b <| filtered_consumer := Some (<[packet_type := sender]> consumer) |>
  | None => b
  end.

Definition build b : M Channels BuilderError MqttClient :=
  if SessionState.keep_alive (state b) <? MIN_KEEP_ALIVE then raise BuilderError.MinKeepAlive
  else
    client ← MqttClient.new_with_connection (connection b) (state b) (channel_size b);
    let client := MqttClient.set_max_connect_wait (max_connect_wait b) client in
    let client := match error_out b with
                  | Some error_out => MqttClient.set_error_out error_out client
                  | None => client
                  end in
    let client := MqttClient.set_will_message (will_message b) client in
    mret (match filtered_consumer b with
          | Some filtered_consumer =>
              foldl (fun client '(packet_type, sender) =>
                       MqttClient.add_filtered_packet_handler packet_type sender client)
                client (map_to_list filtered_consumer)
          | None => client
          end).
End builder.
End ClientBuilder.
Abbreviation ClientBuilder := ClientBuilder.ClientBuilder.

(** ** The loop of the task *)

(** How a branch ends: with [continue], or at the check of the connection. *)
Inductive Pass := Again | CheckConnected.

(** The end of the task: what its handle yields. *)
Abbreviation TaskEnd := (outcome ClientError SessionState).

Inductive Run `{Transport} :=
| Connecting (h : Handshake) (t : Task)
| Looping (t : Task)
| Ended (r : TaskEnd).

Section loop.
Context {B : Buf} {HI : HashIter} {T : Transport} {R : Runtime} {V : Build}.

Abbreviation Loop := (M (Channels * Task) MqttError).

Definition in_session {A} (m : M ClientSession MqttError A) : Loop A := fun '(s, t) =>
  let '(r, c) := m (Task.session t) in (r, (s, t <| Task.session := c |>)).

Definition on_chan {A} (m : M Channels MqttError A) : Loop A := fun '(s, t) =>
  let '(r, s) := m s in (r, (s, t)).

Definition set_pending (p : option Packet) : Loop unit :=
  modify (fun '(s, t) => (s, t <| Task.pending_forward := p |>)).

(** Where a packet for the application goes. *)
Definition consumer (t : Task) (packet : Packet) : Z :=
  default (Task.packet_out t) (Task.filter_channel t !! PacketType_of packet).

Definition consumer_of (packet : Packet) : Loop Z := gets (fun '(s, t) => consumer t packet).

Definition channel_error : MqttError := MqttError.new ErrorKind.Channel.
Definition transport_error : MqttError := MqttError.new ErrorKind.Transport.

Definition on_keep_alive_timer (now : Z) : Loop Pass :=
  in_session (handle_keep_alive now) ≫= fun _ => mret CheckConnected.

(** A packet that was held back is sent to its consumer. *)
Definition forward_pending (packet : option Packet) : Loop (option unit) :=
  match packet with
  | Some packet =>
      ch ← consumer_of packet;
      on_chan (chan_send channel_error ch packet) ≫= fun _ => mret (Some tt)
  | None => mret None
  end.

Definition on_forward : Loop Pass :=
  pending ← gets (fun '(s, t) => Task.pending_forward t);
  forward_result ← forward_pending pending;
  match forward_result with
  | Some _ => set_pending None ≫= fun _ => mret CheckConnected
  | None => mret CheckConnected
  end.

(** A packet handed to its consumer, or kept while the consumer is behind. *)
Definition deliver (packet : Packet) : Loop unit :=
  ch ← consumer_of packet;
  sent ← on_chan (try_send ch packet);
  match sent with
  | SentOk => mret tt
  | SentFull packet => set_pending (Some packet)
  | SentClosed => raise channel_error
  end.

(** The branch of [read_next] with its result. *)
Definition on_packet_result (result : option Packet) : Loop Pass :=
  match result with
  | Some packet =>
      handled ← in_session (handle_packet packet);
      match handled with
      | Some packet => deliver packet ≫= fun _ => mret CheckConnected
      | None => mret CheckConnected
      end
  | None => raise transport_error
  end.

Definition on_read_next (fuel : nat) (uuid : rstring) : Loop Pass :=
  result ← in_session (read_next fuel uuid);
  on_packet_result result.

Definition qos_control (packet : Packet) : bool :=
  match packet with
  | Packet.PubAck _ | Packet.PubRec _ | Packet.PubRel _ | Packet.PubComp _ => true
  | _ => false
  end.

(** The branch of [packet_in_receiver.recv()]. *)
Definition on_inbound (inbound : option Packet) : Loop Pass :=
  match inbound with
  | Some inbound_packet =>
      auto_ack ← in_session (state_of SessionState.auto_ack);
      if qos_control inbound_packet && auto_ack then mret Again
      else in_session (write_next inbound_packet) ≫= fun _ => mret CheckConnected
  | None => raise transport_error
  end.

(** The loop begins with the settings the server has granted. *)
Definition enter_loop (now : Z) (t : Task) : Task :=
  let st := ClientSession.state (Task.session t) in
  t <| Task.keep_alive := SessionState.keep_alive st |>
    <| Task.keep_alive_enabled := SessionState.keep_alive_enabled st |>
    <| Task.iteration := now |>.
End loop.

(** ** The system *)

Module ClientSystem.
Record ClientSystem `{Network, Runtime} := mk {
  channels : Channels;
  client : MqttClient;
  run : option Run;
  clock : Z;
  producers : bool;  (** whether a sender of [packet_in] is left *)
}.
Arguments mk {_ _}.

#[global] Instance ClientSystem_eta `{Network, Runtime} : Eta ClientSystem := fun s =>
  mk (channels s) (client s) (run s) (clock s) (producers s).
End ClientSystem.
Abbreviation ClientSystem := ClientSystem.ClientSystem.

Section system.
Context {B : Buf} {HI : HashIter} {N : Network} {R : Runtime} {V : Build}.
Implicit Types sys : ClientSystem.

Definition with_connected (b : bool) sys : ClientSystem :=
  sys <| ClientSystem.client := (ClientSystem.client sys) <| MqttClient.connected := b |> |>.

(** The task returns: its receiver is dropped. *)
Definition end_task (t : Task) (s : Channels) (r : TaskEnd) sys : ClientSystem :=
  sys <| ClientSystem.channels := snd (drop_receiver (E := MqttError) (Task.packet_in t) s) |>
      <| ClientSystem.run := Some (Ended r) |>.

(** [session.end_session()] in a [return]; the session dies with the task. *)
Definition final_state (t : Task) (uuid : rstring) : SessionState :=
  match end_session uuid (Task.session t) with
  | (Ok st, _) => st
  | _ => SessionState_new uuid
  end.

Definition fail_task (uuid : rstring) (t : Task) (s : Channels) (e : MqttError) sys : ClientSystem :=
  end_task t s (Err (ClientError.new e (final_state t uuid))) (with_connected false sys).

Definition keep_running (t : Task) (s : Channels) sys : ClientSystem :=
  sys <| ClientSystem.channels := s |>
      <| ClientSystem.run := Some (Looping (t <| Task.iteration := ClientSystem.clock sys |>)) |>.

(** The system after a branch of the loop; a branch that waits is not taken. *)
Definition settle_pass (uuid : rstring) (res : outcome MqttError Pass * (Channels * Task)) sys
    : option ClientSystem :=
  match res with
  | (Ok Again, (s, t)) => Some (keep_running t s sys)
  | (Ok CheckConnected, (s, t)) =>
      if ClientSession.connected (Task.session t) then Some (keep_running t s sys)
      else Some (end_task t s (Ok (final_state t uuid)) (with_connected false sys))
  | (Err e, (s, t)) => Some (fail_task uuid t s e sys)
  | (Panic, (s, t)) => Some (end_task t s Panic sys)
  | (OutOfFuel, _) => None
  end.

(** The system after the handshake. *)
Definition settle_connect (uuid : rstring) (t : Task)
    (res : outcome MqttError ConnAck * ClientSession) sys : option ClientSystem :=
  let '(r, session) := res in
  let t := t <| Task.session := session |> in
  match r with
  | Ok _ => Some ((with_connected true sys)
                    <| ClientSystem.run := Some (Looping (enter_loop (ClientSystem.clock sys) t)) |>)
  | Err e => Some (fail_task uuid t (ClientSystem.channels sys) e sys)
  | Panic => Some (end_task t (ClientSystem.channels sys) Panic sys)
  | OutOfFuel => None
  end.

(** A command of the application. *)
Definition settle_app {E A} (res : outcome E A * (Channels * MqttClient)) (run : A -> option Run) sys
    : option ClientSystem :=
  let '(r, (s, c)) := res in
  let sys' := sys <| ClientSystem.channels := s |> <| ClientSystem.client := c |> in
  match r with
  | Ok a => Some (match run a with Some r => sys' <| ClientSystem.run := Some r |> | None => sys' end)
  | OutOfFuel => None
  | _ => Some sys'
  end.

(** Which of two ready branches runs is arbitrary, as in [select!]. *)
Inductive client_step sys : ClientSystem -> Prop :=
| cs_start clean_start sys' :
    settle_app (MqttClient.start (ClientSystem.clock sys) clean_start
                  (ClientSystem.channels sys, ClientSystem.client sys))
      (fun '(h, t) => Some (Connecting h t)) sys = Some sys' -> client_step sys sys'
| cs_connect h t fuel read_fuel uuid1 uuid2 uuid3 elapsed sys' :
    ClientSystem.run sys = Some (Connecting h t) ->
    settle_connect uuid3 t
      (connect fuel read_fuel uuid1 uuid2 elapsed (Handshake.max_connect_wait h)
         (Handshake.credentials h) (Handshake.clean_start h) (Handshake.will_message h)
         (Task.session t)) sys = Some sys' -> client_step sys sys'
| cs_timer t uuid sys' :
    ClientSystem.run sys = Some (Looping t) -> Task.keep_alive_enabled t = true ->
    Task.iteration t + Task.keep_alive t <= ClientSystem.clock sys ->
    settle_pass uuid (on_keep_alive_timer (ClientSystem.clock sys) (ClientSystem.channels sys, t)) sys
    = Some sys' -> client_step sys sys'
| cs_forward t uuid sys' :
    ClientSystem.run sys = Some (Looping t) -> Task.pending_forward t <> None ->
    settle_pass uuid (on_forward (ClientSystem.channels sys, t)) sys = Some sys' ->
    client_step sys sys'
| cs_read t fuel uuid uuid' sys' :
    ClientSystem.run sys = Some (Looping t) -> Task.pending_forward t = None ->
    settle_pass uuid' (on_read_next fuel uuid (ClientSystem.channels sys, t)) sys = Some sys' ->
    client_step sys sys'
| cs_cancelled_read t fuel uuid c :  (** the read is dropped while it waits for the socket *)
    ClientSystem.run sys = Some (Looping t) -> Task.pending_forward t = None ->
    read_next fuel uuid (Task.session t) = (OutOfFuel, c) ->
    client_step sys (sys <| ClientSystem.run := Some (Looping (t <| Task.session := c |>)) |>)
| cs_inbound t ch packet ch' uuid sys' :
    ClientSystem.run sys = Some (Looping t) ->
    Channels.store (ClientSystem.channels sys) !! Task.packet_in t = Some ch ->
    chan_recv ch = Some (packet, ch') ->
    settle_pass uuid (on_inbound (Some packet)
      ((ClientSystem.channels sys)
         <| Channels.store := <[Task.packet_in t := ch']> (Channels.store (ClientSystem.channels sys)) |>,
       t)) sys = Some sys' -> client_step sys sys'
| cs_inbound_closed t ch uuid sys' :
    ClientSystem.run sys = Some (Looping t) -> ClientSystem.producers sys = false ->
    Channels.store (ClientSystem.channels sys) !! Task.packet_in t = Some ch ->
    chan_queue ch = [] ->
    settle_pass uuid (on_inbound None (ClientSystem.channels sys, t)) sys = Some sys' ->
    client_step sys sys'
| cs_produce packet r sys' :
    ClientSystem.producers sys = true ->
    r = MqttClient.on_channels (chan_send tt (MqttClient.packet_producer (ClientSystem.client sys)) packet)
          (ClientSystem.channels sys, ClientSystem.client sys) ->
    settle_app r (fun _ => None) sys = Some sys' -> client_step sys sys'
| cs_consume i ch packet ch' :
    i <> MqttClient.packet_producer (ClientSystem.client sys) ->
    Channels.store (ClientSystem.channels sys) !! i = Some ch ->
    chan_recv ch = Some (packet, ch') ->
    client_step sys (sys <| ClientSystem.channels := (ClientSystem.channels sys)
      <| Channels.store := <[i := ch']> (Channels.store (ClientSystem.channels sys)) |> |>)
| cs_drop_consumer i ch :
    i <> MqttClient.packet_producer (ClientSystem.client sys) ->
    Channels.store (ClientSystem.channels sys) !! i = Some ch ->
    client_step sys (sys <| ClientSystem.channels := (ClientSystem.channels sys)
      <| Channels.store := <[i := chan_close ch]> (Channels.store (ClientSystem.channels sys)) |> |>)
| cs_drop_producers :
    client_step sys (sys <| ClientSystem.producers := false |>)
| cs_tick d :
    0 <= d -> client_step sys (sys <| ClientSystem.clock := ClientSystem.clock sys + d |>).

(** A client that was just built. *)
Definition launched (s : Channels) (c : MqttClient) (now : Z) : ClientSystem :=
  ClientSystem.mk s c None now true.

Definition client_reachable (s : Channels) (b : ClientBuilder) (now : Z) sys : Prop :=
  exists s' c, ClientBuilder.build b s = (Ok c, s') /\ rtc client_step (launched s' c now) sys.
End system.
