(* ===== verification/ClientFacts.v ===== *)
(** * Properties of the client session *)
(** The acknowledgements of QoS 1 and 2 as a [Ledger]: the phase of every
    identifier in flight, and the two quotas.  [receive] is what MQTT 4.3 and 4.9
    ask of a client that gets a packet; [handle_packet] implements it for the
    [regular] packets and departs from it for the others, as the theorems at the
    end say.  [reaction] is what the code does with every packet. *)

From S2P Require Import Prelude Bytes Runtime Codec Fixed Property Macro MacroFacts Subscriptions.
From S2P Require Import Acks Publish Connect Packet Decoded Stream ClientSession.

#[local] Opaque wire_bytes.

(** ** The abstract ledger *)

Record Ledger := mkLedger {
  sending : gmap Z QoSPacket;
  receiving : gmap Z QoSPacket;
  send_quota : Z;
  recv_quota : Z;
}.

#[export] Instance Ledger_eta : Eta Ledger := fun l =>
  mkLedger (sending l) (receiving l) (send_quota l) (recv_quota l).

(** An acknowledgement that ends an exchange of ours. *)
Definition complete (l : Ledger) (id : Z) (expected : QoSPacket) : option (Ledger * list Packet) :=
  if bool_decide (sending l !! id = Some expected)
  then Some (l <| sending := delete id (sending l) |> <| send_quota := send_quota l + 1 |>, [])
  else None.

(** A response whose reason code is an error. *)
Definition refused (r : PubResp) : bool :=
  match PubResp.reason r with Some reason => 128 <=? Reason_as_u8 reason | None => false end.

(** MQTT 4.3 and 4.9 for a packet received: the new ledger, the packets to be
    sent in answer, and whether the packet is new to the application; [None]
    when nothing in flight waits for the packet, or the sender has exceeded the
    receive maximum.  A PUBLISH of QoS 2 is new until its PUBREL [4.3.3-10]; a
    PUBREL is always answered [4.3.3-11]; a PUBREC is answered with PUBREL when
    its reason is no error [4.3.3-4], and ends the exchange otherwise. *)
Definition receive (packet : Packet) (l : Ledger) : option (Ledger * list Packet * bool) :=
  match packet with
  | Packet.Publish p =>
      match publish_qos p, Publish.packet_id p with
      | Ok QoSLevel.AtLeastOnce, Some id =>
          if recv_quota l =? 0 then None
          else Some (l, [Packet.PubAck (new_puback_with_packet_id id)], true)
      | Ok QoSLevel.ExactlyOnce, Some id =>
          if bool_decide (receiving l !! id = Some QoSPacket.PubRel)
          then Some (l, [Packet.PubRec (new_pubrec_with_packet_id id)], false)
          else if recv_quota l =? 0 then None
          else Some (l <| receiving := <[id := QoSPacket.PubRel]> (receiving l) |>
                       <| recv_quota := recv_quota l - 1 |>,
                     [Packet.PubRec (new_pubrec_with_packet_id id)], true)
      | _, _ => Some (l, [], true)
      end
  | Packet.PubAck r => (fun e => (e, true)) <$> complete l (PubResp.packet_id r) QoSPacket.PubAck
  | Packet.PubComp r => (fun e => (e, true)) <$> complete l (PubResp.packet_id r) QoSPacket.PubComp
  | Packet.PubRec r =>
      let id := PubResp.packet_id r in
      if refused r then (fun e => (e, true)) <$> complete l id QoSPacket.PubRec
      else if bool_decide (sending l !! id = Some QoSPacket.PubRec)
             || bool_decide (sending l !! id = Some QoSPacket.PubComp)
      then Some (l <| sending := <[id := QoSPacket.PubComp]> (sending l) |>,
                 [Packet.PubRel (new_pubrel_with_packet_id id)], true)
      else None
  | Packet.PubRel r =>
      let id := PubResp.packet_id r in
      if bool_decide (receiving l !! id = Some QoSPacket.PubRel)
      then Some (l <| receiving := delete id (receiving l) |> <| recv_quota := recv_quota l + 1 |>,
                 [Packet.PubComp (new_pubcomp_with_packet_id id)], true)
      else Some (l, [Packet.PubComp ((new_pubcomp_with_packet_id id)
                       <| PubResp.reason := Some Reason.PacketIdNotFound |>)], true)
  | _ => Some (l, [], true)
  end.

(** The packets for which the client does what [receive] says: no PUBLISH that
    repeats an exchange which is still open, none of QoS 2 when the receive
    quota is used up, no PUBREC that refuses or repeats, no PUBREL without its
    PUBLISH. *)
Definition regular (packet : Packet) (l : Ledger) : Prop :=
  match packet with
  | Packet.Publish p =>
      match publish_qos p, Publish.packet_id p with
      | Ok QoSLevel.AtLeastOnce, Some id => receiving l !! id = None
      | Ok QoSLevel.ExactlyOnce, Some id => receiving l !! id <> Some QoSPacket.PubRel /\ 0 < recv_quota l
      | _, _ => True
      end
  | Packet.PubRec r =>
      refused r = false /\ sending l !! PubResp.packet_id r <> Some QoSPacket.PubComp
  | Packet.PubRel r => receiving l !! PubResp.packet_id r = Some QoSPacket.PubRel
  | _ => True
  end.

(** What the code does with a packet when the receive quota is not used up,
    [None] when it refuses the packet. *)
Definition reaction (packet : Packet) (l : Ledger) : option (Ledger * list Packet) :=
  match packet with
  | Packet.Publish p =>
      match publish_qos p, Publish.packet_id p with
      | Ok QoSLevel.AtLeastOnce, Some id =>
          Some (l <| receiving := delete id (receiving l) |>,
                [Packet.PubAck (new_puback_with_packet_id id)])
      | Ok QoSLevel.ExactlyOnce, Some id =>
          Some (l <| receiving := <[id := QoSPacket.PubRel]> (receiving l) |>
                  <| recv_quota := recv_quota l - 1 |>,
                [Packet.PubRec (new_pubrec_with_packet_id id)])
      | _, _ => Some (l, [])
      end
  | Packet.PubAck r => complete l (PubResp.packet_id r) QoSPacket.PubAck
  | Packet.PubComp r => complete l (PubResp.packet_id r) QoSPacket.PubComp
  | Packet.PubRec r =>
      let id := PubResp.packet_id r in
      if bool_decide (sending l !! id = Some QoSPacket.PubRec)
      then Some (l <| sending := <[id := QoSPacket.PubComp]> (sending l) |>,
                 [Packet.PubRel (new_pubrel_with_packet_id id)])
      else None
  | Packet.PubRel r =>
      let id := PubResp.packet_id r in
      if bool_decide (receiving l !! id = Some QoSPacket.PubRel)
      then Some (l <| receiving := delete id (receiving l) |> <| recv_quota := recv_quota l + 1 |>,
                 [Packet.PubComp (new_pubcomp_with_packet_id id)])
      else None
  | _ => Some (l, [])
  end.

(** Runs the accesses to the state. *)
Ltac run_session :=
  unfold remove_send, remove_recv, put_send, put_recv, add_send_remaining, add_recv_remaining,
    with_state, modify, state_of, gets, lift, raise, mret, M_ret, mbind, M_bind in *; cbn in *.

Section session_facts.
Context {B : Buf} {HI : HashIter} {T : Transport} {V : Build}.
Implicit Types c : ClientSession.

(** ** The session and its connection *)

Definition transport c : t_state := stream (ClientSession.packet_stream c).

Definition at_transport (t : t_state) c : ClientSession :=
  c <| ClientSession.packet_stream := (ClientSession.packet_stream c) <| stream := t |> |>.

Definition outgoing c : list Z := t_outgoing (transport c).

(** The connection after [bs] were written to it. *)
Definition wrote (bs : list Z) c (t : t_state) : Prop :=
  t_outgoing t = outgoing c ++ bs /\ t_incoming t = t_incoming (transport c).

Definition transport_err : MqttError := MqttError.new ErrorKind.Transport.

Lemma send_packet_run p c :
  packet_ok p ->
  (exists t, send_packet p c = (Ok tt, at_transport t c) /\ wrote (wire_bytes p) c t)
  \/ (exists t, send_packet p c = (Err transport_err, at_transport t c)
        /\ t_incoming t = t_incoming (transport c)).
Proof.
  intros Hok. pose proof (write_run (ClientSession.packet_stream c) p Hok) as H.
  unfold send_packet, on_packet_stream.
  destruct (write p (ClientSession.packet_stream c)) as [[[]|e| |] s]; [| | done | done].
  - left. destruct H as (t & -> & ?). by exists t.
  - right. destruct H as (_ & t & -> & ?). by exists t.
Qed.

(** The phases of the entries. *)
Definition phases (m : gmap Z QoSPacketState) : gmap Z QoSPacket := QoSPacketState.next <$> m.

Definition ledger c : Ledger :=
  let st := ClientSession.state c in
  mkLedger (phases (SessionState.pending_qos_send st)) (phases (SessionState.pending_qos_recv st))
    (SessionState.qos_send_remaining st) (SessionState.qos_recv_remaining st).

Lemma sending_lookup c id :
  sending (ledger c) !! id
  = QoSPacketState.next <$> SessionState.pending_qos_send (ClientSession.state c) !! id.
Proof. apply lookup_fmap. Qed.

Lemma receiving_lookup c id :
  receiving (ledger c) !! id
  = QoSPacketState.next <$> SessionState.pending_qos_recv (ClientSession.state c) !! id.
Proof. apply lookup_fmap. Qed.

Lemma overflowing_ok {E} v : 0 <= v <= usize_max -> overflowing (E := E) v = Ok v.
Proof. intros H. unfold overflowing. by rewrite (proj2 (andb_true_iff _ _)) by lia. Qed.

(** ** Responses *)

Lemma response_body pt id : body_bytes PubResp_struct (new_response pt id) = be16 id.
Proof. unfold body_bytes. by rewrite (proj2 (proj2 (response_plain pt id))). Qed.

Lemma response_fits pt id :
  properties_fit PubResp_struct (new_response pt id) /\ excess PubResp_struct (new_response pt id) = 0.
Proof.
  apply properties_fit_exact.
  - repeat (constructor; try done). 
  - by each_field.
  - change (s_fields PubResp_struct) with PubResp_fields.
    rewrite (proj1 (response_plain pt id)). simpl. lia.
Qed.

Lemma response_sendable (wrap : PubResp -> Packet) pt id :
  (wrap, pt) ∈ [(Packet.PubAck, PacketType.PubAck); (Packet.PubRec, PacketType.PubRec);
                (Packet.PubRel, PacketType.PubRel); (Packet.PubComp, PacketType.PubComp)] ->
  is_u16 id -> sendable (wrap (new_response pt id)).
Proof.
  intros Hin Hid. assert (Hok : PubResp_ok (new_response pt id)).
  { split_and!; [done | done | apply props_ok_empty]. }
  assert (Hr : response_reason (new_response pt id)).
  { unfold response_reason. by rewrite (proj2 (proj2 (response_plain pt id))). }
  destruct (response_fits pt id) as [Hfit Hex].
  set_unfold in Hin. destruct_or!; simplify_eq; unfold sendable, packet_ok; cbn [packet_body fields_fit
    packet_properties packet_exact packet_excess]; rewrite response_body;
    change (s_fields PubResp_struct) with PubResp_fields;
    rewrite (proj1 (response_plain _ id)); unfold MAX_VARIABLE_BYTE_INT; simpl; split_and!; done || lia.
Qed.

Lemma responses_ok id : is_u16 id ->
  packet_ok (Packet.PubAck (new_puback_with_packet_id id))
  /\ packet_ok (Packet.PubRec (new_pubrec_with_packet_id id))
  /\ packet_ok (Packet.PubRel (new_pubrel_with_packet_id id))
  /\ packet_ok (Packet.PubComp (new_pubcomp_with_packet_id id)).
Proof.
  intros Hid. split_and!;
    [apply (response_sendable Packet.PubAck PacketType.PubAck)
    | apply (response_sendable Packet.PubRec PacketType.PubRec)
    | apply (response_sendable Packet.PubRel PacketType.PubRel)
    | apply (response_sendable Packet.PubComp PacketType.PubComp)]; (done || set_solver).
Qed.

(** ** The handlers *)

(** Nothing but the connection has changed in the stream, which got [bs]. *)
Definition only_wrote (bs : list Z) c c' : Prop :=
  exists t, ClientSession.packet_stream c' = (ClientSession.packet_stream c) <| stream := t |>
    /\ wrote bs c t.

Lemma only_wrote_nil c c' :
  ClientSession.packet_stream c' = ClientSession.packet_stream c -> only_wrote [] c c'.
Proof.
  intros H. exists (transport c). split; [rewrite H; unfold transport; by destruct (ClientSession.packet_stream c) |].
  split; [by rewrite app_nil_r | done].
Qed.

Lemma only_wrote_one p c c1 c' t :
  wrote (wire_bytes p) c1 t -> transport c1 = transport c ->
  ClientSession.packet_stream c' = (ClientSession.packet_stream c) <| stream := t |> ->
  only_wrote (concat (wire_bytes <$> [p])) c c'.
Proof.
  intros [H1 H2] Ht Hs. exists t. split; [done |]. unfold wrote, outgoing in *. rewrite <- Ht. simpl.
  by rewrite app_nil_r.
Qed.

(** A handler does what the protocol asks for.  It fails when its answer cannot
    be written, and refuses what the protocol does not allow without a trace. *)
Definition conforms c (spec : option (Ledger * list Packet))
    (res : outcome MqttError unit * ClientSession) : Prop :=
  match spec, res with
  | Some (l, replies), (Ok _, c') => ledger c' = l /\ only_wrote (concat (wire_bytes <$> replies)) c c'
  | Some (_, replies), (Err e, c') => replies <> [] /\ e = transport_err
  | None, (Err e, c') => e = protocol_error /\ c' = c
  | _, _ => False
  end.

(** The two outcomes of a write. *)
Ltac destruct_send :=
  match goal with
  | |- context [send_packet ?p ?c] =>
      let E := fresh "E" in let t := fresh "t" in let Hw := fresh "Hw" in
      destruct (send_packet_run p c) as [(t & E & Hw)|(t & E & Hw)]; [| rewrite E; cbn..]
  end.

(** Putting an entry back where it was taken from. *)
Lemma restore_send c id p :
  SessionState.pending_qos_send (ClientSession.state c) !! id = Some p ->
  snd (put_send id p (snd (remove_send id c))) = c.
Proof.
  intros H. destruct c as [? ? ? [] ?]. run_session. by rewrite insert_delete_id.
Qed.

Lemma restore_recv c id p :
  SessionState.pending_qos_recv (ClientSession.state c) !! id = Some p ->
  snd (put_recv id p (snd (remove_recv id c))) = c.
Proof.
  intros H. destruct c as [? ? ? [] ?]. run_session. by rewrite insert_delete_id.
Qed.

Lemma handle_puback_conforms id c :
  0 <= SessionState.qos_send_remaining (ClientSession.state c) < usize_max ->
  conforms c (complete (ledger c) id QoSPacket.PubAck) (handle_puback id c).
Proof.
  intros Hq. unfold complete, handle_puback. rewrite sending_lookup. run_session.
  destruct (SessionState.pending_qos_send (ClientSession.state c) !! id) as [p|] eqn:E; [| done].
  simpl. destruct (QoSPacketState.next p); try done. simpl.
  rewrite overflowing_ok by lia. split; [| by apply only_wrote_nil].
  unfold ledger, phases. cbn. by rewrite fmap_delete.
Qed.

Lemma handle_pubcomp_conforms id c :
  0 <= SessionState.qos_send_remaining (ClientSession.state c) < usize_max ->
  conforms c (complete (ledger c) id QoSPacket.PubComp) (handle_pubcomp id c).
Proof.
  intros Hq. unfold complete, handle_pubcomp. rewrite sending_lookup.
  pose proof (restore_send c id) as Hr. run_session.
  destruct (SessionState.pending_qos_send (ClientSession.state c) !! id) as [p|] eqn:E.
  - simpl. specialize (Hr p eq_refl). destruct (QoSPacketState.next p); try by split.
    simpl. rewrite overflowing_ok by lia. split; [| by apply only_wrote_nil].
    unfold ledger, phases. cbn. by rewrite fmap_delete.
  - simpl. split; [done |]. destruct c as [? ? ? [] ?]. cbn in *. by rewrite delete_id.
Qed.

Lemma handle_pubrec_conforms r c :
  let id := PubResp.packet_id r in
  SessionState.auto_ack (ClientSession.state c) = true -> is_u16 id ->
  conforms c (reaction (Packet.PubRec r) (ledger c)) (handle_pubrec id c).
Proof.
  intros id Ha Hid. unfold reaction, handle_pubrec, release_send. fold id. rewrite sending_lookup.
  pose proof (restore_send c id) as Hr. run_session.
  destruct (SessionState.pending_qos_send (ClientSession.state c) !! id) as [p|] eqn:E.
  - specialize (Hr p eq_refl). unfold qos_next. simpl. 
    destruct (QoSPacketState.next p) eqn:Ep; try by split. simpl. rewrite Ha. simpl.
    unfold attempt. destruct_send; [by apply responses_ok | |].
    + simpl. rewrite lookup_insert_eq. simpl. split; [| eapply only_wrote_one; [exact Hw | done | done]].
      unfold ledger, phases. cbn. by rewrite insert_delete_eq, insert_insert_eq, insert_delete_eq, fmap_insert.
    + done.
  - simpl. split; [done |]. destruct c as [? ? ? [] ?]. cbn in *. by rewrite delete_id.
Qed.

Lemma handle_pubrel_conforms r c :
  let id := PubResp.packet_id r in
  SessionState.auto_ack (ClientSession.state c) = true -> is_u16 id ->
  0 <= SessionState.qos_recv_remaining (ClientSession.state c) < usize_max ->
  conforms c (reaction (Packet.PubRel r) (ledger c)) (handle_pubrel id c).
Proof.
  intros id Ha Hid Hq. unfold reaction, handle_pubrel. fold id. rewrite receiving_lookup.
  pose proof (restore_recv c id) as Hr. run_session.
  destruct (SessionState.pending_qos_recv (ClientSession.state c) !! id) as [p|] eqn:E.
  - specialize (Hr p eq_refl). simpl.
    destruct (QoSPacketState.next p) eqn:Ep; try by split. simpl. rewrite Ha. simpl.
    unfold attempt. destruct_send; [by apply responses_ok | |].
    + simpl. rewrite overflowing_ok by lia. split; [| eapply only_wrote_one; [exact Hw | done | done]].
      unfold ledger, phases. cbn. by rewrite delete_delete_eq, fmap_delete.
    + done.
  - simpl. split; [done |]. destruct c as [? ? ? [] ?]. cbn in *. by rewrite delete_id.
Qed.

Lemma recv_qos1_conforms p id c :
  SessionState.auto_ack (ClientSession.state c) = true -> Publish.packet_id p = Some id -> is_u16 id ->
  0 < SessionState.qos_recv_remaining (ClientSession.state c) <= usize_max ->
  conforms c (Some ((ledger c) <| receiving := delete id (receiving (ledger c)) |>,
                    [Packet.PubAck (new_puback_with_packet_id id)])) (recv_qos1 p c).
Proof.
  intros Ha Hp Hid Hq. unfold recv_qos1. run_session.
  rewrite (proj2 (Z.eqb_neq _ _)) by lia. rewrite Hp. simpl. rewrite overflowing_ok by lia. simpl.
  rewrite Ha. simpl. unfold attempt.
  destruct_send; [by apply responses_ok | | done].
  rewrite overflowing_ok by (cbn; lia). split; [| eapply only_wrote_one; [exact Hw | done | done]].
  unfold ledger, phases. cbn. rewrite delete_insert_eq, fmap_delete.
  by rewrite <- Z.add_assoc, Z.add_0_r.
Qed.

Lemma recv_qos2_conforms p id c :
  SessionState.auto_ack (ClientSession.state c) = true -> Publish.packet_id p = Some id -> is_u16 id ->
  0 < SessionState.qos_recv_remaining (ClientSession.state c) <= usize_max ->
  conforms c (Some ((ledger c) <| receiving := <[id := QoSPacket.PubRel]> (receiving (ledger c)) |>
                      <| recv_quota := recv_quota (ledger c) - 1 |>,
                    [Packet.PubRec (new_pubrec_with_packet_id id)])) (recv_qos2 p c).
Proof.
  intros Ha Hp Hid Hq. unfold recv_qos2. run_session.
  rewrite Hp. simpl. rewrite overflowing_ok by lia. simpl.
  rewrite Ha. simpl. unfold attempt.
  destruct_send; [by apply responses_ok | | done].
  rewrite lookup_insert_eq. simpl. split; [| eapply only_wrote_one; [exact Hw | done | done]].
  unfold ledger, phases. cbn. by rewrite insert_delete_eq, insert_insert_eq, fmap_insert.
Qed.

(** What the application is to see of a packet. *)
Definition shown c (packet : Packet) : option Packet :=
  match packet with
  | Packet.PingResponse _ =>
      if SessionState.pingresp (ClientSession.state c) then Some packet else None
  | _ => Some packet
  end.

(** A packet that the handlers may be given after the handshake: what the
    decoder returns ([packet_typed] is proved of it in [Decoded]), and no
    DISCONNECT. *)
Definition incoming_ok (packet : Packet) : Prop :=
  packet_typed packet
  /\ match packet with Packet.Disconnect _ => False | _ => True end.

Record quotas_ok c : Prop := {
  qo_send : 0 <= SessionState.qos_send_remaining (ClientSession.state c) < usize_max;
  qo_recv : 0 <= SessionState.qos_recv_remaining (ClientSession.state c) < usize_max;
}.

Lemma handle_recv_publish_conforms p c :
  SessionState.auto_ack (ClientSession.state c) = true -> incoming_ok (Packet.Publish p) -> quotas_ok c ->
  (publish_qos p <> Ok QoSLevel.AtMostOnce -> 0 < recv_quota (ledger c)) ->
  conforms c (reaction (Packet.Publish p) (ledger c)) (handle_recv_publish p c).
Proof.
  intros Ha [((_ & Hid & _) & (q & Hq & Hp) & _) _] [_ Hr] Hpos. unfold handle_recv_publish, reaction.
  rewrite Hq in *. destruct q; [| specialize (Hpos ltac:(done)) ..]; run_session.
  - split; [done |]. by apply only_wrote_nil.
  - destruct (Publish.packet_id p) as [id|] eqn:E; [| discriminate (proj2 Hp eq_refl)].
    apply recv_qos1_conforms; [done.. | lia].
  - destruct (Publish.packet_id p) as [id|] eqn:E; [| discriminate (proj2 Hp eq_refl)].
    apply recv_qos2_conforms; [done.. | lia].
Qed.

(** The packet of a handler that has succeeded. *)
Lemma conforms_then c spec (m : M ClientSession MqttError unit) (packet : Packet) :
  conforms c spec (m c) ->
  match spec, (m ≫= fun _ => mret (Some packet)) c with
  | Some (l, replies), (Ok o, c') =>
      ledger c' = l /\ only_wrote (concat (wire_bytes <$> replies)) c c' /\ o = Some packet
  | Some (_, replies), (Err e, _) => replies <> [] /\ e = transport_err
  | None, (Err e, c') => e = protocol_error /\ c' = c
  | _, _ => False
  end.
Proof.
  unfold conforms, mbind, M_bind. destruct (m c) as [[u|e| |] c'], spec as [[l replies]|]; try done.
  by intros [? ?].
Qed.

(** A PUBLISH that counts against the receive quota. *)
Definition charged (packet : Packet) : Prop :=
  match packet with Packet.Publish p => publish_qos p <> Ok QoSLevel.AtMostOnce | _ => False end.

(** Every packet after the handshake, irregular ones included. *)
Lemma reaction_run (packet : Packet) (c : ClientSession) :
  SessionState.auto_ack (ClientSession.state c) = true -> incoming_ok packet -> quotas_ok c ->
  (charged packet -> 0 < recv_quota (ledger c)) ->
  match reaction packet (ledger c), handle_packet packet c with
  | Some (l, replies), (Ok o, c') =>
      ledger c' = l /\ only_wrote (concat (wire_bytes <$> replies)) c c' /\ o = shown c packet
  | Some (_, replies), (Err e, _) => replies <> [] /\ e = transport_err
  | None, (Err e, c') => e = protocol_error /\ c' = c
  | _, _ => False
  end.
Proof.
  intros Ha Hp Hq Hc. pose proof Hq as [Hs Hr].
  assert (Hnil : only_wrote [] c c) by by apply only_wrote_nil.
  destruct packet as [p|p|p|p|p|p|p|p|p|p|p|p|p|p]; try done; try by destruct Hp.
  - apply (conforms_then c _ (handle_recv_publish p)). by apply handle_recv_publish_conforms.
  - apply (conforms_then c _ (handle_puback _)). by apply handle_puback_conforms.
  - apply (conforms_then c _ (handle_pubcomp _)). by apply handle_pubcomp_conforms.
  - apply (conforms_then c _ (handle_pubrec _)). apply handle_pubrec_conforms; [done | apply Hp].
  - apply (conforms_then c _ (handle_pubrel _)).
    apply handle_pubrel_conforms; [done | apply Hp | lia].
Qed.

(** On regular packets the code and the protocol agree. *)
Lemma regular_reaction packet l :
  regular packet l -> (charged packet -> recv_quota l <> 0) ->
  receive packet l = (fun e => (e, true)) <$> reaction packet l.
Proof.
  destruct packet as [p|p|p|p|p|p|p|p|p|p|p|p|p|p]; simpl; try done.
  - intros Hr Hc. destruct (publish_qos p) as [[]|e| |]; try done;
      (destruct (Publish.packet_id p) as [id|]; [| done]); rewrite (proj2 (Z.eqb_neq _ _)) by (by apply Hc).
    + simpl. do 3 f_equal. rewrite delete_id by done. by destruct l.
    + destruct Hr as [Hr _]. by rewrite bool_decide_false.
  - intros [-> Hr] _. rewrite (bool_decide_false _ Hr), orb_false_r. by destruct (bool_decide _).
  - intros Hr _. by rewrite bool_decide_true.
Qed.

(** A PUBLISH of QoS 1 beyond the receive maximum. *)
Lemma qos1_exhausted p c :
  publish_qos p = Ok QoSLevel.AtLeastOnce -> recv_quota (ledger c) = 0 ->
  handle_packet (Packet.Publish p) c = (Err protocol_error, c).
Proof.
  intros Hq Hr. cbn [handle_packet]. unfold handle_recv_publish. rewrite Hq. cbn in Hr.
  unfold recv_qos1. run_session. by rewrite Hr.
Qed.

Lemma charged_quota packet c :
  quotas_ok c ->
  (charged packet -> 0 < recv_quota (ledger c))
  \/ exists p, packet = Packet.Publish p /\ publish_qos p <> Ok QoSLevel.AtMostOnce /\ recv_quota (ledger c) = 0.
Proof.
  intros [_ Hr]. change (0 <= recv_quota (ledger c) < usize_max) in Hr.
  destruct (decide (0 < recv_quota (ledger c))) as [|E]; [by left |]. destruct packet as [| | | |p| | | | | | | | |]; try by left.
  destruct (publish_qos p) as [[]|e| |] eqn:Hq; [by left; intros []; simpl | ..]; right; exists p; rewrite Hq;
    (split_and!; [done | done | lia]).
Qed.


(** ** Sending *)

Definition set_last_id (id : Z) c : ClientSession :=
  c <| ClientSession.state := (ClientSession.state c) <| SessionState.last_packet_id := id |> |>.

Lemma is_u16_u16 z : is_u16 (u16 z).
Proof. unfold is_u16, u16. apply Z.mod_pos_bound. lia. Qed.

Lemma u16_inj l i j :
  0 <= i < 65536 -> 0 <= j < 65536 -> u16 (l + i) = u16 (l + j) -> i = j.
Proof.
  unfold u16. intros Hi Hj H.
  assert (E : (i - j) mod 65536 = 0).
  { replace (i - j) with ((l + i) - (l + j)) by lia. rewrite Zminus_mod, H, Z.sub_diag. done. }
  apply Z.mod_divide in E; [| lia]. destruct E as [k Hk]. nia.
Qed.

(** A map with fewer than [n] entries leaves one of [n] successive identifiers
    free. *)
Lemma free_id {A} (m : gmap Z A) l n :
  (size m < n)%nat -> Z.of_nat n <= 65536 ->
  exists k, (k < n)%nat /\ m !! u16 (l + Z.of_nat k) = None.
Proof.
  intros Hm Hn. set (ids := (fun k => u16 (l + Z.of_nat k)) <$> seq 0 n).
  destruct (decide (Exists (fun k => m !! u16 (l + Z.of_nat k) = None) (seq 0 n))) as [He|He].
  { apply Exists_exists in He as (k & Hk & E). apply list_elem_of_In, elem_of_seq in Hk. exists k. split; [lia | done]. }
  exfalso. apply not_Exists_Forall in He; [| intros ?; apply _].
  assert (Hdup : NoDup ids).
  { apply NoDup_fmap_2_strong; [| apply NoDup_seq]. intros i j Hi Hj E.
    apply elem_of_seq in Hi, Hj. apply u16_inj in E; lia. }
  assert (Hsub : (list_to_set ids : gset Z) ⊆ dom m).
  { intros x Hx. apply elem_of_list_to_set, list_elem_of_fmap in Hx as (k & -> & Hk).
    rewrite Forall_forall in He. apply elem_of_dom, not_eq_None_Some. apply He. by apply list_elem_of_In. }
  apply subseteq_size in Hsub. rewrite size_list_to_set, size_dom in Hsub by done.
  unfold ids in Hsub. rewrite length_fmap, length_seq in Hsub. lia.
Qed.

Lemma skip_used_ids_run fuel : forall c k,
  let st := ClientSession.state c in
  (k < fuel)%nat -> is_u16 (SessionState.last_packet_id st) ->
  SessionState.pending_qos_send st !! u16 (SessionState.last_packet_id st + Z.of_nat k) = None ->
  exists id, is_u16 id /\ SessionState.pending_qos_send st !! id = None
    /\ skip_used_ids fuel c = (Ok tt, set_last_id id c).
Proof.
  induction fuel as [|fuel IH]; intros c k st Hk Hl Hfree; [lia |].
  cbn [skip_used_ids]. unfold state_of, gets, mbind at 1, M_bind at 1. fold st.
  destruct (SessionState.pending_qos_send st !! SessionState.last_packet_id st) as [p|] eqn:E.
  - rewrite bool_decide_true by done.
    set (c1 := set_last_id (u16 (SessionState.last_packet_id st + 1)) c).
    destruct (IH c1 (Nat.pred k)) as (id & Hid & Hf & Hrun).
    + destruct k; [| lia]. exfalso. rewrite Z.add_0_r in Hfree. unfold u16 in Hfree.
      rewrite Z.mod_small in Hfree by apply Hl. congruence.
    + apply is_u16_u16.
    + destruct k; [exfalso; rewrite Z.add_0_r in Hfree; unfold u16 in Hfree;
        rewrite Z.mod_small in Hfree by apply Hl; congruence |].
      cbn. fold st. unfold u16 in *. rewrite Zplus_mod_idemp_l. rewrite <- Hfree. f_equal. f_equal. lia.
    + exists id. split_and!; [done | done |]. exact Hrun.
  - rewrite bool_decide_false by (intros []; congruence).
    exists (SessionState.last_packet_id st). split_and!; [done | done |].
    unfold st. by destruct c as [? ? ? [] ?].
Qed.

(** Whether a PUBLISH above QoS 0 must wait, and whether it can get an
    identifier. *)
Definition send_full c : bool :=
  let st := ClientSession.state c in
  (u16_max <=? Z.of_nat (size (SessionState.pending_qos_send st)))
  || (SessionState.qos_send_remaining st =? 0).

Definition id_available c (p : Publish) : bool :=
  let st := ClientSession.state c in
  match Publish.packet_id p with
  | Some id => bool_decide (SessionState.pending_qos_send st !! id = None)
  | None => SessionState.auto_packet_id st
  end.

(** The packet with the identifier it goes out with. *)
Definition numbered (p : Publish) (id : Z) : Publish := p <| Publish.packet_id := Some id |>.

Lemma choose_packet_id_run p q c :
  publish_qos p = Ok q -> q <> QoSLevel.AtMostOnce -> opt_ok is_u16 (Publish.packet_id p) ->
  is_u16 (SessionState.last_packet_id (ClientSession.state c)) ->
  send_full c = false -> id_available c p = true ->
  exists id c1,
    is_u16 id /\ SessionState.pending_qos_send (ClientSession.state c) !! id = None
    /\ default id (Publish.packet_id p) = id
    /\ choose_packet_id p c = (Ok (numbered p id), c1)
    /\ (c1 = c \/ c1 = set_last_id id c).
Proof.
  intros Hq Hne Hid Hl Hf Ha. unfold id_available in Ha. unfold choose_packet_id, numbered.
  destruct (Publish.packet_id p) as [id|] eqn:E.
  - exists id, c. apply bool_decide_eq_true in Ha. split_and!; [done | done | done | | by left].
    run_session. rewrite bool_decide_false by (rewrite Ha; apply is_Some_None).
    destruct p; cbn in *; by subst.
  - rewrite (bind_ok _ _ c true c) by (unfold state_of, gets; by rewrite Ha).
    set (c1 := set_last_id (u16 (SessionState.last_packet_id (ClientSession.state c) + 1)) c).
    assert (Hsize : (size (SessionState.pending_qos_send (ClientSession.state c1)) < Z.to_nat 65536)%nat).
    { apply orb_false_iff in Hf as [Hf _]. apply Z.leb_gt in Hf. cbn. unfold u16_max in Hf. lia. }
    destruct (free_id _ (SessionState.last_packet_id (ClientSession.state c1)) _ Hsize)
      as (k & Hk & Hfree); [lia |].
    destruct (skip_used_ids_run ID_FUEL c1 k) as (id & Hu & Hnone & Hrun);
      [unfold ID_FUEL; lia | apply is_u16_u16 | done |].
    exists id, (set_last_id id c). split_and!; [done | done | done | | by right].
    rewrite (bind_ok _ _ c tt c1 eq_refl), (bind_ok _ _ _ _ _ Hrun). run_session.
    unfold publish_set_packet_id. rewrite Hq. by rewrite bool_decide_false.
Qed.

(** What a PUBLISH that was sent waits for. *)
Definition awaits (q : QoSLevel) : QoSPacket :=
  match q with QoSLevel.ExactlyOnce => QoSPacket.PubRec | _ => QoSPacket.PubAck end.

Lemma track_send_run q p id c :
  q <> QoSLevel.AtMostOnce -> Publish.packet_id p = Some id ->
  exists e, QoSPacketState.next e = awaits q /\ QoSPacketState.packet e = Some (Packet.Publish p)
    /\ track_send q p c = put_send id e c.
Proof.
  intros Hq Hid. destruct q; [done | exists (new_qos1 (Packet.Publish p)) | exists (new_qos2 (Packet.Publish p))];
    (split_and!; [done | done |]); cbn; run_session; by rewrite Hid.
Qed.

Lemma write_publish_run p q c :
  publish_qos p = Ok q -> q <> QoSLevel.AtMostOnce ->
  write_publish p c
  = if send_full c then (Err protocol_error, c)
    else (choose_packet_id p ≫= fun p => track_send q p ≫= fun _ => send_packet (Packet.Publish p)) c.
Proof.
  intros Hq Hne. unfold write_publish. rewrite Hq.
  unfold state_of, gets, lift, mbind, M_bind. cbn. rewrite bool_decide_false by done. fold (send_full c).
  destruct (send_full c); [done |].
  destruct (choose_packet_id p c) as [[p'|e| |] c1]; [| done..].
  by destruct (track_send q p' c1) as [[u|e| |] c2].
Qed.

(** C23: sending a PUBLISH above QoS 0.  It is refused when too many are in flight
    or the peer grants none, when its identifier is in use, and when it has none
    and the client does not number packets.  Otherwise it goes out under an
    identifier that is not in flight, its own or a new one the search always
    finds, and waits for PUBACK or PUBREC; the entry stays when the write fails,
    so that the message can be sent again.  The documentation of
    [MqttClient::start] says that a message for which there is no room is queued
    and sent later; the code refuses it, as stated here, and the client ends
    ([refused_publish_ends_task]). *)
Theorem publish_sent (p : Publish) (q : QoSLevel) (c : ClientSession) :
  publish_qos p = Ok q -> q <> QoSLevel.AtMostOnce -> opt_ok is_u16 (Publish.packet_id p) ->
  (forall id, is_u16 id -> packet_ok (Packet.Publish (numbered p id))) ->
  is_u16 (SessionState.last_packet_id (ClientSession.state c)) ->
  if send_full c then write_next (Packet.Publish p) c = (Err protocol_error, c)
  else if negb (id_available c p) then write_next (Packet.Publish p) c = (Err malformed_packet, c)
  else exists id e,
    is_u16 id /\ sending (ledger c) !! id = None /\ default id (Publish.packet_id p) = id
    /\ let c' := snd (write_next (Packet.Publish p) c) in
       SessionState.pending_qos_send (ClientSession.state c')
         = <[id := e]> (SessionState.pending_qos_send (ClientSession.state c))
       /\ QoSPacketState.packet e = Some (Packet.Publish (numbered p id))
       /\ ledger c' = (ledger c) <| sending := <[id := awaits q]> (sending (ledger c)) |>
       /\ match fst (write_next (Packet.Publish p) c) with
          | Ok _ => only_wrote (wire_bytes (Packet.Publish (numbered p id))) c c'
          | Err e => e = transport_err
          | _ => False
          end.
Proof.
  intros Hq Hne Hid Hok Hl. cbn [write_next]. rewrite (write_publish_run p q c Hq Hne).
  destruct (send_full c) eqn:Hf; [done |].
  destruct (id_available c p) eqn:Ha; cbn [negb].
  - destruct (choose_packet_id_run p q c Hq Hne Hid Hl Hf Ha) as (id & c1 & Hu & Hnone & Hdef & Hrun & Hc1).
    destruct (track_send_run q (numbered p id) id c1 Hne eq_refl) as (e & He & Hpk & Htrack).
    exists id, e. rewrite sending_lookup, Hnone. do 3 (split; [done |]). cbv zeta.
    rewrite (bind_ok _ _ _ _ _ Hrun).
    unfold mbind, M_bind. rewrite Htrack. cbn.
    destruct (send_packet_run (Packet.Publish (numbered p id)) (snd (put_send id e c1)) (Hok id Hu))
      as [(t & E & Hw)|(t & E & Hw)]; cbn in E; rewrite E; cbn;
      (assert (Ec : ClientSession.packet_stream c1 = ClientSession.packet_stream c
         /\ SessionState.pending_qos_send (ClientSession.state c1)
            = SessionState.pending_qos_send (ClientSession.state c)
         /\ ledger c1 = ledger c) by (destruct Hc1 as [-> | ->]; done));
      destruct Ec as (Es & Em & El); rewrite Em; (split_and!; [done | done | |]).
    + rewrite <- El. unfold ledger, phases. cbn. by rewrite fmap_insert, He.
    + exists t. cbn. rewrite Es. split; [done |]. unfold wrote, outgoing, transport in *.
      cbn in Hw. by rewrite Es in Hw.
    + rewrite <- El. unfold ledger, phases. cbn. by rewrite fmap_insert, He.
    + done.
  - unfold id_available in Ha. unfold choose_packet_id. destruct (Publish.packet_id p) as [id|].
    + apply bool_decide_eq_false in Ha. run_session.
      rewrite bool_decide_true by by apply not_eq_None_Some. done.
    + run_session. by rewrite Ha.
Qed.

(** ** Where the client departs from the protocol *)

(** The first answer of a QoS 2 exchange. *)
Lemma qos2_received p id c :
  SessionState.auto_ack (ClientSession.state c) = true ->
  publish_qos p = Ok QoSLevel.ExactlyOnce -> Publish.packet_id p = Some id -> is_u16 id ->
  0 < SessionState.qos_recv_remaining (ClientSession.state c) <= usize_max ->
  match handle_packet (Packet.Publish p) c with
  | (Ok o, c') => o = Some (Packet.Publish p)
      /\ recv_quota (ledger c') = recv_quota (ledger c) - 1
      /\ receiving (ledger c') !! id = Some QoSPacket.PubRel
      /\ SessionState.auto_ack (ClientSession.state c') = true
  | (Err e, _) => e = transport_err
  | _ => False
  end.
Proof.
  intros Ha Hq Hid Hu Hr. pose proof (recv_qos2_conforms p id c Ha Hid Hu Hr) as H.
  cbn [handle_packet]. unfold handle_recv_publish. rewrite Hq. cbn [or_panic].
  unfold lift. unfold mbind, M_bind.
  assert (Hk : SessionState.auto_ack (ClientSession.state (snd (recv_qos2 p c))) = true).
  { unfold recv_qos2. run_session. rewrite Hid. cbn. rewrite overflowing_ok by lia. cbn. rewrite Ha. cbn.
    unfold attempt. destruct_send; [by apply responses_ok | | done]. by rewrite lookup_insert_eq. }
  destruct (recv_qos2 p c) as [[u|e| |] c'] eqn:E; [| by destruct H | done | done].
  destruct H as [Hl _]. unfold mret, M_ret. rewrite Hl. cbn. by rewrite lookup_insert_eq.
Qed.

(** QoS 2 is not exactly once.  A PUBLISH of QoS 2 that arrives again before
    its PUBREL, as a broker resends it after a lost PUBREC, is shown to the
    application a second time, and takes a second unit of the receive quota,
    although one PUBREL will end the exchange. *)
Theorem qos2_duplicate_shown (p : Publish) (id : Z) (c c1 : ClientSession) (o : option Packet) :
  SessionState.auto_ack (ClientSession.state c) = true ->
  publish_qos p = Ok QoSLevel.ExactlyOnce -> Publish.packet_id p = Some id -> is_u16 id ->
  1 < SessionState.qos_recv_remaining (ClientSession.state c) <= usize_max ->
  handle_packet (Packet.Publish p) c = (Ok o, c1) ->
  match handle_packet (Packet.Publish p) c1 with
  | (Ok o', c2) => o = Some (Packet.Publish p) /\ o' = Some (Packet.Publish p)
      /\ recv_quota (ledger c2) = recv_quota (ledger c) - 2
  | (Err e, _) => e = transport_err
  | _ => False
  end.
Proof.
  intros Ha Hq Hid Hu Hr Hrun. pose proof (qos2_received p id c Ha Hq Hid Hu ltac:(lia)) as H1.
  rewrite Hrun in H1. destruct H1 as (-> & Hl1 & _ & Ha1).
  assert (Hr1 : 0 < SessionState.qos_recv_remaining (ClientSession.state c1) <= usize_max).
  { change (0 < recv_quota (ledger c1) <= usize_max). rewrite Hl1. cbn. lia. }
  pose proof (qos2_received p id c1 Ha1 Hq Hid Hu Hr1) as H2.
  destruct (handle_packet (Packet.Publish p) c1) as [[o'|e| |] c2]; try done.
  destruct H2 as (-> & Hl2 & _). rewrite Hl2, Hl1. split_and!; [done | done | lia].
Qed.

(** Responses for which the client departs from the protocol, with automatic
    acknowledgement: a PUBREL whose PUBLISH is not known, which is to be answered
    with PUBCOMP, and a PUBREC that is repeated, which is to be answered with
    PUBREL, end the session with a protocol error; a PUBREC that refuses the
    message is answered with PUBREL, and the exchange goes on. *)
Theorem irregular_responses (r : PubResp) (c : ClientSession) :
  let id := PubResp.packet_id r in
  SessionState.auto_ack (ClientSession.state c) = true -> is_u16 id -> quotas_ok c ->
  (receiving (ledger c) !! id = None ->
     (exists reply, receive (Packet.PubRel r) (ledger c) = Some (ledger c, [Packet.PubComp reply], true)
        /\ PubResp.packet_id reply = id)
     /\ handle_pubrel id c = (Err protocol_error, c))
  /\ (sending (ledger c) !! id = Some QoSPacket.PubComp -> handle_pubrec id c = (Err protocol_error, c))
  /\ (sending (ledger c) !! id = Some QoSPacket.PubRec -> refused r = true ->
     (exists l, receive (Packet.PubRec r) (ledger c) = Some (l, [], true) /\ sending l !! id = None)
     /\ match handle_pubrec id c with
        | (Ok _, c') => sending (ledger c') !! id = Some QoSPacket.PubComp
            /\ only_wrote (wire_bytes (Packet.PubRel (new_pubrel_with_packet_id id))) c c'
        | (Err e, _) => e = transport_err
        | _ => False
        end).
Proof.
  intros id Ha Hid Hq. pose proof Hq as [_ Hqr].
  pose proof (handle_pubrel_conforms r c Ha Hid Hqr) as Hrel. pose proof (handle_pubrec_conforms r c Ha Hid) as Hrec.
  fold id in Hrel, Hrec. unfold reaction in Hrel, Hrec. fold id in Hrel, Hrec. split_and!.
  - intros E. cbn [receive]. fold id. rewrite E in *. split; [by eexists |].
    destruct (handle_pubrel id c) as [[u|e| |] c']; simpl in Hrel; try done. by destruct Hrel as [-> ->].
  - intros E. rewrite E in *. destruct (handle_pubrec id c) as [[u|e| |] c']; simpl in Hrec; try done.
    by destruct Hrec as [-> ->].
  - intros E Href. cbn [receive]. fold id. unfold complete. rewrite Href, E in *. simpl in *. split.
    { eexists. split; [done |]. simpl. apply lookup_delete_eq. }
    destruct (handle_pubrec id c) as [[u|e| |] c']; try done; [| by destruct Hrec].
    rewrite app_nil_r in Hrec. destruct Hrec as [Hl Hw]. apply (f_equal sending) in Hl. cbn in Hl.
    unfold ledger, sending in *. rewrite Hl. by rewrite lookup_insert_eq.
Qed.

(** Without automatic acknowledgement no message can be published at QoS 2:
    the PUBREC of the broker makes the client forget the message, so that the
    PUBCOMP that ends the exchange is refused as a protocol error, which ends the
    session. *)
Theorem manual_qos2_fails (r r' : PubResp) (c : ClientSession) :
  let id := PubResp.packet_id r in
  SessionState.auto_ack (ClientSession.state c) = false -> PubResp.packet_id r' = id ->
  sending (ledger c) !! id = Some QoSPacket.PubRec ->
  exists c1, handle_packet (Packet.PubRec r) c = (Ok (Some (Packet.PubRec r)), c1)
    /\ sending (ledger c1) !! id = None
    /\ handle_packet (Packet.PubComp r') c1 = (Err protocol_error, c1).
Proof.
  intros id Ha Hid Hs. exists (snd (remove_send id c)).
  assert (Hnone : SessionState.pending_qos_send (ClientSession.state (snd (remove_send id c))) !! id = None)
    by apply lookup_delete_eq.
  rewrite sending_lookup in Hs.
  destruct (SessionState.pending_qos_send (ClientSession.state c) !! id) as [e|] eqn:E; [| done].
  injection Hs as Hn. split_and!.
  - cbn [handle_packet]. unfold handle_pubrec. fold id. run_session. rewrite E. cbn. rewrite Hn. cbn. rewrite Ha. done.
  - by rewrite sending_lookup, Hnone.
  - cbn [handle_packet]. unfold handle_pubcomp. rewrite Hid.
    revert Hnone. generalize (snd (remove_send id c)). intros c1 Hnone. run_session. rewrite Hnone. cbn.
    destruct c1 as [? ? ? [] ?]. cbn in *. by rewrite delete_id.
Qed.

Lemma skip_used_ids_free fuel c :
  (0 < fuel)%nat ->
  SessionState.pending_qos_send (ClientSession.state c)
    !! SessionState.last_packet_id (ClientSession.state c) = None ->
  skip_used_ids fuel c = (Ok tt, c).
Proof.
  intros Hf Hfree. destruct fuel; [lia |]. cbn [skip_used_ids]. run_session. rewrite Hfree.
  by rewrite bool_decide_false by (by intros []).
Qed.

Lemma id_fuel_pos : (0 < ID_FUEL)%nat.
Proof. unfold ID_FUEL. lia. Qed.

(** The packet identifier 0, which MQTT 2.2.1 forbids, is used after 65535. *)
Theorem auto_packet_id_zero (p : Publish) (q : QoSLevel) (c : ClientSession) :
  publish_qos p = Ok q -> q <> QoSLevel.AtMostOnce -> Publish.packet_id p = None ->
  SessionState.auto_packet_id (ClientSession.state c) = true ->
  SessionState.last_packet_id (ClientSession.state c) = 65535 ->
  SessionState.pending_qos_send (ClientSession.state c) !! 0 = None ->
  choose_packet_id p c = (Ok (numbered p 0), set_last_id 0 c).
Proof.
  intros Hq Hne Hid Ha Hl Hfree. unfold choose_packet_id. rewrite Hid.
  rewrite (bind_ok _ _ c true c) by (unfold state_of, gets; by rewrite Ha).
  rewrite (bind_ok _ _ c tt (set_last_id 0 c)).
  - pose proof (skip_used_ids_free ID_FUEL (set_last_id 0 c) id_fuel_pos Hfree) as E.
    rewrite (bind_ok _ _ _ _ _ E). run_session. unfold publish_set_packet_id. rewrite Hq.
    by rewrite bool_decide_false.
  - unfold with_state, modify. rewrite Hl. reflexivity.
Qed.
End session_facts.
