(* ===== verification/ClientInvariant.v ===== *)
(** * The invariant of the client session *)
(** [state_ok] says what the tables of messages in flight hold.  Every operation
    of the session keeps it, whatever its outcome: [keeps_ok] is closed under
    the combinators of the monad, so that the proofs follow the code. *)

From S2P Require Import Prelude Bytes Runtime Codec Fixed Property Macro MacroFacts Subscriptions.
From S2P Require Import Acks Publish Connect Packet Stream ClientSession ClientFacts.

Section invariant.
Context {B : Buf} {HI : HashIter} {T : Transport} {V : Build}.
Implicit Types c : ClientSession.

(** ** Well-formed session states *)

(** The message an entry keeps until it is acknowledged. *)
Definition keeps_publish (q : QoSLevel) (id : Z) (e : QoSPacketState) : Prop :=
  exists p, QoSPacketState.packet e = Some (Packet.Publish p) /\ Publish.packet_id p = Some id
    /\ publish_qos p = Ok q.

Definition send_entry_ok (id : Z) (e : QoSPacketState) : Prop :=
  match QoSPacketState.next e with
  | QoSPacket.PubAck => keeps_publish QoSLevel.AtLeastOnce id e
  | QoSPacket.PubRec => keeps_publish QoSLevel.ExactlyOnce id e
  | QoSPacket.PubRel | QoSPacket.PubComp => QoSPacketState.packet e = None
  end.

Definition recv_entry_ok (id : Z) (e : QoSPacketState) : Prop :=
  match QoSPacketState.next e with
  | QoSPacket.PubAck => keeps_publish QoSLevel.AtLeastOnce id e
  | QoSPacket.PubRec => keeps_publish QoSLevel.ExactlyOnce id e
  | QoSPacket.PubRel => QoSPacketState.packet e = None
  | QoSPacket.PubComp => False
  end.

Record state_ok (st : SessionState) : Prop := {
  sk_send : map_Forall send_entry_ok (SessionState.pending_qos_send st);
  sk_recv : map_Forall recv_entry_ok (SessionState.pending_qos_recv st);
  sk_count : Z.of_nat (size (SessionState.pending_qos_send st)) <= u16_max;
  sk_id : is_u16 (SessionState.last_packet_id st);
}.

(** An operation keeps the state well formed, whatever its outcome. *)
Definition keeps_ok {A} (m : M ClientSession MqttError A) : Prop :=
  forall c, state_ok (ClientSession.state c) -> state_ok (ClientSession.state (snd (m c))).

Lemma state_ok_new uuid : state_ok (SessionState_new uuid).
Proof. by split. Qed.

Lemma keeps_ret {A} (a : A) : keeps_ok (mret a).
Proof. by intros c Hc. Qed.

Lemma keeps_bind {A A'} (m : M ClientSession MqttError A) (f : A -> M ClientSession MqttError A') :
  keeps_ok m -> (forall a, keeps_ok (f a)) -> keeps_ok (m ≫= f).
Proof.
  intros Hm Hf c Hc. specialize (Hm c Hc). unfold mbind, M_bind.
  destruct (m c) as [[a|e| |] c1]; [by apply Hf | done..].
Qed.

Lemma keeps_attempt {A} (m : M ClientSession MqttError A) : keeps_ok m -> keeps_ok (attempt m).
Proof.
  intros Hm c Hc. specialize (Hm c Hc). unfold attempt. by destruct (m c) as [[a|e| |] c1].
Qed.

Lemma keeps_lift {A} (o : outcome MqttError A) : keeps_ok (lift o).
Proof. by intros c Hc. Qed.

Lemma keeps_gets {A} (f : ClientSession -> A) : keeps_ok (gets f).
Proof. by intros c Hc. Qed.

Lemma keeps_raise {A} e : keeps_ok (raise (A := A) e).
Proof. by intros c Hc. Qed.

Lemma keeps_no_fuel {A} : keeps_ok (no_fuel (A := A)).
Proof. by intros c Hc. Qed.

Lemma keeps_stream {A} (m : M PacketStream StreamError A) : keeps_ok (on_packet_stream m).
Proof. intros c Hc. unfold on_packet_stream. by destruct (m _). Qed.

Lemma keeps_connected b : keeps_ok (set_session_connected b).
Proof. by intros c Hc. Qed.

(** An update of the state that keeps the entries and the last identifier. *)
Lemma keeps_with_state f :
  (forall st, state_ok st -> state_ok (f st)) -> keeps_ok (with_state f).
Proof. intros Hf c Hc. by apply Hf. Qed.

Lemma keeps_remove_send id : keeps_ok (remove_send id).
Proof.
  intros c [H1 H2 H3 H4]. run_session. split; cbn; [by apply map_Forall_delete | done | | done].
  rewrite map_size_delete. destruct (_ !! id); simpl; lia.
Qed.

Lemma keeps_remove_recv id : keeps_ok (remove_recv id).
Proof. intros c [H1 H2 H3 H4]. run_session. split; cbn; [done | by apply map_Forall_delete | done..]. Qed.

Lemma keeps_add_send n : keeps_ok (add_send_remaining n).
Proof.
  apply keeps_bind; [apply keeps_gets | intros ?]. apply keeps_bind; [apply keeps_lift | intros ?].
  apply keeps_with_state. by intros st [].
Qed.

Lemma keeps_add_recv n : keeps_ok (add_recv_remaining n).
Proof.
  apply keeps_bind; [apply keeps_gets | intros ?]. apply keeps_bind; [apply keeps_lift | intros ?].
  apply keeps_with_state. by intros st [].
Qed.

Create HintDb session.
#[local] Hint Resolve keeps_ret keeps_attempt keeps_lift keeps_gets keeps_raise keeps_no_fuel
  keeps_stream keeps_connected keeps_remove_send keeps_remove_recv keeps_add_send keeps_add_recv : session.

Lemma keeps_state_of {A} (f : SessionState -> A) : keeps_ok (state_of f).
Proof. apply keeps_gets. Qed.

Lemma keeps_shutdown : keeps_ok shutdown_stream.
Proof. apply keeps_bind; auto with session. Qed.

Lemma keeps_send p : keeps_ok (send_packet p).
Proof. apply keeps_stream. Qed.

Lemma keeps_read fuel uuid : keeps_ok (read_next fuel uuid).
Proof. apply keeps_stream. Qed.

#[local] Hint Resolve keeps_state_of keeps_shutdown keeps_send keeps_read : session.

(** Follows the structure of an operation. *)
Ltac keeps :=
  repeat first
    [ progress intros
    | progress (auto with session nocore)
    | apply keeps_bind
    | match goal with |- keeps_ok (match ?x with _ => _ end) => destruct x eqn:? end ].

Lemma keeps_put_recv id e : recv_entry_ok id e -> keeps_ok (put_recv id e).
Proof. intros He c []. split; cbn; [done | by apply map_Forall_insert_2 | done..]. Qed.

Lemma state_ok_replace_send st id e e' :
  state_ok st -> SessionState.pending_qos_send st !! id = Some e -> send_entry_ok id e' ->
  state_ok (st <| SessionState.pending_qos_send := <[id := e']> (SessionState.pending_qos_send st) |>).
Proof.
  intros [] Hid He. split; cbn; [by apply map_Forall_insert_2 | done | | done].
  rewrite map_size_insert_Some; [done |]. by exists e.
Qed.

(** ** Connecting *)

Lemma keeps_handle_connack a : keeps_ok (handle_connack a).
Proof.
  unfold handle_connack. keeps; try (apply keeps_with_state; by intros st []).
Qed.

#[local] Hint Resolve keeps_handle_connack : session.

Lemma keeps_await fuel rf uuid elapsed k wait : keeps_ok (await_connack fuel rf uuid elapsed k wait).
Proof.
  revert k. induction fuel as [|fuel IH]; intros k; cbn [await_connack]; keeps.
Qed.

#[local] Hint Resolve keeps_await : session.

Lemma keeps_connect fuel rf uuid uuid' elapsed wait cred clean will :
  keeps_ok (connect fuel rf uuid uuid' elapsed wait cred clean will).
Proof. unfold connect. keeps. Qed.

Lemma keeps_keep_alive now : keeps_ok (handle_keep_alive now).
Proof. unfold handle_keep_alive. keeps. by intros c Hc. Qed.

(** ** Sending *)

Lemma skip_used_ids_state fuel c :
  exists id, snd (skip_used_ids fuel c) = set_last_id id c
    /\ (is_u16 (SessionState.last_packet_id (ClientSession.state c)) -> is_u16 id).
Proof.
  revert c. induction fuel as [|fuel IH]; intros c.
  - exists (SessionState.last_packet_id (ClientSession.state c)). split; [| done].
    by destruct c as [? ? ? [] ?].
  - cbn [skip_used_ids]. unfold mbind at 1, M_bind at 1, state_of, gets. case_bool_decide.
    + destruct (IH (set_last_id (u16 (SessionState.last_packet_id (ClientSession.state c) + 1)) c))
        as (id & E & Hid). exists id. split; [exact E |]. intros _. apply Hid, is_u16_u16.
    + exists (SessionState.last_packet_id (ClientSession.state c)). split; [| done].
      by destruct c as [? ? ? [] ?].
Qed.

Lemma keeps_last_id c id : is_u16 id -> state_ok (ClientSession.state c) ->
  state_ok (ClientSession.state (set_last_id id c)).
Proof. by intros ? []. Qed.

(** Choosing an identifier changes the counter only, and numbers the packet. *)
Lemma choose_packet_id_state p q c :
  publish_qos p = Ok q -> state_ok (ClientSession.state c) ->
  let '(r, c1) := choose_packet_id p c in
  (c1 = c \/ exists id, is_u16 id /\ c1 = set_last_id id c)
  /\ (forall p', r = Ok p' -> publish_qos p' = Ok q /\ is_Some (Publish.packet_id p')).
Proof.
  intros Hq Hc. pose proof Hc as [_ _ _ Hl]. unfold choose_packet_id.
  destruct (Publish.packet_id p) as [id|] eqn:E.
  - run_session. case_bool_decide as Hd; cbn; (split; [by left |]); intros p' Hp; by simplify_eq.
  - unfold mbind at 1, M_bind at 1, state_of at 1, gets.
    destruct (SessionState.auto_packet_id _); [| by split; [left |]].
    set (c1 := set_last_id (u16 (SessionState.last_packet_id (ClientSession.state c) + 1)) c).
    rewrite (bind_ok _ _ c tt c1 eq_refl). unfold mbind at 1, M_bind at 1.
    destruct (skip_used_ids_state ID_FUEL c1) as (id & E1 & Hid).
    specialize (Hid (is_u16_u16 _)).
    destruct (skip_used_ids ID_FUEL c1) as [[[]|e| |] c2]; cbn in E1; subst c2;
      [| split; [right; by exists id | done]..].
    run_session. unfold publish_set_packet_id. rewrite Hq.
    case_bool_decide; cbn; (split; [right; by exists id |]); intros p' Hp; by simplify_eq/=.
Qed.

Lemma track_send_keeps q p c :
  publish_qos p = Ok q -> is_Some (Publish.packet_id p) -> state_ok (ClientSession.state c) ->
  Z.of_nat (size (SessionState.pending_qos_send (ClientSession.state c))) < u16_max ->
  state_ok (ClientSession.state (snd (track_send q p c))).
Proof.
  intros Hq [id Hid] [] Hs.
  assert (Hput : forall e, send_entry_ok id e -> state_ok (ClientSession.state (snd (put_send id e c)))).
  { intros e He. split; cbn; [by apply map_Forall_insert_2 | done | | done].
    rewrite map_size_insert. case_match; cbn; lia. }
  destruct q; [done | |]; cbn [track_send]; rewrite Hid; apply Hput; by exists p.
Qed.

Lemma keeps_write_publish p : keeps_ok (write_publish p).
Proof.
  intros c Hc. destruct (publish_qos p) as [q|e| |] eqn:Hq;
    [| unfold write_publish; rewrite Hq; done..].
  destruct (decide (q = QoSLevel.AtMostOnce)) as [->|Hne].
  { unfold write_publish. rewrite Hq. by apply keeps_send. }
  rewrite (write_publish_run p q c Hq Hne). destruct (send_full c) eqn:Hf; [done |].
  apply orb_false_iff in Hf as [Hf _]. apply Z.leb_gt in Hf.
  pose proof (choose_packet_id_state p q c Hq Hc) as H. unfold mbind at 1, M_bind at 1.
  destruct (choose_packet_id p c) as [r c1]. destruct H as [H1 H2].
  assert (Hc1 : state_ok (ClientSession.state c1)
    /\ SessionState.pending_qos_send (ClientSession.state c1)
       = SessionState.pending_qos_send (ClientSession.state c)).
  { destruct H1 as [-> | (id & Hid & ->)]; [done |]. by split; [apply keeps_last_id |]. }
  destruct Hc1 as [Hc1 Hm]. destruct r as [p'|e| |]; [| done..].
  destruct (H2 p' eq_refl) as [Hq' Hid]. rewrite <- Hm in Hf.
  pose proof (track_send_keeps q p' c1 Hq' Hid Hc1 Hf) as Ht.
  unfold mbind, M_bind. destruct (track_send q p' c1) as [[u|e| |] c2]; [| done..]. by apply keeps_send.
Qed.

(** The quota the server grants is never used up by sending. *)
Theorem publish_keeps_quota (p : Publish) (c : ClientSession) :
  state_ok (ClientSession.state c) ->
  SessionState.qos_send_remaining (ClientSession.state (snd (write_next (Packet.Publish p) c)))
  = SessionState.qos_send_remaining (ClientSession.state c).
Proof.
  assert (Hsend : forall q c, SessionState.qos_send_remaining (ClientSession.state (snd (send_packet q c)))
    = SessionState.qos_send_remaining (ClientSession.state c)).
  { intros q c0. unfold send_packet, on_packet_stream. by destruct (write q _). }
  intros Hc. cbn [write_next]. destruct (publish_qos p) as [q|e| |] eqn:Hq;
    [| unfold write_publish; by rewrite Hq..].
  destruct (decide (q = QoSLevel.AtMostOnce)) as [->|Hne].
  { unfold write_publish. rewrite Hq. apply Hsend. }
  rewrite (write_publish_run p q c Hq Hne). destruct (send_full c); [done |].
  pose proof (choose_packet_id_state p q c Hq Hc) as H. unfold mbind at 1, M_bind at 1.
  destruct (choose_packet_id p c) as [r c1]. destruct H as [H1 _].
  assert (E : SessionState.qos_send_remaining (ClientSession.state c1)
    = SessionState.qos_send_remaining (ClientSession.state c)).
  { by destruct H1 as [-> | (id & Hid & ->)]. }
  rewrite <- E. destruct r as [p'|e| |]; [| done..].
  unfold track_send. destruct q; [done | |]; destruct (Publish.packet_id p'); try done; run_session; by rewrite Hsend.
Qed.

#[local] Hint Resolve keeps_write_publish : session.

Lemma keeps_write_next p : keeps_ok (write_next p).
Proof. destruct p; cbn [write_next]; keeps. Qed.

(** ** Receiving *)

Lemma keeps_lift_bind {A A'} (o : outcome MqttError A) (f : A -> M ClientSession MqttError A') :
  (forall a, o = Ok a -> keeps_ok (f a)) -> keeps_ok (lift o ≫= f).
Proof. intros Hf c Hc. destruct o; [by apply (Hf a) | done..]. Qed.

(** A write leaves the state alone. *)
Lemma send_packet_state p c :
  exists r s, send_packet p c = (r, c <| ClientSession.packet_stream := s |>).
Proof. unfold send_packet, on_packet_stream. destruct (write p _) as [r s]. by eexists _, s. Qed.

(** The outcomes of a write in the goal. *)
Ltac case_send :=
  unfold attempt;
  match goal with
  | |- context [send_packet ?p ?c] =>
      let r := fresh "r" in let s := fresh "s" in let E := fresh "E" in
      destruct (send_packet_state p c) as (r & s & E); rewrite E; destruct r; cbn; clear E
  end.

Lemma keeps_recv_qos1 p :
  publish_qos p = Ok QoSLevel.AtLeastOnce -> keeps_ok (recv_qos1 p).
Proof.
  intros Hq. unfold recv_qos1. apply keeps_bind; [auto with session |]. intros n.
  destruct (n =? 0); [auto with session |]. apply keeps_lift_bind. intros id Hid.
  apply keeps_bind; [| keeps]. apply keeps_put_recv. exists p. split_and!; [done | | done].
  by destruct (Publish.packet_id p); simplify_eq/=.
Qed.

Lemma keeps_recv_qos2 p :
  publish_qos p = Ok QoSLevel.ExactlyOnce -> keeps_ok (recv_qos2 p).
Proof.
  intros Hq. unfold recv_qos2. apply keeps_lift_bind. intros id Hid c Hc.
  assert (Ep : Publish.packet_id p = Some id) by by destruct (Publish.packet_id p); simplify_eq/=.
  set (e := new_qos2 (Packet.Publish p)).
  assert (He : recv_entry_ok id e) by by exists p.
  pose proof (keeps_put_recv id e He c Hc) as H1. pose proof H1 as [H2 H3 H4 H5].
  unfold mbind, M_bind. rewrite (surjective_pairing (put_recv id e c)).
  change (fst (put_recv id e c)) with (Ok tt : outcome MqttError unit).
  pose proof (keeps_add_recv (-1) _ H1) as H6.
  run_session. destruct (overflowing _); cbn in *; [| done..].
  destruct (SessionState.auto_ack _); [| done]. case_send; [| done..].
  rewrite lookup_insert_eq. cbn. split; cbn; [done | | done..].
  apply map_Forall_insert_2; [done |]. by apply map_Forall_delete.
Qed.

Lemma keeps_recv_publish p : keeps_ok (handle_recv_publish p).
Proof.
  unfold handle_recv_publish. apply keeps_lift_bind. intros q Hq.
  assert (E : publish_qos p = Ok q) by by destruct (publish_qos p); simplify_eq/=.
  destruct q; [auto with session | by apply keeps_recv_qos1 | by apply keeps_recv_qos2].
Qed.

Lemma keeps_puback id : keeps_ok (handle_puback id).
Proof. unfold handle_puback. keeps. Qed.

Lemma keeps_pubcomp id : keeps_ok (handle_pubcomp id).
Proof.
  intros c Hc. pose proof (keeps_remove_send id c Hc) as H1. unfold handle_pubcomp, mbind, M_bind.
  pose proof (restore_send c id) as Hr.
  change (remove_send id c) with (Ok (E := MqttError) (SessionState.pending_qos_send (ClientSession.state c) !! id), snd (remove_send id c)).
  destruct (SessionState.pending_qos_send (ClientSession.state c) !! id) as [e|]; [| done].
  rewrite <- (Hr e eq_refl) in Hc.
  destruct (QoSPacketState.next e); try exact Hc.
  by apply keeps_add_send.
Qed.

Lemma keeps_pubrel id : keeps_ok (handle_pubrel id).
Proof.
  intros c Hc. pose proof (keeps_remove_recv id c Hc) as H1. unfold handle_pubrel.
  unfold mbind at 1, M_bind at 1.
  pose proof (restore_recv c id) as Hr.
  change (remove_recv id c) with (Ok (E := MqttError) (SessionState.pending_qos_recv (ClientSession.state c) !! id), snd (remove_recv id c)).
  destruct (SessionState.pending_qos_recv (ClientSession.state c) !! id) as [e|] eqn:E; [| done].
  pose proof Hc as Hk. rewrite <- (Hr e eq_refl) in Hk.
  destruct (QoSPacketState.next e) eqn:En; try exact Hk. clear Hk.
  revert H1. generalize (snd (remove_recv id c)). intros c1 H1.
  match goal with |- state_ok (ClientSession.state (snd (?m c1))) =>
    enough (Hk : keeps_ok m) by by apply Hk end.
  pose proof (map_Forall_lookup_1 _ _ _ _ (sk_recv _ Hc) E) as He.
  pose proof (keeps_put_recv id e He). keeps.
Qed.

Lemma keeps_pubrec id : keeps_ok (handle_pubrec id).
Proof.
  intros c Hc. pose proof (keeps_remove_send id c Hc) as H1. unfold handle_pubrec, mbind, M_bind.
  pose proof (restore_send c id) as Hr.
  change (remove_send id c) with (Ok (E := MqttError) (SessionState.pending_qos_send (ClientSession.state c) !! id), snd (remove_send id c)).
  destruct (SessionState.pending_qos_send (ClientSession.state c) !! id) as [e|] eqn:E; [| done].
  pose proof Hc as Hk. rewrite <- (Hr e eq_refl) in Hk.
  destruct (QoSPacketState.next e) eqn:En; try exact Hk. clear Hk Hr.
  unfold release_send, qos_next. rewrite En. run_session.
  destruct (SessionState.auto_ack _); [| done]. cbn.
  set (e1 := QoSPacketState.mk (QoSPacketState.packet_id e) None QoSPacket.PubRel).
  set (e2 := QoSPacketState.mk (QoSPacketState.packet_id e) None QoSPacket.PubComp).
  pose proof (state_ok_replace_send _ id e e1 Hc E eq_refl) as Hk1.
  pose proof (state_ok_replace_send _ id e e2 Hc E eq_refl) as Hk2.
  rewrite <- (insert_delete_eq (SessionState.pending_qos_send (ClientSession.state c))) in Hk1.
  case_send; try exact Hk1. rewrite lookup_insert_eq. cbn.
  by rewrite insert_delete_eq, insert_insert_eq, insert_delete_eq.
Qed.

#[local] Hint Resolve keeps_recv_publish keeps_puback keeps_pubrec keeps_pubrel keeps_pubcomp : session.

Lemma keeps_handle_packet p : keeps_ok (handle_packet p).
Proof. destruct p; cbn [handle_packet]; keeps. Qed.

(** C24: every operation of the client session keeps its state well formed,
    whether it succeeds, fails or panics: a message in flight keeps the PUBLISH it
    waits for, under its own identifier and with the QoS its phase belongs to,
    until the first acknowledgement; a received message is never past PUBREL; at
    most 65535 messages are in flight, and the last identifier is one of 16
    bits. *)
Theorem session_state_typed (fuel rf : nat) (uuid uuid' : rstring) (elapsed : nat -> Z) (wait now : Z)
    (cred : option (rstring * rstring)) (clean : bool) (will : option WillMessage) (packet : Packet) :
  state_ok (SessionState_new uuid)
  /\ keeps_ok (connect fuel rf uuid uuid' elapsed wait cred clean will)
  /\ keeps_ok (read_next fuel uuid)
  /\ keeps_ok (write_next packet)
  /\ keeps_ok (handle_packet packet)
  /\ keeps_ok (handle_keep_alive now).
Proof.
  split_and!; [apply state_ok_new | apply keeps_connect | apply keeps_read | apply keeps_write_next | |
               apply keeps_keep_alive].
  apply keeps_handle_packet.
Qed.
End invariant.
