(* ===== verification/ClientRuns.v ===== *)
(** * Runs of the client *)
(** The invariant of every reachable system of application, handle and task, and
    what the application can rely on at the channels: order, back-pressure and
    what a second [start] does. *)

From S2P Require Import Prelude Bytes Runtime Codec Fixed Property Macro MacroFacts Subscriptions.
From S2P Require Import Acks Publish Connect Packet Stream ClientSession Connection Client.
From S2P Require Import ClientFacts ClientInvariant.

(** ** Channels *)

Section channel_facts.
Context {R : Runtime} {E : Type}.
Implicit Types s : Channels.

Definition known s (i : Z) : Prop := is_Some (Channels.store s !! i).

(** No channel is ever forgotten. *)
Definition extends s s' : Prop := forall i, known s i -> known s' i.

#[export] Instance extends_preorder : PreOrder extends.
Proof. split; [by intros s i | intros s1 s2 s3 H1 H2 i Hi; auto]. Qed.

Lemma extends_put s i (c : chan Packet) :
  extends s (s <| Channels.store := <[i := c]> (Channels.store s) |>).
Proof. intros j Hj. unfold known in *. simpl. rewrite lookup_insert_is_Some. destruct (decide (i = j)); auto. Qed.

(** The contents of a channel. *)
Definition queue_of s (i : Z) : list Packet :=
  match Channels.store s !! i with Some c => chan_queue c | None => [] end.

Lemma queue_of_put s i c j :
  queue_of (s <| Channels.store := <[i := c]> (Channels.store s) |>) j
  = if decide (j = i) then chan_queue c else queue_of s j.
Proof.
  unfold queue_of. simpl. destruct (decide (j = i)) as [->|].
  - by rewrite lookup_insert_eq.
  - by rewrite lookup_insert_ne.
Qed.

(** [try_send] appends to its channel or changes nothing. *)
Lemma channel_try_send (i : Z) p s :
  known s i ->
  match try_send (E := E) i p s with
  | (Ok SentOk, s') => extends s s' /\ forall j,
      queue_of s' j = queue_of s j ++ (if decide (j = i) then [p] else [])
  | (Ok (SentFull p'), s') => s' = s /\ p' = p
  | (Ok SentClosed, s') => s' = s
  | _ => False
  end.
Proof.
  intros [c Hc]. unfold try_send, channel_at, get, lift, mbind, M_bind. rewrite Hc. cbn.
  destruct (chan_closed c); [done |]. pose proof (chan_try_send_law p c) as H.
  destruct (0 <? chan_free c).
  - destruct H as (c' & -> & Hq & _). unfold put_channel, modify. cbn. split; [apply extends_put |].
    intros j. rewrite queue_of_put. destruct (decide (j = i)) as [->|]; [| by rewrite app_nil_r].
    unfold queue_of. by rewrite Hc, Hq.
  - by rewrite H.
Qed.

Lemma drop_receiver_extends (i : Z) s : extends s (snd (drop_receiver (E := E) i s)).
Proof.
  unfold drop_receiver, channel_at, get, lift, mbind, M_bind. cbn.
  destruct (Channels.store s !! i) as [c|]; [apply extends_put | done].
Qed.
End channel_facts.

(** ** The branches of the loop *)

Section loop_facts.
Context {B : Buf} {HI : HashIter} {T : Transport} {R : Runtime} {V : Build}.

(** The task before and after a part of its loop: what [start] gave it stays, no
    channel is lost, and the session state stays well formed. *)
Record evolves (st st' : Channels * Task) : Prop := {
  ev_channels : extends (fst st) (fst st');
  ev_in : Task.packet_in (snd st') = Task.packet_in (snd st);
  ev_out : Task.packet_out (snd st') = Task.packet_out (snd st);
  ev_filter : Task.filter_channel (snd st') = Task.filter_channel (snd st);
  ev_state : state_ok (ClientSession.state (Task.session (snd st))) ->
    state_ok (ClientSession.state (Task.session (snd st')));
}.

#[export] Instance evolves_preorder : PreOrder evolves.
Proof.
  split.
  - intros [s t]. by split.
  - intros x y z [] []. split; [by etrans | congruence.. | auto].
Qed.

Definition evolving {A} (m : M (Channels * Task) MqttError A) : Prop :=
  forall st, evolves st (snd (m st)).

Lemma evolving_bind {A A'} (m : M (Channels * Task) MqttError A) (f : A -> M (Channels * Task) MqttError A') :
  evolving m -> (forall a, evolving (f a)) -> evolving (m ≫= f).
Proof.
  intros Hm Hf st. specialize (Hm st). unfold mbind, M_bind.
  destruct (m st) as [[a|e| |] st1]; [| done..]. etrans; [exact Hm | apply Hf].
Qed.

Lemma evolving_ret {A} (a : A) : evolving (mret a).
Proof. by intros st. Qed.

Lemma evolving_raise {A} e : evolving (raise (A := A) e).
Proof. by intros st. Qed.

Lemma evolving_gets {A} (f : Channels * Task -> A) : evolving (gets f).
Proof. by intros st. Qed.

Lemma evolving_session {A} (m : M ClientSession MqttError A) : keeps_ok m -> evolving (in_session m).
Proof.
  intros Hm [s t]. unfold in_session. specialize (Hm (Task.session t)).
  destruct (m (Task.session t)) as [r c]. by split.
Qed.

Lemma evolving_chan {A} (m : M Channels MqttError A) :
  (forall s, extends s (snd (m s))) -> evolving (on_chan m).
Proof. intros Hm [s t]. unfold on_chan. specialize (Hm s). by destruct (m s). Qed.

Lemma evolving_pending p : evolving (set_pending p).
Proof. by intros [s t]. Qed.

Lemma try_send_extends {E} i p s : extends s (snd (try_send (E := E) i p s)).
Proof.
  unfold try_send, channel_at, get, lift, mbind, M_bind. cbn.
  destruct (Channels.store s !! i) as [c|]; cbn; [| done].
  destruct (chan_closed c); [done |]. destruct (chan_try_send p c); [apply extends_put | done].
Qed.

Lemma chan_send_extends {E} (e : E) i p s : extends s (snd (chan_send e i p s)).
Proof.
  unfold chan_send, mbind, M_bind. pose proof (try_send_extends (E := E) i p s) as H.
  by destruct (try_send i p s) as [[[]|e'| |] s'].
Qed.

#[local] Hint Resolve evolving_ret evolving_raise evolving_gets evolving_pending try_send_extends
  chan_send_extends : core.

Lemma evolving_timer now : evolving (on_keep_alive_timer now).
Proof. apply evolving_bind; [apply evolving_session, keeps_keep_alive | auto]. Qed.

Lemma evolving_forward_pending o : evolving (forward_pending o).
Proof.
  destruct o as [p|]; [| apply evolving_ret]. apply evolving_bind; [apply evolving_gets |]. intros i.
  apply evolving_bind; [by apply evolving_chan | auto].
Qed.

Lemma evolving_forward : evolving on_forward.
Proof.
  apply evolving_bind; [auto |]. intros o. apply evolving_bind; [apply evolving_forward_pending |].
  intros [u|]; [apply evolving_bind; auto | auto].
Qed.

Lemma evolving_deliver p : evolving (deliver p).
Proof.
  apply evolving_bind; [apply evolving_gets |]. intros i. apply evolving_bind; [by apply evolving_chan |].
  intros []; auto.
Qed.

Lemma evolving_result o : evolving (on_packet_result o).
Proof.
  destruct o as [p|]; [| apply evolving_raise].
  apply evolving_bind; [apply evolving_session, keeps_handle_packet |].
  intros [q|]; [| auto]. apply evolving_bind; [apply evolving_deliver | auto].
Qed.

Lemma evolving_read fuel uuid : evolving (on_read_next fuel uuid).
Proof. apply evolving_bind; [apply evolving_session, keeps_read | apply evolving_result]. Qed.

Lemma evolving_inbound o : evolving (on_inbound o).
Proof.
  destruct o as [p|]; [| apply evolving_raise].
  apply evolving_bind; [apply evolving_session, keeps_state_of |]. intros a.
  destruct (qos_control p && a); [auto |].
  apply evolving_bind; [apply evolving_session, keeps_write_next | auto].
Qed.

(** Only a packet that is ignored skips the check of the connection. *)
Lemma again_unchanged o s t s' t' :
  on_inbound o (s, t) = (Ok Again, (s', t')) -> (s', t') = (s, t).
Proof.
  destruct o as [p|]; [| done]. unfold on_inbound, in_session, state_of, gets, mbind, M_bind. cbn.
  replace (t <| Task.session := Task.session t |>) with t by by destruct t.
  destruct (qos_control p && _); [intros H; by injection H as <- <- |].
  by destruct (write_next p (Task.session t)) as [[[]|e| |] c].
Qed.

(** The other branches end at the check. *)
Definition checks (m : M (Channels * Task) MqttError Pass) : Prop :=
  forall st st', m st <> (Ok Again, st').

Lemma checks_bind {A} (m : M (Channels * Task) MqttError A) f :
  (forall a, checks (f a)) -> checks (m ≫= f).
Proof. intros Hf st st'. unfold mbind, M_bind. destruct (m st) as [[a|e| |] st1]; [apply Hf | done..]. Qed.

Lemma checks_timer now : checks (on_keep_alive_timer now).
Proof. by apply checks_bind. Qed.

Lemma checks_forward : checks on_forward.
Proof. do 2 (apply checks_bind; intros ?). case_match; [| done]. by apply checks_bind. Qed.

Lemma checks_read fuel uuid : checks (on_read_next fuel uuid).
Proof.
  apply checks_bind. intros [p|]; [| done]. apply checks_bind. intros [q|]; [| done]. by apply checks_bind.
Qed.

(** ** What waits for a consumer *)

(** The packet that is held back for the channel [i]. *)
Definition held (t : Task) (i : Z) : list Packet :=
  match Task.pending_forward t with
  | Some p => if decide (i = consumer t p) then [p] else []
  | None => []
  end.

(** The packets for the channel [i] that the application has not received. *)
Definition backlog (s : Channels) (t : Task) (i : Z) : list Packet := queue_of s i ++ held t i.

(** The channels a task sends to. *)
Definition consumers_known (s : Channels) (t : Task) : Prop := forall p, known s (consumer t p).

(** A packet that was held back is passed on; nothing else moves. *)
Lemma forward_backlog s t s' t' pass i :
  consumers_known s t -> on_forward (s, t) = (Ok pass, (s', t')) ->
  backlog s' t' i = backlog s t i.
Proof.
  intros Hk. unfold on_forward, forward_pending, consumer_of, gets, mbind, M_bind. cbn. unfold backlog, held.
  destruct (Task.pending_forward t) as [p|] eqn:Ep; [| intros H; injection H as _ <- <-; by rewrite Ep].
  unfold on_chan, chan_send, mbind, M_bind.
  pose proof (channel_try_send (E := MqttError) (consumer t p) p s (Hk p)) as H.
  destruct (try_send (consumer t p) p s) as [[[]|e| |] s1]; cbn; try done.
  intros Hr. injection Hr as _ <- <-. destruct H as [_ ->]. cbn. by rewrite app_nil_r.
Qed.

(** A packet for the application is put at the end of what its consumer waits
    for. *)
Lemma deliver_backlog s t s' t' p i :
  consumers_known s t -> Task.pending_forward t = None -> deliver p (s, t) = (Ok tt, (s', t')) ->
  backlog s' t' i = backlog s t i ++ (if decide (i = consumer t p) then [p] else []).
Proof.
  intros Hk Hp. unfold deliver, consumer_of, gets, mbind, M_bind, on_chan, backlog, held. rewrite Hp. cbn.
  pose proof (channel_try_send (E := MqttError) (consumer t p) p s (Hk p)) as H.
  destruct (try_send (consumer t p) p s) as [[[|p'|]|e| |] s1]; cbn; try done; intros Hr; injection Hr as <- <-.
  - destruct H as [_ ->]. by rewrite Hp, !app_nil_r.
  - destruct H as [-> ->]. cbn. by rewrite app_nil_r.
Qed.

(** The branches that send to the broker leave the consumers alone. *)
Lemma session_backlog {A} (m : M ClientSession MqttError A) s t r s' t' i :
  in_session m (s, t) = (r, (s', t')) ->
  backlog s' t' i = backlog s t i /\ Task.pending_forward t' = Task.pending_forward t /\ s' = s
  /\ Task.filter_channel t' = Task.filter_channel t /\ Task.packet_out t' = Task.packet_out t
  /\ (r, Task.session t') = m (Task.session t).
Proof.
  unfold in_session. destruct (m (Task.session t)) as [r' c] eqn:E. intros H. by injection H as <- <- <-.
Qed.

(** What a packet that the session shows adds to the backlog of [i]. *)
Definition shown_to (t : Task) (o : option Packet) (i : Z) : list Packet :=
  match o with
  | Some p => if decide (i = consumer t p) then [p] else []
  | None => []
  end.

(** What a read adds to the backlog: the packet the session shows, if any. *)
Lemma read_backlog fuel uuid s t s' t' pass i :
  consumers_known s t -> Task.pending_forward t = None ->
  on_read_next fuel uuid (s, t) = (Ok pass, (s', t')) ->
  exists packet c1 o c2,
    read_next fuel uuid (Task.session t) = (Ok (Some packet), c1)
    /\ handle_packet packet c1 = (Ok o, c2)
    /\ backlog s' t' i = backlog s t i ++ shown_to t o i.
Proof.
  intros Hk Hp H. unfold on_read_next in H. apply bind_ok_inv in H as (o & [s1 t1] & H1 & H).
  destruct (session_backlog _ _ _ _ _ _ i H1) as (B1 & P1 & -> & F1 & O1 & E1).
  destruct o as [packet|]; [| done]. cbn in H. apply bind_ok_inv in H as (o & [s2 t2] & H2 & H).
  destruct (session_backlog _ _ _ _ _ _ i H2) as (B2 & P2 & -> & F2 & O2 & E2).
  assert (Hc : forall p, consumer t2 p = consumer t p) by (intros p; unfold consumer; by rewrite F2, F1, O2, O1).
  exists packet, (Task.session t1), o, (Task.session t2). split_and!; [done | done |].
  rewrite <- B1, <- B2. unfold shown_to. destruct o as [p|].
  - apply bind_ok_inv in H as ([] & [s3 t3] & H3 & H). unfold mret, M_ret in H. simplify_eq.
    rewrite <- (Hc p). apply (deliver_backlog s t2 s' t' p i); [| congruence | done].
    intros q. rewrite Hc. apply Hk.
  - unfold mret, M_ret in H. simplify_eq. by rewrite app_nil_r.
Qed.
End loop_facts.

(** ** The handshake *)

Section handshake.
Context {B : Buf} {HI : HashIter} {T : Transport} {V : Build}.

(** A handshake that succeeds leaves the session connected. *)
Lemma handle_connack_connected a c b c' :
  handle_connack a c = (Ok b, c') -> ClientSession.connected c' = true.
Proof.
  unfold handle_connack. run_session. unfold set_session_connected, modify. cbn.
  case_bool_decide; cbn; [| done].
  destruct (bool_decide _); cbn; [| by destruct (ConnAck.assigned_client_id a)].
  destruct (ConnAck.server_keep_alive a), (ConnAck.session_expiry_interval a), (ConnAck.receive_maximum a);
    cbn; intros E; by simplify_eq.
Qed.

Lemma await_connack_connected fuel rf uuid elapsed wait : forall k c b c',
  await_connack fuel rf uuid elapsed k wait c = (Ok b, c') -> ClientSession.connected c' = true.
Proof.
  induction fuel as [|fuel IH]; intros k c b c'; cbn [await_connack]; destruct (elapsed k <? wait); try done.
  unfold mbind, M_bind. destruct (attempt (read_next rf uuid) c) as [[r|e| |] c1]; try done.
  destruct r as [e|[[]|]]; try done.
  - destruct (MqttError.kind e); try done. apply IH.
  - apply handle_connack_connected.
Qed.

Lemma connect_connected fuel rf uuid uuid' elapsed wait cred clean will c b c' :
  connect fuel rf uuid uuid' elapsed wait cred clean will c = (Ok b, c') ->
  ClientSession.connected c' = true.
Proof.
  unfold connect. intros E. apply bind_ok_inv in E as (u & c1 & _ & E). destruct (negb u); [done |].
  apply bind_ok_inv in E as (p & c2 & _ & E). apply bind_ok_inv in E as (? & c3 & _ & E).
  apply bind_ok_inv in E as (w & c4 & _ & E). destruct w; [done |]. by eapply await_connack_connected.
Qed.
End handshake.

(** ** The invariant of the system *)

Section system_facts.
Context {B : Buf} {HI : HashIter} {N : Network} {R : Runtime} {V : Build}.
Implicit Types sys : ClientSystem.

(** The ends of the channels a task was given. *)
Record task_ok (s : Channels) (c : MqttClient) (t : Task) : Prop := {
  tk_state : state_ok (ClientSession.state (Task.session t));
  tk_in : Task.packet_in t = MqttClient.packet_producer c;
  tk_out : known s (Task.packet_out t);
  tk_filter : map_Forall (fun _ => known s) (Task.filter_channel t);
}.

(** A client before it is started: it is not connected, its state is well formed
    and its channels exist. *)
Record idle_ok (s : Channels) (c : MqttClient) : Prop := {
  id_connected : MqttClient.connected c = false;
  id_state : forall st, MqttClient.session_state c = Some st -> state_ok st;
  id_receiver : forall rx, PacketChannel.receiver (MqttClient.packet_in c) = Some rx ->
    rx = MqttClient.packet_producer c;
  id_out : known s (PacketChannel.sender (MqttClient.packet_out c));
  id_filter : map_Forall (fun _ => known s) (MqttClient.filter_channel c);
}.

Definition run_ok (s : Channels) (c : MqttClient) (run : option Run) : Prop :=
  match run with
  | None => idle_ok s c
  | Some (Connecting _ t) => MqttClient.connected c = false /\ task_ok s c t
  | Some (Looping t) =>
      MqttClient.connected c = true /\ ClientSession.connected (Task.session t) = true /\ task_ok s c t
  | Some (Ended (Ok st)) => MqttClient.connected c = false /\ state_ok st
  | Some (Ended (Err e)) => MqttClient.connected c = false /\ state_ok (ClientError.state e)
  | Some (Ended _) => True
  end.

Record client_ok sys : Prop := {
  ck_in : known (ClientSystem.channels sys) (MqttClient.packet_producer (ClientSystem.client sys));
  ck_run : run_ok (ClientSystem.channels sys) (ClientSystem.client sys) (ClientSystem.run sys);
  ck_once : ClientSystem.run sys <> None -> MqttClient.connection (ClientSystem.client sys) = None;
}.

Lemma task_ok_extends s s' c t : extends s s' -> task_ok s c t -> task_ok s' c t.
Proof.
  intros Hs []. split; [done | done | auto |]. eapply map_Forall_impl; [done |]. auto.
Qed.

(** What a task is after a part of its loop. *)
Lemma task_ok_evolves s c t s' t' : evolves (s, t) (s', t') -> task_ok s c t -> task_ok s' c t'.
Proof.
  intros [H1 H2 H3 H4 H5] []. cbn in *. split; [auto | congruence | rewrite H3; auto | rewrite H4].
  eapply map_Forall_impl; [done |]. auto.
Qed.

Lemma run_ok_extends s s' c run : extends s s' -> run_ok s c run -> run_ok s' c run.
Proof.
  intros Hs. destruct run as [[h t|t|[st|e| |]]|]; cbn; try done.
  - intros [? ?]. split; [done |]. by eapply task_ok_extends.
  - intros (? & ? & ?). split_and!; [done | done |]. by eapply task_ok_extends.
  - intros []. split; [done | done | done | auto |]. eapply map_Forall_impl; [done |]. auto.
Qed.

(** A step that touches the channels only. *)
Lemma client_ok_channels sys s :
  client_ok sys -> extends (ClientSystem.channels sys) s ->
  client_ok (sys <| ClientSystem.channels := s |>).
Proof. intros [H1 H2 H3] Hs. split; [by apply Hs | by eapply run_ok_extends | done]. Qed.

Lemma final_state_eq (t : Task) uuid : final_state t uuid = ClientSession.state (Task.session t).
Proof. reflexivity. Qed.

(** The task ends with [r] after a part of its run. *)
Lemma end_task_ok sys s t r :
  client_ok sys -> ClientSystem.run sys <> None -> extends (ClientSystem.channels sys) s ->
  run_ok s (ClientSystem.client sys) (Some (Ended r)) -> client_ok (end_task t s r sys).
Proof.
  intros [H1 H2 H3] Hr Hs Hk. pose proof (drop_receiver_extends (E := MqttError) (Task.packet_in t) s) as Hd.
  split; cbn; [by apply Hd, Hs | | auto]. exact Hk.
Qed.

(** The task ends and the client is told. *)
Lemma end_disconnected_ok sys s t r :
  client_ok sys -> ClientSystem.run sys <> None -> extends (ClientSystem.channels sys) s ->
  match r with Ok st => state_ok st | Err e => state_ok (ClientError.state e) | _ => True end ->
  client_ok (end_task t s r (with_connected false sys)).
Proof.
  intros [H1 H2 H3] Hr Hs Hk. pose proof (drop_receiver_extends (E := MqttError) (Task.packet_in t) s) as Hd.
  split; cbn; [by apply Hd, Hs | | auto]. by destruct r.
Qed.

Lemma settle_pass_ok uuid res s t sys sys' :
  client_ok sys -> ClientSystem.run sys = Some (Looping t) -> extends (ClientSystem.channels sys) s ->
  evolves (s, t) (snd res) -> (forall st', res = (Ok Again, st') -> snd st' = t) ->
  settle_pass uuid res sys = Some sys' -> client_ok sys'.
Proof.
  intros Hok Hrun Hs Hev Hag Hset. pose proof Hok as [H1 H2 H3]. rewrite Hrun in H2.
  destruct H2 as (Hc & Hsc & Ht). assert (Hne : ClientSystem.run sys <> None) by (by rewrite Hrun).
  destruct res as [r [s' t']]. cbn in Hev. pose proof Hev as [He _ _ _ _]. cbn in He.
  assert (Hs' : extends (ClientSystem.channels sys) s') by (by etrans).
  pose proof (task_ok_evolves _ _ _ _ _ Hev (task_ok_extends _ _ _ _ Hs Ht)) as Ht'.
  assert (Hkeep : ClientSession.connected (Task.session t') = true -> client_ok (keep_running t' s' sys)).
  { intros Hct. split; cbn; [by apply Hs' | | auto]. split_and!; [done | done |]. by destruct Ht'. }
  unfold settle_pass in Hset. destruct r as [[|]|e| |]; simplify_eq.
  - apply Hkeep. specialize (Hag _ eq_refl). cbn in Hag. by rewrite Hag.
  - destruct (ClientSession.connected (Task.session t')) eqn:E; simplify_eq; [by apply Hkeep |].
    apply end_disconnected_ok; [done.. |]. apply Ht'.
  - apply end_disconnected_ok; [done.. |]. apply Ht'.
  - by apply end_task_ok.
Qed.

Lemma settle_connect_ok uuid h t m sys sys' :
  client_ok sys -> ClientSystem.run sys = Some (Connecting h t) -> keeps_ok m ->
  (forall a c', m (Task.session t) = (Ok a, c') -> ClientSession.connected c' = true) ->
  settle_connect uuid t (m (Task.session t)) sys = Some sys' -> client_ok sys'.
Proof.
  intros Hok Hrun Hm Hc Hset. pose proof Hok as [H1 H2 H3]. rewrite Hrun in H2.
  destruct H2 as [Hcl Ht]. assert (Hne : ClientSystem.run sys <> None) by (by rewrite Hrun).
  pose proof (Hm _ (tk_state _ _ _ Ht)) as Hst. unfold settle_connect in Hset.
  destruct (m (Task.session t)) as [[a|e| |] c]; simplify_eq.
  - split; cbn; [done | | auto]. split_and!; [done | by apply (Hc a) |]. destruct Ht. by split.
  - by apply end_disconnected_ok.
  - by apply end_task_ok.
Qed.

(** What [start] does to the client and the channels. *)
Lemma client_start_run s c now clean :
  let '(r, (s', c')) := MqttClient.start now clean (s, c) in
  (MqttClient.connection c = None -> r = Err (MqttError.new ErrorKind.Connection) /\ (s', c') = (s, c))
  /\ extends s s'
  /\ MqttClient.connected c' = MqttClient.connected c
  /\ MqttClient.packet_producer c' = MqttClient.packet_producer c
  /\ PacketChannel.sender (MqttClient.packet_out c') = PacketChannel.sender (MqttClient.packet_out c)
  /\ MqttClient.filter_channel c' = MqttClient.filter_channel c
  /\ (MqttClient.session_state c' = MqttClient.session_state c \/ MqttClient.session_state c' = None)
  /\ (MqttClient.connection c <> None -> PacketChannel.receiver (MqttClient.packet_in c') = None)
  /\ (forall h t, r = Ok (h, t) ->
       MqttClient.connection c' = None
       /\ exists rx st tr, PacketChannel.receiver (MqttClient.packet_in c) = Some rx
         /\ MqttClient.session_state c = Some st
         /\ t = Task.mk (new_from_state st tr now) (MqttClient.filter_channel c)
                  (PacketChannel.sender (MqttClient.packet_out c)) rx None 0 false now).
Proof.
  unfold MqttClient.start. rewrite (bind_ok (MqttClient.in_client (E := MqttError) Datatypes.id) _ (s, c) c (s, c) eq_refl).
  destruct (MqttClient.connection c) as [conn|] eqn:Hconn; [| by cbn; split_and!; auto].
  unfold MqttClient.on_client, modify, lift, mbind, M_bind. cbn.
  destruct (PacketChannel.receiver (MqttClient.packet_in c)) as [rx|] eqn:Hrx; cbn; [| by split_and!; auto].
  unfold MqttClient.open_connection. cbn.
  pose proof (drop_receiver_extends (E := MqttError) rx s) as Hd.
  destruct (MqttConnection.connect conn) as [[[]|e| |] conn']; cbn; [| by split_and!; auto..].
  unfold MqttClient.new_from_client, MqttClient.in_client, MqttClient.on_client, modify, gets, lift, mbind, M_bind.
  cbn. destruct (MqttClient.session_state c) as [st|] eqn:Hst; cbn; [| by split_and!; auto].
  destruct (MqttConnection.stream conn') as [tr|]; cbn; [| by split_and!; auto].
  split_and!; auto; try done. intros h t Ht. simplify_eq. split; [done |]. by exists rx, st, tr.
Qed.

Lemma client_start_ok clean sys sys' :
  client_ok sys ->
  settle_app (MqttClient.start (ClientSystem.clock sys) clean
                (ClientSystem.channels sys, ClientSystem.client sys))
    (fun '(h, t) => Some (Connecting h t)) sys = Some sys' -> client_ok sys'.
Proof.
  intros Hok Hset. pose proof (client_start_run (ClientSystem.channels sys) (ClientSystem.client sys)
    (ClientSystem.clock sys) clean) as H.
  destruct (MqttClient.start _ _ _) as [r [s' c']].
  destruct H as (Hno & Hs & Hcn & Hin & Hout & Hf & Hst & Hrx & Hgo).
  destruct Hok as [H1 H2 H3].
  destruct (MqttClient.connection (ClientSystem.client sys)) as [conn|] eqn:Hc; cycle 1.
  { destruct (Hno eq_refl) as [-> Heq]. simplify_eq. cbn in Hset. simplify_eq. by split. }
  assert (Hidle : ClientSystem.run sys = None).
  { destruct (ClientSystem.run sys); [| done]. by discriminate H3. }
  rewrite Hidle in H2. destruct H2 as [I1 I2 I3 I4 I5].
  assert (Hidle' : idle_ok s' c').
  { split; [congruence | | | rewrite Hout; by apply Hs |].
    - intros st Es. apply I2. destruct Hst; congruence.
    - intros rx Er. rewrite Hrx in Er by done. done.
    - rewrite Hf. eapply map_Forall_impl; [done |]. auto. }
  assert (Hfail : client_ok (sys <| ClientSystem.channels := s' |> <| ClientSystem.client := c' |>)).
  { split; cbn; [rewrite Hin; by apply Hs | by rewrite Hidle | by rewrite Hidle]. }
  unfold settle_app in Hset. destruct r as [[h t]|e| |]; simplify_eq; [| done..].
  destruct (Hgo h t eq_refl) as (Hnc & rx & st & tr & Er & Es & ->).
  split; cbn; [rewrite Hin; by apply Hs | | done]. split; [congruence |].
  split; cbn; [by apply I2 | rewrite Hin; by apply I3 | by apply Hs |].
  eapply map_Forall_impl; [done |]. auto.
Qed.

Lemma client_step_ok sys sys' : client_step sys sys' -> client_ok sys -> client_ok sys'.
Proof.
  intros Hstep Hok. destruct Hstep as [clean sys' H | h t fuel rf u1 u2 u3 el sys' Hr H
    | t uuid sys' Hr _ _ H | t uuid sys' Hr _ H | t fuel uuid uuid' sys' Hr _ H
    | t fuel uuid c Hr Hp H | t ch p ch' uuid sys' Hr Hch Hrecv H | t ch uuid sys' Hr _ Hch _ H
    | p r sys' _ -> H | i ch p ch' Hi Hch Hrecv | i ch Hi Hch | | d Hd].
  - by eapply client_start_ok.
  - eapply settle_connect_ok; [done | done | apply keeps_connect | | exact H].
    intros a c'. apply connect_connected.
  - eapply settle_pass_ok; [done | done | reflexivity | apply evolving_timer | | done].
    intros st' E. by apply checks_timer in E.
  - eapply settle_pass_ok; [done | done | reflexivity | apply evolving_forward | | done].
    intros st' E. by apply checks_forward in E.
  - eapply settle_pass_ok; [done | done | reflexivity | apply evolving_read | | done].
    intros st' E. by apply checks_read in E.
  - destruct Hok as [H1 H2 H3]. rewrite Hr in H2. destruct H2 as (Hc & Hsc & Ht).
    pose proof (keeps_read fuel uuid _ (tk_state _ _ _ Ht)) as Hk. rewrite H in Hk.
    split; cbn; [done | | intros _; apply H3; by rewrite Hr].
    split_and!; [done | | destruct Ht; by split].
    unfold read_next, on_packet_stream in H. destruct (read fuel uuid _) as [r' s']. by simplify_eq/=.
  - eapply (settle_pass_ok uuid _ _ t); [done | done | apply extends_put | apply evolving_inbound | | done].
    intros [s1 t1] E. apply again_unchanged in E. by simplify_eq.
  - eapply settle_pass_ok; [done | done | reflexivity | apply evolving_inbound | | done].
    intros [s1 t1] E. apply again_unchanged in E. by simplify_eq.
  - pose proof (chan_send_extends tt (MqttClient.packet_producer (ClientSystem.client sys)) p
      (ClientSystem.channels sys)) as He.
    unfold MqttClient.on_channels in H. destruct (chan_send _ _ _ _) as [[u|e| |] s']; cbn in H; simplify_eq;
      by apply (client_ok_channels sys s').
  - apply client_ok_channels; [done | apply extends_put].
  - apply client_ok_channels; [done | apply extends_put].
  - by destruct Hok.
  - by destruct Hok.
Qed.

(** What a builder must be given: a well-formed state, as [SessionState::new]
    makes it and every session hands back, and senders of existing channels. *)
Record builder_ok (s : Channels) (b : ClientBuilder) : Prop := {
  bo_state : state_ok (ClientBuilder.state b);
  bo_filter : forall m, ClientBuilder.filtered_consumer b = Some m -> map_Forall (fun _ => known s) m;
}.

Lemma mpsc_channel_run {E} n s i s' :
  mpsc_channel (E := E) n s = (Ok i, s') -> known s' i /\ extends s s'.
Proof.
  unfold mpsc_channel. destruct (n =? 0); [done |]. intros H. run_session. simplify_eq.
  split; [| apply (extends_put s (Channels.next s) (chan_new n))].
  unfold known. cbn. by rewrite lookup_insert_eq.
Qed.

(** A client that can be started. *)
Definition ready s c : Prop := idle_ok s c /\ known s (MqttClient.packet_producer c).

Lemma ready_wait s c d : ready s c -> ready s (MqttClient.set_max_connect_wait d c).
Proof. intros [[] ?]. split; [by split | done]. Qed.

Lemma ready_error s c e : ready s c -> ready s (MqttClient.set_error_out e c).
Proof. intros [[] ?]. split; [by split | done]. Qed.

Lemma ready_will s c w : ready s c -> ready s (MqttClient.set_will_message w c).
Proof. intros [[] ?]. split; [by split | done]. Qed.

Lemma ready_handlers s (l : list (PacketType * Z)) c :
  Forall (fun x => known s (snd x)) l -> ready s c ->
  ready s (foldl (fun c '(pt, i) => MqttClient.add_filtered_packet_handler pt i c) c l).
Proof.
  intros Hl. revert c. induction Hl as [|[pt i] l Hi _ IH]; intros c Hc; [done |].
  cbn. apply IH. destruct Hc as [[] ?]. split; [split |]; try done. cbn. by apply map_Forall_insert_2.
Qed.

Lemma new_with_connection_run {E} conn st size s c s' :
  state_ok st -> MqttClient.new_with_connection (E := E) conn st size s = (Ok c, s') ->
  ready s' c /\ extends s s'.
Proof.
  intros Hst H. unfold MqttClient.new_with_connection, MqttClient.new in H.
  apply bind_ok_inv in H as (c1 & s1 & H & E1). apply bind_ok_inv in H as (i & s2 & Hi & H).
  apply bind_ok_inv in H as (o & s3 & Ho & H). unfold PacketChannel.new_with_size in Hi, Ho.
  apply bind_ok_inv in Hi as (ci & s4 & Hi & E4). apply bind_ok_inv in Ho as (co & s5 & Ho & E5).
  apply mpsc_channel_run in Hi as [Ki Ei], Ho as [Ko Eo]. unfold mret, M_ret in *. simplify_eq.
  split; [| by etrans]. split; [split; cbn |]; try done; try (intros ? ?; by simplify_eq). by apply Eo.
Qed.

Lemma build_run s b c s' :
  builder_ok s b -> ClientBuilder.build b s = (Ok c, s') -> ready s' c.
Proof.
  intros [Hst Hf] H. unfold ClientBuilder.build in H.
  destruct (SessionState.keep_alive (ClientBuilder.state b) <? ClientBuilder.MIN_KEEP_ALIVE); [done |].
  apply bind_ok_inv in H as (c0 & s0 & H0 & H). cbv zeta in H.
  apply new_with_connection_run in H0 as [H0 Hext]; [| done].
  unfold mret, M_ret in H. simplify_eq. apply (ready_wait _ _ (ClientBuilder.max_connect_wait b)) in H0.
  assert (H1 : ready s' (match ClientBuilder.error_out b with
    | Some e => MqttClient.set_error_out e (MqttClient.set_max_connect_wait (ClientBuilder.max_connect_wait b) c0)
    | None => MqttClient.set_max_connect_wait (ClientBuilder.max_connect_wait b) c0 end)).
  { destruct (ClientBuilder.error_out b); [by apply ready_error | done]. }
  apply (ready_will _ _ (ClientBuilder.will_message b)) in H1.
  destruct (ClientBuilder.filtered_consumer b) as [m|]; [| done].
  apply ready_handlers; [| done]. apply Forall_forall. intros [pt i] Hin.
  apply list_elem_of_In, elem_of_map_to_list in Hin. apply Hext. exact (Hf m eq_refl pt i Hin).
Qed.

(** C21: in every state the application, the client and its task can reach, in any
    order of their steps: the flag [connected] is set exactly while the loop runs,
    unless the task has panicked; the state of the session is well formed, and so
    is the one the task hands back when it ends, for the next client to continue;
    every channel the task uses exists, and a client that was started cannot be
    started again. *)
Theorem client_invariant (s : Channels) (b : ClientBuilder) (now : Z) sys :
  builder_ok s b -> client_reachable s b now sys -> client_ok sys.
Proof.
  intros Hb (s' & c & Hbuild & Hrun). destruct (build_run _ _ _ _ Hb Hbuild) as [Hi Hk].
  assert (H : client_ok (launched s' c now)) by (by split).
  clear Hbuild Hi Hk. induction Hrun as [|sys1 sys2 sys3 H1 _ IH]; [done |].
  by apply IH, (client_step_ok sys1).
Qed.

(** A PUBLISH above QoS 0 from the application for which the session has no room
    is not queued: the task ends with a protocol error, and the message is
    neither sent nor part of the state that is handed back. *)
Theorem refused_publish_ends_task (p : Publish) (q : QoSLevel) (t : Task) (s : Channels) uuid sys :
  publish_qos p = Ok q -> q <> QoSLevel.AtMostOnce -> send_full (Task.session t) = true ->
  settle_pass uuid (on_inbound (Some (Packet.Publish p)) (s, t)) sys
  = Some (end_task t s (Err (ClientError.new protocol_error (ClientSession.state (Task.session t))))
            (with_connected false sys)).
Proof.
  intros Hq Hne Hfull. assert (E : on_inbound (Some (Packet.Publish p)) (s, t) = (Err protocol_error, (s, t))).
  { unfold on_inbound, in_session, state_of, gets, mbind, M_bind. cbn.
    rewrite (write_publish_run p q _ Hq Hne), Hfull. by destruct t. }
  by rewrite E.
Qed.

(** A client runs at most once.  After a call of [start] on a client with a
    connection, whether it spawned the task or failed to open the connection,
    every later call fails. *)
Theorem client_starts_once (s : Channels) (c : MqttClient) (now : Z) (clean : bool) :
  MqttClient.connection c <> None ->
  let c' := snd (snd (MqttClient.start now clean (s, c))) in
  forall s2 now2 clean2, exists e, fst (MqttClient.start now2 clean2 (s2, c')) = Err e.
Proof.
  intros Hc c' s2 now2 clean2. pose proof (client_start_run s c now clean) as H. unfold c'.
  destruct (MqttClient.start now clean (s, c)) as [r [s' c1]]. cbn.
  destruct H as (_ & _ & _ & _ & _ & _ & _ & Hrx & _). specialize (Hrx Hc).
  unfold MqttClient.start. rewrite (bind_ok (MqttClient.in_client (E := MqttError) Datatypes.id) _ (s2, c1) c1 (s2, c1) eq_refl).
  destruct (MqttClient.connection c1); [| by eexists].
  unfold PacketChannel.take_receiver. rewrite Hrx. by eexists.
Qed.

(** ** Order at the consumers *)

Lemma task_consumers s c t : task_ok s c t -> consumers_known s t.
Proof.
  intros [_ _ Ho Hf] p. unfold consumer. destruct (Task.filter_channel t !! PacketType_of p) as [i|] eqn:E;
    [exact (Hf _ _ E) | exact Ho].
Qed.

(** A task that goes on after a branch. *)
Lemma settle_pass_looping uuid res sys sys' t' :
  settle_pass uuid res sys = Some sys' -> ClientSystem.run sys' = Some (Looping t') ->
  exists pass s1 t1, res = (Ok pass, (s1, t1)) /\ ClientSystem.channels sys' = s1
    /\ t' = t1 <| Task.iteration := ClientSystem.clock sys |>.
Proof.
  destruct res as [[[]|e| |] [s1 t1]]; cbn; intros H Hr; simplify_eq; cbn in Hr; simplify_eq;
    [by exists Again, s1, t1 |].
  destruct (ClientSession.connected _); simplify_eq; cbn in Hr; simplify_eq.
  by exists CheckConnected, s1, t1.
Qed.

(** The branches that only use the session. *)
Lemma settle_session_backlog {A} (m : M ClientSession MqttError A) f uuid s t sys sys' t' i :
  (forall a, f a = mret CheckConnected \/ f a = mret Again) ->
  settle_pass uuid ((in_session m ≫= f) (s, t)) sys = Some sys' ->
  ClientSystem.run sys' = Some (Looping t') ->
  backlog (ClientSystem.channels sys') t' i = backlog s t i.
Proof.
  intros Hf Hs Hr. destruct (settle_pass_looping _ _ _ _ _ Hs Hr) as (pass & s1 & t1 & E & -> & ->).
  apply bind_ok_inv in E as (a & [s2 t2] & E2 & E). apply (session_backlog _ _ _ _ _ _ i) in E2 as [<- _].
  destruct (Hf a) as [Hfa|Hfa]; rewrite Hfa in E; unfold mret, M_ret in E; by simplify_eq.
Qed.

Lemma inbound_backlog o uuid s t sys sys' t' i :
  settle_pass uuid (on_inbound o (s, t)) sys = Some sys' ->
  ClientSystem.run sys' = Some (Looping t') ->
  backlog (ClientSystem.channels sys') t' i = backlog s t i.
Proof.
  intros Hs Hr. destruct (settle_pass_looping _ _ _ _ _ Hs Hr) as (pass & s1 & t1 & E & -> & ->).
  destruct o as [p|]; [| done]. apply bind_ok_inv in E as (a & [s2 t2] & E2 & E).
  apply (session_backlog _ _ _ _ _ _ i) in E2 as [<- _].
  destruct (qos_control p && a); [unfold mret, M_ret in E; by simplify_eq |].
  apply bind_ok_inv in E as (u & [s3 t3] & E3 & E). apply (session_backlog _ _ _ _ _ _ i) in E3 as [<- _].
  unfold mret, M_ret in E. by simplify_eq.
Qed.

(** A producer appends to its own channel only. *)
Lemma produce_backlog p sys sys' t i :
  known (ClientSystem.channels sys) (MqttClient.packet_producer (ClientSystem.client sys)) ->
  i <> MqttClient.packet_producer (ClientSystem.client sys) ->
  settle_app (MqttClient.on_channels (chan_send tt (MqttClient.packet_producer (ClientSystem.client sys)) p)
    (ClientSystem.channels sys, ClientSystem.client sys)) (fun _ => None) sys = Some sys' ->
  ClientSystem.run sys' = ClientSystem.run sys
  /\ backlog (ClientSystem.channels sys') t i = backlog (ClientSystem.channels sys) t i.
Proof.
  intros Hin Hi H. unfold MqttClient.on_channels, chan_send, mbind, M_bind in H.
  pose proof (channel_try_send (E := ()) _ p (ClientSystem.channels sys) Hin) as Hs.
  destruct (try_send _ p _) as [[[]|e| |] s1]; cbn in H; simplify_eq; (split; [done |]); try done.
  unfold backlog. f_equal. destruct Hs as [_ Hq]. cbn. rewrite Hq, decide_False by done. by rewrite app_nil_r.
Qed.

(** A consumer that takes a packet takes the first. *)
Lemma consume_backlog s t i j ch p ch' :
  Channels.store s !! j = Some ch -> chan_recv ch = Some (p, ch') ->
  let s' := s <| Channels.store := <[j := ch']> (Channels.store s) |> in
  backlog s t i = (if decide (i = j) then [p] else []) ++ backlog s' t i.
Proof.
  intros Hch Hrecv s'. unfold backlog, s'. rewrite queue_of_put.
  destruct (decide (i = j)) as [->|]; [| done]. unfold queue_of. rewrite Hch.
  pose proof (chan_recv_law ch) as Hlaw. destruct (chan_queue ch) as [|q l]; [congruence |].
  destruct Hlaw as (c' & E & <- & _). by simplify_eq.
Qed.

(** The system after the application has taken a packet from the channel [j]. *)
Definition consumed (j : Z) (ch' : chan Packet) sys : ClientSystem :=
  sys <| ClientSystem.channels := (ClientSystem.channels sys)
    <| Channels.store := <[j := ch']> (Channels.store (ClientSystem.channels sys)) |> |>.

(** The reading branch of the loop runs. *)
Definition reads sys (t : Task) sys' : Prop :=
  Task.pending_forward t = None
  /\ exists fuel uuid uuid',
       settle_pass uuid' (on_read_next fuel uuid (ClientSystem.channels sys, t)) sys = Some sys'.

(** Every step that is neither a read nor a packet taken by the application
    leaves what waits for it alone. *)
Lemma other_steps_keep_backlog sys sys' (t t' : Task) (i : Z) :
  client_ok sys -> client_step sys sys' ->
  ClientSystem.run sys = Some (Looping t) -> ClientSystem.run sys' = Some (Looping t') ->
  i <> MqttClient.packet_producer (ClientSystem.client sys) ->
  reads sys t sys'
  \/ (exists j ch p ch', Channels.store (ClientSystem.channels sys) !! j = Some ch
        /\ chan_recv ch = Some (p, ch') /\ sys' = consumed j ch' sys)
  \/ backlog (ClientSystem.channels sys') t' i = backlog (ClientSystem.channels sys) t i.
Proof.
  intros Hok Hstep Hl Hl' Hi. pose proof Hok as [Hin Hrun Honce]. rewrite Hl in Hrun.
  destruct Hrun as (_ & _ & Ht). pose proof (task_consumers _ _ _ Ht) as Hk.
  assert (Hsame : ClientSystem.run sys = ClientSystem.run sys' -> t' = t) by congruence.
  destruct Hstep as [clean sys' H | h t1 fuel rf u1 u2 u3 el sys' Hr H
    | t1 uuid sys' Hr _ _ H | t1 uuid sys' Hr _ H | t1 fuel uuid uuid' sys' Hr Hp H
    | t1 fuel uuid c Hr Hp H | t1 ch p ch' uuid sys' Hr Hch Hrecv H | t1 ch uuid sys' Hr _ Hch _ H
    | p r sys' _ -> H | j ch p ch' Hj Hch Hrecv | j ch Hj Hch | | d Hd];
    try (rewrite Hl in Hr; injection Hr as <-).
  - right. right. pose proof (client_start_run (ClientSystem.channels sys) (ClientSystem.client sys)
      (ClientSystem.clock sys) clean) as Hs.
    destruct (MqttClient.start _ _ _) as [r [s1 c1]]. destruct Hs as [Hs _].
    destruct Hs as [-> Heq]; [apply Honce; by rewrite Hl |]. simplify_eq. cbn in H. simplify_eq.
    by rewrite Hsame.
  - congruence.
  - right. right. eapply settle_session_backlog; [| exact H | done]. by left.
  - right. right. destruct (settle_pass_looping _ _ _ _ _ H Hl') as (pass & s1 & t2 & E & -> & ->).
    exact (forward_backlog _ _ s1 t2 pass i Hk E).
  - left. split; [done | by exists fuel, uuid, uuid'].
  - right. right. cbn in Hl'. by simplify_eq.
  - right. right. rewrite (inbound_backlog _ _ _ _ _ _ _ i H Hl'). unfold backlog. f_equal.
    rewrite queue_of_put. rewrite decide_False; [done |]. by rewrite (tk_in _ _ _ Ht).
  - right. right. by rewrite (inbound_backlog _ _ _ _ _ _ _ i H Hl').
  - right. right. destruct (produce_backlog p sys sys' t i Hin Hi H) as [Hr <-]. by rewrite Hsame.
  - right. left. by exists j, ch, p, ch'.
  - right. right. cbn in Hl'. rewrite Hl in Hl'. simplify_eq. cbn. unfold backlog. rewrite queue_of_put.
    destruct (decide (i = j)) as [->|]; [| done]. unfold queue_of. rewrite Hch.
    by destruct (chan_close_law ch) as (_ & _ & ->).
  - right. right. by rewrite Hsame.
  - right. right. by rewrite Hsame.
Qed.

(** C22: back-pressure neither loses nor reorders packets.  While the loop runs,
    the packets that wait for the application at a consumer, those in its channel
    followed by the one held back, change in two ways only.  When the loop reads,
    which it does only while no packet is held back, exactly the packet that the
    session shows for this consumer is put last, also when its channel is full.
    When the application takes a packet, it takes the first of its channel.
    Every other step - the timer, the hand-over of the packet held back, packets
    of the application, the clock - leaves them exactly as they are.  The channel
    must not be the one the application sends to. *)
Theorem consumer_fifo sys (t : Task) (i : Z) :
  client_ok sys -> ClientSystem.run sys = Some (Looping t) ->
  i <> MqttClient.packet_producer (ClientSystem.client sys) ->
  let before := backlog (ClientSystem.channels sys) t i in
  (forall fuel uuid uuid' sys' t',
     Task.pending_forward t = None ->
     settle_pass uuid' (on_read_next fuel uuid (ClientSystem.channels sys, t)) sys = Some sys' ->
     ClientSystem.run sys' = Some (Looping t') ->
     exists packet c1 o c2, read_next fuel uuid (Task.session t) = (Ok (Some packet), c1)
       /\ handle_packet packet c1 = (Ok o, c2)
       /\ backlog (ClientSystem.channels sys') t' i = before ++ shown_to t o i)
  /\ (forall j ch p ch',
       Channels.store (ClientSystem.channels sys) !! j = Some ch -> chan_recv ch = Some (p, ch') ->
       before = (if decide (i = j) then [p] else [])
                  ++ backlog (ClientSystem.channels (consumed j ch' sys)) t i)
  /\ forall sys' t',
       client_step sys sys' -> ClientSystem.run sys' = Some (Looping t') ->
       reads sys t sys'
       \/ (exists j ch p ch', Channels.store (ClientSystem.channels sys) !! j = Some ch
             /\ chan_recv ch = Some (p, ch') /\ sys' = consumed j ch' sys)
       \/ backlog (ClientSystem.channels sys') t' i = before.
Proof.
  intros Hok Hl Hi before. pose proof Hok as [_ Hrun _]. rewrite Hl in Hrun. destruct Hrun as (_ & _ & Ht).
  split_and!.
  - intros fuel uuid uuid' sys' t' Hp H Hl'.
    destruct (settle_pass_looping _ _ _ _ _ H Hl') as (pass & s1 & t2 & E & -> & ->).
    exact (read_backlog _ _ _ _ _ _ _ i (task_consumers _ _ _ Ht) Hp E).
  - intros j ch p ch' Hch Hrecv. by apply consume_backlog with ch.
  - intros sys' t' Hstep Hl'. by eapply other_steps_keep_backlog.
Qed.

(** ** A packet that is held back *)

(** The loop holds back [p] for the channel [i], which has room. *)
Definition holding sys (p : Packet) (i : Z) : Prop :=
  exists t ch, ClientSystem.run sys = Some (Looping t) /\ Task.pending_forward t = Some p
    /\ consumer t p = i /\ Channels.store (ClientSystem.channels sys) !! i = Some ch
    /\ chan_closed ch = false /\ 0 < chan_free ch.

(** It is put last in its channel, nothing is held back, and the loop goes on. *)
Definition handed_over sys sys' (p : Packet) (i : Z) : Prop :=
  holding sys p i
  /\ queue_of (ClientSystem.channels sys') i = queue_of (ClientSystem.channels sys) i ++ [p]
  /\ exists t', ClientSystem.run sys' = Some (Looping t') /\ Task.pending_forward t' = None.

(** The loop is over, or the application has dropped the receiver. *)
Definition given_up sys (i : Z) : Prop :=
  (forall t, ClientSystem.run sys <> Some (Looping t))
  \/ exists ch, Channels.store (ClientSystem.channels sys) !! i = Some ch /\ chan_closed ch = true.

(** The branch of [select!] for the packet held back. *)
Definition forwards sys sys' : Prop :=
  exists t uuid, ClientSystem.run sys = Some (Looping t) /\ Task.pending_forward t <> None
    /\ settle_pass uuid (on_forward (ClientSystem.channels sys, t)) sys = Some sys'.

Lemma forward_hands_over sys sys' p i :
  client_ok sys -> holding sys p i -> forwards sys sys' -> handed_over sys sys' p i.
Proof.
  intros [_ Hrun _] Hh (t0 & uuid & Hl0 & _ & H). split; [done |].
  destruct Hh as (t & ch & Hl & Hp & <- & Hch & Hop & Hfree).
  rewrite Hl in Hl0, Hrun. injection Hl0 as <-. destruct Hrun as (_ & Hsc & _).
  pose proof (chan_try_send_law p ch) as Hlaw. rewrite (proj2 (Z.ltb_lt _ _) Hfree) in Hlaw.
  destruct Hlaw as (ch' & Hsend & Hq & _).
  assert (E : on_forward (ClientSystem.channels sys, t)
    = (Ok CheckConnected, ((ClientSystem.channels sys) <| Channels.store :=
         <[consumer t p := ch']> (Channels.store (ClientSystem.channels sys)) |>,
        t <| Task.pending_forward := None |>))).
  { unfold on_forward, forward_pending, consumer_of, gets, on_chan, chan_send, try_send, channel_at, get, lift, mbind, M_bind.
    cbn. rewrite Hp. cbn. rewrite Hch. cbn. by rewrite Hop, Hsend. }
  rewrite E in H. cbn in H. rewrite Hsc in H. injection H as <-. split.
  - cbn. rewrite queue_of_put, decide_True by done. unfold queue_of. by rewrite Hch.
  - by eexists.
Qed.

(** Branches that touch neither the channels nor the packet held back. *)
Definition leaves_held {A} (m : M (Channels * Task) MqttError A) : Prop :=
  forall s t, let '(s', t') := snd (m (s, t)) in
  s' = s /\ Task.pending_forward t' = Task.pending_forward t /\ forall p, consumer t' p = consumer t p.

Lemma leaves_held_bind {A C} (m : M (Channels * Task) MqttError A) (f : A -> M (Channels * Task) MqttError C) :
  leaves_held m -> (forall a, leaves_held (f a)) -> leaves_held (m ≫= f).
Proof.
  intros Hm Hf s t. specialize (Hm s t). unfold mbind, M_bind.
  destruct (m (s, t)) as [[a|e| |] [s1 t1]]; cbn in *; try done.
  specialize (Hf a s1 t1). destruct (f a (s1, t1)) as [r [s2 t2]]. cbn in *.
  destruct Hm as (-> & E1 & C1), Hf as (-> & E2 & C2). split_and!; [done | congruence |].
  intros p. by rewrite C2, C1.
Qed.

Lemma leaves_held_session {A} (m : M ClientSession MqttError A) : leaves_held (in_session m).
Proof. intros s t. unfold in_session. by destruct (m (Task.session t)). Qed.

Lemma leaves_held_ret {A} (a : A) : leaves_held (mret a).
Proof. by intros s t. Qed.

Lemma leaves_held_timer now : leaves_held (on_keep_alive_timer now).
Proof. apply leaves_held_bind; [apply leaves_held_session | intros; apply leaves_held_ret]. Qed.

Lemma leaves_held_inbound o : leaves_held (on_inbound o).
Proof.
  destruct o as [q|]; [| by intros s t]. apply leaves_held_bind; [apply leaves_held_session |]. intros a.
  destruct (qos_control q && a); [apply leaves_held_ret |].
  apply leaves_held_bind; [apply leaves_held_session | intros; apply leaves_held_ret].
Qed.

Lemma looping_dec sys :
  (exists t, ClientSystem.run sys = Some (Looping t)) \/ forall t, ClientSystem.run sys <> Some (Looping t).
Proof. destruct (ClientSystem.run sys) as [[]|]; [by right | left; eauto | by right ..]. Qed.

Lemma leaves_held_step_holds uuid m s sys sys' (t : Task) p i ch :
  leaves_held m -> settle_pass uuid (m (s, t)) sys = Some sys' ->
  Task.pending_forward t = Some p -> consumer t p = i -> Channels.store s !! i = Some ch ->
  chan_closed ch = false -> 0 < chan_free ch -> holding sys' p i \/ given_up sys' i.
Proof.
  intros Hm H Hp Hc Hch Hop Hf. destruct (looping_dec sys') as [[t' Hl']|Hn]; [left | right; by left].
  destruct (settle_pass_looping _ _ _ _ _ H Hl') as (pass & s1 & t2 & E & Hs & ->).
  specialize (Hm s t). rewrite E in Hm. destruct Hm as (-> & E1 & C1).
  exists (t2 <| Task.iteration := ClientSystem.clock sys |>), ch. rewrite Hs. split_and!; try done.
  - by rewrite <- Hp.
  - by rewrite <- Hc, <- C1.
Qed.

(** A step of the system: the packet is handed over, or still held back with
    room at its consumer, or there is nobody left to take it. *)
Lemma holding_step sys sys' p i :
  client_ok sys -> i <> MqttClient.packet_producer (ClientSystem.client sys) ->
  holding sys p i -> client_step sys sys' ->
  holding sys' p i \/ handed_over sys sys' p i \/ given_up sys' i.
Proof.
  intros Hok Hi Hh Hstep. pose proof Hok as [Hin Hrun Honce].
  pose proof Hh as (t & ch & Hl & Hp & Hc & Hch & Hop & Hfree).
  assert (Hkeep : ClientSystem.run sys' = ClientSystem.run sys ->
    Channels.store (ClientSystem.channels sys') !! i = Some ch -> holding sys' p i).
  { intros Er Es. exists t, ch. by rewrite Er. }
  rewrite Hl in Hrun. destruct Hrun as (_ & _ & Ht).
  destruct Hstep as [clean sys' H | h t1 fuel rf u1 u2 u3 el sys' Hr H
    | t1 uuid sys' Hr _ _ H | t1 uuid sys' Hr Hp' H | t1 fuel uuid uuid' sys' Hr Hp' H
    | t1 fuel uuid c Hr Hp' H | t1 ch1 q ch' uuid sys' Hr Hch1 Hrecv H | t1 ch1 uuid sys' Hr _ Hch1 _ H
    | q r sys' _ -> H | j ch1 q ch' Hj Hch1 Hrecv | j ch1 Hj Hch1 | | d Hd];
    try (rewrite Hl in Hr; injection Hr as <-).
  - left. pose proof (client_start_run (ClientSystem.channels sys) (ClientSystem.client sys)
      (ClientSystem.clock sys) clean) as Hs.
    destruct (MqttClient.start _ _ _) as [r [s1 c1]]. destruct Hs as [Hs _].
    destruct Hs as [-> Heq]; [apply Honce; by rewrite Hl |]. simplify_eq. cbn in H. simplify_eq. by apply Hkeep.
  - congruence.
  - destruct (leaves_held_step_holds _ _ _ _ _ _ _ _ _ (leaves_held_timer _) H Hp Hc Hch Hop Hfree); auto.
  - right. left. apply forward_hands_over; [done | done |]. by exists t, uuid.
  - congruence.
  - congruence.
  - destruct (leaves_held_step_holds _ _ _ _ _ _ p i ch (leaves_held_inbound _) H Hp Hc); auto.
    cbn. rewrite lookup_insert_ne; [done |]. by rewrite (tk_in _ _ _ Ht).
  - destruct (leaves_held_step_holds _ _ _ _ _ _ _ _ _ (leaves_held_inbound _) H Hp Hc Hch Hop Hfree); auto.
  - left. unfold MqttClient.on_channels, chan_send, try_send, channel_at, get, put_channel, modify, lift,
      raise, mret, M_ret, mbind, M_bind in H.
    destruct (Channels.store _ !! _) as [c0|]; cbn in H; [| simplify_eq; by apply Hkeep].
    destruct (chan_closed c0); cbn in H; [simplify_eq; by apply Hkeep |].
    destruct (chan_try_send q c0) as [c1|]; cbn in H; simplify_eq.
    apply Hkeep; [done |]. cbn. by rewrite lookup_insert_ne.
  - left. destruct (decide (j = i)) as [->|]; [| apply Hkeep; [done |]; cbn; by rewrite lookup_insert_ne].
    rewrite Hch in Hch1. injection Hch1 as <-. exists t, ch'. cbn. rewrite lookup_insert_eq. 
    pose proof (chan_recv_law ch) as Hlaw. destruct (chan_queue ch) as [|q' l]; [congruence |].
    destruct Hlaw as (c' & E & _ & Hf & Hcl). simplify_eq. rewrite Hop in *. split_and!; try done. lia.
  - destruct (decide (j = i)) as [->|]; [| left; apply Hkeep; [done |]; cbn; by rewrite lookup_insert_ne].
    right. right. right. exists (chan_close ch1). cbn. rewrite lookup_insert_eq. split; [done |].
    by destruct (chan_close_law ch1) as (_ & -> & _).
  - left. by apply Hkeep.
  - left. by apply Hkeep.
Qed.

Lemma producer_kept sys sys' :
  client_step sys sys' ->
  MqttClient.packet_producer (ClientSystem.client sys') = MqttClient.packet_producer (ClientSystem.client sys).
Proof.
  assert (Hset : forall uuid res sys sys', settle_pass uuid res sys = Some sys' ->
    MqttClient.packet_producer (ClientSystem.client sys') = MqttClient.packet_producer (ClientSystem.client sys)).
  { intros uuid [[[]|e| |] [s1 t1]] sys1 sys2 H; cbn in H; simplify_eq; try done.
    by destruct (ClientSession.connected _); simplify_eq. }
  destruct 1 as [clean sys' H | h t1 fuel rf u1 u2 u3 el sys' Hr H
    | t1 uuid sys' Hr _ _ H | t1 uuid sys' Hr Hp' H | t1 fuel uuid uuid' sys' Hr Hp' H
    | t1 fuel uuid c Hr Hp' H | t1 ch1 q ch' uuid sys' Hr Hch1 Hrecv H | t1 ch1 uuid sys' Hr _ Hch1 _ H
    | q r sys' _ -> H | j ch1 q ch' Hj Hch1 Hrecv | j ch1 Hj Hch1 | | d Hd];
    try done; try (by eapply Hset).
  - pose proof (client_start_run (ClientSystem.channels sys) (ClientSystem.client sys)
      (ClientSystem.clock sys) clean) as Hs.
    destruct (MqttClient.start _ _ _) as [[[h t]|e| |] [s1 c1]]; destruct Hs as (_ & _ & _ & Hs & _);
      cbn in H; by simplify_eq.
  - unfold settle_connect in H. destruct (connect _ _ _ _ _ _ _ _ _ _) as [[a|e| |] c]; by simplify_eq.
  - unfold MqttClient.on_channels in H. destruct (chan_send _ _ _ _) as [[u|e| |] s1]; cbn in H; by simplify_eq.
Qed.

(** *** Fair runs *)

(** An infinite run of application, client and task. *)
Definition client_run (σ : nat -> ClientSystem) : Prop := forall n, client_step (σ n) (σ (S n)).

(** [select!] is weakly fair to the branch of the packet held back: whenever the
    branch is ready, it is taken later or is not ready later. *)
Definition fair_forwarding (σ : nat -> ClientSystem) : Prop :=
  forall n, (exists p i, holding (σ n) p i) ->
  exists m, (n <= m)%nat /\ (forwards (σ m) (σ (S m)) \/ forall p i, ~ holding (σ m) p i).

Lemma run_ok_at σ n : client_run σ -> client_ok (σ 0%nat) -> client_ok (σ n).
Proof. intros Hrun H0. induction n as [|n IH]; [done |]. by apply (client_step_ok (σ n)). Qed.

Lemma producer_at σ n :
  client_run σ ->
  MqttClient.packet_producer (ClientSystem.client (σ n)) = MqttClient.packet_producer (ClientSystem.client (σ 0%nat)).
Proof. intros Hrun. induction n as [|n IH]; [done |]. by rewrite (producer_kept (σ n)). Qed.

(** Until some later time the packet is held back, or its fate is decided. *)
Lemma holding_until σ n k p i :
  client_run σ -> client_ok (σ 0%nat) ->
  i <> MqttClient.packet_producer (ClientSystem.client (σ 0%nat)) -> holding (σ n) p i ->
  holding (σ (n + k)%nat) p i
  \/ exists m, (n <= m)%nat /\ (handed_over (σ m) (σ (S m)) p i \/ given_up (σ m) i).
Proof.
  intros Hrun H0 Hi Hh. induction k as [|k [IH|IH]]; [left; by rewrite Nat.add_0_r | | by right].
  rewrite Nat.add_succ_r. destruct (holding_step (σ (n + k)%nat) (σ (S (n + k))) p i) as [|[|]].
  - by apply run_ok_at.
  - by rewrite producer_at.
  - done.
  - apply Hrun.
  - by left.
  - right. exists (n + k)%nat. split; [lia | by left].
  - right. exists (S (n + k)). split; [lia | by right].
Qed.

(** C25: a packet that is held back does not block the client.  In every infinite
    run of application, client and task in which [select!] is weakly fair to the
    branch that hands it over, a packet that is held back while its consumer has
    room is, at some later time, put last in the channel of its consumer, after
    which nothing is held back and the loop goes on, ready to read; unless the
    loop has ended or the application has dropped the receiver by then. *)
Theorem held_packet_forwarded (σ : nat -> ClientSystem) (n : nat) (p : Packet) (i : Z) :
  client_ok (σ 0%nat) -> client_run σ -> fair_forwarding σ ->
  i <> MqttClient.packet_producer (ClientSystem.client (σ 0%nat)) -> holding (σ n) p i ->
  exists m, (n <= m)%nat /\ (handed_over (σ m) (σ (S m)) p i \/ given_up (σ m) i).
Proof.
  intros H0 Hrun Hfair Hi Hh. destruct (Hfair n) as (m & Hm & Hcase); [by exists p, i |].
  destruct (holding_until σ n (m - n) p i Hrun H0 Hi Hh) as [Hh'|]; [| done].
  replace (n + (m - n))%nat with m in Hh' by lia. destruct Hcase as [Hf|Hn]; [| by destruct (Hn p i)].
  exists m. split; [done |]. left. apply forward_hands_over; [by apply run_ok_at | done | done].
Qed.
End system_facts.
