(* ===== verification/Relay.v ===== *)
(** * vaux-client/examples/roundtrip.rs: the relay *)
(** [run_relay] stands in for a broker between one subscriber and one publisher:
    it answers their CONNECT and SUBSCRIBE, acknowledges and forwards every
    PUBLISH, and counts the acknowledgements that come back.  Its two tasks meet
    in a bounded channel; [relay_step] is their step relation, labelled with the
    packets they read and the messages they take from the channel.  The texts of
    the errors are left out. *)

From S2P Require Import Prelude Bytes Runtime Codec Fixed Property MacroFacts Subscriptions.
From S2P Require Import Acks Publish Connect Packet Stream.

Definition MAX_RELAY_BUFFER : Z := 256 * 1024.

Module RelayError.
Inductive RelayError :=
| ExpectedConnect
| ExpectedSubscribe
| Stream (e : StreamError)
| Codec (e : MqttCodecError)
| PingFailed (received : Z)
| Disconnected (received : Z)
| ReadFailed (received : Z) (e : StreamError)
| ForwardFailed (received : Z)
| RelayClosed (received : Z).
End RelayError.
Abbreviation RelayError := RelayError.RelayError.

Section relay.
Context {B : Buf} {HI : HashIter} {T : Transport} {R : Runtime}.

Abbreviation Greeting := (M PacketStream RelayError).

(** ** The handshakes *)

Definition relay_write (p : Packet) : Greeting unit := fun s =>
  let '(r, s) := write p s in (map_err RelayError.Stream r, s).

(** CONNECT is answered, whatever it says. *)
Definition greet (fuel : nat) (uuid : rstring) : Greeting unit :=
  result ← attempt (read fuel uuid);
  match result with
  | inr (Some (Packet.Connect _)) => relay_write (Packet.ConnAck dflt)
  | _ => raise RelayError.ExpectedConnect
  end.

Definition await_subscribe (fuel : nat) (uuid : rstring) : Greeting unit :=
  result ← attempt (read fuel uuid);
  subscribe_packet_id ← match result with
                        | inr (Some (Packet.Subscribe sub)) => mret (Subscribe.packet_id sub)
                        | _ => raise RelayError.ExpectedSubscribe
                        end;
  suback ← lift (map_err RelayError.Codec (SubAck_new_with_packet_id subscribe_packet_id));
  relay_write (Packet.SubAck (suback <| SubAck.reason_codes := SubAck.reason_codes suback ++ [Reason.Success] |>)).

Definition greet_subscriber (fuel : nat) (uuid uuid' : rstring) : Greeting unit :=
  greet fuel uuid ≫= fun _ => await_subscribe fuel uuid'.

(** ** The two tasks *)

(** The task that reads from the publisher; a message it has acknowledged waits
    for room in the channel. *)
Inductive PubTask :=
| Reading (s : PacketStream)
| Sending (s : PacketStream) (publish : Publish)
| PubOver.

Record Relay := mkRelay {
  sub_stream : PacketStream;
  pub_task : PubTask;
  forward : chan Publish;
  received : Z;
  next_id : Z;
  result : option (outcome RelayError Z);
}.

#[export] Instance Relay_eta : Eta Relay := fun r =>
  mkRelay (sub_stream r) (pub_task r) (forward r) (received r) (next_id r) (result r).

(** Both clients are greeted. *)
Definition relay_start (expected : Z) (sub pub : PacketStream) : Relay :=
  mkRelay sub (Reading pub) (chan_new (expected + 16)) 0 1 None.

(** The packet that the publisher's task has read. *)
Definition on_published (packet : outcome StreamError (option Packet)) (s : PacketStream)
    : option PubTask :=
  match packet with
  | Ok (Some (Packet.Publish publish)) =>
      match Publish.packet_id publish with
      | Some packet_id =>
          match write (Packet.PubAck (new_puback_with_packet_id packet_id)) s with
          | (Ok _, s) => Some (Sending s publish)
          | (OutOfFuel, _) => None
          | _ => Some PubOver
          end
      | None => Some (Sending s publish)
      end
  | Ok (Some (Packet.PingRequest _)) =>
      match write (Packet.PingResponse dflt) s with
      | (Ok _, s) => Some (Reading s)
      | (OutOfFuel, _) => None
      | _ => Some PubOver
      end
  | Ok (Some (Packet.Disconnect _)) | Ok None | Err _ => Some PubOver
  | Ok (Some _) => Some (Reading s)
  | Panic => Some PubOver
  | OutOfFuel => None
  end.

(** The branch of the subscriber's packets: the count afterwards. *)
Definition on_subscriber (packet : outcome StreamError (option Packet)) (received : Z)
    : M PacketStream RelayError Z :=
  match packet with
  | Ok (Some (Packet.PubAck _)) => mret (received + 1)
  | Ok (Some (Packet.PingRequest _)) =>
      sent ← attempt (write (Packet.PingResponse dflt));
      match sent with
      | inr _ => mret received
      | inl _ => raise (RelayError.PingFailed received)
      end
  | Ok (Some _) => mret received
  | Ok None => raise (RelayError.Disconnected received)
  | Err e => raise (RelayError.ReadFailed received e)
  | Panic => panic
  | OutOfFuel => no_fuel
  end.

(** [next_id.wrapping_add(1)], which is not 0. *)
Definition following_id (id : Z) : Z :=
  let next_id := u16 (id + 1) in if next_id =? 0 then 1 else next_id.

(** The branch of the messages to forward: the next identifier. *)
Definition on_forward (publish : Publish) (next_id received : Z) : M PacketStream RelayError Z :=
  publish ← lift (or_keep publish (publish_set_packet_id (Some next_id) publish));
  sent ← attempt (write (Packet.Publish publish));
  match sent with
  | inr _ => mret (following_id next_id)
  | inl _ => raise (RelayError.ForwardFailed received)
  end.

(** ** Their steps *)

(** What a task gets: from a client, or from the channel. *)
Inductive relay_event :=
| Took (p : Publish)       (** a PUBLISH read from the publisher *)
| PublisherPinged          (** a PINGREQ read from the publisher *)
| Queued (p : Publish)     (** the message of the publisher's task enters the channel *)
| Forwarded (p : Publish)  (** a message leaves the channel for the subscriber *)
| Acknowledged             (** a PUBACK read from the subscriber *)
| SubscriberPinged         (** a PINGREQ read from the subscriber *)
| Silent.

Definition from_publisher (o : outcome StreamError (option Packet)) : relay_event :=
  match o with
  | Ok (Some (Packet.Publish p)) => Took p
  | Ok (Some (Packet.PingRequest _)) => PublisherPinged
  | _ => Silent
  end.

Definition from_subscriber (o : outcome StreamError (option Packet)) : relay_event :=
  match o with
  | Ok (Some (Packet.PubAck _)) => Acknowledged
  | Ok (Some (Packet.PingRequest _)) => SubscriberPinged
  | _ => Silent
  end.

(** A branch has ended: the loop goes on with [f], or the relay returns. *)
Definition settle_relay {A} (res : outcome RelayError A) (f : A -> Relay -> Relay) (r : Relay) : Relay :=
  match res with
  | Ok a => f a r
  | Err e => r <| result := Some (Err e) |>
  | Panic => r <| result := Some Panic |>
  | OutOfFuel => r
  end.

Inductive relay_step (expected : Z) (r : Relay) : relay_event -> Relay -> Prop :=
| relay_finish :
    result r = None -> expected <= received r ->
    relay_step expected r Silent (r <| result := Some (Ok (received r)) |>)
| relay_published fuel uuid s o s' t :
    result r = None -> pub_task r = Reading s -> read fuel uuid s = (o, s') -> on_published o s' = Some t ->
    relay_step expected r (from_publisher o) (r <| pub_task := t |>)
| relay_queue s p q :
    result r = None -> pub_task r = Sending s p -> chan_try_send p (forward r) = Some q ->
    relay_step expected r (Queued p) (r <| pub_task := Reading s |> <| forward := q |>)
| relay_subscriber fuel uuid o s res s' :
    result r = None -> received r < expected -> read fuel uuid (sub_stream r) = (o, s) ->
    on_subscriber o (received r) s = (res, s') -> res <> OutOfFuel ->
    relay_step expected r (from_subscriber o)
      (settle_relay res (fun n r => r <| received := n |>) (r <| sub_stream := s' |>))
| relay_cancelled fuel uuid s :  (** the other branch was taken while the read waited *)
    result r = None -> received r < expected -> read fuel uuid (sub_stream r) = (OutOfFuel, s) ->
    relay_step expected r Silent (r <| sub_stream := s |>)
| relay_forward p q res s :
    result r = None -> received r < expected -> chan_recv (forward r) = Some (p, q) ->
    on_forward p (next_id r) (received r) (sub_stream r) = (res, s) -> res <> OutOfFuel ->
    relay_step expected r (Forwarded p)
      (settle_relay res (fun id r => r <| next_id := id |>) (r <| sub_stream := s |> <| forward := q |>))
| relay_closed :
    result r = None -> received r < expected -> pub_task r = PubOver -> chan_queue (forward r) = [] ->
    relay_step expected r Silent (r <| result := Some (Err (RelayError.RelayClosed (received r))) |>).

Inductive relay_run (expected : Z) (r : Relay) : list relay_event -> Relay -> Prop :=
| relay_nil : relay_run expected r [] r
| relay_snoc tr r1 e r2 :
    relay_run expected r tr r1 -> relay_step expected r1 e r2 -> relay_run expected r (tr ++ [e]) r2.

(** ** What the relay does to the messages *)

Definition takes (tr : list relay_event) : list Publish :=
  omap (fun e => match e with Took p => Some p | _ => None end) tr.
Definition queues (tr : list relay_event) : list Publish :=
  omap (fun e => match e with Queued p => Some p | _ => None end) tr.
Definition forwards (tr : list relay_event) : list Publish :=
  omap (fun e => match e with Forwarded p => Some p | _ => None end) tr.
Definition acks (tr : list relay_event) : list unit :=
  omap (fun e => match e with Acknowledged => Some tt | _ => None end) tr.

(** The identifier of the message with index [k]. *)
Definition relay_id (k : Z) : Z := k mod 65535 + 1.

Definition numbered_message (k : Z) (p : Publish) : Publish :=
  match publish_set_packet_id (Some (relay_id k)) p with Ok p' => p' | _ => p end.

(** The bytes of a packet. *)
Definition encoding (p : Packet) : list Z := snd (encode p []).

(** The bytes the two clients are due: the messages with successive identifiers,
    acknowledgements of those that have an identifier, and answers to PINGREQ.
    [k] messages were forwarded before. *)
Fixpoint to_subscriber (k : Z) (tr : list relay_event) : list Z :=
  match tr with
  | [] => []
  | Forwarded p :: tr => encoding (Packet.Publish (numbered_message k p)) ++ to_subscriber (k + 1) tr
  | SubscriberPinged :: tr => encoding (Packet.PingResponse dflt) ++ to_subscriber k tr
  | _ :: tr => to_subscriber k tr
  end.

Definition acknowledgement (p : Publish) : list Z :=
  match Publish.packet_id p with
  | Some id => encoding (Packet.PubAck (new_puback_with_packet_id id))
  | None => []
  end.

Definition to_publisher (tr : list relay_event) : list Z :=
  concat ((fun e => match e with
                    | Took p => acknowledgement p
                    | PublisherPinged => encoding (Packet.PingResponse dflt)
                    | _ => []
                    end) <$> tr).

(** The relay has not failed. *)
Definition unfailed (r : Relay) : Prop :=
  match result r with None | Some (Ok _) => True | _ => False end.

Definition pub_stream (t : PubTask) : option PacketStream :=
  match t with Reading s | Sending s _ => Some s | PubOver => None end.

Lemma following_relay_id k : 0 <= k -> following_id (relay_id k) = relay_id (k + 1).
Proof.
  intros Hk. unfold following_id, relay_id, u16. pose proof (Z.mod_pos_bound k 65535 ltac:(lia)).
  destruct (decide (k mod 65535 = 65534)) as [E|E].
  - rewrite E. simpl. rewrite <- Z.add_mod_idemp_l, E by lia. done.
  - rewrite Z.mod_small by lia. destruct (Z.eqb_spec (k mod 65535 + 1 + 1) 0); [lia |].
    rewrite <- (Z.add_mod_idemp_l k 1) by lia. rewrite (Z.mod_small (k mod 65535 + 1)) by lia. lia.
Qed.

Lemma relay_id_bounds k : 1 <= relay_id k <= 65535.
Proof. unfold relay_id. pose proof (Z.mod_pos_bound k 65535 ltac:(lia)). lia. Qed.

Lemma write_encodes p s u s' :
  write p s = (Ok u, s') -> t_outgoing (stream s') = t_outgoing (stream s) ++ encoding p.
Proof.
  unfold write, encoding. destruct (encode p []) as [[v|e| |] bs]; try done. rewrite bind_get.
  pose proof (write_law bs (stream s)) as H.
  destruct (t_write_all bs (stream s)) as [[v'|e| |] t]; try done. intros [= _ <-]. apply H.
Qed.

Lemma attempt_write_encodes p s u s' :
  (attempt (write p) : M PacketStream RelayError _) s = (Ok (inr u), s') -> t_outgoing (stream s') = t_outgoing (stream s) ++ encoding p.
Proof.
  unfold attempt. destruct (write p s) as [[v|e| |] s1] eqn:E; try done. intros [= _ <-]. by eapply write_encodes.
Qed.

Lemma read_quiet fuel uuid s o s' : read fuel uuid s = (o, s') -> t_outgoing (stream s') = t_outgoing (stream s).
Proof. intros E. pose proof (read_keeps_outgoing fuel uuid s) as H. by rewrite E in H. Qed.

(** *** The events of one step *)

Lemma takes_snoc tr e : takes (tr ++ [e]) = takes tr ++ takes [e].
Proof. apply omap_app. Qed.
Lemma queues_snoc tr e : queues (tr ++ [e]) = queues tr ++ queues [e].
Proof. apply omap_app. Qed.
Lemma forwards_snoc tr e : forwards (tr ++ [e]) = forwards tr ++ forwards [e].
Proof. apply omap_app. Qed.
Lemma acks_snoc tr e : acks (tr ++ [e]) = acks tr ++ acks [e].
Proof. apply omap_app. Qed.

Lemma to_publisher_snoc tr e : to_publisher (tr ++ [e]) = to_publisher tr ++ to_publisher [e].
Proof. unfold to_publisher. by rewrite fmap_app, concat_app. Qed.

Lemma to_subscriber_snoc tr e : forall k,
  to_subscriber k (tr ++ [e])
  = to_subscriber k tr ++ to_subscriber (k + Z.of_nat (length (forwards tr))) [e].
Proof.
  induction tr as [|e0 tr IH]; intros k; [cbn [app forwards omap list_omap length]; by rewrite Z.add_0_r |].
  destruct e0 as [| | |p| | |]; cbn [app to_subscriber]; rewrite ?IH; try done.
  - change (forwards (Forwarded p :: tr)) with (p :: forwards tr). cbn [length].
    replace (k + Z.of_nat (S (length (forwards tr)))) with (k + 1 + Z.of_nat (length (forwards tr))) by lia.
    by rewrite <- (assoc_L app).
  - by rewrite <- (assoc_L app).
Qed.

(** What a branch does with a packet, seen from outside. *)
Lemma on_published_answers o s t :
  on_published o s = Some t ->
  match t with
  | Reading s' => takes [from_publisher o] = []
      /\ t_outgoing (stream s') = t_outgoing (stream s) ++ to_publisher [from_publisher o]
  | Sending s' p => takes [from_publisher o] = [p]
      /\ t_outgoing (stream s') = t_outgoing (stream s) ++ to_publisher [from_publisher o]
  | PubOver => True
  end.
Proof.
  unfold to_publisher. destruct o as [[[]|]|e| |]; cbn; try (intros [= <-]; by rewrite ?app_nil_r); try done.
  - destruct (write _ s) as [[u|e| |] s1] eqn:E; intros [= <-]; try done. rewrite app_nil_r.
    split; [done | by eapply write_encodes].
  - unfold acknowledgement. destruct (Publish.packet_id p) as [id|]; [| intros [= <-]; by rewrite app_nil_r].
    destruct (write _ s) as [[u|e| |] s1] eqn:E; intros [= <-]; try done. rewrite app_nil_r.
    split; [done | by eapply write_encodes].
Qed.

Lemma on_subscriber_answers o n s res s' k :
  on_subscriber o n s = (res, s') ->
  match res with
  | Ok m => m = n + Z.of_nat (length (acks [from_subscriber o]))
      /\ t_outgoing (stream s') = t_outgoing (stream s) ++ to_subscriber k [from_subscriber o]
  | _ => acks [from_subscriber o] = []
  end.
Proof.
  destruct o as [[[]|]|e| |]; cbn; try (intros [= <- <-]; by rewrite ?app_nil_r, ?Z.add_0_r).
  unfold mbind, M_bind. destruct (attempt _ s) as [[[e|u]|e| |] s1] eqn:E; intros [= <- <-]; try done.
  rewrite app_nil_r, Z.add_0_r. split; [done | by eapply attempt_write_encodes].
Qed.

Lemma on_forward_answers p id n s res s' k :
  0 <= k -> id = relay_id k -> on_forward p id n s = (res, s') ->
  match res with
  | Ok id' => id' = relay_id (k + 1)
      /\ t_outgoing (stream s') = t_outgoing (stream s) ++ to_subscriber k [Forwarded p]
  | _ => True
  end.
Proof.
  intros Hk -> H. destruct res as [id'|e| |]; try done.
  apply bind_ok_inv in H as (p1 & s1 & H1 & H). unfold lift in H1. injection H1 as H1 <-.
  apply bind_ok_inv in H as ([|u] & s2 & H2 & H); [done |]. injection H as <- <-.
  split; [by apply following_relay_id |]. cbn [to_subscriber]. rewrite app_nil_r.
  assert (E : numbered_message k p = p1).
  { unfold numbered_message. by destruct (publish_set_packet_id _ p) as [a|e| |]; simplify_eq/=. }
  rewrite E. by eapply attempt_write_encodes.
Qed.

Record relay_ok (expected : Z) (sub pub : PacketStream) (tr : list relay_event) (r : Relay) : Prop := {
  ro_received : received r = Z.of_nat (length (acks tr));
  ro_bound : received r <= expected;
  ro_id : result r = None -> next_id r = relay_id (Z.of_nat (length (forwards tr)));
  ro_order : forwards tr `prefix_of` queues tr;
  ro_queue : result r = None -> queues tr = forwards tr ++ chan_queue (forward r);
  ro_taken : match pub_task r with
             | Reading _ => takes tr = queues tr
             | Sending _ p => takes tr = queues tr ++ [p]
             | PubOver => queues tr `prefix_of` takes tr
             end;
  ro_sub : unfailed r ->
    t_outgoing (stream (sub_stream r)) = t_outgoing (stream sub) ++ to_subscriber 0 tr;
  ro_pub s : pub_stream (pub_task r) = Some s ->
    t_outgoing (stream s) = t_outgoing (stream pub) ++ to_publisher tr;
  ro_result n : result r = Some (Ok n) -> n = expected;
}.

(** A step of the publisher's task, which leaves the loop of the subscriber alone. *)
Lemma relay_ok_publisher expected sub pub tr r e r' :
  relay_ok expected sub pub tr r -> acks [e] = [] -> forwards [e] = [] -> to_subscriber 0 [e] = [] ->
  received r' = received r -> next_id r' = next_id r -> result r' = result r -> sub_stream r' = sub_stream r ->
  queues tr `prefix_of` queues (tr ++ [e]) ->
  (result r = None -> queues (tr ++ [e]) = forwards tr ++ chan_queue (forward r')) ->
  match pub_task r' with
  | Reading _ => takes (tr ++ [e]) = queues (tr ++ [e])
  | Sending _ p => takes (tr ++ [e]) = queues (tr ++ [e]) ++ [p]
  | PubOver => queues (tr ++ [e]) `prefix_of` takes (tr ++ [e])
  end ->
  (forall s, pub_stream (pub_task r') = Some s ->
     t_outgoing (stream s) = t_outgoing (stream pub) ++ to_publisher (tr ++ [e])) ->
  relay_ok expected sub pub (tr ++ [e]) r'.
Proof.
  intros [Hr Hb Hi Ho Hq Ht Hs Hp Hres] Ea Ef Es E1 E2 E3 E4 Hpre Hq' Ht' Hp'.
  assert (Es' : forall k, to_subscriber k [e] = []) by (intros k; by destruct e).
  split; rewrite ?acks_snoc, ?forwards_snoc, ?to_subscriber_snoc, ?Ea, ?Ef, ?Es', ?app_nil_r, ?E1, ?E2, ?E3, ?E4;
    try done.
  - by etrans.
  - unfold unfailed. rewrite E3. apply Hs.
Qed.

(** A step of the loop of the subscriber, which leaves the publisher's task alone. *)
Lemma relay_ok_subscriber expected sub pub tr r e r' :
  relay_ok expected sub pub tr r -> takes [e] = [] -> queues [e] = [] -> to_publisher [e] = [] ->
  pub_task r' = pub_task r ->
  received r' = received r + Z.of_nat (length (acks [e])) -> received r' <= expected ->
  (result r' = None -> next_id r' = relay_id (Z.of_nat (length (forwards (tr ++ [e]))))) ->
  forwards (tr ++ [e]) `prefix_of` queues tr ->
  (result r' = None -> queues tr = forwards (tr ++ [e]) ++ chan_queue (forward r')) ->
  (unfailed r' -> t_outgoing (stream (sub_stream r'))
     = t_outgoing (stream sub) ++ to_subscriber 0 (tr ++ [e])) ->
  (forall n, result r' = Some (Ok n) -> n = expected) ->
  relay_ok expected sub pub (tr ++ [e]) r'.
Proof.
  intros [Hr Hb Hi Ho Hq Ht Hs Hp Hres] Et Eq Ep E1 E2 Hb' Hi' Ho' Hq' Hs' Hres'.
  split; rewrite ?takes_snoc, ?queues_snoc, ?to_publisher_snoc, ?Et, ?Eq, ?Ep, ?app_nil_r, ?E1; try done.
  rewrite E2, Hr, acks_snoc, length_app. lia.
Qed.

Lemma relay_ok_start expected sub pub :
  0 <= expected -> relay_ok expected sub pub [] (relay_start expected sub pub).
Proof.
  intros He. destruct (chan_new_law (A := Publish) (expected + 16) ltac:(lia)) as (Hq & _).
  split; try done; cbn; rewrite ?app_nil_r; try done.
  by intros s [= <-].
Qed.

Lemma from_subscriber_other o : takes [from_subscriber o] = [] /\ queues [from_subscriber o] = []
  /\ to_publisher [from_subscriber o] = [] /\ forwards [from_subscriber o] = [].
Proof. by destruct o as [[[]|]|e| |]. Qed.

Lemma from_publisher_other o : acks [from_publisher o] = [] /\ queues [from_publisher o] = []
  /\ to_subscriber 0 [from_publisher o] = [] /\ forwards [from_publisher o] = [].
Proof. by destruct o as [[[]|]|e| |]. Qed.

(** The two branches of the loop that act on what they get. *)
Lemma relay_subscriber_ok expected sub pub tr r fuel uuid o s res s' :
  relay_ok expected sub pub tr r ->
  result r = None -> received r < expected -> read fuel uuid (sub_stream r) = (o, s) ->
  on_subscriber o (received r) s = (res, s') -> res <> OutOfFuel ->
  relay_ok expected sub pub (tr ++ [from_subscriber o])
    (settle_relay res (fun n r => r <| received := n |>) (r <| sub_stream := s' |>)).
Proof.
  intros Hok Hn Hlt Hrd Hon Hres. pose proof Hok as [Hr Hb Hi Ho Hq Ht Hs Hp _].
  destruct (from_subscriber_other o) as (Et & Eq & Ep & Ef).
  pose proof (on_subscriber_answers _ _ _ _ _ (0 + Z.of_nat (length (forwards tr))) Hon) as Ha.
  pose proof (read_quiet _ _ _ _ _ Hrd) as Hread.
  assert (Hf : forwards (tr ++ [from_subscriber o]) = forwards tr) by (by rewrite forwards_snoc, Ef, app_nil_r).
  destruct res as [n|er| |]; [destruct Ha as [En Hout] | | | done];
    apply (relay_ok_subscriber expected sub pub tr r); try done; rewrite ?Hf; try (rewrite Ha); cbn; try done; try lia.
  + rewrite En. assert (length (acks [from_subscriber o]) <= 1)%nat by (by destruct o as [[[]|]|e| |]; cbn; lia). lia.
  + intros Hu. rewrite to_subscriber_snoc, (assoc_L app), <- Hs, <- Hread by (unfold unfailed; by rewrite Hn). done.
  + by rewrite Hn.
Qed.

Lemma relay_forward_ok expected sub pub tr r p q res s :
  relay_ok expected sub pub tr r ->
  result r = None -> received r < expected -> chan_recv (forward r) = Some (p, q) ->
  on_forward p (next_id r) (received r) (sub_stream r) = (res, s) -> res <> OutOfFuel ->
  relay_ok expected sub pub (tr ++ [Forwarded p])
    (settle_relay res (fun id r => r <| next_id := id |>) (r <| sub_stream := s |> <| forward := q |>)).
Proof.
  intros Hok Hn Hlt Hrecv Hon Hres. pose proof Hok as [Hr Hb Hi Ho Hq Ht Hs Hp _].
  pose proof (chan_recv_law (forward r)) as Hlaw. destruct (chan_queue (forward r)) as [|p0 q0] eqn:Eq; [congruence |].
  destruct Hlaw as (q' & E & Hq' & _). rewrite E in Hrecv. injection Hrecv as <- <-.
  assert (Hf : forwards (tr ++ [Forwarded p0]) = forwards tr ++ [p0]) by (by rewrite forwards_snoc).
  assert (Hpre : forwards tr ++ [p0] `prefix_of` queues tr).
  { exists q0. by rewrite (Hq Hn), <- (assoc_L app). }
  pose proof (on_forward_answers _ _ _ _ _ _ _ (Zle_0_nat _) (Hi Hn) Hon) as Ha.
  destruct res as [id|er| |]; [destruct Ha as [Hid Hout] | | | done];
    apply (relay_ok_subscriber expected sub pub tr r); try done; rewrite ?Hf; cbn; try done; try lia.
  + intros _. rewrite Hid. f_equal. rewrite length_app. simpl. lia.
  + intros _. by rewrite (Hq Hn), Hq', <- (assoc_L app).
  + intros _. rewrite to_subscriber_snoc, (assoc_L app), <- Hs by (unfold unfailed; by rewrite Hn). done.
  + by rewrite Hn.
Qed.

Lemma relay_step_ok expected sub pub tr r e r' :
  relay_ok expected sub pub tr r -> relay_step expected r e r' -> relay_ok expected sub pub (tr ++ [e]) r'.
Proof.
  intros Hok Hstep. pose proof Hok as [Hr Hb Hi Ho Hq Ht Hs Hp _].
  destruct Hstep as [Hn Hge|fuel uuid s o s' t Hn Hst Hrd Hon|s p q Hn Hst Hsend|fuel uuid o s res s' Hn Hlt Hrd Hon Hres
    |fuel uuid s Hn Hlt Hrd|p q res s Hn Hlt Hrecv Hon Hres|Hn Hlt Hst Hnil].
  - apply (relay_ok_subscriber expected sub pub tr r); try done; cbn.
    + lia.
    + by rewrite forwards_snoc, app_nil_r.
    + intros _. rewrite to_subscriber_snoc, app_nil_r. apply Hs. unfold unfailed. by rewrite Hn.
    + intros n [= <-]. lia.
  - destruct (from_publisher_other o) as (Ea & Eq & Es & Ef). pose proof (on_published_answers _ _ _ Hon) as Ha.
    rewrite Hst in Ht. specialize (Hp s). rewrite Hst in Hp. specialize (Hp eq_refl).
    pose proof (read_quiet _ _ _ _ _ Hrd) as Hread.
    apply (relay_ok_publisher expected sub pub tr r); try done; cbn; rewrite ?queues_snoc, ?Eq, ?app_nil_r; try done.
    + destruct t as [s1|s1 p|]; rewrite takes_snoc, Ht; [by destruct Ha as [-> _]; rewrite app_nil_r | by destruct Ha as [-> _] |].
      by exists (takes [from_publisher o]).
    + intros s0 Hs0. rewrite to_publisher_snoc, (assoc_L app), <- Hp, <- Hread.
      destruct t as [s1|s1 p|]; try done; injection Hs0 as <-; apply Ha.
  - pose proof (chan_try_send_law p (forward r)) as Hlaw. destruct (Z.ltb_spec 0 (chan_free (forward r))); [| congruence].
    destruct Hlaw as (q' & E & Hq' & _). rewrite E in Hsend. injection Hsend as <-. rewrite Hst in Ht.
    apply (relay_ok_publisher expected sub pub tr r); try done; cbn; rewrite ?queues_snoc; cbn.
    + by exists [p].
    + intros _. by rewrite (Hq Hn), Hq', <- (assoc_L app).
    + by rewrite takes_snoc, Ht, app_nil_r.
    + intros s0 [= <-]. rewrite to_publisher_snoc, app_nil_r. apply Hp. by rewrite Hst.
  - by eapply relay_subscriber_ok.
  - apply (relay_ok_subscriber expected sub pub tr r); try done; cbn; rewrite ?Hn, ?forwards_snoc, ?app_nil_r; try done.
    + lia.
    + intros _. by apply Hi.
    + intros _. by apply Hq.
    + intros _. rewrite to_subscriber_snoc, app_nil_r, (read_quiet _ _ _ _ _ Hrd). apply Hs. unfold unfailed. by rewrite Hn.
  - by eapply relay_forward_ok.
  - apply (relay_ok_subscriber expected sub pub tr r); try done; cbn; rewrite ?forwards_snoc, ?app_nil_r; try done. lia.
Qed.

Lemma relay_run_ok expected sub pub tr r :
  0 <= expected -> relay_run expected (relay_start expected sub pub) tr r -> relay_ok expected sub pub tr r.
Proof.
  intros He. induction 1 as [|tr r1 e r2 _ IH Hstep]; [by apply relay_ok_start | by eapply relay_step_ok].
Qed.

(** C39: the relay of the round-trip test is faithful, at every moment of every
    run from the end of the handshakes on.  The messages that have left for the
    subscriber are the first of those read from the publisher, in their order.
    The bytes written to the subscriber are exactly the encodings of these
    messages, with the identifiers 1 to 65535 in turn and never 0 where the QoS
    level has one, and an answer to each PINGREQ, unless the relay has failed;
    the bytes written to the publisher are exactly a PUBACK for each message
    with an identifier and an answer to each PINGREQ, until its task ends.  The
    relay has counted the PUBACKs read from the subscriber, no other packets and
    not more than it expects; and when it returns a count, that is the number of
    messages expected. *)
Theorem relay_faithful expected sub pub tr r :
  0 <= expected -> relay_run expected (relay_start expected sub pub) tr r ->
  forwards tr `prefix_of` takes tr
  /\ (unfailed r -> t_outgoing (stream (sub_stream r)) = t_outgoing (stream sub) ++ to_subscriber 0 tr)
  /\ (forall k, 1 <= relay_id k <= 65535)
  /\ (forall s, pub_stream (pub_task r) = Some s ->
       t_outgoing (stream s) = t_outgoing (stream pub) ++ to_publisher tr)
  /\ received r = Z.of_nat (length (acks tr)) /\ received r <= expected
  /\ (forall n, result r = Some (Ok n) -> n = expected).
Proof.
  intros He Hrun. destruct (relay_run_ok expected sub pub tr r He Hrun) as [Hr Hb _ Ho _ Ht Hs Hp Hres].
  split_and!; try done; [| apply relay_id_bounds]. etrans; [exact Ho |].
  destruct (pub_task r) as [s|s p|]; [by rewrite Ht | by exists [p] | done].
Qed.
End relay.
