(* ===== verification/ClientExamples.v ===== *)
(** * vaux-client/examples: publish.rs, subscribe.rs and roundtrip.rs *)
(** The programs that come with the client: how they read their arguments, the
    clients they build, the messages they send, what they make of the packets
    they receive, and the verdict of the round-trip test.  Output to the
    terminal, certificates and files are left out; what [clap] parses is the
    record of the arguments. *)

From S2P Require Import Prelude Bytes Runtime Codec Fixed Property MacroFacts Subscriptions.
From S2P Require Import Acks Publish Connect Packet Stream ClientSession Connection Client Relay.

(** ** Arguments *)

(** [QoSLevelParser], the same in both programs. *)
Definition parse_qos (value : rstring) : outcome unit QoSLevel :=
  if decide (value = str "0") then Ok QoSLevel.AtMostOnce
  else if decide (value = str "1") then Ok QoSLevel.AtLeastOnce
  else if decide (value = str "2") then Ok QoSLevel.ExactlyOnce
  else Err tt.

Module PublishArgs.
Record Args := mk {
  qos : QoSLevel;
  topic : rstring;
  addr : rstring;
  port : Z;
  message_file : option rstring;
  message : option rstring;
  iterations : option Z;
}.
End PublishArgs.

Module SubscribeArgs.
Record Args := mk {
  auto_ack : bool;
  qos : QoSLevel;
  addr : rstring;
  port : Z;
  clean_start : bool;
}.
End SubscribeArgs.

Module RoundtripArgs.
Record Args := mk {
  count : Z;
  size : Z;
  channel_size : option Z;
  keep_alive_secs : Z;
}.
End RoundtripArgs.

Section programs.
Context {B : Buf} {HI : HashIter} {N : Network} {R : Runtime} {V : Build}.

(** ** publish.rs *)

Definition publish_builder (uuid : rstring) (connection : MqttConnection) (puback_sender : Z) : ClientBuilder :=
  let b := ClientBuilder.new uuid connection in
  let b := ClientBuilder.with_auto_ack true b in
  let b := ClientBuilder.with_auto_packet_id true b in
  let b := ClientBuilder.with_receive_max 10 b in
  let b := ClientBuilder.with_session_expiry (secs 600) b in
  let b := ClientBuilder.with_keep_alive (secs 30) b in
  let b := ClientBuilder.with_max_connect_wait (secs 5) b in
  let b := ClientBuilder.with_filtered_consumer PacketType.PubAck puback_sender b in
  let b := ClientBuilder.with_filtered_consumer PacketType.PubComp puback_sender b in
  ClientBuilder.with_filtered_consumer PacketType.PubRec puback_sender b.

(** The client and the channel of the acknowledgements. *)
Definition publish_client (uuid : rstring) (connection : MqttConnection)
    : M Channels BuilderError (PacketChannel * MqttClient) :=
  puback_channel ← PacketChannel.new_with_size 10;
  client ← ClientBuilder.build (publish_builder uuid connection (PacketChannel.sender puback_channel));
  mret (puback_channel, client).

(** The text of the messages; [file] is what the file holds. *)
Definition arg_message (args : PublishArgs.Args) (file : rstring -> outcome unit rstring)
    : outcome Empty_set rstring :=
  match PublishArgs.message args, PublishArgs.message_file args with
  | Some m, _ => Ok m
  | None, Some f => or_panic (file f)
  | None, None => Ok (str "hello world")
  end.

(** The message of iteration [i], a [u32]. *)
Definition publish_message (args : PublishArgs.Args) (message : rstring) (i : Z)
    : outcome Empty_set Publish :=
  let publish := set_payload_format PayloadFormat.Utf8 dflt in
  let publish := publish <| Publish.message_expiry := Some 1000 |>
                         <| Publish.topic_name := PublishArgs.topic args |>
                         <| Publish.payload := Some message |> in
  let publish := publish_set_qos (PublishArgs.qos args) publish in
  if bool_decide (PublishArgs.qos args <> QoSLevel.AtMostOnce)
  then or_panic (publish_set_packet_id (Some (u16 (i + 1))) publish)
  else Ok publish.

(** What the loop after a message has received. *)
Record Seen := mkSeen { pub_ack_recv : bool; pub_comp_recv : bool; pub_rec_recv : bool }.

#[export] Instance Seen_eta : Eta Seen := fun s => mkSeen (pub_ack_recv s) (pub_comp_recv s) (pub_rec_recv s).

(** The branches of its [select!]. *)
Inductive wake :=
| Elapsed
| FromAcks (packet : option Packet)
| FromConsumer (packet : option Packet).

Definition on_wake (qos : QoSLevel) (w : wake) (seen : Seen) : Seen :=
  match w with
  | FromAcks (Some (Packet.PubAck _)) =>
      if bool_decide (qos = QoSLevel.AtLeastOnce) then seen <| pub_ack_recv := true |> else seen
  | FromAcks (Some (Packet.PubComp _)) =>
      if bool_decide (qos = QoSLevel.ExactlyOnce) then seen <| pub_comp_recv := true |> else seen
  | FromAcks (Some (Packet.PubRec _)) =>
      if bool_decide (qos = QoSLevel.ExactlyOnce) then seen <| pub_rec_recv := true |> else seen
  | _ => seen
  end.

Definition acknowledged (qos : QoSLevel) (seen : Seen) : bool :=
  match qos with
  | QoSLevel.AtMostOnce => true
  | QoSLevel.AtLeastOnce => pub_ack_recv seen
  | QoSLevel.ExactlyOnce => pub_comp_recv seen && pub_rec_recv seen
  end.

(** The loop on the events that happen: the events after it, or none while it
    still waits. *)
Fixpoint await_acks (qos : QoSLevel) (events : list wake) (seen : Seen) : option (list wake) :=
  match events with
  | [] => None
  | w :: events =>
      let seen := on_wake qos w seen in
      if acknowledged qos seen then Some events else await_acks qos events seen
  end.

Definition nothing_seen : Seen := mkSeen false false false.

(** The messages from number [i] on; a closed channel is only reported.  [None]
    while an acknowledgement is awaited. *)
Fixpoint publish_loop (args : PublishArgs.Args) (message : rstring) (n : nat) (i producer : Z)
    (events : list wake) : M Channels Empty_set (option (list wake)) :=
  match n with
  | O => mret (Some events)
  | S n =>
      publish ← lift (publish_message args message i);
      attempt (chan_send tt producer (Packet.Publish publish)) ≫= fun _ =>
      match await_acks (PublishArgs.qos args) events nothing_seen with
      | Some events => publish_loop args message n (i + 1) producer events
      | None => mret None
      end
  end.

(** ** subscribe.rs *)

Definition subscribe_builder (uuid : rstring) (connection : MqttConnection) (args : SubscribeArgs.Args)
    : ClientBuilder :=
  let b := ClientBuilder.new uuid connection in
  let b := ClientBuilder.with_auto_ack (SubscribeArgs.auto_ack args) b in
  let b := ClientBuilder.with_auto_packet_id true b in
  let b := ClientBuilder.with_receive_max 10 b in
  let b := ClientBuilder.with_session_expiry (secs 600) b in
  let b := ClientBuilder.with_keep_alive (secs 30) b in
  ClientBuilder.with_max_connect_wait (secs 5) b.

Definition subscription (args : SubscribeArgs.Args) : Subscribe :=
  Subscribe_new_with_filter 1 [SubscriptionFilter_new (str "hello-vaux") (SubscribeArgs.qos args)].

(** The text is shown: a payload is needed, and it has to be UTF-8. *)
Definition show_message (p : Publish) : outcome Empty_set unit :=
  match Publish.payload_format p with
  | None | Some PayloadFormat.Utf8 =>
      match Publish.payload p with
      | Some payload => if utf8_valid payload then Ok tt else Panic
      | None => Panic
      end
  | Some PayloadFormat.Bin => Ok tt
  end.

(** The body of the loop: the acknowledgement that is sent to the client. *)
Definition on_received (args : SubscribeArgs.Args) (packet : Packet) : outcome Empty_set (option Packet) :=
  match packet with
  | Packet.Publish p =>
      match show_message p with
      | Ok _ =>
          if SubscribeArgs.auto_ack args then
            match publish_qos p with
            | Ok QoSLevel.AtLeastOnce =>
                match Publish.packet_id p with
                | Some id => Ok (Some (Packet.PubAck (new_puback_with_packet_id id)))
                | None => Panic
                end
            | Ok QoSLevel.ExactlyOnce =>
                match Publish.packet_id p with
                | Some id => Ok (Some (Packet.PubRec (new_pubrec_with_packet_id id)))
                | None => Panic
                end
            | Ok QoSLevel.AtMostOnce => Ok None
            | _ => Panic
            end
          else Ok None
      | _ => Panic
      end
  | _ => Ok None
  end.

(** The loop on what the consumer receives, with whether the client is connected
    afterwards: the acknowledgements sent and whether the loop has ended.  A
    closed channel leaves [select!] without a branch. *)
Fixpoint subscribe_loop (args : SubscribeArgs.Args) (events : list (option Packet * bool))
    : outcome Empty_set (list Packet * bool) :=
  match events with
  | [] => Ok ([], false)
  | (None, _) :: _ => Panic
  | (Some packet, connected) :: events =>
      match on_received args packet with
      | Ok ack =>
          if negb connected then Ok (option_list ack, true)
          else match subscribe_loop args events with
               | Ok (acks, ended) => Ok (option_list ack ++ acks, ended)
               | r => r
               end
      | Err e => match e with end
      | Panic => Panic
      | OutOfFuel => OutOfFuel
      end
  end.

(** ** roundtrip.rs *)

Definition TOPIC : rstring := Eval compute in str "roundtrip/test".

Definition roundtrip_subscriber (uuid : rstring) (connection : MqttConnection) (args : RoundtripArgs.Args)
    : ClientBuilder :=
  let b := ClientBuilder.new uuid connection in
  let b := ClientBuilder.with_client_id (str "roundtrip-sub") b in
  let b := ClientBuilder.with_auto_ack true b in
  let b := ClientBuilder.with_auto_packet_id true b in
  let b := ClientBuilder.with_keep_alive (secs (RoundtripArgs.keep_alive_secs args)) b in
  let b := ClientBuilder.with_max_connect_wait (secs 5) b in
  let b := ClientBuilder.with_max_packet_size MAX_RELAY_BUFFER b in
  match RoundtripArgs.channel_size args with
  | Some channel_size => ClientBuilder.with_channel_size channel_size b
  | None => b
  end.

Definition roundtrip_publisher (uuid : rstring) (connection : MqttConnection) (puback_sender : Z)
    : ClientBuilder :=
  let b := ClientBuilder.new uuid connection in
  let b := ClientBuilder.with_client_id (str "roundtrip-pub") b in
  let b := ClientBuilder.with_auto_ack true b in
  let b := ClientBuilder.with_auto_packet_id true b in
  let b := ClientBuilder.with_keep_alive (secs 30) b in
  let b := ClientBuilder.with_max_connect_wait (secs 5) b in
  ClientBuilder.with_filtered_consumer PacketType.PubAck puback_sender b.

Definition roundtrip_message (args : RoundtripArgs.Args) : Publish :=
  publish_set_qos QoSLevel.AtLeastOnce
    (dflt <| Publish.topic_name := TOPIC |>
          <| Publish.payload := Some (repeat 0xAB (Z.to_nat (RoundtripArgs.size args))) |>).

(** The loop that queues the messages. *)
Fixpoint queue_messages (n : nat) (producer : Z) (publish : Publish) : M Channels Empty_set unit :=
  match n with
  | O => mret tt
  | S n =>
      sent ← attempt (chan_send tt producer (Packet.Publish publish));
      match sent with
      | inr _ => queue_messages n producer publish
      | inl _ => panic
      end
  end.

(** How the test ends; [None] is a relay that has not returned in time. *)
Inductive Verdict := Pass | OnlySome (received : Z) | Failed (e : RelayError) | Panicked | TimedOut.

Definition verdict (args : RoundtripArgs.Args) (relay : option (outcome RelayError Z)) : Verdict :=
  match relay with
  | Some (Ok received) => if received =? RoundtripArgs.count args then Pass else OnlySome received
  | Some (Err e) => Failed e
  | Some Panic => Panicked
  | Some OutOfFuel | None => TimedOut
  end.

(** ** What they do *)

Lemma parse_qos_ok value q :
  parse_qos value = Ok q <-> value = str (match q with
    | QoSLevel.AtMostOnce => "0" | QoSLevel.AtLeastOnce => "1" | QoSLevel.ExactlyOnce => "2" end)%string.
Proof.
  unfold parse_qos. split.
  - repeat case_decide; intros; by simplify_eq.
  - intros ->. by destruct q.
Qed.

(** *** publish.rs *)

(** The acknowledgements among some events. *)
Definition has_ack (t : PacketType) (events : list wake) : bool :=
  existsb (fun w => match w with FromAcks (Some p) => bool_decide (PacketType_of p = t) | _ => false end) events.

(** What ends the loop of a QoS level. *)
Definition answered (qos : QoSLevel) (events : list wake) : bool :=
  match qos with
  | QoSLevel.AtMostOnce => true
  | QoSLevel.AtLeastOnce => has_ack PacketType.PubAck events
  | QoSLevel.ExactlyOnce => has_ack PacketType.PubComp events && has_ack PacketType.PubRec events
  end.

(** The flags are the acknowledgements among the events. *)
Definition seen_of (qos : QoSLevel) (events : list wake) : Seen :=
  mkSeen (bool_decide (qos = QoSLevel.AtLeastOnce) && has_ack PacketType.PubAck events)
    (bool_decide (qos = QoSLevel.ExactlyOnce) && has_ack PacketType.PubComp events)
    (bool_decide (qos = QoSLevel.ExactlyOnce) && has_ack PacketType.PubRec events).

Lemma has_ack_snoc t events w : has_ack t (events ++ [w]) = has_ack t events || has_ack t [w].
Proof. apply existsb_app. Qed.

Lemma on_wake_seen qos w events : on_wake qos w (seen_of qos events) = seen_of qos (events ++ [w]).
Proof.
  unfold seen_of. rewrite !has_ack_snoc.
  destruct qos; destruct w as [|[[]|]|]; simpl; rewrite ?orb_false_r, ?orb_true_r; done.
Qed.

Lemma acknowledged_seen qos events : acknowledged qos (seen_of qos events) = answered qos events.
Proof. by destruct qos. Qed.

Lemma await_acks_from qos events : forall past,
  match await_acks qos events (seen_of qos past) with
  | Some rest => exists used w, events = used ++ w :: rest /\ answered qos (past ++ used ++ [w]) = true
      /\ forall pre w' post, used = pre ++ w' :: post -> answered qos (past ++ pre ++ [w']) = false
  | None => events = [] \/ answered qos (past ++ events) = false
  end.
Proof.
  induction events as [|w events IH]; intros past; [by left |]. cbn [await_acks].
  rewrite on_wake_seen, acknowledged_seen. destruct (answered qos (past ++ [w])) eqn:E.
  - exists [], w. split_and!; [done | done |]. intros pre w' post Hp. by destruct pre.
  - specialize (IH (past ++ [w])). destruct (await_acks _ _ _) as [rest|].
    + destruct IH as (used & w1 & -> & Hw1 & Hpre). exists (w :: used), w1.
      rewrite <- !(assoc_L app) in Hw1. split_and!; [done | done |].
      intros [|w2 pre] w' post Hp; simplify_eq/=; [done |]. rewrite <- (Hpre pre w' post eq_refl).
      by rewrite <- !(assoc_L app).
    + right. destruct IH as [-> | IH]; [done |]. by rewrite <- (assoc_L app) in IH.
Qed.

(** After each message [publish.rs] goes on exactly when the message is
    acknowledged: at once at QoS 0, with the first PUBACK at QoS 1, and at QoS 2
    with whichever of PUBREC and PUBCOMP comes last.  Until then it waits,
    however often its timer fires and whatever else arrives: without an answer
    it never ends. *)
Theorem publish_waits_for_acks qos events :
  match await_acks qos events nothing_seen with
  | Some rest => exists used w, events = used ++ w :: rest /\ answered qos (used ++ [w]) = true
      /\ forall pre w' post, used = pre ++ w' :: post -> answered qos (pre ++ [w']) = false
  | None => events = [] \/ answered qos events = false
  end.
Proof.
  pose proof (await_acks_from qos events []) as H.
  assert (E : seen_of qos [] = nothing_seen) by by destruct qos. rewrite E in H. exact H.
Qed.

(** [publish.rs] numbers its messages from 1 in 16 bits, so that the
    identifier is the number of the message except for every 65536th, which gets
    the identifier 0 that MQTT forbids. *)
Theorem publish_identifiers args message i :
  PublishArgs.qos args <> QoSLevel.AtMostOnce -> 0 <= i < 4294967295 ->
  exists p, publish_message args message i = Ok p /\ publish_qos p = Ok (PublishArgs.qos args)
    /\ Publish.topic_name p = PublishArgs.topic args /\ Publish.payload p = Some message
    /\ Publish.packet_id p = Some ((i + 1) mod 65536)
    /\ (i < 65535 -> Publish.packet_id p = Some (i + 1))
    /\ (Publish.packet_id p = Some 0 <-> (i + 1) mod 65536 = 0).
Proof.
  intros Hq Hi. unfold publish_message. rewrite bool_decide_eq_true_2 by done. unfold publish_set_packet_id.
  cbv zeta. unfold publish_qos, publish_set_qos. simpl. rewrite header_qos_set.
  rewrite bool_decide_eq_false_2 by done. eexists. split; [done |]. simpl. unfold publish_qos. simpl.
  rewrite header_qos_set. split_and!; try done.
  - intros ?. unfold u16. by rewrite Z.mod_small by lia.
  - unfold u16. split; [by intros [= ->] | by intros ->].
Qed.

(** A message that is not acknowledged is the last one sent. *)
Lemma publish_loop_stops args message n i producer events s p s' :
  publish_message args message i = Ok p ->
  chan_send (E := unit) tt producer (Packet.Publish p) s = (Ok tt, s') ->
  answered (PublishArgs.qos args) events = false ->
  publish_loop args message (S n) i producer events s = (Ok None, s').
Proof.
  intros Hp Hs Ha. cbn [publish_loop]. unfold lift, mbind at 1, M_bind at 1. rewrite Hp.
  unfold mbind, M_bind, attempt. rewrite Hs.
  pose proof (await_acks_from (PublishArgs.qos args) events []) as H.
  assert (E : seen_of (PublishArgs.qos args) [] = nothing_seen) by by destruct (PublishArgs.qos args).
  rewrite E in H. destruct (await_acks _ events nothing_seen) as [rest|]; [| done].
  destruct H as (used & w & -> & Hw & _). simpl in Hw. exfalso.
  assert (Hmono : forall l l', answered (PublishArgs.qos args) l = true -> answered (PublishArgs.qos args) (l ++ l') = true).
  { intros l l'. unfold answered, has_ack. destruct (PublishArgs.qos args); rewrite ?existsb_app; [done | by intros -> |].
    intros [-> ->]%andb_true_iff. done. }
  apply (Hmono _ rest) in Hw. rewrite <- (assoc_L app) in Hw. simpl in Hw. congruence.
Qed.

(** *** subscribe.rs *)

Lemma subscribe_builder_acks uuid connection args s c s' :
  ClientBuilder.build (subscribe_builder uuid connection args) s = (Ok c, s') ->
  exists st, MqttClient.session_state c = Some st /\ SessionState.auto_ack st = SubscribeArgs.auto_ack args.
Proof.
  unfold ClientBuilder.build. simpl. intros H. apply bind_ok_inv in H as (c1 & s1 & H1 & H).
  injection H as <- _. unfold MqttClient.new_with_connection, MqttClient.new in H1.
  apply bind_ok_inv in H1 as (c2 & s2 & H2 & H1). injection H1 as <- _.
  apply bind_ok_inv in H2 as (ch1 & s3 & _ & H2). apply bind_ok_inv in H2 as (ch2 & s4 & _ & H2).
  injection H2 as <- _. simpl. by eexists.
Qed.

(** A message that is not marked binary and has no UTF-8 text. *)
Definition unreadable (p : Publish) : Prop :=
  Publish.payload_format p <> Some PayloadFormat.Bin
  /\ forall text, Publish.payload p = Some text -> utf8_valid text = false.

(** A message whose QoS bits are invalid, or one above QoS 0 without identifier. *)
Definition unanswerable (p : Publish) : Prop :=
  (forall q, publish_qos p <> Ok q)
  \/ (publish_qos p <> Ok QoSLevel.AtMostOnce /\ Publish.packet_id p = None).

(** The acknowledgement of a message. *)
Definition acknowledges (ack : Packet) (p : Publish) : Prop :=
  exists id, Publish.packet_id p = Some id
    /\ ((publish_qos p = Ok QoSLevel.AtLeastOnce /\ ack = Packet.PubAck (new_puback_with_packet_id id))
        \/ (publish_qos p = Ok QoSLevel.ExactlyOnce /\ ack = Packet.PubRec (new_pubrec_with_packet_id id))).

Lemma show_message_spec p :
  (unreadable p /\ show_message p = Panic) \/ (~ unreadable p /\ show_message p = Ok tt).
Proof.
  unfold unreadable, show_message.
  destruct (Publish.payload_format p) as [[]|], (Publish.payload p) as [text|];
    try (destruct (utf8_valid text) eqn:E);
    try (right; split; [intros [H1 H2]; first [done | by specialize (H2 text eq_refl); congruence] | done]);
    left; (split; [split; [done | by intros ? [= <-]] | done]).
Qed.

(** The three outcomes of the body of the loop. *)
Lemma on_received_spec args packet :
  (exists p, packet = Packet.Publish p /\ on_received args packet = Panic
     /\ (unreadable p \/ (SubscribeArgs.auto_ack args = true /\ unanswerable p)))
  \/ (exists p ack, packet = Packet.Publish p /\ on_received args packet = Ok (Some ack)
        /\ SubscribeArgs.auto_ack args = true /\ ~ unreadable p /\ acknowledges ack p)
  \/ (on_received args packet = Ok None
        /\ forall p, packet = Packet.Publish p ->
             ~ (unreadable p \/ (SubscribeArgs.auto_ack args = true /\ unanswerable p))
             /\ forall ack, SubscribeArgs.auto_ack args = true -> ~ acknowledges ack p).
Proof.
  destruct packet as [| | | |p| | | | | | | | |]; try (right; right; split; [done |]; by intros).
  cbn [on_received]. destruct (show_message_spec p) as [[Hr ->]|[Hr ->]].
  { left. exists p. split_and!; [done | done | by left]. }
  destruct (SubscribeArgs.auto_ack args); cycle 1.
  { right. right. split; [done |]. intros ? [= <-]. split; [by intros [|[]] | done]. }
  destruct (publish_qos p) as [q|e| |] eqn:Eq;
    [| left; exists p; split_and!; [done | done |]; right; split; [done |]; left; congruence ..].
  destruct (decide (q = QoSLevel.AtMostOnce)) as [->|Hq].
  - right. right. split; [done |]. intros ? [= <-]. split.
    + intros [|[_ [H|[H _]]]]; [done | by apply H in Eq | done].
    + intros ack _ (id & _ & [[H _]|[H _]]); congruence.
  - destruct (Publish.packet_id p) as [id|] eqn:Ei.
    + right. left. destruct q; [done | |]; exists p; eexists; (split_and!; [done .. |]); exists id; auto.
    + left. exists p. split_and!; [done | by destruct q |]. right. split; [done |]. right. split; congruence.
Qed.

(** C40: [subscribe.rs] acknowledges nothing itself.  It sends an acknowledgement
    for exactly the readable messages of QoS 1 (PUBACK) and 2 (PUBREC) with an
    identifier, and only when automatic acknowledgement is on; the client, which
    has acknowledged already, then throws it away.  So what is received with
    automatic acknowledgement off is never acknowledged.  The program panics
    exactly on a message without UTF-8 text that is not marked binary and, with
    automatic acknowledgement, on one with invalid QoS bits or, above QoS 0,
    without an identifier. *)
Theorem subscribe_acks_discarded args packet (s : Channels) t :
  SessionState.auto_ack (ClientSession.state (Task.session t)) = SubscribeArgs.auto_ack args ->
  (on_received args packet = Panic
   <-> exists p, packet = Packet.Publish p
         /\ (unreadable p \/ (SubscribeArgs.auto_ack args = true /\ unanswerable p)))
  /\ (forall ack, on_received args packet = Ok (Some ack)
       <-> SubscribeArgs.auto_ack args = true
           /\ exists p, packet = Packet.Publish p /\ ~ unreadable p /\ acknowledges ack p)
  /\ (on_received args packet = Panic \/ exists o, on_received args packet = Ok o)
  /\ (forall ack, on_received args packet = Ok (Some ack) ->
       on_inbound (Some ack) (s, t) = (Ok Again, (s, t))).
Proof.
  intros Ha. assert (Hin : forall ack, qos_control ack = true -> SubscribeArgs.auto_ack args = true ->
    on_inbound (Some ack) (s, t) = (Ok Again, (s, t))).
  { intros ack Hack Hauto. unfold on_inbound, mbind, M_bind, in_session, state_of, gets. cbn.
    rewrite Hack, Ha, Hauto. by destruct t. }
  destruct (on_received_spec args packet) as [(p & -> & E & Hp)|[(p & ack & -> & E & Hauto & Hr & Hack)|[E Hnone]]].
  - rewrite E. split_and!; [| | by left | done].
    + split; [by exists p | done].
    + intros ack. split; [done |]. intros (Hauto & p' & [= <-] & Hr & id & Hid & Hq). exfalso.
      destruct Hp as [|[_ [Hbad|[_ Hbad]]]]; [done | destruct Hq as [[Hq _]|[Hq _]]; by apply Hbad in Hq | congruence].
  - rewrite E. split_and!; [| | right; by eexists |].
    + split; [done |]. intros (p' & [= <-] & [|[_ Hbad]]); [done |]. exfalso.
      destruct Hack as (id & Hid & Hq). destruct Hbad as [Hbad|[_ Hbad]]; [| congruence].
      destruct Hq as [[Hq _]|[Hq _]]; by apply Hbad in Hq.
    + intros ack'. split; [intros [= <-]; split; [done | by exists p] |].
      intros (_ & p' & [= <-] & _ & id' & Hid' & Hq'). destruct Hack as (id & Hid & Hq).
      rewrite Hid in Hid'. injection Hid' as <-.
      destruct Hq as [[Hq ->]|[Hq ->]], Hq' as [[Hq' ->]|[Hq' ->]]; congruence.
    + intros ack' [= <-]. apply Hin; [| done]. by destruct Hack as (id & _ & [[_ ->]|[_ ->]]).
  - rewrite E. split_and!; [| | right; by eexists | done].
    + split; [done |]. intros (p & -> & Hbad). by destruct (Hnone p eq_refl) as [Hn _].
    + intros ack. split; [done |]. intros (Hauto & p & -> & _ & Hack). by destruct (Hnone p eq_refl) as [_ Hn]; apply Hn in Hack.
Qed.

(** Without automatic acknowledgement the whole program sends none. *)
Lemma subscribe_loop_silent args events acks ended :
  SubscribeArgs.auto_ack args = false -> subscribe_loop args events = Ok (acks, ended) -> acks = [].
Proof.
  intros Ha. revert acks ended. induction events as [|[[packet|] connected] events IH]; intros acks ended;
    cbn [subscribe_loop]; [by intros [= <- _] | | done].
  assert (Hn : forall ack, on_received args packet = Ok ack -> ack = None).
  { destruct packet; cbn [on_received]; rewrite ?Ha; try (intros; congruence).
    destruct (show_message p); intros; congruence. }
  destruct (on_received args packet) as [ack|[]| |]; [| done ..]. rewrite (Hn ack eq_refl).
  destruct (negb connected); [by intros [= <- _] |].
  destruct (subscribe_loop args events) as [[acks' ended']|[]| |]; [| done ..].
  intros [= <- _]. by rewrite (IH acks' ended').
Qed.

(** *** roundtrip.rs *)

(** The subscriber of the test is refused a short keep-alive interval, and a
    channel without room panics. *)
Theorem roundtrip_subscriber_built uuid connection args s :
  match ClientBuilder.build (roundtrip_subscriber uuid connection args) s with
  | (Ok c, _) => 30 <= RoundtripArgs.keep_alive_secs args /\ RoundtripArgs.channel_size args <> Some 0
      /\ exists st, MqttClient.session_state c = Some st
         /\ SessionState.client_id st = Some (str "roundtrip-sub") /\ SessionState.auto_ack st = true
         /\ SessionState.max_packet_size st = MAX_RELAY_BUFFER
  | (Err e, _) => e = BuilderError.MinKeepAlive /\ RoundtripArgs.keep_alive_secs args < 30
  | (Panic, _) => RoundtripArgs.channel_size args = Some 0
  | _ => False
  end.
Proof.
  unfold ClientBuilder.build, roundtrip_subscriber. destruct (RoundtripArgs.channel_size args) as [n|] eqn:En; simpl;
    unfold ClientBuilder.MIN_KEEP_ALIVE, secs;
    (destruct (Z.ltb_spec (RoundtripArgs.keep_alive_secs args * 1000000000) (30 * 1000000000)); [split; [done | lia] |]);
    unfold MqttClient.new_with_connection, MqttClient.new, PacketChannel.new_with_size, mpsc_channel; simpl.
  - destruct (Z.eqb_spec n 0) as [->|Hn]; [done |]. unfold mbind, M_bind, gets, modify, mret, M_ret. simpl.
    split_and!; [lia | congruence |]. by eexists.
  - unfold mbind, M_bind, gets, modify, mret, M_ret. simpl. split_and!; [lia | congruence |]. by eexists.
Qed.

(** The verdict of the test: it passes when the relay returns, which it does with
    an acknowledgement for every message; that only some came back is never
    reported. *)
Theorem roundtrip_verdict args sub pub tr r :
  0 <= RoundtripArgs.count args ->
  relay_run (RoundtripArgs.count args) (relay_start (RoundtripArgs.count args) sub pub) tr r ->
  match verdict args (result r) with
  | Pass => exists n, result r = Some (Ok n)
  | OnlySome _ => False
  | _ => forall n, result r <> Some (Ok n)
  end.
Proof.
  intros Hc Hrun. pose proof (ro_result _ _ _ _ _ (relay_run_ok _ _ _ _ _ Hc Hrun)) as Hres. unfold verdict.
  destruct (result r) as [[n|e| |]|]; try done. rewrite (Hres n eq_refl), Z.eqb_refl. by eexists.
Qed.
End programs.
