(* ===== verification/Sessions.v ===== *)
(** * vaux-broker/src/session.rs and config.rs: sessions and the session pool *)
(** A session is shared between the pool, the connection that serves it and the
    router ([Arc<RwLock<Session>>]): the model keeps the sessions in a store and
    passes references.  The pool keeps two maps from client identifier to
    reference, for connected and disconnected sessions, with a counter each.
    The channels and tokens are those of [Runtime]. *)

From S2P Require Import Prelude Runtime Codec Publish Connect Topic.

Module SessionControl.
Inductive SessionControl := Disconnect (reason : Reason) | Deliver (publish : Publish).
End SessionControl.
Abbreviation SessionControl := SessionControl.SessionControl.

(** ** Configuration *)

Definition DEFAULT_KEEP_ALIVE_SECS : Z := 30.
Definition MAX_KEEP_ALIVE_AS_SECS : Z := 120.

(** [(n as f32 * BROKER_KEEP_ALIVE_FACTOR) as u64] for a [u16]: 1.5 times, the
    product is exact in an [f32], the cast rounds down. *)
Definition keep_alive_factor (n : Z) : Z := n * 3 / 2.

Definition DEFAULT_KEEP_ALIVE : Z := secs (keep_alive_factor DEFAULT_KEEP_ALIVE_SECS).
Definition MAX_KEEP_ALIVE : Z := secs (keep_alive_factor MAX_KEEP_ALIVE_AS_SECS).
Definition DEFAULT_SESSION_EXPIRY : Z := secs (60 * 10).
Definition DEFAULT_SESSION_CHANNEL_SIZE : Z := 10.
Definition DEFAULT_MAX_TOPIC_NAME_LEN : Z := 4096.
Definition DEFAULT_MAX_TOPIC_MEM : Z := 1024 * 1000.

Module Config.
(** Without the listen address and the TLS acceptor. *)
Record Config := mk {
  default_keep_alive : Z;
  max_keep_alive : Z;
  session_expiry : Z;
  max_topic_name_len : Z;
  max_topic_mem : Z;
  session_channel_size : Z;
  max_active_sessions : option Z;
}.
End Config.
Abbreviation Config := Config.Config.

#[export] Instance Config_eta : Eta Config := fun c =>
  Config.mk (Config.default_keep_alive c) (Config.max_keep_alive c) (Config.session_expiry c)
    (Config.max_topic_name_len c) (Config.max_topic_mem c) (Config.session_channel_size c)
    (Config.max_active_sessions c).

Definition Config_default : Config :=
  Config.mk DEFAULT_KEEP_ALIVE MAX_KEEP_ALIVE DEFAULT_SESSION_EXPIRY DEFAULT_MAX_TOPIC_NAME_LEN
    DEFAULT_MAX_TOPIC_MEM DEFAULT_SESSION_CHANNEL_SIZE None.

(** ** Sessions *)

Module Session.
Record Session := mk {
  id : rstring;
  last_active : Z;
  connected : bool;
  keep_alive : Z;
  session_expiry : option Z;
  will_message : option WillMessage;
  pending_will : option Z;
  next_packet_id : Z;
  pending_ack : gmap Z Publish;
  sender : Z;
  receiver : option Z;
}.
End Session.
Abbreviation Session := Session.Session.

#[export] Instance Session_eta : Eta Session := fun s =>
  Session.mk (Session.id s) (Session.last_active s) (Session.connected s) (Session.keep_alive s)
    (Session.session_expiry s) (Session.will_message s) (Session.pending_will s)
    (Session.next_packet_id s) (Session.pending_ack s) (Session.sender s) (Session.receiver s).

(** [Session::new]; [now] is [Instant::now()] and [channel] the new channel. *)
Definition Session_new (id : rstring) (will : option WillMessage) (keep_alive now channel : Z)
    : Session :=
  Session.mk id now false keep_alive None will None 1 ∅ channel (Some channel).

Definition reset_control (channel : Z) (s : Session) : Session :=
  s <| Session.sender := channel |> <| Session.receiver := Some channel |>.

Definition take_control_receiver (s : Session) : option Z * Session :=
  (Session.receiver s, s <| Session.receiver := None |>).

Definition clear_will (s : Session) : Session := s <| Session.will_message := None |>.
Definition session_set_will (will : option WillMessage) (s : Session) : Session :=
  s <| Session.will_message := will |>.
Definition take_will (s : Session) : option WillMessage * Session :=
  (Session.will_message s, s <| Session.will_message := None |>).

(** [next_packet_id]: the identifier to use, and the session with the next one. *)
Definition next_packet_id (s : Session) : Z * Session :=
  let id := Session.next_packet_id s in
  let next := u16 (id + 1) in
  let next := if next =? 0 then 1 else next in
  (id, s <| Session.next_packet_id := next |>).

Definition track_qos_publish (packet_id : Z) (publish : Publish) (s : Session) : Session :=
  s <| Session.pending_ack := <[packet_id := publish]> (Session.pending_ack s) |>.

Definition acknowledge (packet_id : Z) (s : Session) : bool * Session :=
  (bool_decide (is_Some (Session.pending_ack s !! packet_id)),
   s <| Session.pending_ack := delete packet_id (Session.pending_ack s) |>).

Definition pending_ack_count (s : Session) : Z := Z.of_nat (size (Session.pending_ack s)).

(** [HashMap::drain] yields the entries in an unspecified order. *)
Class DrainOrder := {
  drain_order : gmap Z Publish -> list (Z * Publish);
  drain_order_perm m : drain_order m ≡ₚ map_to_list m;
}.

#[export] Instance map_to_list_drain : DrainOrder :=
  {| drain_order := map_to_list; drain_order_perm m := reflexivity _ |}.

Definition drain_pending `{DrainOrder} (s : Session) : list (Z * Publish) * Session :=
  (drain_order (Session.pending_ack s), s <| Session.pending_ack := ∅ |>).

Definition set_connected (connected : bool) (s : Session) : Session :=
  s <| Session.connected := connected |>.
Definition set_last_active (now : Z) (s : Session) : Session := s <| Session.last_active := now |>.
Definition session_set_keep_alive (keep_alive : Z) (s : Session) : Session :=
  s <| Session.keep_alive := keep_alive |>.
Definition session_set_session_expiry (session_expiry : Z) (s : Session) : Session :=
  s <| Session.session_expiry := Some session_expiry |>.

Definition expired (now : Z) (s : Session) : bool :=
  match Session.session_expiry s with
  | Some session_expiry => session_expiry <? now - Session.last_active s
  | None => true
  end.

(** ** The pool *)

Module SessionPool.
Record SessionPool := mk {
  session_expiry : Z;
  default_keep_alive : Z;
  max_keep_alive : Z;
  active : gmap rstring Z;
  inactive : gmap rstring Z;
  active_sessions : Z;
  inactive_sessions : Z;
}.
End SessionPool.
Abbreviation SessionPool := SessionPool.SessionPool.

#[export] Instance SessionPool_eta : Eta SessionPool := fun p =>
  SessionPool.mk (SessionPool.session_expiry p) (SessionPool.default_keep_alive p)
    (SessionPool.max_keep_alive p) (SessionPool.active p) (SessionPool.inactive p)
    (SessionPool.active_sessions p) (SessionPool.inactive_sessions p).

Definition new_with_expiry (expiry : Z) : SessionPool := SessionPool.mk expiry 0 0 ∅ ∅ 0 0.

Definition new_with_config (config : Config) : SessionPool :=
  SessionPool.mk (Config.session_expiry config) (Config.default_keep_alive config)
    (Config.max_keep_alive config) ∅ ∅ 0 0.

Definition default_keep_alive_secs (p : SessionPool) : Z :=
  u16 (as_secs (SessionPool.default_keep_alive p)).
Definition max_keep_alive_secs (p : SessionPool) : Z :=
  u16 (as_secs (SessionPool.max_keep_alive p)).

Definition pool_set_session_expiry (expiry : Z) (p : SessionPool) : SessionPool :=
  p <| SessionPool.session_expiry := expiry |>.

Definition at_capacity (max : option Z) (p : SessionPool) : bool :=
  match max with Some limit => limit <=? SessionPool.active_sessions p | None => false end.

(** ** The shared state *)

(** [BrokerState] (config, pool, topic tree, accept flag) with the objects its
    references lead to: sessions, channels, tokens, the wills that wait for
    their delay under their token, the next new token, and the clock. *)
Record World `{Runtime} := mkWorld {
  config : Config;
  session_pool : SessionPool;
  topic_tree : TopicTree;
  accept_connections : bool;
  sessions : gmap Z Session;
  channels : gmap Z (chan SessionControl);
  cancelled : tokens;
  delayed_wills : gmap Z (Z * WillMessage);
  next_token : Z;
  clock : Z;
}.

#[export] Instance World_eta `{Runtime} : Eta World := fun w =>
  mkWorld _ (config w) (session_pool w) (topic_tree w) (accept_connections w) (sessions w)
    (channels w) (cancelled w) (delayed_wills w) (next_token w) (clock w).

(** The address of a new object. *)
Definition new_ref {A} (m : gmap Z A) : Z := fresh (dom m).

Lemma new_ref_fresh {A} (m : gmap Z A) : m !! new_ref m = None.
Proof. apply not_elem_of_dom, is_fresh. Qed.

Section pool.
Context `{Runtime}.

Abbreviation Broker := (M World Empty_set).

(** [session.read().await] and [session.write().await]. *)
Definition session_at (r : Z) : Broker Session :=
  w ← get;
  lift (unwrap (sessions w !! r)).

Definition with_session (r : Z) (f : Session -> Session) : Broker unit :=
  s ← session_at r;
  modify (fun w => w <| sessions := <[r := f s]> (sessions w) |>).

Definition in_pool {A} (f : SessionPool -> A) : Broker A := gets (fun w => f (session_pool w)).
Definition with_pool (f : SessionPool -> SessionPool) : Broker unit :=
  modify (fun w => w <| session_pool := f (session_pool w) |>).

Definition count_active (n : Z) (p : SessionPool) : SessionPool :=
  p <| SessionPool.active_sessions := u32 (SessionPool.active_sessions p + n) |>.
Definition count_inactive (n : Z) (p : SessionPool) : SessionPool :=
  p <| SessionPool.inactive_sessions := u32 (SessionPool.inactive_sessions p + n) |>.
Definition insert_active (id : rstring) (r : Z) (p : SessionPool) : SessionPool :=
  p <| SessionPool.active := <[id := r]> (SessionPool.active p) |>.
Definition insert_inactive (id : rstring) (r : Z) (p : SessionPool) : SessionPool :=
  p <| SessionPool.inactive := <[id := r]> (SessionPool.inactive p) |>.
Definition delete_active (id : rstring) (p : SessionPool) : SessionPool :=
  p <| SessionPool.active := delete id (SessionPool.active p) |>.
Definition delete_inactive (id : rstring) (p : SessionPool) : SessionPool :=
  p <| SessionPool.inactive := delete id (SessionPool.inactive p) |>.

Definition add (r : Z) : Broker unit :=
  s ← session_at r;
  if Session.connected s then
    with_pool (fun p => insert_active (Session.id s) r (count_active 1 p))
  else
    with_pool (fun p => insert_inactive (Session.id s) r (count_inactive 1 p)).

Definition remove (session_id : rstring) : Broker (option Z) :=
  p ← in_pool id;
  match SessionPool.active p !! session_id with
  | Some r =>
      with_pool (fun p => count_active (-1) (delete_active session_id p)) ≫= fun _ => mret (Some r)
  | None =>
      match SessionPool.inactive p !! session_id with
      | Some r =>
          with_pool (fun p => count_inactive (-1) (delete_inactive session_id p)) ≫= fun _ =>
          mret (Some r)
      | None => mret None
      end
  end.

Definition get_active (session_id : rstring) : Broker (option Z) :=
  in_pool (fun p => SessionPool.active p !! session_id).

Definition remove_active (session_id : rstring) : Broker (option Z) :=
  p ← in_pool id;
  match SessionPool.active p !! session_id with
  | Some r =>
      with_pool (fun p => count_active (-1) (delete_active session_id p)) ≫= fun _ => mret (Some r)
  | None => mret None
  end.

(** The body of [activate] and of [deactivate] for a session that was found. *)
Definition activate_found (session_id : rstring) (r : Z) : Broker (option Z) :=
  with_pool (delete_inactive session_id) ≫= fun _ =>
  now ← gets clock;
  with_session r (fun s => set_last_active now (set_connected true s)) ≫= fun _ =>
  s ← session_at r;
  with_pool (fun p => count_inactive (-1) (insert_active (Session.id s) r (count_active 1 p)))
  ≫= fun _ => mret (Some r).

Definition deactivate_found (session_id : rstring) (r : Z) : Broker (option Z) :=
  with_pool (delete_active session_id) ≫= fun _ =>
  with_session r (set_connected false) ≫= fun _ =>
  s ← session_at r;
  with_pool (fun p => count_active (-1) (insert_inactive (Session.id s) r (count_inactive 1 p)))
  ≫= fun _ => mret (Some r).

Definition activate (session_id : rstring) : Broker (option Z) :=
  p ← in_pool id;
  match SessionPool.inactive p !! session_id with
  | Some r => activate_found session_id r
  | None => mret None
  end.

Definition deactivate (session_id : rstring) : Broker (option Z) :=
  p ← in_pool id;
  match SessionPool.active p !! session_id with
  | Some r => deactivate_found session_id r
  | None => mret None
  end.
End pool.

(** ** Invariant and abstract view of the pool *)

(** A client identifier has at most one session, connected or not. *)
Definition pool_view (p : SessionPool) (id : rstring) : option (Z * bool) :=
  match SessionPool.active p !! id with
  | Some r => Some (r, true)
  | None => (fun r => (r, false)) <$> SessionPool.inactive p !! id
  end.

Section pool_facts.
Context `{Runtime}.
Implicit Types w : World.

(** The counters are the sizes of the maps, no identifier is in both, and a
    session is filed under its own identifier and connection state. *)
Record pool_ok w : Prop := {
  p_active_count : SessionPool.active_sessions (session_pool w)
    = u32 (Z.of_nat (size (SessionPool.active (session_pool w))));
  p_inactive_count : SessionPool.inactive_sessions (session_pool w)
    = u32 (Z.of_nat (size (SessionPool.inactive (session_pool w))));
  p_disjoint id r : SessionPool.active (session_pool w) !! id = Some r ->
    SessionPool.inactive (session_pool w) !! id = None;
  p_filed id r b : pool_view (session_pool w) id = Some (r, b) ->
    exists s, sessions w !! r = Some s /\ Session.id s = id /\ Session.connected s = b;
}.

Lemma insert_count (m : gmap rstring Z) id r :
  m !! id = None -> u32 (u32 (Z.of_nat (size m)) + 1) = u32 (Z.of_nat (size (<[id := r]> m))).
Proof. intros Hm. rewrite map_size_insert_None, u32_u32_l by done. f_equal. lia. Qed.

Lemma delete_count (m : gmap rstring Z) id r :
  m !! id = Some r -> u32 (u32 (Z.of_nat (size m)) + -1) = u32 (Z.of_nat (size (delete id m))).
Proof.
  intros Hm. assert (Hd : m = <[id := r]> (delete id m)) by (by rewrite insert_delete_id).
  rewrite Hd at 1. rewrite map_size_insert_None by apply lookup_delete_eq.
  rewrite u32_u32_l. f_equal. lia.
Qed.

Lemma session_at_run {A} (k : Session -> M World Empty_set A) r s w :
  sessions w !! r = Some s -> (session_at r ≫= k) w = k s w.
Proof.
  intros Hs. unfold session_at. unfold mbind at 1, M_bind at 1. rewrite bind_get.
  unfold lift, unwrap. by rewrite Hs.
Qed.

Lemma with_session_run {A} (k : unit -> M World Empty_set A) r f s w :
  sessions w !! r = Some s ->
  (with_session r f ≫= k) w = k tt (w <| sessions := <[r := f s]> (sessions w) |>).
Proof.
  intros Hs. unfold with_session. unfold mbind at 1, M_bind at 1.
  by rewrite (session_at_run _ _ _ _ Hs).
Qed.

(** Sessions under different identifiers are different objects. *)
Lemma pool_refs_distinct w id id' r b b' :
  pool_ok w -> pool_view (session_pool w) id = Some (r, b) ->
  pool_view (session_pool w) id' = Some (r, b') -> id = id'.
Proof.
  intros Hok H1 H2. apply (p_filed w Hok) in H1 as (s & Hs & <- & _).
  apply (p_filed w Hok) in H2 as (s' & Hs' & <- & _). congruence.
Qed.

Lemma view_active w id r :
  SessionPool.active (session_pool w) !! id = Some r -> pool_view (session_pool w) id = Some (r, true).
Proof. intros Hr. unfold pool_view. by rewrite Hr. Qed.

(** Filing a new session. *)
Lemma add_run w r s :
  pool_ok w -> sessions w !! r = Some s -> pool_view (session_pool w) (Session.id s) = None ->
  exists p, add r w = (Ok tt, w <| session_pool := p |>)
    /\ pool_ok (w <| session_pool := p |>)
    /\ forall id, pool_view p id = if decide (id = Session.id s) then Some (r, Session.connected s)
                                  else pool_view (session_pool w) id.
Proof.
  intros Hok Hs Hv. pose proof Hok as [Ha Hi Hd Hf]. unfold add. rewrite (session_at_run _ _ _ _ Hs).
  unfold pool_view in Hv.
  destruct (SessionPool.active (session_pool w) !! Session.id s) eqn:Ea; [done |].
  destruct (SessionPool.inactive (session_pool w) !! Session.id s) eqn:Ei; [done |].
  unfold with_pool, modify. destruct (Session.connected s) eqn:Ec; eexists; (split; [reflexivity |]).
  all: match goal with |- ?P /\ ?Q => assert (Hview : Q) end;
    [intros id; unfold pool_view; simpl;
     destruct (decide (id = Session.id s)) as [->|]; simplify_map_eq; done |].
  all: split; [| done]; constructor; simpl.
  all: try (intros id r' b H'; rewrite Hview in H'; case_decide; simplify_eq; eauto; fail).
  all: try (intros id r' H'; destruct (decide (id = Session.id s)) as [->|]; simplify_map_eq; eauto; fail).
  - rewrite Ha. by apply insert_count.
  - done.
  - done.
  - rewrite Hi. by apply insert_count.
Qed.

Lemma remove_run w id :
  pool_ok w ->
  exists p, remove id w = (Ok (fst <$> pool_view (session_pool w) id), w <| session_pool := p |>)
    /\ pool_ok (w <| session_pool := p |>)
    /\ forall id', pool_view p id' = if decide (id' = id) then None else pool_view (session_pool w) id'.
Proof.
  intros Hok. pose proof Hok as [Ha Hi Hd Hf]. unfold remove, in_pool, gets.
  unfold mbind at 1, M_bind at 1. simpl.
  destruct (SessionPool.active (session_pool w) !! id) as [r|] eqn:Ea;
    [| destruct (SessionPool.inactive (session_pool w) !! id) as [r|] eqn:Ei].
  3: { exists (session_pool w). unfold pool_view at 1. rewrite Ea, Ei. destruct w.
       split_and!; [done | done |]. intros id'. case_decide; [subst | done].
       unfold pool_view. by rewrite Ea, Ei. }
  all: eexists; (split; [unfold pool_view; rewrite Ea, ?Ei; reflexivity |]).
  all: match goal with |- ?P /\ ?Q => assert (Hview : Q) end;
    [intros id'; unfold pool_view; simpl; pose proof (Hd id r);
     destruct (decide (id' = id)) as [->|]; simplify_map_eq; auto; by rewrite H0 |].
  all: split; [| done]; constructor; simpl.
  all: try (intros id' r' b H'; rewrite Hview in H'; case_decide; simplify_eq; eauto; fail).
  all: try (intros id' r' H'; destruct (decide (id' = id)) as [->|]; simplify_map_eq; eauto; fail).
  - rewrite Ha. by eapply delete_count.
  - done.
  - done.
  - rewrite Hi. by eapply delete_count.
Qed.

(** Moving a session between the two maps; [f] is what happens to the session. *)
Lemma refile_ok w p id r s f b :
  pool_ok w -> pool_view (session_pool w) id = Some (r, negb b) -> sessions w !! r = Some s ->
  Session.id (f s) = id -> Session.connected (f s) = b ->
  SessionPool.active_sessions p = u32 (Z.of_nat (size (SessionPool.active p))) ->
  SessionPool.inactive_sessions p = u32 (Z.of_nat (size (SessionPool.inactive p))) ->
  SessionPool.active p = (if b then <[id := r]> else delete id) (SessionPool.active (session_pool w)) ->
  SessionPool.inactive p = (if b then delete id else <[id := r]>) (SessionPool.inactive (session_pool w)) ->
  pool_ok (w <| session_pool := p |> <| sessions := <[r := f s]> (sessions w) |>)
  /\ forall id', pool_view p id' = if decide (id' = id) then Some (r, b) else pool_view (session_pool w) id'.
Proof.
  intros Hok Hv Hs Hid Hb Hca Hci Ea Ei. pose proof Hok as [_ _ Hd Hf].
  assert (Hview : forall id', pool_view p id'
    = if decide (id' = id) then Some (r, b) else pool_view (session_pool w) id').
  { intros id'. unfold pool_view. rewrite Ea, Ei. destruct (decide (id' = id)) as [->|], b;
      by simplify_map_eq. }
  split; [| done]. constructor; simpl; [done | done | |].
  - intros id' r' H'. rewrite Ea in H'. rewrite Ei.
    destruct (decide (id' = id)) as [->|], b; simplify_map_eq; eauto.
  - intros id' r' b' H'. rewrite Hview in H'. case_decide as E; simplify_eq.
    + exists (f s). by rewrite lookup_insert_eq.
    + destruct (decide (r' = r)) as [->|Hne]; [| rewrite lookup_insert_ne by done; eauto].
      exfalso. apply E. eapply pool_refs_distinct; eauto.
Qed.

Lemma activate_run w id :
  pool_ok w ->
  match pool_view (session_pool w) id with
  | Some (r, false) =>
      exists p s, sessions w !! r = Some s
        /\ let s' := set_last_active (clock w) (set_connected true s) in
           let w' := w <| session_pool := p |> <| sessions := <[r := s']> (sessions w) |> in
           activate id w = (Ok (Some r), w') /\ pool_ok w'
           /\ forall id', pool_view p id' = if decide (id' = id) then Some (r, true)
                                           else pool_view (session_pool w) id'
  | _ => activate id w = (Ok None, w)
  end.
Proof.
  intros Hok. pose proof Hok as [Ha Hi Hd Hf].
  assert (Hrun : activate id w = (match SessionPool.inactive (session_pool w) !! id with
    | Some r => activate_found id r | None => mret None end) w) by done.
  rewrite Hrun. unfold pool_view at 1.
  destruct (SessionPool.active (session_pool w) !! id) as [r|] eqn:Ea; [by rewrite (Hd id r Ea) |].
  destruct (SessionPool.inactive (session_pool w) !! id) as [r|] eqn:Ei; [| done].
  cbn [fmap option_fmap option_map].
  assert (Hv : pool_view (session_pool w) id = Some (r, negb true)).
  { unfold pool_view. by rewrite Ea, Ei. }
  destruct (Hf id r false Hv) as (s & Hs & Hid & Hc). do 2 eexists. split; [exact Hs |]. cbv zeta.
  split.
  - unfold activate_found, with_pool, modify, gets.
    unfold mbind at 1, M_bind at 1. unfold mbind at 1, M_bind at 1.
    rewrite (with_session_run _ _ _ s) by done.
    erewrite session_at_run by apply lookup_insert_eq. reflexivity.
  - eapply (refile_ok w _ id r s (fun s => set_last_active (clock w) (set_connected true s)) true);
      try done; simpl; rewrite ?Hid; try done.
    + rewrite Ha. by apply insert_count.
    + rewrite Hi. by eapply delete_count.
Qed.

Lemma deactivate_run w id :
  pool_ok w ->
  match pool_view (session_pool w) id with
  | Some (r, true) =>
      exists p s, sessions w !! r = Some s
        /\ let w' := w <| session_pool := p |> <| sessions := <[r := set_connected false s]> (sessions w) |> in
           deactivate id w = (Ok (Some r), w') /\ pool_ok w'
           /\ forall id', pool_view p id' = if decide (id' = id) then Some (r, false)
                                           else pool_view (session_pool w) id'
  | _ => deactivate id w = (Ok None, w)
  end.
Proof.
  intros Hok. pose proof Hok as [Ha Hi Hd Hf].
  assert (Hrun : deactivate id w = (match SessionPool.active (session_pool w) !! id with
    | Some r => deactivate_found id r | None => mret None end) w) by done.
  rewrite Hrun. unfold pool_view at 1.
  destruct (SessionPool.active (session_pool w) !! id) as [r|] eqn:Ea;
    [| by destruct (SessionPool.inactive (session_pool w) !! id)].
  assert (Hv : pool_view (session_pool w) id = Some (r, negb false)).
  { unfold pool_view. by rewrite Ea. }
  destruct (Hf id r true Hv) as (s & Hs & Hid & Hc). do 2 eexists. split; [exact Hs |]. cbv zeta.
  split.
  - unfold deactivate_found, with_pool, modify. unfold mbind at 1, M_bind at 1.
    rewrite (with_session_run _ _ _ s) by done.
    erewrite session_at_run by apply lookup_insert_eq. reflexivity.
  - eapply (refile_ok w _ id r s (set_connected false) false); try done; simpl; rewrite ?Hid; try done.
    + rewrite Ha. by eapply delete_count.
    + rewrite Hi. apply insert_count. by eapply Hd.
Qed.
End pool_facts.

(** ** Packet identifiers *)

(** The identifiers [next_packet_id] hands out, one after the other. *)
Fixpoint packet_ids (n : nat) (s : Session) : list Z :=
  match n with
  | O => []
  | S n => let '(id, s) := next_packet_id s in id :: packet_ids n s
  end.

Definition valid_packet_id (id : Z) : Prop := 1 <= id <= 65535.

Lemma next_packet_id_step s :
  valid_packet_id (Session.next_packet_id s) ->
  Session.next_packet_id ((next_packet_id s).2) = Session.next_packet_id s mod 65535 + 1.
Proof.
  unfold valid_packet_id. intros Hv. unfold next_packet_id, u16. simpl.
  destruct (decide (Session.next_packet_id s = 65535)) as [->|Hne]; [done |].
  rewrite !Z.mod_small by lia. destruct (Z.eqb_spec (Session.next_packet_id s + 1) 0); lia.
Qed.

Lemma packet_ids_closed n s :
  valid_packet_id (Session.next_packet_id s) ->
  packet_ids n s
  = (fun k : nat => (Session.next_packet_id s - 1 + Z.of_nat k) mod 65535 + 1) <$> seq 0 n.
Proof.
  revert s. induction n as [|n IH]; intros s Hs; [done |]. cbn [seq fmap list_fmap].
  pose proof (next_packet_id_step s Hs) as Hn.
  change (packet_ids (S n) s) with ((next_packet_id s).1 :: packet_ids n ((next_packet_id s).2)).
  unfold valid_packet_id in Hs. rewrite IH.
  - f_equal; [simpl; rewrite Z.mod_small; lia |].
    rewrite <- fmap_S_seq, <- list_fmap_compose. apply list_fmap_ext. intros _ k _.
    unfold compose. rewrite Hn, Z.add_simpl_r, Zplus_mod_idemp_l. do 2 f_equal. lia.
  - rewrite Hn. unfold valid_packet_id. pose proof (Z.mod_pos_bound (Session.next_packet_id s) 65535). lia.
Qed.

Lemma packet_ids_valid n s :
  valid_packet_id (Session.next_packet_id s) -> Forall valid_packet_id (packet_ids n s).
Proof.
  intros Hs. rewrite packet_ids_closed by done. apply Forall_fmap, list.Forall_forall. intros k _.
  unfold compose, valid_packet_id.
  pose proof (Z.mod_pos_bound (Session.next_packet_id s - 1 + Z.of_nat k) 65535). lia.
Qed.

Lemma packet_ids_distinct n s :
  valid_packet_id (Session.next_packet_id s) -> Z.of_nat n <= 65535 -> NoDup (packet_ids n s).
Proof.
  intros Hs Hn. rewrite packet_ids_closed by done.
  apply NoDup_fmap_2_strong; [| apply NoDup_seq].
  intros j k Hj%elem_of_seq Hk%elem_of_seq E. unfold valid_packet_id in Hs.
  assert (E' : (Session.next_packet_id s - 1 + Z.of_nat j) mod 65535
             = (Session.next_packet_id s - 1 + Z.of_nat k) mod 65535) by lia.
  pose proof (Z.div_mod (Session.next_packet_id s - 1 + Z.of_nat j) 65535 ltac:(lia)).
  pose proof (Z.div_mod (Session.next_packet_id s - 1 + Z.of_nat k) 65535 ltac:(lia)).
  lia.
Qed.

(** ** The contract of sessions and pool *)

(** C35: [next_packet_id] never yields 0, which MQTT forbids, wraps within the
    [u16], and does not repeat an identifier within 65 535 calls, from the state
    [Session::new] starts in. *)
Theorem packet_ids_never_zero (id : rstring) (will : option WillMessage) (ka now ch : Z) (n : nat) :
  let s := Session_new id will ka now ch in
  Forall (fun i => 1 <= i <= 65535) (packet_ids n s)
  /\ NoDup (packet_ids (Z.to_nat 65535) s).
Proof.
  intros s. assert (valid_packet_id (Session.next_packet_id s)) by (unfold valid_packet_id; simpl; lia).
  split; [by apply packet_ids_valid | apply packet_ids_distinct; [done | lia]].
Qed.

Section contract.
Context `{Runtime}.

(** C34: the pool of every consistent state is a map from client identifiers to
    sessions with a connection flag.  [remove] deletes and returns the session of
    an identifier, [activate] turns a disconnected session into a connected one,
    marks it as active now and returns it, [deactivate] does the reverse, and
    [add] files a session whose identifier is not filed yet; all four touch no
    other identifier, keep both counters equal to the numbers of sessions, and
    never panic.  Without the condition [add] miscounts
    ([duplicate_add_miscounts]). *)
Theorem pool_refines_map (w : World) (id : rstring) :
  pool_ok w ->
  let view := pool_view (session_pool w) in
  (forall r s, sessions w !! r = Some s -> view (Session.id s) = None ->
     exists w', add r w = (Ok tt, w') /\ pool_ok w'
       /\ forall i, pool_view (session_pool w') i
            = if decide (i = Session.id s) then Some (r, Session.connected s) else view i)
  /\ (exists w', remove id w = (Ok (fst <$> view id), w') /\ pool_ok w'
     /\ forall i, pool_view (session_pool w') i = if decide (i = id) then None else view i)
  /\ (exists w' o, activate id w = (Ok o, w') /\ pool_ok w'
     /\ o = match view id with Some (x, false) => Some x | _ => None end
     /\ forall i, pool_view (session_pool w') i
          = if decide (i = id) then match view id with Some (x, _) => Some (x, true) | None => None end
            else view i)
  /\ (exists w' o, deactivate id w = (Ok o, w') /\ pool_ok w'
     /\ o = match view id with Some (x, true) => Some x | _ => None end
     /\ forall i, pool_view (session_pool w') i
          = if decide (i = id) then match view id with Some (x, _) => Some (x, false) | None => None end
            else view i).
Proof.
  intros Hok view. split_and!.
  - intros r s Hs Hfree. destruct (add_run w r s Hok Hs Hfree) as (p & ? & ? & ?). by eexists.
  - destruct (remove_run w id Hok) as (p & ? & ? & ?). by eexists.
  - pose proof (activate_run w id Hok) as H'. unfold view.
    destruct (pool_view (session_pool w) id) as [[x []]|] eqn:E.
    + exists w, None. split_and!; try done. intros i. case_decide; [by subst | done].
    + destruct H' as (p & s' & _ & ? & ? & ?). by do 2 eexists.
    + exists w, None. split_and!; try done. intros i. case_decide; [by subst | done].
  - pose proof (deactivate_run w id Hok) as H'. unfold view.
    destruct (pool_view (session_pool w) id) as [[x []]|] eqn:E.
    + destruct H' as (p & s' & _ & ? & ? & ?). by do 2 eexists.
    + exists w, None. split_and!; try done. intros i. case_decide; [by subst | done].
    + exists w, None. split_and!; try done. intros i. case_decide; [by subst | done].
Qed.

(** [add] of a connected session whose identifier already has a connected
    one counts it twice: the counter is one above the number of sessions, and
    [at_capacity] can report a full pool that is not. *)
Theorem duplicate_add_miscounts (w : World) (r r' : Z) (s : Session) :
  pool_ok w -> sessions w !! r = Some s -> Session.connected s = true ->
  pool_view (session_pool w) (Session.id s) = Some (r', true) ->
  exists p, add r w = (Ok tt, w <| session_pool := p |>)
    /\ SessionPool.active_sessions p = u32 (Z.of_nat (size (SessionPool.active p)) + 1).
Proof.
  intros Hok Hs Hc Hv. unfold add. rewrite (session_at_run _ _ _ _ Hs), Hc.
  eexists. split; [reflexivity |]. simpl. rewrite (p_active_count w Hok), u32_u32_l.
  unfold pool_view in Hv. destruct (SessionPool.active (session_pool w) !! Session.id s) eqn:E.
  - by rewrite map_size_insert_Some by (by eexists).
  - by destruct (SessionPool.inactive (session_pool w) !! Session.id s).
Qed.
End contract.

(** *** A small pool *)

Definition alice : Session := set_connected true (Session_new (str "alice") None (secs 45) 0 1).
Definition bob : Session := Session_new (str "bob") None (secs 45) 0 2.
Definition carol : Session := set_connected true (Session_new (str "carol") None (secs 45) 0 3).

Definition small_world : World :=
  mkWorld _ Config_default
    (SessionPool.mk (secs 600) (secs 45) (secs 180) {[ str "alice" := 1 ]} {[ str "bob" := 2 ]} 1 1)
    TopicTree_new true (<[1 := alice]> (<[2 := bob]> {[ 3 := carol ]})) ∅ ∅ ∅ 0 0.

Lemma small_world_ok : pool_ok small_world.
Proof.
  constructor; [done | done | |].
  - intros i r Hi. simpl in Hi. apply lookup_singleton_Some in Hi as [<- _]. done.
  - intros i r b Hv. unfold pool_view in Hv. simpl in Hv.
    destruct (decide (i = str "alice")) as [->|H1]; [injection Hv as <- <-; by eexists |].
    rewrite lookup_singleton_ne in Hv by done.
    destruct (decide (i = str "bob")) as [->|H2]; [injection Hv as <- <-; by eexists |].
    by rewrite lookup_singleton_ne in Hv by done.
Qed.

Lemma pool_refines_map_witness :
  let view := pool_view (session_pool small_world) in
  (exists w', add 3 small_world = (Ok tt, w') /\ pool_ok w'
     /\ forall i, pool_view (session_pool w') i
          = if decide (i = str "carol") then Some (3, true) else view i)
  /\ (exists w', remove (str "bob") small_world = (Ok (fst <$> view (str "bob")), w') /\ pool_ok w'
     /\ forall i, pool_view (session_pool w') i = if decide (i = str "bob") then None else view i)
  /\ (exists w' o, activate (str "bob") small_world = (Ok o, w') /\ pool_ok w'
     /\ o = match view (str "bob") with Some (x, false) => Some x | _ => None end
     /\ forall i, pool_view (session_pool w') i
          = if decide (i = str "bob")
            then match view (str "bob") with Some (x, _) => Some (x, true) | None => None end
            else view i)
  /\ (exists w' o, deactivate (str "bob") small_world = (Ok o, w') /\ pool_ok w'
     /\ o = match view (str "bob") with Some (x, true) => Some x | _ => None end
     /\ forall i, pool_view (session_pool w') i
          = if decide (i = str "bob")
            then match view (str "bob") with Some (x, _) => Some (x, false) | None => None end
            else view i).
Proof.
  destruct (pool_refines_map small_world (str "bob") small_world_ok) as (Hadd & Hrest).
  split; [by apply (Hadd 3 carol) | exact Hrest].
Defined.

Lemma duplicate_add_miscounts_witness :
  exists p, add 1 small_world = (Ok tt, small_world <| session_pool := p |>)
    /\ SessionPool.active_sessions p = u32 (Z.of_nat (size (SessionPool.active p)) + 1).
Proof.
  apply (duplicate_add_miscounts small_world 1 1 alice); [apply small_world_ok | done | done | done].
Defined.
