(* ===== verification/Broker.v ===== *)
(** * vaux-broker/src/lib.rs: the broker *)
(** The handlers of a client connection over the shared state ([World]) and the
    connection's own packet stream and local variables ([Conn]).  The branches
    of the [select!] of [handle_client] are separate functions; the order in
    which they, the delayed wills and the operator's commands run is the step
    relation at the end.  A branch runs to completion here; [BrokerTasks] takes
    the handlers apart where they wait. *)

From S2P Require Import Prelude Bytes Codec Fixed Property MacroFacts Subscriptions.
From S2P Require Import Acks Publish Connect Packet Topic Stream Runtime Sessions.

Module BrokerError.
Inductive BrokerError :=
| Codec (e : MqttCodecError)
| Io (e : IoErrorKind)
| Stream (e : StreamError).
End BrokerError.
Abbreviation BrokerError := BrokerError.BrokerError.

Module BrokerCommand.
Inductive BrokerCommand := Stop | PauseAccept | ResumeAccept | SetSessionExpiry (d : Z).
End BrokerCommand.
Abbreviation BrokerCommand := BrokerCommand.BrokerCommand.

Section broker.
Context {B : Buf} {HI : HashIter} {T : Transport} {R : Runtime} {D : DrainOrder}.

Abbreviation Broker := (M World Empty_set).

(** ** Access to the shared state *)

Definition BrokerState_new (cfg : Config) : World :=
  mkWorld _ cfg (new_with_config cfg) TopicTree_new true ∅ ∅ no_tokens ∅ 0 0.

Definition in_tree {A} (m : M TopicTree Empty_set A) : Broker A := fun w =>
  let '(r, t) := m (topic_tree w) in (r, w <| topic_tree := t |>).

Definition new_channel : Broker Z :=
  w ← get;
  let ch := new_ref (channels w) in
  modify (fun w => w <| channels :=
    <[ch := chan_new (Config.session_channel_size (config w))]> (channels w) |>) ≫= fun _ =>
  mret ch.

(** [Arc::new(RwLock::new(s))]. *)
Definition new_session (s : Session) : Broker Z :=
  w ← get;
  let r := new_ref (sessions w) in
  modify (fun w => w <| sessions := <[r := s]> (sessions w) |>) ≫= fun _ =>
  mret r.

(** [Session::try_send_control]: whether the message was taken. *)
Definition try_send_control (r : Z) (m : SessionControl) : Broker bool :=
  s ← session_at r;
  w ← get;
  c ← lift (unwrap (channels w !! Session.sender s));
  match chan_try_send m c with
  | Some c => modify (fun w => w <| channels := <[Session.sender s := c]> (channels w) |>) ≫= fun _ =>
              mret true
  | None => mret false
  end.

(** [Session::send_control]: fails when the receiver is gone and otherwise waits
    for room, which in the model is a run that does not return. *)
Definition send_control (r : Z) (m : SessionControl) : Broker unit :=
  sent ← try_send_control r m;
  if (sent : bool) then mret tt
  else
    s ← session_at r;
    w ← get;
    c ← lift (unwrap (channels w !! Session.sender s));
    if chan_closed c then mret tt else no_fuel.

Definition cancel_pending_will (r : Z) : Broker unit :=
  s ← session_at r;
  match Session.pending_will s with
  | Some token =>
      with_session r (fun s => s <| Session.pending_will := None |>) ≫= fun _ =>
      modify (fun w => w <| cancelled := cancel token (cancelled w) |>)
  | None => mret tt
  end.

Definition set_pending_will (r token : Z) : Broker unit :=
  cancel_pending_will r ≫= fun _ =>
  with_session r (fun s => s <| Session.pending_will := Some token |>).

(** ** Routing *)

(** The options of a delivery: the lower of the two levels. *)
Definition granted_qos (publish_qos sub_qos : QoSLevel) : QoSLevel :=
  match QoSLevel_try_from (Z.min (QoSLevel_as_u8 publish_qos) (QoSLevel_as_u8 sub_qos)) with
  | Ok q => q
  | _ => QoSLevel.AtMostOnce
  end.

(** A full channel asks the slow subscriber to leave, if there is room for that. *)
Definition deliver (r : Z) (out : Publish) : Broker unit :=
  sent ← try_send_control r (SessionControl.Deliver out);
  if (sent : bool) then mret tt
  else try_send_control r (SessionControl.Disconnect Reason.QuotaExceeded) ≫= fun _ => mret tt.

(** One iteration of the loop of [route_publish]. *)
Definition route_to (publish : Publish) (sender_session_id : rstring) (sub : Subscriber)
    : Broker unit :=
  if Subscriber.no_local sub && bool_decide (Subscriber.session_id sub = sender_session_id)
  then mret tt
  else
    pq ← lift (or_panic (publish_qos publish));
    let qos := granted_qos pq (Subscriber.qos sub) in
    target ← get_active (Subscriber.session_id sub);
    match target with
    | None => mret tt
    | Some r =>
        let out := publish_set_qos qos publish in
        if negb (bool_decide (qos = QoSLevel.AtMostOnce)) then
          s ← session_at r;
          let '(packet_id, s') := next_packet_id s in
          with_session r (fun _ => s') ≫= fun _ =>
          out ← lift (or_keep out (publish_set_packet_id (Some packet_id) out));
          with_session r (track_qos_publish packet_id out) ≫= fun _ =>
          deliver r out
        else deliver r out
    end.

Fixpoint route_each (publish : Publish) (sender : rstring) (subs : list Subscriber) : Broker unit :=
  match subs with
  | [] => mret tt
  | sub :: subs => route_to publish sender sub ≫= fun _ => route_each publish sender subs
  end.

Definition route_publish (publish : Publish) (sender_session_id : rstring) : Broker unit :=
  subscribers ← in_tree (matching_subscribers (Publish.topic_name publish));
  route_each publish sender_session_id subscribers.

(** ** Wills *)

Definition will_publish (will : WillMessage) : outcome Empty_set Publish :=
  match new_from_header (FixedHeader_new PacketType.Publish) with
  | Ok publish =>
      let publish := publish <| Publish.topic_name := WillMessage.topic will |> in
      let publish := publish_set_qos (WillMessage.qos will) publish in
      let publish := publish_set_retain (WillMessage.retain will) publish in
      let h := WillMessage.header will in
      let publish := publish <| Publish.payload := Some (WillMessage.payload will) |>
        <| Publish.message_expiry := WillHeader.message_expiry h |>
        <| Publish.content_type := WillHeader.content_type h |>
        <| Publish.response_topic := WillHeader.response_topic h |>
        <| Publish.correlation_data := WillHeader.correlation_data h |> in
      Ok (match WillHeader.payload_format h with
          | Some format => set_payload_format format publish
          | None => publish
          end)
  | _ => Panic
  end.

Definition publish_will (will : WillMessage) : Broker unit :=
  publish ← lift (will_publish will);
  route_publish publish [].

(** The spawned task of a delayed will is an entry of [delayed_wills] under its
    token. *)
Definition initiate_will (r : Z) : Broker unit :=
  s ← session_at r;
  let '(will, s') := take_will s in
  with_session r (fun _ => s') ≫= fun _ =>
  match will with
  | None => mret tt
  | Some will =>
      let delay_secs := default 0 (WillHeader.will_delay (WillMessage.header will)) in
      if delay_secs =? 0 then publish_will will
      else
        w ← get;
        let token := next_token w in
        modify (fun w => w <| next_token := token + 1 |> <| delayed_wills :=
          <[token := (clock w + secs delay_secs, will)]> (delayed_wills w) |>) ≫= fun _ =>
        set_pending_will r token
  end.

(** The [select!] of the spawned task, which takes either branch when both are
    ready: [timer] says which. *)
Definition run_delayed_will (timer : bool) (token : Z) : Broker unit :=
  w ← get;
  match delayed_wills w !! token with
  | None => mret tt
  | Some (deadline, will) =>
      let due := deadline <=? clock w in
      if is_cancelled token (cancelled w) && negb (timer && due) then
        modify (fun w => w <| delayed_wills := delete token (delayed_wills w) |>)
      else if due then
        modify (fun w => w <| delayed_wills := delete token (delayed_wills w) |>) ≫= fun _ =>
        publish_will will
      else mret tt
  end.

(** The 500 ms that the code sleeps afterwards change no state; a task of
    [BrokerTasks] may be delayed for any time after this call. *)
Definition handle_takeover (r : Z) : Broker unit :=
  send_control r (SessionControl.Disconnect Reason.SessionTakeOver).

(** ** Subscriptions *)

Definition granted_reason (q : QoSLevel) : Reason :=
  match q with
  | QoSLevel.AtMostOnce => Reason.Success
  | QoSLevel.AtLeastOnce => Reason.GrantedQoS1
  | QoSLevel.ExactlyOnce => Reason.GrantedQoS2
  end.

Fixpoint subscribe_each (session_id : rstring) (filters : list SubscriptionFilter) (suback : SubAck)
    : Broker SubAck :=
  match filters with
  | [] => mret suback
  | filter :: filters =>
      let granted_qos := filter_qos filter in
      in_tree (subscribe (SubscriptionFilter.filter filter) session_id granted_qos
        (filter_no_local filter)) ≫= fun _ =>
      subscribe_each session_id filters
        (suback <| SubAck.reason_codes := SubAck.reason_codes suback ++ [granted_reason granted_qos] |>)
  end.

Definition handle_subscribe (subscribe : Subscribe) (session_id : rstring) : Broker SubAck :=
  let suback := match SubAck_new_with_packet_id (Subscribe.packet_id subscribe) with
                | Ok suback => suback
                | _ => dflt
                end in
  subscribe_each session_id (Subscribe.filter subscribe) suback.

Fixpoint unsubscribe_each (session_id : rstring) (topics : list rstring) (unsuback : UnsubAck)
    : Broker UnsubAck :=
  match topics with
  | [] => mret unsuback
  | topic :: topics =>
      removed ← in_tree (unsubscribe topic session_id);
      let reason := if (removed : bool) then Reason.Success else Reason.NoSubscribers in
      unsubscribe_each session_id topics
        (unsuback <| UnsubAck.reason_code := UnsubAck.reason_code unsuback ++ [reason] |>)
  end.

Definition handle_unsubscribe (unsubscribe : Unsubscribe) (session_id : rstring) : Broker UnsubAck :=
  unsubscribe_each session_id (Unsubscribe.topics unsubscribe)
    (dflt <| UnsubAck.packet_id := Unsubscribe.packet_id unsubscribe |>).

(** ** A connection *)

(** The stream and the local variables of [handle_client]. *)
Record Conn := mkConn {
  c_stream : PacketStream;
  c_connected : bool;
  c_session : option Z;
  c_control : option Z;
  c_keep_alive : Z;
}.

#[export] Instance Conn_eta : Eta Conn := fun c =>
  mkConn (c_stream c) (c_connected c) (c_session c) (c_control c) (c_keep_alive c).

Definition Conn_new (s : PacketStream) : Conn := mkConn s false None None DEFAULT_KEEP_ALIVE.

Abbreviation Handler := (M (World * Conn) BrokerError).

Definition in_world {A} (m : Broker A) : Handler A := fun '(w, c) =>
  match m w with
  | (Ok a, w) => (Ok a, (w, c))
  | (Err e, w) => match e with end
  | (Panic, w) => (Panic, (w, c))
  | (OutOfFuel, w) => (OutOfFuel, (w, c))
  end.

(** A stream operation followed by [?]. *)
Definition on_stream {A} (m : M PacketStream StreamError A) : Handler A := fun '(w, c) =>
  let '(r, s) := m (c_stream c) in
  (map_err BrokerError.Stream r, (w, c <| c_stream := s |>)).

Definition send (p : Packet) : Handler unit := on_stream (write p).

Definition local (f : Conn -> Conn) : Handler unit := modify (fun '(w, c) => (w, f c)).
Definition variable {A} (f : Conn -> A) : Handler A := gets (fun '(_, c) => f c).

(** ** Packets of a connected client *)

Definition handle_packet (packet : Packet) (r : Z) : Handler unit :=
  match packet with
  | Packet.PingRequest _ => send (Packet.PingResponse dflt)
  | Packet.Subscribe subscribe =>
      s ← in_world (session_at r);
      suback ← in_world (handle_subscribe subscribe (Session.id s));
      send (Packet.SubAck suback)
  | Packet.Unsubscribe unsubscribe =>
      s ← in_world (session_at r);
      unsuback ← in_world (handle_unsubscribe unsubscribe (Session.id s));
      send (Packet.UnsubAck unsuback)
  | Packet.Publish publish =>
      s ← in_world (session_at r);
      qos ← lift (or_panic (publish_qos publish));
      (if bool_decide (qos = QoSLevel.AtLeastOnce) then
         match Publish.packet_id publish with
         | Some packet_id => send (Packet.PubAck (new_puback_with_packet_id packet_id))
         | None =>
             send (Packet.Disconnect (Disconnect_new Reason.MalformedPacket)) ≫= fun _ =>
             raise (BrokerError.Codec MqttCodecError_new)
         end
       else mret tt) ≫= fun _ =>
      in_world (route_publish publish (Session.id s))
  | Packet.PubAck puback =>
      in_world (with_session r (fun s => (acknowledge (PubResp.packet_id puback) s).2))
  | Packet.Disconnect packet =>
      (if bool_decide (Disconnect.reason packet = Reason.Success)
       then in_world (with_session r clear_will)
       else in_world (initiate_will r)) ≫= fun _ =>
      s ← in_world (session_at r);
      in_world (deactivate (Session.id s)) ≫= fun _ => mret tt
  | _ => mret tt
  end.

(** ** Connecting *)

(** The keep alive granted, and what the acknowledgement says about it. *)
Definition negotiate_keep_alive (requested dflt_secs max_secs : Z) (ack : ConnAck) : Z * ConnAck :=
  if requested <? dflt_secs then
    (secs (keep_alive_factor dflt_secs), set_server_keep_alive dflt_secs ack)
  else if max_secs <? requested then
    (secs (keep_alive_factor max_secs), set_server_keep_alive max_secs ack)
  else (secs (keep_alive_factor requested), ack).

Definition negotiate_expiry (requested : option Z) (max_expiry : Z) (ack : ConnAck)
    : option Z * ConnAck :=
  match requested with
  | Some requested_expiry =>
      if 0 <? requested_expiry then
        if max_expiry <? requested_expiry then
          (Some (secs max_expiry), set_session_expiry max_expiry ack)
        else (Some (secs requested_expiry), ack)
      else (None, ack)
  | None => (None, ack)
  end.

(** A new connected session in the pool. *)
Definition start_session (session_id : rstring) (connect : Connect) (keep_alive : Z) : Broker Z :=
  ch ← new_channel;
  now ← gets clock;
  r ← new_session (set_connected true
        (Session_new session_id (will_message connect) keep_alive now ch));
  add r ≫= fun _ => mret r.

(** The session a resuming client continues: its will and channel are new. *)
Definition resume_session (r : Z) (connect : Connect) : Broker unit :=
  cancel_pending_will r ≫= fun _ =>
  with_session r (session_set_will (will_message connect)) ≫= fun _ =>
  ch ← new_channel;
  with_session r (reset_control ch).

(** The choice of the session: a new one for a clean start, otherwise the
    disconnected or connected session of the client, if there is one. *)
Definition choose_session (session_id : rstring) (connect : Connect) (keep_alive : Z)
    : Broker (Z * bool) :=
  if clean_start connect then
    existing ← remove session_id;
    match existing with
    | Some old =>
        s ← session_at old;
        (if Session.connected s then handle_takeover old else mret tt) ≫= fun _ =>
        r ← start_session session_id connect keep_alive; mret (r, false)
    | None => r ← start_session session_id connect keep_alive; mret (r, false)
    end
  else
    inactive ← activate session_id;
    match inactive with
    | Some r => resume_session r connect ≫= fun _ => mret (r, true)
    | None =>
        active ← get_active session_id;
        match active with
        | Some r =>
            handle_takeover r ≫= fun _ =>
            resume_session r connect ≫= fun _ =>
            now ← gets clock;
            with_session r (set_last_active now) ≫= fun _ => mret (r, true)
        | None => r ← start_session session_id connect keep_alive; mret (r, false)
        end
    end.

(** [uuid] is [Uuid::new_v4().to_string()], drawn for a client without a name. *)
Definition handle_connect (uuid : rstring) (connect : Connect) : Handler (option Z) :=
  p ← in_world (in_pool id);
  let '(keep_alive, ack) := negotiate_keep_alive (Connect.keep_alive connect)
        (default_keep_alive_secs p) (max_keep_alive_secs p) dflt in
  let '(session_expiry, ack) := negotiate_expiry (Connect.session_expiry_interval connect)
        (u32 (as_secs (SessionPool.session_expiry p))) ack in
  let '(session_id, ack) :=
    match Connect.client_id connect with
    | [] => (uuid, ack <| ConnAck.assigned_client_id := Some uuid |>)
    | client_id => (client_id, ack)
    end in
  p ← in_world (in_pool id);
  cfg ← in_world (gets config);
  existing ← in_world (get_active session_id);
  if negb (bool_decide (is_Some existing)) && at_capacity (Config.max_active_sessions cfg) p then
    send (Packet.ConnAck (ack <| ConnAck.reason := Reason.QuotaExceeded |>)) ≫= fun _ =>
    on_stream shutdown ≫= fun _ => mret None
  else
    chosen ← in_world (choose_session session_id connect keep_alive);
    let '(r, present) := chosen in
    let ack := if (present : bool) then set_session_present true ack else ack in
    in_world (match session_expiry with
              | Some expiry => with_session r (session_set_session_expiry expiry)
              | None => mret tt
              end) ≫= fun _ =>
    send (Packet.ConnAck ack) ≫= fun _ => mret (Some r).

Definition handle_pre_connect (uuid : rstring) (packet : Packet) : Handler (option Z) :=
  match packet with
  | Packet.Connect connect =>
      accepting ← in_world (gets accept_connections);
      if negb accepting then
        send (Packet.ConnAck (dflt <| ConnAck.reason := Reason.ServerBusy |>)) ≫= fun _ =>
        on_stream shutdown ≫= fun _ => mret None
      else handle_connect uuid connect
  | Packet.PingRequest _ => send (Packet.PingResponse dflt) ≫= fun _ => mret None
  | _ => send (Packet.Disconnect (Disconnect_new Reason.ProtocolErr)) ≫= fun _ => mret None
  end.

(** ** The loop of [handle_client] *)

(** Whether the loop goes on. *)
Inductive flow := Continue | Return.

Fixpoint resend_pending (r : Z) (pending : list (Z * Publish)) : Handler unit :=
  match pending with
  | [] => mret tt
  | (packet_id, publish) :: pending =>
      publish ← lift (or_keep publish (publish_set_dup true publish));
      publish ← lift (or_keep publish (publish_set_packet_id (Some packet_id) publish));
      in_world (with_session r (track_qos_publish packet_id publish)) ≫= fun _ =>
      send (Packet.Publish publish) ≫= fun _ =>
      resend_pending r pending
  end.

(** The branch of a control message. *)
Definition on_control (control : SessionControl) : Handler flow :=
  match control with
  | SessionControl.Disconnect reason =>
      session ← variable c_session;
      match session with
      | Some r =>
          s ← in_world (session_at r);
          (if bool_decide (reason = Reason.SessionTakeOver) then mret tt
           else in_world (deactivate (Session.id s)) ≫= fun _ => mret tt) ≫= fun _ =>
          send (Packet.Disconnect (Disconnect_new reason)) ≫= fun _ => mret Continue
      | None => on_stream shutdown ≫= fun _ => mret Return
      end
  | SessionControl.Deliver publish => send (Packet.Publish publish) ≫= fun _ => mret Continue
  end.

(** A session that loses its client: the will is initiated, the session parked. *)
Definition lose_client (r : Z) : Handler unit :=
  s ← in_world (session_at r);
  in_world (initiate_will r) ≫= fun _ =>
  in_world (deactivate (Session.id s)) ≫= fun _ => mret tt.

(** The branch of the keep-alive timer. *)
Definition on_keep_alive : Handler flow :=
  session ← variable c_session;
  match session with
  | Some r => lose_client r ≫= fun _ => mret Continue
  | None => on_stream shutdown ≫= fun _ => mret Return
  end.

(** What a connection does with the session of a new client: the packets that
    wait for an acknowledgement are sent again. *)
Definition serve (r : Z) : Handler flow :=
  s ← in_world (session_at r);
  let '(control, s') := take_control_receiver s in
  let '(pending, s'') := drain_pending s' in
  in_world (with_session r (fun _ => s'')) ≫= fun _ =>
  local (fun c => c <| c_keep_alive := Session.keep_alive s |> <| c_control := control |>) ≫= fun _ =>
  resend_pending r pending ≫= fun _ =>
  local (fun c => c <| c_session := Some r |>) ≫= fun _ =>
  local (fun c => c <| c_connected := true |>) ≫= fun _ => mret Continue.

(** The branch of a packet, for the packet and for the end of the stream. *)
Definition on_packet (uuid : rstring) (packet : Packet) : Handler flow :=
  connected ← variable c_connected;
  if negb connected then
    session ← handle_pre_connect uuid packet;
    match session with
    | Some r => serve r
    | None => mret Continue
    end
  else
    session ← variable c_session;
    match session with
    | Some r => handle_packet packet r ≫= fun _ => mret Continue
    | None => mret Continue
    end.

Definition on_close : Handler flow :=
  session ← variable c_session;
  match session with
  | Some r => lose_client r ≫= fun _ => mret Return
  | None => mret Return
  end.

(** [stream.read()] and what follows; [uuid1] is drawn by the decoder. *)
Definition on_read (fuel : nat) (uuid1 uuid2 : rstring) : Handler flow := fun '(w, c) =>
  match read fuel uuid1 (c_stream c) with
  | (Ok (Some packet), s) => on_packet uuid2 packet (w, c <| c_stream := s |>)
  | (Ok None, s) => on_close (w, c <| c_stream := s |>)
  | (Err e, s) =>
      (on_close ≫= fun _ => raise (BrokerError.Stream e)) (w, c <| c_stream := s |>)
  | (Panic, s) => (Panic, (w, c <| c_stream := s |>))
  | (OutOfFuel, s) => (OutOfFuel, (w, c <| c_stream := s |>))
  end.

(** [command.recv()] in [run]. *)
Definition on_command (cmd : BrokerCommand) : Broker flow :=
  match cmd with
  | BrokerCommand.Stop => mret Return
  | BrokerCommand.PauseAccept =>
      modify (fun w => w <| accept_connections := false |>) ≫= fun _ => mret Continue
  | BrokerCommand.ResumeAccept =>
      modify (fun w => w <| accept_connections := true |>) ≫= fun _ => mret Continue
  | BrokerCommand.SetSessionExpiry d =>
      with_pool (pool_set_session_expiry d) ≫= fun _ => mret Continue
  end.

(** ** The system *)

Definition INIT_STREAM_BUFFER_SIZE : Z := 4096.

(** The shared state and the tasks that serve a connection. *)
Record System := mkSystem { shared : World; clients : gmap Z Conn }.

(** A task that ends drops its control receiver. *)
Definition drop_control (c : Conn) (w : World) : World :=
  match c_control c with
  | Some ch =>
      match channels w !! ch with
      | Some q => w <| channels := <[ch := chan_close q]> (channels w) |>
      | None => w
      end
  | None => w
  end.

(** The system after a branch of the task [i]: the loop goes on, or the task
    ends by [return], [?] or a panic.  A branch that waits is not taken. *)
Definition settle (i : Z) (sys : System) (res : outcome BrokerError flow * (World * Conn))
    : option System :=
  match res with
  | (Ok Continue, (w, c)) => Some (mkSystem w (<[i := c]> (clients sys)))
  | (OutOfFuel, _) => None
  | (_, (w, c)) => Some (mkSystem (drop_control c w) (delete i (clients sys)))
  end.

(** The steps of the tasks.  The keep-alive timer may fire at any time, and a
    delayed will is tried at any time: the order of the events is arbitrary. *)
Inductive task_step (sys : System) : System -> Prop :=
| step_read i c fuel uuid1 uuid2 sys' :
    clients sys !! i = Some c ->
    settle i sys (on_read fuel uuid1 uuid2 (shared sys, c)) = Some sys' -> task_step sys sys'
| step_control i c ch q m q' sys' :
    clients sys !! i = Some c -> c_control c = Some ch ->
    channels (shared sys) !! ch = Some q -> chan_recv q = Some (m, q') ->
    settle i sys (on_control m ((shared sys) <| channels := <[ch := q']> (channels (shared sys)) |>, c))
    = Some sys' -> task_step sys sys'
| step_timer i c sys' :
    clients sys !! i = Some c ->
    settle i sys (on_keep_alive (shared sys, c)) = Some sys' -> task_step sys sys'
| step_will timer token o w' :
    run_delayed_will timer token (shared sys) = (o, w') -> o <> OutOfFuel ->
    task_step sys (mkSystem w' (clients sys))
| step_tick d :
    0 <= d ->
    task_step sys (mkSystem ((shared sys) <| clock := clock (shared sys) + d |>) (clients sys)).

(** The steps of the system: a connection is accepted at any time, and any
    command may arrive. *)
Inductive step (sys : System) : System -> Prop :=
| step_accept i t :
    clients sys !! i = None ->
    step sys (mkSystem (shared sys)
      (<[i := Conn_new (PacketStream_new t (Some INIT_STREAM_BUFFER_SIZE) None)]> (clients sys)))
| step_task sys' : task_step sys sys' -> step sys sys'
| step_command cmd o w' :
    on_command cmd (shared sys) = (o, w') -> step sys (mkSystem w' (clients sys)).

Definition start (cfg : Config) : System := mkSystem (BrokerState_new cfg) ∅.

Definition reachable (cfg : Config) : System -> Prop := rtc step (start cfg).
End broker.
