(* ===== verification/BrokerTests.v ===== *)
(** * vaux-broker: the unit tests *)
(** The tests of topic.rs and session.rs, each as a run on the model whose
    result says whether its assertions hold. *)

From S2P Require Import Prelude Bytes Codec Fixed Property Macro MacroFacts Subscriptions.
From S2P Require Import Acks Publish Connect Packet CodecTests Topic Stream Runtime Sessions Broker.

#[local] Open Scope bool_scope.

(** ** topic.rs *)

Abbreviation Tree := (M TopicTree Empty_set).

Definition test_subscribe_and_match_exact : Tree bool :=
  subscribe (str "sensor/temp/room1") (str "client-1") QoSLevel.AtLeastOnce false ≫= fun _ =>
  subs1 ← matching_subscribers (str "sensor/temp/room1");
  subs2 ← matching_subscribers (str "sensor/temp/room2");
  mret (all [len subs1 == 1;
             (Subscriber.session_id <$> subs1 !! 0%nat) == Some (str "client-1");
             (Subscriber.qos <$> subs1 !! 0%nat) == Some QoSLevel.AtLeastOnce;
             len subs2 == 0]).

Definition test_subscribe_plus_wildcard : Tree bool :=
  subscribe (str "sensor/+/room1") (str "client-1") QoSLevel.AtMostOnce false ≫= fun _ =>
  subs1 ← matching_subscribers (str "sensor/temp/room1");
  subs2 ← matching_subscribers (str "sensor/humidity/room1");
  subs3 ← matching_subscribers (str "sensor/temp/room2");
  subs4 ← matching_subscribers (str "sensor/temp/sub/room1");
  mret (all [len subs1 == 1;
             len subs2 == 1;
             len subs3 == 0;
             len subs4 == 0]).

Definition test_subscribe_hash_wildcard : Tree bool :=
  subscribe (str "sensor/#") (str "client-1") QoSLevel.ExactlyOnce false ≫= fun _ =>
  subs1 ← matching_subscribers (str "sensor/temp");
  subs2 ← matching_subscribers (str "sensor/temp/room1");
  subs3 ← matching_subscribers (str "sensor");
  subs4 ← matching_subscribers (str "other/topic");
  mret (all [len subs1 == 1;
             len subs2 == 1;
             len subs3 == 1;
             len subs4 == 0]).

Definition test_subscribe_hash_root : Tree bool :=
  subscribe (str "#") (str "client-1") QoSLevel.AtMostOnce false ≫= fun _ =>
  subs1 ← matching_subscribers (str "any/topic/at/all");
  subs2 ← matching_subscribers (str "single");
  mret (all [len subs1 == 1;
             len subs2 == 1]).

Definition test_multiple_subscribers_same_topic : Tree bool :=
  subscribe (str "sensor/temp") (str "client-1") QoSLevel.AtMostOnce false ≫= fun _ =>
  subscribe (str "sensor/temp") (str "client-2") QoSLevel.AtLeastOnce false ≫= fun _ =>
  subs ← matching_subscribers (str "sensor/temp");
  mret (all [len subs == 2;
             bool_decide (str "client-1" ∈ (Subscriber.session_id <$> subs));
             bool_decide (str "client-2" ∈ (Subscriber.session_id <$> subs))]).

Definition test_overlapping_wildcard_and_exact : Tree bool :=
  subscribe (str "sensor/temp") (str "exact") QoSLevel.AtMostOnce false ≫= fun _ =>
  subscribe (str "sensor/+") (str "plus") QoSLevel.AtMostOnce false ≫= fun _ =>
  subscribe (str "sensor/#") (str "hash") QoSLevel.AtMostOnce false ≫= fun _ =>
  subs ← matching_subscribers (str "sensor/temp");
  mret (all [len subs == 3;
             bool_decide (str "exact" ∈ (Subscriber.session_id <$> subs));
             bool_decide (str "plus" ∈ (Subscriber.session_id <$> subs));
             bool_decide (str "hash" ∈ (Subscriber.session_id <$> subs))]).

Definition test_resubscribe_updates_qos : Tree bool :=
  subscribe (str "sensor/temp") (str "client-1") QoSLevel.AtMostOnce false ≫= fun _ =>
  subscribe (str "sensor/temp") (str "client-1") QoSLevel.ExactlyOnce false ≫= fun _ =>
  subs ← matching_subscribers (str "sensor/temp");
  mret (all [len subs == 1;
             (Subscriber.qos <$> subs !! 0%nat) == Some QoSLevel.ExactlyOnce]).

Definition test_unsubscribe : Tree bool :=
  subscribe (str "sensor/temp") (str "client-1") QoSLevel.AtMostOnce false ≫= fun _ =>
  subscribe (str "sensor/temp") (str "client-2") QoSLevel.AtMostOnce false ≫= fun _ =>
  removed1 ← unsubscribe (str "sensor/temp") (str "client-1");
  subs2 ← matching_subscribers (str "sensor/temp");
  removed3 ← unsubscribe (str "sensor/temp") (str "client-1");
  mret (all [removed1;
             len subs2 == 1;
             (Subscriber.session_id <$> subs2 !! 0%nat) == Some (str "client-2");
             negb removed3]).

Definition test_unsubscribe_wildcard : Tree bool :=
  subscribe (str "sensor/#") (str "client-1") QoSLevel.AtMostOnce false ≫= fun _ =>
  removed1 ← unsubscribe (str "sensor/#") (str "client-1");
  subs2 ← matching_subscribers (str "sensor/temp");
  mret (all [removed1;
             len subs2 == 0]).

Definition test_unsubscribe_nonexistent : Tree bool :=
  removed ← unsubscribe (str "no/such/topic") (str "client-1");
  mret (all [negb removed]).

Definition test_unsubscribe_all : Tree bool :=
  subscribe (str "sensor/temp") (str "client-1") QoSLevel.AtMostOnce false ≫= fun _ =>
  subscribe (str "sensor/#") (str "client-1") QoSLevel.AtMostOnce false ≫= fun _ =>
  subscribe (str "other/topic") (str "client-1") QoSLevel.AtMostOnce false ≫= fun _ =>
  subscribe (str "sensor/temp") (str "client-2") QoSLevel.AtMostOnce false ≫= fun _ =>
  unsubscribe_all (str "client-1") ≫= fun _ =>
  subs1 ← matching_subscribers (str "sensor/temp");
  subs2 ← matching_subscribers (str "other/topic");
  mret (all [len subs1 == 1;
             (Subscriber.session_id <$> subs1 !! 0%nat) == Some (str "client-2");
             len subs2 == 0]).

Definition test_node_reuse : Tree bool :=
  subscribe (str "a/b/c") (str "c1") QoSLevel.AtMostOnce false ≫= fun _ =>
  subscribe (str "a/b/d") (str "c2") QoSLevel.AtMostOnce false ≫= fun _ =>
  nodes ← gets node_count;
  mret (all [nodes == 5]).

Definition test_plus_does_not_match_deeper : Tree bool :=
  subscribe (str "+/temp") (str "client-1") QoSLevel.AtMostOnce false ≫= fun _ =>
  subs1 ← matching_subscribers (str "sensor/temp");
  subs2 ← matching_subscribers (str "a/b/temp");
  mret (all [len subs1 == 1;
             len subs2 == 0]).

Definition test_hash_matches_parent_level : Tree bool :=
  subscribe (str "sensor/#") (str "client-1") QoSLevel.AtMostOnce false ≫= fun _ =>
  subs ← matching_subscribers (str "sensor");
  mret (all [len subs == 1]).

Definition test_deeply_nested_topic : Tree bool :=
  subscribe (str "a/b/c/d/e/f") (str "deep") QoSLevel.AtMostOnce false ≫= fun _ =>
  subscribe (str "a/+/c/+/e/+") (str "wild") QoSLevel.AtMostOnce false ≫= fun _ =>
  subs1 ← matching_subscribers (str "a/b/c/d/e/f");
  subs2 ← matching_subscribers (str "a/x/c/y/e/z");
  mret (all [len subs1 == 2;
             len subs2 == 1;
             (Subscriber.session_id <$> subs2 !! 0%nat) == Some (str "wild")]).

Definition test_empty_topic_segment : Tree bool :=
  subscribe (str "a//b") (str "client-1") QoSLevel.AtMostOnce false ≫= fun _ =>
  subs1 ← matching_subscribers (str "a//b");
  subs2 ← matching_subscribers (str "a/b");
  mret (all [len subs1 == 1;
             len subs2 == 0]).

(** A test starts with an empty tree; a panic fails it. *)
Definition passes_on_tree (test : Tree bool) : bool :=
  match (test TopicTree_new).1 with Ok b => b | _ => false end.

(** ** session.rs *)

Section session_tests.
Context {R : Runtime}.

(** A session with a channel of its own. *)
Definition test_session (id : rstring) (connected : bool) : M World Empty_set Z :=
  ch ← new_channel;
  now ← gets clock;
  new_session (set_connected connected (Session_new id None (secs 10) now ch)).

Definition counters (active inactive : Z) : M World Empty_set bool :=
  p ← in_pool id;
  mret (all [SessionPool.active_sessions p == active; SessionPool.inactive_sessions p == inactive]).

Definition test_session_new : M World Empty_set bool :=
  r ← test_session (str "test") false;
  s ← session_at r;
  mret (all [Session.id s == str "test"; Session.connected s == false; Session.keep_alive s == secs 10;
             Session.will_message s == None; Session.session_expiry s == None]).

Definition test_add_active : M World Empty_set bool :=
  r ← test_session (str "test") true;
  add r ≫= fun _ =>
  counters 1 0.

Definition test_add_inactive : M World Empty_set bool :=
  r ← test_session (str "test") false;
  add r ≫= fun _ =>
  counters 0 1.

Definition test_session_activate : M World Empty_set bool :=
  r ← test_session (str "test_1") false;
  add r ≫= fun _ =>
  before ← counters 0 1;
  activate (str "test_1") ≫= fun _ =>
  after ← counters 1 0;
  p ← in_pool id;
  r ← lift (unwrap (SessionPool.active p !! str "test_1"));
  s ← session_at r;
  now ← gets clock;
  mret (all [before; after; Session.connected s == true; now - Session.last_active s <? 500000000]).

Definition test_session_deactivate : M World Empty_set bool :=
  r ← test_session (str "test") true;
  add r ≫= fun _ =>
  deactivate (str "test") ≫= fun _ =>
  after ← counters 0 1;
  p ← in_pool id;
  r ← lift (unwrap (SessionPool.inactive p !! str "test"));
  s ← session_at r;
  mret (all [after; Session.connected s == false]).

(** A pool with an expiry of 30 seconds, and channels of 10 messages. *)
Definition test_world : World :=
  (BrokerState_new Config_default) <| session_pool := new_with_expiry (secs 30) |>.

Definition passes_on_pool (test : M World Empty_set bool) : bool :=
  match (test test_world).1 with Ok b => b | _ => false end.
End session_tests.

(** ** The tests pass *)

(** The unit tests of the topic tree and of the session pool pass on the model. *)
Theorem broker_unit_tests_pass :
  all (passes_on_tree <$>
    [ test_subscribe_and_match_exact; test_subscribe_plus_wildcard; test_subscribe_hash_wildcard;
      test_subscribe_hash_root; test_multiple_subscribers_same_topic; test_overlapping_wildcard_and_exact;
      test_resubscribe_updates_qos; test_unsubscribe; test_unsubscribe_wildcard;
      test_unsubscribe_nonexistent; test_unsubscribe_all; test_node_reuse;
      test_plus_does_not_match_deeper; test_hash_matches_parent_level; test_deeply_nested_topic;
      test_empty_topic_segment ]) = true
  /\ all (passes_on_pool <$>
    [ test_session_new; test_add_active; test_add_inactive; test_session_activate;
      test_session_deactivate ]) = true.
Proof. split; vm_compute; reflexivity. Qed.
