(* ===== verification/BrokerLogic.v ===== *)
(** * An invariant of the broker *)
(** What holds of the shared state between any two branches of the handlers, a
    small program logic for the handlers, and the proof that every branch, with
    any packet and any connection, preserves it. *)

From S2P Require Import Prelude Bytes Codec Fixed Property MacroFacts Subscriptions.
From S2P Require Import Acks Publish Connect Packet Topic Stream Runtime Sessions.
From S2P Require Import Broker.

(** ** The invariant *)

Section invariant.
Context {B : Buf} {HI : HashIter} {T : Transport} {R : Runtime} {D : DrainOrder}.
Implicit Types w : World.

(** A PUBLISH with a QoS level, which [qos()] does not panic on. *)
Definition publish_wf (p : Publish) : Prop := exists q, publish_qos p = Ok q.

(** A session hands out valid packet identifiers, owns an existing channel, and
    waits for acknowledgements of well-formed packets. *)
Definition session_ok w (s : Session) : Prop :=
  valid_packet_id (Session.next_packet_id s) /\ is_Some (channels w !! Session.sender s)
  /\ map_Forall (fun _ p => publish_wf p) (Session.pending_ack s).

(** More topic nodes than a [u32] can index. *)
Definition overgrown w : Prop := 4294967296 < len (topic_tree w).

(** The configured limit on connected sessions is kept. *)
Definition within w : Prop :=
  forall k, Config.max_active_sessions (config w) = Some k -> is_u32 k ->
  Z.of_nat (size (SessionPool.active (session_pool w))) <= k.

Record world_ok w : Prop := {
  wo_pool : pool_ok w;
  wo_capacity : within w;
  wo_tree : overgrown w \/ tree_ok (topic_tree w);
  wo_sessions r s : sessions w !! r = Some s -> session_ok w s;
  wo_senders r r' s s' : sessions w !! r = Some s -> sessions w !! r' = Some s' ->
    Session.sender s = Session.sender s' -> r = r';
}.

(** References stay valid, sessions keep their identifiers, the topic tree does
    not shrink, and the configuration stays. *)
Definition extends w w' : Prop :=
  (forall r s, sessions w !! r = Some s ->
   exists s', sessions w' !! r = Some s' /\ Session.id s' = Session.id s)
  /\ len (topic_tree w) <= len (topic_tree w') /\ config w' = config w.

#[export] Instance extends_preorder : PreOrder extends.
Proof.
  split.
  - intros w. split_and!; [intros r s Hs; by exists s | lia | done].
  - intros w1 w2 w3 (H1 & L1 & C1) (H2 & L2 & C2). split_and!; [| lia | congruence]. intros r s Hs.
    destruct (H1 r s Hs) as (s2 & Hs2 & E2).
    destruct (H2 r s2 Hs2) as (s3 & Hs3 & E3). exists s3. split; [done | congruence].
Qed.

Lemma extends_same w w' :
  sessions w' = sessions w -> topic_tree w' = topic_tree w -> config w' = config w -> extends w w'.
Proof. intros E E' C. split_and!; [intros r s Hs; exists s; by rewrite E | rewrite E'; lia | done]. Qed.

Definition valid (r : Z) w : Prop := is_Some (sessions w !! r).

(** What later steps cannot falsify. *)
Definition stable (F : World -> Prop) : Prop := forall w w', extends w w' -> F w -> F w'.

Lemma stable_valid r : stable (valid r).
Proof. intros w w' [He _] [s Hs]. destruct (He r s Hs) as (s' & Hs' & _). by eexists. Qed.

Lemma stable_true : stable (fun _ => True).
Proof. by intros w w' _. Qed.

Lemma stable_and F G : stable F -> stable G -> stable (fun w => F w /\ G w).
Proof. intros HF HG w w' He [H1 H2]. split; eauto. Qed.

(** ** Hoare triples *)

(** The state after a run is of the invariant; a panic means an overgrown tree,
    an [OutOfFuel] that the run waits. *)
Definition after {A} w (Q : A -> World -> Prop) (res : outcome Empty_set A * World) : Prop :=
  world_ok res.2 /\ extends w res.2
  /\ match res.1 with
     | Ok a => Q a res.2
     | Err _ => False
     | Panic => overgrown res.2
     | OutOfFuel => True
     end.

Definition sound {A} (P : World -> Prop) (m : M World Empty_set A) (Q : A -> World -> Prop) : Prop :=
  forall w, world_ok w -> P w -> after w Q (m w).

Lemma sound_ret {A} (Q : A -> World -> Prop) a : sound (Q a) (mret a) Q.
Proof. intros w Hw HP. by split_and!. Qed.

Lemma sound_bind {A C} P (m : M World Empty_set A) (k : A -> M World Empty_set C) Q S :
  sound P m Q -> (forall a, sound (Q a) (k a) S) -> sound P (m ≫= k) S.
Proof.
  intros Hm Hk w Hw HP. destruct (Hm w Hw HP) as (Hw1 & He1 & HQ). unfold mbind, M_bind.
  destruct (m w) as [[a|e| |] w1]; simpl in *; [| done | by split_and! | by split_and!].
  destruct (Hk a w1 Hw1 HQ) as (? & ? & ?). split_and!; [done | by etrans | done].
Qed.

Lemma sound_weaken {A} (P P' : World -> Prop) (m : M World Empty_set A) (Q Q' : A -> World -> Prop) :
  sound P' m Q' -> (forall w, world_ok w -> P w -> P' w) -> (forall a w, Q' a w -> Q a w) ->
  sound P m Q.
Proof.
  intros Hm HP HQ w Hw H. destruct (Hm w Hw (HP w Hw H)) as (? & ? & ?). split_and!; [done | done |].
  destruct ((m w).1); auto.
Qed.

(** Sequencing that remembers a stable precondition. *)
Lemma sound_seq {A C} P (m : M World Empty_set A) (k : A -> M World Empty_set C) Q S :
  stable P -> sound P m Q -> (forall a, sound (fun w => P w /\ Q a w) (k a) S) ->
  sound P (m ≫= k) S.
Proof.
  intros HP Hm Hk. apply (sound_bind _ _ _ (fun a w => P w /\ Q a w)); [| done].
  intros w Hw Hp. destruct (Hm w Hw Hp) as (? & ? & ?). split_and!; [done | done |].
  destruct ((m w).1); eauto.
Qed.

(** A step that returns, described by its effect. *)
Lemma sound_step {A} (P : World -> Prop) (m : M World Empty_set A) Q :
  (forall w, world_ok w -> P w -> exists a w', m w = (Ok a, w') /\ world_ok w' /\ extends w w' /\ Q a w') ->
  sound P m Q.
Proof. intros H w Hw HP. destruct (H w Hw HP) as (a & w' & -> & ?). done. Qed.

Lemma sound_done {A} P (a : A) : sound P (mret a) (fun _ _ => True).
Proof. intros w Hw HP. by split_and!. Qed.

Lemma sound_pre {A} (P P' : World -> Prop) (m : M World Empty_set A) (Q : A -> World -> Prop) :
  sound P' m Q -> (forall w, P w -> P' w) -> sound P m Q.
Proof. intros Hm HP. eapply sound_weaken; [exact Hm | auto | done]. Qed.

(** ** The steps of the handlers *)

(** An update that keeps what the invariant says about a session. *)
Definition mild (s s' : Session) : Prop :=
  Session.id s' = Session.id s /\ Session.connected s' = Session.connected s
  /\ Session.sender s' = Session.sender s
  /\ (valid_packet_id (Session.next_packet_id s) -> valid_packet_id (Session.next_packet_id s'))
  /\ (map_Forall (fun _ p => publish_wf p) (Session.pending_ack s) ->
      map_Forall (fun _ p => publish_wf p) (Session.pending_ack s')).

Lemma update_extends w w' r s s' :
  sessions w !! r = Some s -> Session.id s' = Session.id s ->
  sessions w' = <[r := s']> (sessions w) -> topic_tree w' = topic_tree w -> config w' = config w ->
  extends w w'.
Proof.
  intros Hs Hid E E' C. split_and!; [| rewrite E'; lia | done]. intros r' t Ht. rewrite E.
  destruct (decide (r' = r)) as [->|].
  - exists s'. rewrite lookup_insert_eq. split; [done | congruence].
  - exists t. by rewrite lookup_insert_ne.
Qed.

Lemma update_world_ok w r s s' :
  world_ok w -> sessions w !! r = Some s -> mild s s' ->
  world_ok (w <| sessions := <[r := s']> (sessions w) |>).
Proof.
  intros [Hp Hcap Ht Hs Hd] Hr (Hid & Hc & Hse & Hn & Hpd). split; simpl; [| done | done | |].
  - destruct Hp as [Ha Hi Hdis Hf]. split; simpl; [done | done | done |].
    intros id r' b Hv. destruct (Hf id r' b Hv) as (t & Htr & Htid & Htc).
    destruct (decide (r' = r)) as [->|]; [| exists t; by rewrite lookup_insert_ne].
    exists s'. rewrite lookup_insert_eq. rewrite Hr in Htr. injection Htr as <-. split_and!; congruence.
  - intros r' t Ht'. destruct (decide (r' = r)) as [->|].
    + rewrite lookup_insert_eq in Ht'. injection Ht' as <-. destruct (Hs r s Hr) as (H1 & H2 & H3).
      split_and!; [by apply Hn | simpl; by rewrite Hse | by apply Hpd].
    + rewrite lookup_insert_ne in Ht' by done. by apply (Hs r').
  - intros r1 r2 s1 s2. rewrite !lookup_insert_Some.
    intros [[<- <-]|[? H1]] [[<- <-]|[? H2]] E; try done.
    + apply (Hd r r2 s s2); [done | done | congruence].
    + apply (Hd r1 r s1 s); [done | done | congruence].
    + by apply (Hd r1 r2 s1 s2).
Qed.

Lemma sound_session_at r :
  sound (valid r) (session_at r) (fun s w => sessions w !! r = Some s).
Proof.
  apply sound_step. intros w Hw [s Hs]. exists s, w. split_and!; [| done | done | done].
  unfold session_at. rewrite bind_get. unfold lift, unwrap. by rewrite Hs.
Qed.

Lemma with_session_eq r f s w :
  sessions w !! r = Some s ->
  with_session r f w = (Ok tt, w <| sessions := <[r := f s]> (sessions w) |>).
Proof. intros Hs. unfold with_session. by rewrite (session_at_run _ _ _ _ Hs). Qed.

Lemma sound_with_session r f :
  (forall s, mild s (f s)) -> sound (valid r) (with_session r f) (fun _ => valid r).
Proof.
  intros Hf. apply sound_step. intros w Hw [s Hs]. do 2 eexists.
  split; [by apply with_session_eq |]. destruct (Hf s) as [Hid Hm].
  split_and!; [eapply update_world_ok; [done | done | by split] | by eapply update_extends |].
  exists (f s). simpl. by rewrite lookup_insert_eq.
Qed.

Lemma sound_put_session r s s' :
  mild s s' ->
  sound (fun w => sessions w !! r = Some s) (with_session r (fun _ => s')) (fun _ => valid r).
Proof.
  intros Hm. apply sound_step. intros w Hw Hs. do 2 eexists.
  split; [by apply with_session_eq |].
  split_and!; [by eapply update_world_ok | by eapply update_extends; [| apply Hm | | |] |].
  exists s'. simpl. by rewrite lookup_insert_eq.
Qed.

(** Changes outside sessions, pool, tree and channels. *)
Lemma world_ok_same w w' :
  config w' = config w -> session_pool w' = session_pool w -> topic_tree w' = topic_tree w ->
  sessions w' = sessions w -> channels w' = channels w -> world_ok w -> world_ok w'.
Proof.
  destruct w, w'. simpl. intros -> -> -> -> -> [[Ha Hi Hdis Hf] Hcap Ht Hs Hd]. by split; [split | ..].
Qed.

Lemma sound_modify P f :
  (forall w, config (f w) = config w /\ session_pool (f w) = session_pool w /\ topic_tree (f w) = topic_tree w
             /\ sessions (f w) = sessions w /\ channels (f w) = channels w) ->
  sound P (modify f) (fun _ _ => True).
Proof.
  intros Hf. apply sound_step. intros w Hw _. destruct (Hf w) as (? & ? & ? & ? & ?).
  do 2 eexists. split; [reflexivity |]. split_and!; [by eapply world_ok_same | by apply extends_same | done].
Qed.

Lemma sound_get P : sound P get (fun w w' => w' = w /\ P w').
Proof. intros w Hw HP. by split_and!. Qed.

(** Changes outside sessions, pool and tree; channels may be added or used. *)
Lemma channels_world_ok w cs :
  world_ok w -> (forall ch, is_Some (channels w !! ch) -> is_Some (cs !! ch)) ->
  world_ok (w <| channels := cs |>).
Proof.
  intros [[Ha Hi Hdis Hf] Hcap Ht Hs Hd] Hcs. split; [by split | done | done | | done].
  intros r s Hr. destruct (Hs r s Hr) as (? & ? & ?). split_and!; [done | by apply Hcs | done].
Qed.

Lemma insert_some {A} (m : gmap Z A) i x j : is_Some (m !! j) -> is_Some (<[i := x]> m !! j).
Proof. intros Hj. destruct (decide (j = i)) as [->|]; [| by rewrite lookup_insert_ne]. rewrite lookup_insert_eq. by eexists. Qed.

Lemma send_world_ok w r s c c' :
  world_ok w -> sessions w !! r = Some s -> channels w !! Session.sender s = Some c ->
  world_ok (w <| channels := <[Session.sender s := c']> (channels w) |>).
Proof. intros Hw _ _. apply channels_world_ok; [done |]. intros. by apply insert_some. Qed.

(** The pool and the limit it is under. *)
Definition pool_is (p : SessionPool) (cfg : Config) w : Prop := session_pool w = p /\ config w = cfg.

Lemma sound_try_send r m p cfg :
  sound (fun w => valid r w /\ pool_is p cfg w) (try_send_control r m) (fun _ => pool_is p cfg).
Proof.
  apply sound_step. intros w Hw [[s Hs] Hp]. unfold try_send_control.
  rewrite (session_at_run _ _ _ _ Hs), bind_get.
  destruct (wo_sessions w Hw r s Hs) as (_ & [c Hc] & _). unfold lift, unwrap. rewrite Hc.
  unfold mbind at 1, M_bind at 1. destruct (chan_try_send m c) as [c'|].
  - do 2 eexists. split; [reflexivity |]. split_and!; [| by apply extends_same | done].
    apply channels_world_ok; [done |]. intros. by apply insert_some.
  - exists false, w. by split_and!.
Qed.

Lemma sound_send r m p cfg :
  sound (fun w => valid r w /\ pool_is p cfg w) (send_control r m) (fun _ => pool_is p cfg).
Proof.
  intros w Hw [Hv Hp]. destruct (sound_try_send r m p cfg w Hw (conj Hv Hp)) as (Hw' & He & H).
  unfold send_control, mbind at 1, M_bind at 1.
  destruct (try_send_control r m w) as [[[]|e| |] w1]; simpl in *; [by split_and! | | done | by split_and! | by split_and!].
  destruct (stable_valid r w w1 He Hv) as [s Hs].
  rewrite (session_at_run _ _ _ _ Hs), bind_get.
  destruct (wo_sessions w1 Hw' r s Hs) as (_ & [c Hc] & _). unfold lift, unwrap. rewrite Hc.
  unfold mbind at 1, M_bind at 1. destruct (chan_closed c); by split_and!.
Qed.

(** A send whose effect on the pool does not matter. *)
Lemma sound_try_send' r m : sound (valid r) (try_send_control r m) (fun _ _ => True).
Proof.
  intros w Hw Hv. destruct (sound_try_send r m (session_pool w) (config w) w Hw) as (? & ? & H); [done |].
  split_and!; [done | done |]. by destruct ((try_send_control r m w).1).
Qed.

Lemma sound_deliver r out : sound (valid r) (deliver r out) (fun _ _ => True).
Proof.
  eapply sound_seq; [apply stable_valid | apply sound_try_send' |]. intros []; [apply sound_done |].
  eapply sound_bind; [| intros; apply sound_done]. eapply sound_pre; [apply sound_try_send' | tauto].
Qed.

Lemma sound_cancel_will r : sound (valid r) (cancel_pending_will r) (fun _ _ => True).
Proof.
  eapply sound_bind; [apply sound_session_at |]. intros s.
  destruct (Session.pending_will s) as [token|]; [| apply sound_done].
  eapply sound_bind; [| intros; by apply sound_modify].
  eapply sound_pre; [apply sound_with_session; by intros ? |]. intros w Hs. by eexists.
Qed.

Lemma sound_set_will r token : sound (valid r) (set_pending_will r token) (fun _ _ => True).
Proof.
  eapply sound_seq; [apply stable_valid | apply sound_cancel_will |]. intros u.
  eapply sound_weaken; [by apply (sound_with_session r) | tauto | done].
Qed.

(** *** The topic tree *)

Lemma tree_extends w t : len (topic_tree w) <= len t -> extends w (w <| topic_tree := t |>).
Proof. intros Hl. split_and!; [intros r s Hs; by exists s | done | done]. Qed.

(** An operation that keeps a well-formed tree, as long as it is not overgrown. *)
Lemma sound_tree {A} P (m : M TopicTree Empty_set A) :
  grows m ->
  (forall t, tree_ok t -> len (m t).2 <= 4294967296 -> exists a t', m t = (Ok a, t') /\ tree_ok t') ->
  sound P (in_tree m) (fun _ _ => True).
Proof.
  intros Hg Hm w Hw _. specialize (Hg (topic_tree w)). unfold in_tree.
  destruct (m (topic_tree w)) as [o t'] eqn:E. simpl in Hg.
  assert (Hok : overgrown (w <| topic_tree := t' |>) \/ (exists a, o = Ok a) /\ tree_ok t').
  { destruct (decide (4294967296 < len t')) as [Ho|Ho]; [by left |]. right.
    destruct (wo_tree w Hw) as [Ht|Ht]; [unfold overgrown in Ht; lia |].
    destruct (Hm (topic_tree w) Ht) as (a & t'' & E' & ?); [rewrite E; simpl; lia |].
    rewrite E in E'. injection E' as -> ->. eauto. }
  destruct Hw as [[Ha Hi Hdis Hf] Hcap _ Hs Hd]. split_and!; [| by apply tree_extends |].
  - split; [by split | done | destruct Hok as [?|[_ ?]]; by (left + right) | done | done].
  - destruct Hok as [?|[[a ->] _]]; [| done]. by destruct o.
Qed.

Lemma sound_subscribe P filter sid qos no_local :
  sound P (in_tree (subscribe filter sid qos no_local)) (fun _ _ => True).
Proof.
  apply sound_tree.
  - intros t. apply subscribe_len.
  - intros t Ht Hl. destruct (subscribe_run t filter sid qos no_local Ht Hl) as (t' & ? & ? & _). eauto.
Qed.

Lemma sound_unsubscribe P filter sid :
  sound P (in_tree (unsubscribe filter sid)) (fun _ _ => True).
Proof.
  apply sound_tree; [apply grows_unsubscribe |].
  intros t Ht _. destruct (unsubscribe_run t filter sid Ht) as (t' & ? & ? & _). eauto.
Qed.

Lemma sound_matching P topic : sound P (in_tree (matching_subscribers topic)) (fun _ _ => True).
Proof.
  apply sound_tree; [apply grows_collect |].
  intros t Ht _. destruct (matching_total t topic Ht) as [r Hr]. eauto.
Qed.

Lemma sound_subscribe_each sid filters : forall P suback,
  sound P (subscribe_each sid filters suback) (fun _ _ => True).
Proof.
  induction filters as [|f fs IH]; intros P suback; [apply sound_done |].
  eapply sound_bind; [apply sound_subscribe |]. intros u. apply IH.
Qed.

Lemma sound_unsubscribe_each sid topics : forall P unsuback,
  sound P (unsubscribe_each sid topics unsuback) (fun _ _ => True).
Proof.
  induction topics as [|f fs IH]; intros P unsuback; [apply sound_done |].
  eapply sound_bind; [apply sound_unsubscribe |]. intros u. apply IH.
Qed.

(** *** Routing *)

Lemma publish_qos_set q p : publish_qos (publish_set_qos q p) = Ok q.
Proof. apply header_qos_set. Qed.

Lemma publish_packet_id_set q id p :
  publish_qos p = Ok q -> q <> QoSLevel.AtMostOnce ->
  publish_set_packet_id id p = Ok (p <| Publish.packet_id := id |>).
Proof. intros Hq Hn. unfold publish_set_packet_id. by rewrite Hq, bool_decide_eq_false_2. Qed.

Lemma next_packet_id_valid s :
  valid_packet_id (Session.next_packet_id s) ->
  valid_packet_id (Session.next_packet_id ((next_packet_id s).2)).
Proof.
  intros Hs. rewrite next_packet_id_step by done. unfold valid_packet_id in *.
  pose proof (Z.mod_pos_bound (Session.next_packet_id s) 65535). lia.
Qed.

Lemma mild_next_packet_id s : mild s ((next_packet_id s).2).
Proof. split_and!; try done. apply next_packet_id_valid. Qed.

Lemma mild_track id p s : publish_wf p -> mild s (track_qos_publish id p s).
Proof. intros Hp. split_and!; try done. simpl. intros H. by apply map_Forall_insert_2. Qed.

Lemma sound_get_active id :
  sound (fun _ => True) (get_active id)
    (fun o w => match o with Some r => valid r w | None => True end).
Proof.
  intros w Hw _. split_and!; [done | done |]. simpl.
  destruct (SessionPool.active (session_pool w) !! id) as [r|] eqn:E; [| done].
  destruct (p_filed w (wo_pool w Hw) id r true) as (s & Hs & _); [by apply view_active | by exists s].
Qed.

Lemma sound_route_to publish sender sub :
  publish_wf publish -> sound (fun _ => True) (route_to publish sender sub) (fun _ _ => True).
Proof.
  intros [q Hq]. unfold route_to.
  destruct (Subscriber.no_local sub && _); [apply sound_done |]. rewrite Hq.
  change (lift (or_panic (Ok q)) ≫= ?k) with (k q). cbv beta zeta.
  eapply sound_bind; [apply sound_get_active |]. intros [r|]; [| apply sound_done].
  set (g := granted_qos q (Subscriber.qos sub)).
  destruct (decide (g = QoSLevel.AtMostOnce)) as [Hg|Hg].
  { rewrite bool_decide_eq_true_2 by done. apply sound_deliver. }
  rewrite bool_decide_eq_false_2 by done. simpl negb. cbv iota.
  eapply sound_bind; [apply sound_session_at |]. intros s. simpl next_packet_id. cbv iota beta.
  eapply sound_bind.
  { apply sound_put_session. apply mild_next_packet_id. }
  intros u. rewrite (publish_packet_id_set g) by (done || apply publish_qos_set).
  change (lift (or_keep ?a (Ok ?b)) ≫= ?k) with (k b). cbv beta.
  eapply sound_bind; [| intros; apply sound_deliver].
  apply sound_with_session. intros s'. apply mild_track. exists g. apply publish_qos_set.
Qed.

Lemma sound_route_each publish sender subs :
  publish_wf publish -> sound (fun _ => True) (route_each publish sender subs) (fun _ _ => True).
Proof.
  intros Hp. induction subs as [|sub subs IH]; [apply sound_done |].
  eapply sound_bind; [by apply sound_route_to |]. done.
Qed.

Lemma sound_route publish sender :
  publish_wf publish -> sound (fun _ => True) (route_publish publish sender) (fun _ _ => True).
Proof.
  intros Hp. eapply sound_bind; [apply sound_matching |]. intros subs. by apply sound_route_each.
Qed.

(** *** Wills *)

Lemma header_qos_set_retain h r : header_qos (header_set_retain r h) = header_qos h.
Proof.
  destruct h as [p f]. unfold header_qos, header_set_retain. simpl.
  rewrite Z.land_lor_distr_l, <- Z.land_assoc.
  change (Z.land (not_u8 RETAIN_MASK) QOS_MASK) with QOS_MASK.
  destruct r; simpl; by rewrite Z.lor_0_r.
Qed.

Lemma will_publish_wf will : exists p, will_publish will = Ok p /\ publish_wf p.
Proof.
  unfold will_publish. simpl new_from_header. cbv iota beta.
  assert (Hq : forall h, header_qos (header_set_retain (WillMessage.retain will)
    (header_set_qos (WillMessage.qos will) h)) = Ok (WillMessage.qos will)).
  { intros h. by rewrite header_qos_set_retain, header_qos_set. }
  destruct (WillHeader.payload_format _) as [f|]; eexists; (split; [reflexivity |]);
    eexists; unfold publish_qos, set_payload_format; simpl; [| apply Hq].
  case_bool_decide; apply Hq.
Qed.

Lemma sound_publish_will will : sound (fun _ => True) (publish_will will) (fun _ _ => True).
Proof.
  destruct (will_publish_wf will) as (p & Hp & Hwf). unfold publish_will. rewrite Hp.
  change (lift (Ok p) ≫= ?k) with (k p). by apply sound_route.
Qed.

Lemma sound_initiate_will r : sound (valid r) (initiate_will r) (fun _ _ => True).
Proof.
  eapply sound_bind; [apply sound_session_at |]. intros s. simpl take_will. cbv iota beta.
  eapply sound_bind; [by apply sound_put_session |]. intros u.
  destruct (Session.will_message s) as [will|]; [| apply sound_done]. cbv zeta.
  destruct (_ =? 0); [by eapply sound_pre; [apply sound_publish_will |] |].
  eapply sound_bind; [apply sound_get |]. intros w0.
  eapply (sound_bind _ _ _ (fun _ => valid r)).
  - apply sound_step. intros w Hw [-> Hv]. do 2 eexists. split; [reflexivity |].
    split_and!; [by apply (world_ok_same w0) | by apply extends_same | done].
  - intros u'. apply sound_set_will.
Qed.

Lemma sound_delayed_will timer token : sound (fun _ => True) (run_delayed_will timer token) (fun _ _ => True).
Proof.
  eapply sound_bind; [apply sound_get |]. intros w0.
  destruct (delayed_wills w0 !! token) as [[deadline will]|]; [| apply sound_done].
  cbv zeta. destruct (is_cancelled _ _ && _); [by apply sound_modify |].
  destruct (deadline <=? clock w0); [| apply sound_done].
  eapply sound_bind; [by apply sound_modify |]. intros u. apply sound_publish_will.
Qed.

(** *** The pool *)

(** The part of the invariant that a change of the pool does not concern. *)
Lemma pool_world_ok w p :
  world_ok w -> pool_ok (w <| session_pool := p |>) -> within (w <| session_pool := p |>) ->
  world_ok (w <| session_pool := p |>).
Proof. intros [_ _ Ht Hs Hd] Hp Hc. by split. Qed.

(** The connected sessions, from the view of the pool. *)
Lemma view_lookup_active p i :
  SessionPool.active p !! i = match pool_view p i with Some (r, true) => Some r | _ => None end.
Proof.
  unfold pool_view. destruct (SessionPool.active p !! i); [done |].
  by destruct (SessionPool.inactive p !! i).
Qed.

Lemma view_delete p p' id o :
  (forall i, pool_view p' i = if decide (i = id) then (fun r => (r, false)) <$> o else pool_view p i) ->
  SessionPool.active p' = delete id (SessionPool.active p).
Proof.
  intros Hv. apply map_eq. intros i. rewrite view_lookup_active, Hv. case_decide as E.
  - subst. rewrite lookup_delete_eq. by destruct o.
  - by rewrite lookup_delete_ne, view_lookup_active.
Qed.

Lemma view_insert p p' id r :
  (forall i, pool_view p' i = if decide (i = id) then Some (r, true) else pool_view p i) ->
  SessionPool.active p' = <[id := r]> (SessionPool.active p).
Proof.
  intros Hv. apply map_eq. intros i. rewrite view_lookup_active, Hv. case_decide as E.
  - subst. by rewrite lookup_insert_eq.
  - by rewrite lookup_insert_ne, view_lookup_active.
Qed.

(** The client has a connected session, or there is room for one more. *)
Definition room (id : rstring) w : Prop :=
  is_Some (SessionPool.active (session_pool w) !! id)
  \/ forall k, Config.max_active_sessions (config w) = Some k -> is_u32 k ->
     Z.of_nat (size (SessionPool.active (session_pool w))) < k.

Lemma within_delete w p' id :
  within w -> SessionPool.active p' = delete id (SessionPool.active (session_pool w)) ->
  within (w <| session_pool := p' |>).
Proof.
  intros Hc E k Hk Hu. specialize (Hc k Hk Hu). simpl. rewrite E, map_size_delete.
  destruct (_ !! id); unfold Datatypes.id; simpl; lia.
Qed.

Lemma room_delete w p' id :
  within w -> room id w -> SessionPool.active p' = delete id (SessionPool.active (session_pool w)) ->
  room id (w <| session_pool := p' |>).
Proof.
  intros Hc Hr E. right. intros k Hk Hu. specialize (Hc k Hk Hu). simpl. rewrite E, map_size_delete.
  destruct (SessionPool.active (session_pool w) !! id) as [r|] eqn:Er.
  - assert (size (SessionPool.active (session_pool w)) <> 0%nat); [| simpl; lia].
    intros Hz. apply map_size_empty_inv in Hz. rewrite Hz, lookup_empty in Er. done.
  - destruct Hr as [[? Hr]|Hr]; [congruence | by apply Hr].
Qed.

Lemma within_insert w p' id r :
  within w -> room id w -> SessionPool.active p' = <[id := r]> (SessionPool.active (session_pool w)) ->
  within (w <| session_pool := p' |>).
Proof.
  intros Hc Hr E k Hk Hu. specialize (Hc k Hk Hu). simpl. rewrite E, map_size_insert.
  destruct Hr as [[r' Hr]|Hr]; [by rewrite Hr |]. specialize (Hr k Hk Hu).
  destruct (_ !! id); unfold Datatypes.id; simpl; lia.
Qed.

Lemma sound_remove id :
  sound (room id) (remove id)
    (fun o w => pool_view (session_pool w) id = None /\ room id w
                /\ match o with Some r => valid r w | None => True end).
Proof.
  apply sound_step. intros w Hw Hroom.
  destruct (remove_run w id (wo_pool w Hw)) as (p & Hr & Hp & Hv).
  pose proof (view_delete _ _ id None Hv) as Hd. do 2 eexists.
  split; [exact Hr |]. split_and!; [| by apply extends_same | | |].
  - apply pool_world_ok; [done | done |]. eapply within_delete; [apply (wo_capacity w Hw) | exact Hd].
  - simpl. by rewrite Hv, decide_True.
  - eapply room_delete; [apply (wo_capacity w Hw) | done | exact Hd].
  - destruct (pool_view (session_pool w) id) as [[r b]|] eqn:E; [| done]. simpl.
    destruct (p_filed w (wo_pool w Hw) id r b E) as (s & Hs & _). by exists s.
Qed.

(** Connecting and disconnecting a session that was found. *)
Lemma refiled_world_ok w p r s s' :
  world_ok w -> sessions w !! r = Some s ->
  Session.sender s' = Session.sender s -> Session.next_packet_id s' = Session.next_packet_id s ->
  Session.pending_ack s' = Session.pending_ack s ->
  pool_ok (w <| session_pool := p |> <| sessions := <[r := s']> (sessions w) |>) ->
  within (w <| session_pool := p |>) ->
  world_ok (w <| session_pool := p |> <| sessions := <[r := s']> (sessions w) |>).
Proof.
  intros [_ _ Ht Hs Hd] Hr E1 E2 E3 Hp Hc. split; [done | done | done | |].
  - intros r' t. simpl. rewrite lookup_insert_Some. intros [[<- <-]|[_ Hr']]; [| by apply (Hs r')].
    unfold session_ok. rewrite E1, E2, E3. by apply (Hs r).
  - simpl. intros r1 r2 s1 s2. rewrite !lookup_insert_Some.
    intros [[<- <-]|[? H1]] [[<- <-]|[? H2]] E; try done.
    + apply (Hd r r2 s s2); [done | done | congruence].
    + apply (Hd r1 r s1 s); [done | done | congruence].
    + by apply (Hd r1 r2 s1 s2).
Qed.

Lemma sound_deactivate id : sound (fun _ => True) (deactivate id) (fun _ _ => True).
Proof.
  apply sound_step. intros w Hw _. pose proof (deactivate_run w id (wo_pool w Hw)) as H.
  destruct (pool_view (session_pool w) id) as [[r []]|];
    [| exists None, w; by split_and! | exists None, w; by split_and!].
  destruct H as (p & s & Hs & Hr & Hp & Hv).
  pose proof (view_delete _ _ id (Some r) Hv) as Hd. do 2 eexists. split; [exact Hr |].
  split_and!; [| | done].
  { eapply refiled_world_ok; try done. eapply within_delete; [apply (wo_capacity w Hw) | exact Hd]. }
  by apply (update_extends w _ r s (set_connected false s)).
Qed.

Lemma sound_activate id :
  sound (room id) (activate id)
    (fun o w => match o with
                | Some r => valid r w
                | None => SessionPool.inactive (session_pool w) !! id = None /\ room id w
                end).
Proof.
  apply sound_step. intros w Hw Hroom. pose proof (activate_run w id (wo_pool w Hw)) as H.
  destruct (pool_view (session_pool w) id) as [[r []]|] eqn:E; unfold pool_view in E.
  - exists None, w. split_and!; try done.
    destruct (SessionPool.active (session_pool w) !! id) as [r'|] eqn:Ea;
      [by apply (p_disjoint w (wo_pool w Hw) id r') |].
    by destruct (SessionPool.inactive (session_pool w) !! id).
  - destruct H as (p & s & Hs & Hr & Hp & Hv). pose proof (view_insert _ _ id r Hv) as Hd.
    do 2 eexists. split; [exact Hr |]. split_and!.
    + eapply refiled_world_ok; try done. eapply within_insert; [apply (wo_capacity w Hw) | done | exact Hd].
    + by apply (update_extends w _ r s (set_last_active (clock w) (set_connected true s))).
    + eexists. simpl. apply lookup_insert_eq.
  - exists None, w. split_and!; try done.
    destruct (SessionPool.active (session_pool w) !! id); [done |].
    by destruct (SessionPool.inactive (session_pool w) !! id).
Qed.

(** *** Connecting *)

(** A channel that no session uses is handed to a session, old or new. *)
Lemma given_channel_world_ok w ch c r s' :
  world_ok w -> channels w !! ch = None ->
  match sessions w !! r with
  | Some s => Session.id s' = Session.id s /\ Session.connected s' = Session.connected s
  | None => True
  end ->
  Session.sender s' = ch -> valid_packet_id (Session.next_packet_id s') ->
  map_Forall (fun _ p => publish_wf p) (Session.pending_ack s') ->
  world_ok (w <| channels := <[ch := c]> (channels w) |> <| sessions := <[r := s']> (sessions w) |>).
Proof.
  intros [[Ha Hi Hdis Hf] Hcap Ht Hs Hd] Hch Hr Hse Hn Hpd.
  split; [split; simpl; try done | done | done | |]; simpl.
  - intros id r' b Hv. destruct (Hf id r' b Hv) as (t & Htr & Htid & Htc).
    destruct (decide (r' = r)) as [->|]; [| exists t; by rewrite lookup_insert_ne].
    exists s'. rewrite lookup_insert_eq. rewrite Htr in Hr. destruct Hr. split_and!; congruence.
  - intros r' t. rewrite lookup_insert_Some. intros [[<- <-]|[_ Hr']].
    + split_and!; [done | simpl; rewrite Hse, lookup_insert_eq; by eexists | done].
    + destruct (Hs r' t Hr') as (? & ? & ?). split_and!; [done | by apply insert_some | done].
  - assert (Hnew : forall r' t, sessions w !! r' = Some t -> Session.sender t <> ch).
    { intros r' t Hr' <-. destruct (Hs r' t Hr') as (_ & [c' Hc'] & _). congruence. }
    intros r1 r2 s1 s2. rewrite !lookup_insert_Some.
    intros [[<- <-]|[? H1]] [[<- <-]|[? H2]] E; try done.
    + destruct (Hnew r2 s2 H2). congruence.
    + destruct (Hnew r1 s1 H1). congruence.
    + by apply (Hd r1 r2 s1 s2).
Qed.

Lemma start_run w id connect keep_alive :
  world_ok w -> pool_view (session_pool w) id = None -> room id w ->
  exists p c,
    let ch := new_ref (channels w) in
    let r := new_ref (sessions w) in
    let s := set_connected true (Session_new id (will_message connect) keep_alive (clock w) ch) in
    let w' := w <| channels := <[ch := c]> (channels w) |>
                <| sessions := <[r := s]> (sessions w) |> <| session_pool := p |> in
    start_session id connect keep_alive w = (Ok r, w') /\ world_ok w'
    /\ c = chan_new (Config.session_channel_size (config w))
    /\ forall i, pool_view p i = if decide (i = id) then Some (r, true)
                                 else pool_view (session_pool w) i.
Proof.
  intros Hw Hv Hroom. set (ch := new_ref (channels w)). set (r := new_ref (sessions w)).
  set (s := set_connected true (Session_new id (will_message connect) keep_alive (clock w) ch)).
  set (c := chan_new (Config.session_channel_size (config w)) : chan SessionControl).
  set (w1 := w <| channels := <[ch := c]> (channels w) |> <| sessions := <[r := s]> (sessions w) |>).
  assert (Hw1 : world_ok w1).
  { apply given_channel_world_ok; try done; [apply new_ref_fresh |].
    unfold r. by rewrite new_ref_fresh. }
  assert (Hs1 : sessions w1 !! r = Some s) by apply lookup_insert_eq.
  destruct (add_run w1 r s (wo_pool w1 Hw1) Hs1 Hv) as (p & Hadd & Hp & Hview).
  exists p, c. cbv zeta. fold ch r. fold s. split_and!; [| | done | done].
  2: { apply pool_world_ok; [done | done |].
       eapply (within_insert w1); [apply (wo_capacity w1 Hw1) | exact Hroom | by apply view_insert]. }
  assert (E : start_session id connect keep_alive w = (add r ≫= fun _ => mret r) w1) by done.
  rewrite E. by rewrite (bind_ok _ _ _ _ _ Hadd).
Qed.

Lemma sound_start id connect keep_alive :
  sound (fun w => pool_view (session_pool w) id = None /\ room id w)
    (start_session id connect keep_alive) (fun r w => valid r w).
Proof.
  apply sound_step. intros w Hw [Hv Hr]. destruct (start_run w id connect keep_alive Hw Hv Hr) as (p & c & H).
  cbv zeta in H. destruct H as (E & Hw' & _ & _). do 2 eexists. split; [exact E |].
  split_and!; [done | |].
  - split_and!; [| simpl; lia | done]. intros r s Hs. exists s. simpl. rewrite lookup_insert_ne; [done |].
    intros <-. by rewrite new_ref_fresh in Hs.
  - eexists. simpl. apply lookup_insert_eq.
Qed.

Lemma sound_resume r connect : sound (valid r) (resume_session r connect) (fun _ => valid r).
Proof.
  eapply sound_seq; [apply stable_valid | apply sound_cancel_will |]. intros u.
  eapply sound_bind; [eapply sound_weaken; [by apply sound_with_session | tauto | done] |].
  intros u'. apply sound_step. intros w Hw [s Hs].
  set (ch := new_ref (channels w)).
  set (c := chan_new (Config.session_channel_size (config w)) : chan SessionControl).
  set (w1 := w <| channels := <[ch := c]> (channels w) |>).
  exists tt, (w1 <| sessions := <[r := reset_control ch s]> (sessions w) |>). split_and!.
  - assert (E : (new_channel ≫= fun ch => with_session r (reset_control ch)) w
      = with_session r (reset_control ch) w1) by done.
    rewrite E. exact (with_session_eq r (reset_control ch) s w1 Hs).
  - destruct (wo_sessions w Hw r s Hs) as (? & _ & ?).
    apply given_channel_world_ok; try done; [apply new_ref_fresh |]. by rewrite Hs.
  - by apply (update_extends w _ r s (reset_control ch s)).
  - eexists. simpl. apply lookup_insert_eq.
Qed.

Lemma sound_takeover r p cfg :
  sound (fun w => valid r w /\ pool_is p cfg w) (handle_takeover r) (fun _ => pool_is p cfg).
Proof. apply sound_send. Qed.

(** The session of a new client. *)
Lemma sound_choose id connect keep_alive :
  sound (room id) (choose_session id connect keep_alive) (fun res w => valid res.1 w).
Proof.
  assert (Hstart : sound (fun w => pool_view (session_pool w) id = None /\ room id w)
    (r ← start_session id connect keep_alive; mret (r, false)) (fun res w => valid res.1 w)).
  { eapply sound_bind; [apply sound_start |]. intros r.
    apply (sound_ret (fun (res : Z * bool) w => valid res.1 w) (r, false)). }
  unfold choose_session. destruct (clean_start connect).
  - eapply sound_bind; [apply sound_remove |]. intros [old|]; [| eapply sound_pre; [done | tauto]].
    intros w Hw (Hv & Hr & [s Hs]). rewrite (session_at_run _ _ _ _ Hs).
    destruct (Session.connected s); [| by apply Hstart].
    eapply (sound_bind (fun w' => valid old w' /\ pool_is (session_pool w) (config w) w'));
      [apply sound_takeover | | done | split; [by exists s | done]].
    intros u. eapply sound_pre; [exact Hstart |]. cbv beta. intros w' [Hp Hc].
    unfold room. by rewrite Hp, Hc.
  - eapply sound_bind; [apply sound_activate |]. intros [r|].
    + eapply sound_bind; [apply sound_resume |]. intros u.
      apply (sound_ret (fun (res : Z * bool) w => valid res.1 w) (r, true)).
    + eapply (sound_bind _ _ _ (fun o w => match o with
        | Some r => valid r w | None => pool_view (session_pool w) id = None /\ room id w end)).
      * intros w Hw [Hi Hr]. destruct (sound_get_active id w Hw I) as (? & ? & H). split_and!; [done | done |].
        simpl in *. unfold pool_view. destruct (SessionPool.active (session_pool w) !! id); [done |].
        by rewrite Hi.
      * intros [r|]; [| done]. intros w Hw Hv.
        eapply (sound_seq (valid r) _ _ (fun _ _ => True)); [apply stable_valid | | | done | done].
        { intros w1 Hw1 Hv1. destruct (sound_takeover r (session_pool w1) (config w1) w1 Hw1) as (? & ? & H); [done |].
          split_and!; [done | done |]. by destruct ((handle_takeover r w1).1). }
        intros u. eapply sound_bind; [eapply sound_pre; [apply sound_resume | tauto] |]. intros u'.
        eapply (sound_bind _ _ _ (fun _ => valid r)); [intros w1 Hw1 Hv1; by split_and! |].
        intros now. eapply sound_bind; [by apply sound_with_session |]. intros u2.
        apply (sound_ret (fun (res : Z * bool) w => valid res.1 w) (r, true)).
Qed.

(** ** Handlers *)

(** As [sound], for code that also works on the connection, where any outcome
    is possible: writing to the peer may fail. *)
Definition safe {A} (P : World -> Prop) (m : M (World * Conn) BrokerError A) (Q : A -> World -> Prop)
    : Prop :=
  forall w c, world_ok w -> P w ->
  let '(o, (w', _)) := m (w, c) in
  world_ok w' /\ extends w w' /\ match o with Ok a => Q a w' | _ => True end.

Lemma safe_done {A} P (a : A) : safe P (mret a) (fun _ _ => True).
Proof. intros w c Hw HP. by split_and!. Qed.

Lemma safe_ret {A} (Q : A -> World -> Prop) a : safe (Q a) (mret a) Q.
Proof. intros w c Hw HP. by split_and!. Qed.

Lemma safe_raise {A} P e (Q : A -> World -> Prop) : safe P (raise e) Q.
Proof. intros w c Hw HP. by split_and!. Qed.

Lemma safe_bind {A C} P (m : M (World * Conn) BrokerError A) (k : A -> M (World * Conn) BrokerError C) Q S :
  safe P m Q -> (forall a, safe (Q a) (k a) S) -> safe P (m ≫= k) S.
Proof.
  intros Hm Hk w c Hw HP. specialize (Hm w c Hw HP). unfold mbind, M_bind.
  destruct (m (w, c)) as [[a|e| |] [w1 c1]]; destruct Hm as (Hw1 & He1 & HQ); [| by split_and! ..].
  specialize (Hk a w1 c1 Hw1 HQ).
  destruct (k a (w1, c1)) as [o [w2 c2]]. destruct Hk as (? & ? & ?).
  split_and!; [done | by etrans | done].
Qed.

Lemma safe_seq {A C} P (m : M (World * Conn) BrokerError A) (k : A -> M (World * Conn) BrokerError C) Q S :
  stable P -> safe P m Q -> (forall a, safe (fun w => P w /\ Q a w) (k a) S) -> safe P (m ≫= k) S.
Proof.
  intros HP Hm Hk. apply (safe_bind _ _ _ (fun a w => P w /\ Q a w)); [| done].
  intros w c Hw Hp. specialize (Hm w c Hw Hp). destruct (m (w, c)) as [o [w1 c1]].
  destruct Hm as (? & ? & ?). split_and!; [done | done |]. destruct o; eauto.
Qed.

Lemma safe_intro {A} (φ : Prop) P (m : M (World * Conn) BrokerError A) Q :
  (φ -> safe P m Q) -> safe (fun w => φ /\ P w) m Q.
Proof. intros Hm w c Hw [Hφ HP]. by apply Hm. Qed.

Lemma safe_pre {A} (P P' : World -> Prop) (m : M (World * Conn) BrokerError A) Q :
  safe P' m Q -> (forall w, world_ok w -> P w -> P' w) -> safe P m Q.
Proof. intros Hm HP w c Hw H. by apply Hm; [| apply HP]. Qed.

Lemma safe_world {A} P (m : M World Empty_set A) Q : sound P m Q -> safe P (in_world m) Q.
Proof.
  intros Hm w c Hw HP. destruct (Hm w Hw HP) as (? & ? & ?). unfold in_world.
  by destruct (m w) as [[a|[]| |] w1]; split_and!.
Qed.

(** The stream and the local variables are not part of the shared state. *)
Lemma safe_stream {A} P (m : M PacketStream StreamError A) : safe P (on_stream m) (fun _ _ => True).
Proof.
  intros w c Hw HP. unfold on_stream. destruct (m (c_stream c)) as [[a|e| |] t]; by split_and!.
Qed.

Lemma safe_local P f : safe P (local f) (fun _ => P).
Proof. intros w c Hw HP. by split_and!. Qed.

Lemma safe_pure {A} P (o : outcome BrokerError A) :
  safe P (lift o) (fun a w => o = Ok a /\ P w).
Proof. intros w c Hw HP. simpl. split_and!; [done | done |]. by destruct o. Qed.

Lemma safe_send P p : safe P (send p) (fun _ _ => True).
Proof. apply safe_stream. Qed.

Create HintDb safe.
#[local] Hint Resolve safe_done safe_send safe_stream : safe.

(** *** Packets of a connected client *)

Lemma safe_session_at r : safe (valid r) (in_world (session_at r)) (fun s w => sessions w !! r = Some s).
Proof. apply safe_world, sound_session_at. Qed.

Lemma mild_acknowledge id s : mild s ((acknowledge id s).2).
Proof. split_and!; try done. simpl. intros H. by apply map_Forall_delete. Qed.

Lemma safe_deactivate P id :
  safe P (in_world (deactivate id) ≫= fun _ => mret tt) (fun _ _ => True).
Proof.
  eapply safe_bind; [| auto with safe]. apply safe_world.
  eapply sound_pre; [apply sound_deactivate | done].
Qed.

Lemma safe_trivial {A} P (m : M World Empty_set A) Q :
  sound (fun _ => True) m Q -> safe P (in_world m) Q.
Proof. intros Hm. apply safe_world. by eapply sound_pre. Qed.

Lemma safe_publish p r :
  safe (valid r) (handle_packet (Packet.Publish p) r) (fun _ _ => True).
Proof.
  eapply safe_bind; [apply safe_session_at |]. intros s.
  eapply safe_bind; [apply safe_pure |]. intros q. apply safe_intro. intros Hq.
  assert (publish_wf p) by (exists q; destruct (publish_qos p); simpl in Hq; by simplify_eq).
  eapply (safe_bind _ _ _ (fun _ _ => True)); [| intros u; by apply safe_world, sound_route].
  destruct (bool_decide _); [| auto with safe].
  destruct (Publish.packet_id p) as [id|]; [auto with safe |].
  eapply safe_bind; [apply safe_send |]. intros u. apply safe_raise.
Qed.

Lemma safe_disconnect p r :
  safe (valid r) (handle_packet (Packet.Disconnect p) r) (fun _ _ => True).
Proof.
  eapply (safe_seq _ _ _ (fun _ _ => True)); [apply stable_valid | |].
  - destruct (bool_decide _); apply safe_world; [| apply sound_initiate_will].
    eapply sound_weaken; [by apply sound_with_session | done | done].
  - intros u. eapply safe_bind; [eapply safe_pre; [apply safe_session_at | tauto] |].
    intros s. apply safe_deactivate.
Qed.

Lemma safe_handle_packet packet r :
  safe (valid r) (handle_packet packet r) (fun _ _ => True).
Proof.
  destruct packet as [| | | |p|p| | | |p|p| |p|]; try apply safe_done; try apply safe_send.
  - apply safe_publish.
  - apply safe_world. eapply sound_weaken; [| done | done].
    apply (sound_with_session r). intros s. apply mild_acknowledge.
  - apply safe_disconnect.
  - eapply safe_bind; [apply safe_session_at |]. intros s.
    eapply safe_bind; [apply safe_world, sound_subscribe_each |]. auto with safe.
  - eapply safe_bind; [apply safe_session_at |]. intros s.
    eapply safe_bind; [apply safe_world, sound_unsubscribe_each |]. auto with safe.
Qed.

(** *** Connecting and serving *)

Definition served (o : option Z) w : Prop := match o with Some r => valid r w | None => True end.

Lemma safe_read {A} P (f : World -> A) : safe P (in_world (gets f)) (fun a w => a = f w /\ P w).
Proof. intros w c Hw HP. by split_and!. Qed.

(** An answer after which the connection is shut down. *)
Lemma safe_refuse P p :
  safe P (send p ≫= fun _ => on_stream shutdown ≫= fun _ => mret None) served.
Proof.
  do 2 (eapply safe_bind; [auto with safe |]; intros ?). apply (safe_ret served None).
Qed.

(** A client that is not refused for lack of room has some. *)
Lemma capacity_room w id :
  world_ok w ->
  negb (bool_decide (is_Some (SessionPool.active (session_pool w) !! id)))
    && at_capacity (Config.max_active_sessions (config w)) (session_pool w) = false ->
  room id w.
Proof.
  intros Hw H. apply andb_false_iff in H as [H|H].
  - left. apply negb_false_iff, bool_decide_eq_true in H. done.
  - right. intros k Hk Hu. pose proof (wo_capacity w Hw k Hk Hu). rewrite Hk in H. simpl in H.
    rewrite (p_active_count w (wo_pool w Hw)), u32_small in H by (unfold is_u32 in Hu; lia).
    apply Z.leb_gt in H. done.
Qed.

Lemma safe_handle_connect uuid connect :
  safe (fun _ => True) (handle_connect uuid connect) served.
Proof.
  eapply safe_bind; [apply safe_read |]. intros p.
  destruct (negotiate_keep_alive _ _ _ _) as [keep_alive ack].
  destruct (negotiate_expiry _ _ _) as [expiry ack1].
  destruct (match Connect.client_id connect with [] => _ | _ => _ end) as [id ack2].
  eapply safe_bind; [apply safe_read |]. intros p'.
  eapply safe_bind; [apply safe_read |]. intros cfg.
  eapply safe_bind; [apply safe_read |]. intros existing.
  destruct (negb _ && _) eqn:Hfull; [apply safe_refuse |].
  eapply safe_bind.
  { eapply safe_pre; [apply safe_world, (sound_choose id) |].
    intros w Hw (-> & -> & -> & _). by apply capacity_room. }
  intros [r present]. simpl fst.
  eapply (safe_bind _ _ _ (fun _ => valid r)).
  - apply safe_world. destruct expiry as [e|]; [by apply sound_with_session |].
    apply (sound_ret (fun _ => valid r)).
  - intros u. eapply safe_seq; [apply stable_valid | apply safe_send |]. intros u'.
    eapply safe_pre; [apply (safe_ret served (Some r)) |]. tauto.
Qed.

Lemma safe_pre_connect uuid packet :
  safe (fun _ => True) (handle_pre_connect uuid packet) served.
Proof.
  assert (Ha : forall P p, safe P (send p ≫= fun _ => mret None) served).
  { intros P p. eapply safe_bind; [apply safe_send |]. intros u. apply (safe_ret served None). }
  destruct packet; try apply Ha.
  eapply safe_bind; [apply safe_read |]. intros accepting.
  destruct (negb accepting); [apply safe_refuse |].
  by eapply safe_pre; [apply safe_handle_connect |].
Qed.

Lemma publish_dup_wf p p' :
  publish_wf p -> @or_keep _ BrokerError _ p (publish_set_dup true p) = Ok p' -> publish_wf p'.
Proof.
  intros [q Hq]. unfold publish_set_dup. rewrite Hq. destruct (_ && _); simpl; intros [= <-]; exists q; [done |].
  unfold publish_qos in *. simpl. by rewrite header_qos_set_dup.
Qed.

Lemma publish_id_wf id p p' :
  publish_wf p -> @or_keep _ BrokerError _ p (publish_set_packet_id id p) = Ok p' -> publish_wf p'.
Proof.
  intros [q Hq]. unfold publish_set_packet_id. rewrite Hq.
  destruct (bool_decide _); simpl; intros [= <-]; by exists q.
Qed.

Lemma safe_resend r pending :
  Forall (fun e => publish_wf e.2) pending ->
  safe (valid r) (resend_pending r pending) (fun _ => valid r).
Proof.
  induction 1 as [|[id p] pending Hp _ IH]; [apply (safe_ret (fun _ => valid r)) |].
  eapply safe_bind; [apply safe_pure |]. intros p1. apply safe_intro. intros E1.
  eapply safe_bind; [apply safe_pure |]. intros p2. apply safe_intro. intros E2.
  assert (publish_wf p2) by (eapply publish_id_wf; [| done]; by eapply publish_dup_wf).
  eapply safe_bind; [apply safe_world, sound_with_session; intros s; by apply mild_track |]. intros u.
  eapply safe_seq; [apply stable_valid | apply safe_send |]. intros u'.
  eapply safe_pre; [exact IH | tauto].
Qed.

Lemma mild_serve s : mild s ((drain_pending ((take_control_receiver s).2)).2).
Proof. by split_and!. Qed.

Lemma drained_wf w r s :
  world_ok w -> sessions w !! r = Some s ->
  Forall (fun e => publish_wf e.2) (drain_order (Session.pending_ack s)).
Proof.
  intros Hw Hs. destruct (wo_sessions w Hw r s Hs) as (_ & _ & Hp). rewrite drain_order_perm.
  apply map_Forall_to_list in Hp. eapply Forall_impl; [| exact Hp]. by intros [].
Qed.

(** What is known of the state before a step may be used to bound its values. *)
Lemma safe_known {A} (φ : Prop) (P : World -> Prop) (m : M (World * Conn) BrokerError A) Q :
  (forall w, world_ok w -> P w -> φ) -> (φ -> safe P m Q) -> safe P m Q.
Proof. intros Hφ Hm w c Hw HP. apply Hm; eauto. Qed.

Lemma safe_serve r : safe (valid r) (serve r) (fun _ => valid r).
Proof.
  eapply safe_bind; [apply safe_session_at |]. intros s. cbn [take_control_receiver drain_pending].
  eapply safe_known; [intros w Hw Hs; exact (drained_wf w r s Hw Hs) |]. intros Hwf.
  eapply safe_bind; [apply safe_world, sound_put_session, mild_serve |]. intros u.
  eapply safe_bind; [apply safe_local |]. intros u1.
  eapply safe_bind; [by apply safe_resend |]. intros u2.
  eapply safe_bind; [apply safe_local |]. intros u3.
  eapply safe_bind; [apply safe_local |]. intros u4. apply (safe_ret (fun _ => valid r)).
Qed.

Lemma safe_lose_client r : safe (valid r) (lose_client r) (fun _ _ => True).
Proof.
  eapply safe_seq; [apply stable_valid | apply safe_session_at |]. intros s.
  eapply safe_bind; [apply safe_world; eapply sound_pre; [apply sound_initiate_will | tauto] |].
  intros u. apply safe_deactivate.
Qed.

(** *** The branches *)

(** A connected client has a session. *)
Definition conn_ok w (c : Conn) : Prop :=
  match c_session c with Some r => valid r w | None => c_connected c = false end.

Lemma stable_conn_ok c : stable (fun w => conn_ok w c).
Proof.
  intros w w' He. unfold conn_ok. destruct (c_session c) as [r|]; [by apply stable_valid | done].
Qed.

(** Code that leaves the session of the connection alone. *)
Definition quiet {A} (m : M (World * Conn) BrokerError A) : Prop :=
  forall w c, let '(_, (_, c')) := m (w, c) in
  c_session c' = c_session c /\ c_connected c' = c_connected c.

Lemma quiet_bind {A C} (m : M (World * Conn) BrokerError A) (k : A -> M (World * Conn) BrokerError C) :
  quiet m -> (forall a, quiet (k a)) -> quiet (m ≫= k).
Proof.
  intros Hm Hk w c. specialize (Hm w c). unfold mbind, M_bind.
  destruct (m (w, c)) as [[a|e| |] [w1 c1]]; try done. specialize (Hk a w1 c1).
  destruct (k a (w1, c1)) as [o [w2 c2]]. destruct Hm, Hk. split; congruence.
Qed.

Lemma quiet_pure {A} (o : outcome BrokerError A) : quiet (lift o).
Proof. by intros w c. Qed.

Lemma quiet_ret {A} (a : A) : quiet (mret a).
Proof. by intros w c. Qed.

Lemma quiet_raise {A} e : quiet (raise e : M (World * Conn) BrokerError A).
Proof. by intros w c. Qed.

Lemma quiet_world {A} (m : M World Empty_set A) : quiet (in_world m).
Proof. intros w c. unfold in_world. by destruct (m w) as [[a|[]| |] w1]. Qed.

Lemma quiet_stream {A} (m : M PacketStream StreamError A) : quiet (on_stream m).
Proof. intros w c. unfold on_stream. by destruct (m (c_stream c)) as [o t]. Qed.

Lemma quiet_send p : quiet (send p).
Proof. apply quiet_stream. Qed.

Create HintDb quiet.
#[local] Hint Resolve quiet_pure quiet_ret quiet_raise quiet_world quiet_stream quiet_send : quiet.

Ltac quiet_steps :=
  repeat first
    [ progress auto with quiet
    | apply quiet_bind; [| intros ?]
    | progress cbv zeta beta
    | match goal with |- quiet (match ?x with _ => _ end) => destruct x end ].

Lemma quiet_handle_packet packet r : quiet (handle_packet packet r).
Proof. destruct packet; unfold handle_packet; quiet_steps. Qed.

Lemma quiet_pre_connect uuid packet : quiet (handle_pre_connect uuid packet).
Proof. destruct packet; unfold handle_pre_connect, handle_connect; quiet_steps. Qed.

Lemma quiet_lose_client r : quiet (lose_client r).
Proof. unfold lose_client. quiet_steps. Qed.

Definition branch_ok (m : M (World * Conn) BrokerError flow) : Prop :=
  forall w c, world_ok w -> conn_ok w c ->
  let '(o, (w', c')) := m (w, c) in
  world_ok w' /\ extends w w' /\ match o with Ok _ => conn_ok w' c' | _ => True end.

Lemma branch_quiet (m : M (World * Conn) BrokerError flow) P w c :
  quiet m -> safe P m (fun _ _ => True) -> world_ok w -> conn_ok w c -> P w ->
  let '(o, (w', c')) := m (w, c) in
  world_ok w' /\ extends w w' /\ match o with Ok _ => conn_ok w' c' | _ => True end.
Proof.
  intros Hq Hs Hw Hc HP. specialize (Hq w c). specialize (Hs w c Hw HP).
  destruct (m (w, c)) as [o [w' c']]. destruct Hs as (? & He & _). split_and!; [done | done |].
  assert (conn_ok w' c').
  { apply (stable_conn_ok c w w' He) in Hc. unfold conn_ok in *. by destruct Hq as [-> ->]. }
  by destruct o.
Qed.

(** A branch that looks at the session of its connection first. *)
Lemma branch_session (k : option Z -> M (World * Conn) BrokerError flow) :
  (forall o, quiet (k o)) ->
  (forall r, safe (valid r) (k (Some r)) (fun _ _ => True)) ->
  safe (fun _ => True) (k None) (fun _ _ => True) ->
  branch_ok (variable c_session ≫= k).
Proof.
  intros Hq Hs Hn w c Hw Hc. pose proof Hc as Hv. unfold conn_ok in Hv.
  change ((variable c_session ≫= k) (w, c)) with (k (c_session c) (w, c)).
  destruct (c_session c) as [r|].
  - by apply (branch_quiet (k (Some r)) (valid r)).
  - by apply (branch_quiet (k None) (fun _ => True)).
Qed.

Lemma branch_control m : branch_ok (on_control m).
Proof.
  destruct m as [reason|p].
  - apply branch_session.
    + intros o. quiet_steps.
    + intros r. eapply safe_bind; [apply safe_session_at |]. intros s.
      eapply safe_bind; [destruct (bool_decide _); [apply safe_done | apply safe_deactivate] |].
      intros u. eapply safe_bind; auto with safe.
    + eapply safe_bind; auto with safe.
  - intros w c Hw Hc. apply (branch_quiet _ (fun _ => True)); [| | done | done | done].
    + simpl. quiet_steps.
    + eapply safe_bind; auto with safe.
Qed.

Lemma branch_timer : branch_ok on_keep_alive.
Proof.
  apply branch_session.
  - intros [r|]; quiet_steps.
  - intros r. eapply safe_bind; [apply safe_lose_client | auto with safe].
  - eapply safe_bind; auto with safe.
Qed.

Lemma branch_close : branch_ok on_close.
Proof.
  apply branch_session.
  - intros [r|]; quiet_steps.
  - intros r. eapply safe_bind; [apply safe_lose_client | auto with safe].
  - auto with safe.
Qed.

(** Serving a session makes it the session of the connection. *)
Lemma serve_session r w c o w' c' :
  serve r (w, c) = (Ok o, (w', c')) -> c_session c' = Some r.
Proof.
  unfold serve. intros H. apply bind_ok_inv in H as (s & [w1 c1] & _ & H).
  cbn [take_control_receiver drain_pending] in H.
  do 3 (apply bind_ok_inv in H as (? & [? ?] & _ & H)). by inversion H.
Qed.

Lemma branch_packet uuid packet : branch_ok (on_packet uuid packet).
Proof.
  intros w c Hw Hc. unfold on_packet.
  change ((variable c_connected ≫= ?k) (w, c)) with (k (c_connected c) (w, c)). cbv beta.
  destruct (c_connected c) eqn:Hcon; cbn [negb].
  - revert w c Hw Hc Hcon.
    assert (H : branch_ok (variable c_session ≫= fun session =>
      match session with Some r => handle_packet packet r ≫= fun _ => mret Continue
                       | None => mret Continue end)).
    { apply branch_session.
      - intros [r|]; quiet_steps. apply quiet_handle_packet.
      - intros r. eapply safe_bind; [apply safe_handle_packet | auto with safe].
      - auto with safe. }
    intros w c Hw Hc _. by apply H.
  - pose proof (quiet_pre_connect uuid packet w c) as Hq.
    pose proof (safe_pre_connect uuid packet w c Hw I) as Hs. unfold mbind at 1, M_bind at 1.
    destruct (handle_pre_connect uuid packet (w, c)) as [[o|e| |] [w1 c1]];
      destruct Hs as (Hw1 & He1 & Hr); [| by split_and! ..].
    destruct o as [r|].
    + pose proof (safe_serve r w1 c1 Hw1 Hr) as Hs.
      destruct (serve r (w1, c1)) as [o [w2 c2]] eqn:E. destruct Hs as (? & ? & Hv).
      split_and!; [done | by etrans |]. destruct o; try done.
      unfold conn_ok. by rewrite (serve_session _ _ _ _ _ _ E).
    + split_and!; [done | done |]. apply (stable_conn_ok c w w1 He1) in Hc.
      unfold conn_ok in *. by destruct Hq as [-> ->].
Qed.

Lemma branch_raise (m : M (World * Conn) BrokerError flow) e :
  branch_ok m -> branch_ok (m ≫= fun _ => raise e).
Proof.
  intros Hm w c Hw Hc. specialize (Hm w c Hw Hc). unfold mbind, M_bind, raise.
  destruct (m (w, c)) as [[o|e'| |] [w' c']]; destruct Hm as (? & ? & _); by split_and!.
Qed.

Lemma branch_read fuel uuid1 uuid2 : branch_ok (on_read fuel uuid1 uuid2).
Proof.
  intros w c Hw Hc. unfold on_read.
  destruct (read fuel uuid1 (c_stream c)) as [[[packet|]|e| |] t]; cbv iota; [| | | by split_and! ..].
  - by apply branch_packet.
  - by apply branch_close.
  - by apply (branch_raise _ _ branch_close).
Qed.

(** *** Steps of the system *)

Definition system_ok (sys : System) : Prop :=
  world_ok (shared sys) /\ map_Forall (fun _ c => conn_ok (shared sys) c) (clients sys).

Lemma drop_control_ok w c : world_ok w -> world_ok (drop_control c w) /\ extends w (drop_control c w).
Proof.
  intros Hw. unfold drop_control. destruct (c_control c) as [ch|]; [| done].
  destruct (channels w !! ch) as [q|]; [| done]. split; [| by apply extends_same].
  apply channels_world_ok; [done |]. intros. by apply insert_some.
Qed.

Lemma clients_extend w w' (cs : gmap Z Conn) :
  extends w w' -> map_Forall (fun _ c => conn_ok w c) cs -> map_Forall (fun _ c => conn_ok w' c) cs.
Proof. intros He Hcs i c Hi. apply (stable_conn_ok c w w' He). by apply (Hcs i). Qed.

(** A branch that starts in a state related to the system's leaves a good one. *)
Lemma settle_ok i sys m w c sys' :
  branch_ok m -> world_ok w -> extends (shared sys) w -> conn_ok w c ->
  map_Forall (fun _ c => conn_ok (shared sys) c) (clients sys) ->
  settle i sys (m (w, c)) = Some sys' -> system_ok sys' /\ extends (shared sys) (shared sys').
Proof.
  intros Hm Hw He Hc Hcs. specialize (Hm w c Hw Hc).
  destruct (m (w, c)) as [o [w' c']]. destruct Hm as (Hw' & He' & Hc').
  assert (Hcs' : map_Forall (fun _ c => conn_ok w' c) (clients sys)).
  { eapply clients_extend; [| done]. by etrans. }
  destruct (drop_control_ok w' c' Hw') as [Hd Hde].
  assert (Hend : system_ok (mkSystem (drop_control c' w') (delete i (clients sys)))).
  { split; [done |]. apply map_Forall_delete. by eapply clients_extend. }
  destruct o as [[]|e| |]; simpl; intros [= <-]; (split; [done || split | simpl; do 2 (etrans; [done |]); done]).
  - done.
  - by apply map_Forall_insert_2.
Qed.

Lemma task_step_ok sys sys' :
  task_step sys sys' -> system_ok sys -> system_ok sys' /\ extends (shared sys) (shared sys').
Proof.
  intros Hstep [Hw Hcs]. destruct Hstep as [i c fuel u1 u2 sys' Hi Hs|i c ch q m q' sys' Hi Hch Hq Hr Hs
    |i c sys' Hi Hs|timer token o w' Hr _|d Hd].
  - eapply settle_ok; [apply branch_read | exact Hw | done | by apply (Hcs i) | done | exact Hs].
  - eapply settle_ok; [apply branch_control | | | | done | exact Hs].
    + apply channels_world_ok; [done |]. intros. by apply insert_some.
    + by apply extends_same.
    + apply (Hcs i c Hi).
  - eapply settle_ok; [apply branch_timer | exact Hw | done | by apply (Hcs i) | done | exact Hs].
  - destruct (sound_delayed_will timer token (shared sys) Hw I) as (? & ? & _). rewrite Hr in *.
    split; [split; [done |] | done]. by eapply clients_extend.
  - split; [split |].
    + by apply (world_ok_same (shared sys)).
    + by apply (clients_extend (shared sys)); [apply extends_same |].
    + by apply extends_same.
Qed.

Lemma step_ok sys sys' :
  step sys sys' -> system_ok sys -> system_ok sys' /\ extends (shared sys) (shared sys').
Proof.
  intros Hstep Hok. destruct Hstep as [i t Hi|sys' Hs|cmd o w' Hr].
  - destruct Hok. split; [split; [done |] | done]. by apply map_Forall_insert_2.
  - by apply task_step_ok.
  - destruct Hok as [Hw Hcs]. assert (world_ok w' /\ extends (shared sys) w') as [? He].
    { destruct cmd; injection Hr as _ <-; (split; [| by apply extends_same]); try done;
        try (by apply (world_ok_same (shared sys))).
      destruct Hw as [[? ? ? ?] ? ? ? ?]. by apply pool_world_ok. }
    split; [split; [done |] | done]. by eapply clients_extend.
Qed.

Lemma start_ok cfg : system_ok (start cfg).
Proof.
  split; [| apply map_Forall_empty]. split.
  - split; simpl; [by rewrite map_size_empty .. | done | done].
  - intros k _ Hk. simpl. rewrite map_size_empty. unfold is_u32 in Hk. lia.
  - right. apply tree_ok_new.
  - intros r s Hs. simpl in Hs. by rewrite lookup_empty in Hs.
  - intros r r' s s' Hs. simpl in Hs. by rewrite lookup_empty in Hs.
Qed.

Lemma reachable_ok cfg sys :
  reachable cfg sys -> system_ok sys /\ extends (BrokerState_new cfg) (shared sys).
Proof.
  intros Hr.
  assert (H : forall s s', rtc step s s' -> system_ok s -> system_ok s' /\ extends (shared s) (shared s')).
  { induction 1 as [|s1 s2 s3 H12 _ IH]; [done |]. intros H. destruct (step_ok s1 s2 H12 H) as [H2 E2].
    destruct (IH H2) as [H3 E3]. split; [done | by etrans]. }
  exact (H _ _ Hr (start_ok cfg)).
Qed.
End invariant.
