(* ===== verification/BrokerFacts.v ===== *)
(** * What the broker does *)
(** Subscribing, unsubscribing, routing and connecting, against the abstract
    subscription table and the abstract pool, and the invariant of every
    reachable state. *)

From S2P Require Import Prelude Bytes Codec Fixed Property Macro MacroFacts Subscriptions.
From S2P Require Import Acks Publish Connect Packet Topic Stream Runtime Sessions.
From S2P Require Import Broker BrokerLogic.

Section facts.
Context {B : Buf} {HI : HashIter} {T : Transport} {R : Runtime} {D : DrainOrder}.
Implicit Types w : World.

(** ** Subscriptions *)

(** The table after the filters of a SUBSCRIBE, in order. *)
Definition subscribed (sid : rstring) (filters : list SubscriptionFilter) (m : table) : table :=
  foldl (fun m f => <[(split_slash (SubscriptionFilter.filter f), sid)
                      := (filter_qos f, filter_no_local f)]> m) m filters.

(** The number of levels of the filters. *)
Definition levels (filters : list rstring) : Z :=
  foldr (fun f n => len (split_slash f) + n) 0 filters.

Lemma levels_nonneg l : 0 <= levels l.
Proof. induction l; simpl; lia. Qed.

Lemma set_same_tree w : w <| topic_tree := topic_tree w |> = w.
Proof. by destruct w. Qed.

Lemma subscribe_each_run sid filters : forall w m suback,
  implements (topic_tree w) m ->
  len (topic_tree w) + levels (SubscriptionFilter.filter <$> filters) <= 4294967296 ->
  exists t, subscribe_each sid filters suback w
      = (Ok (suback <| SubAck.reason_codes := SubAck.reason_codes suback
                        ++ ((fun f => granted_reason (filter_qos f)) <$> filters) |>),
         w <| topic_tree := t |>)
    /\ implements t (subscribed sid filters m).
Proof.
  induction filters as [|f fs IH]; intros w m suback Hm Hl; simpl.
  { exists (topic_tree w). rewrite app_nil_r, set_same_tree. by destruct suback. }
  change (len (topic_tree w) + (len (split_slash (SubscriptionFilter.filter f))
    + levels (SubscriptionFilter.filter <$> fs)) <= 4294967296) in Hl.
  pose proof (subscribe_len (topic_tree w) (SubscriptionFilter.filter f) sid (filter_qos f)
    (filter_no_local f)) as Hlen.
  pose proof (levels_nonneg (SubscriptionFilter.filter <$> fs)).
  destruct (subscribe_adds (topic_tree w) m (SubscriptionFilter.filter f) sid (filter_qos f)
    (filter_no_local f) Hm ltac:(lia)) as (t1 & E1 & Hm1).
  rewrite E1 in Hlen. simpl in Hlen.
  assert (Hl1 : len t1 + levels (SubscriptionFilter.filter <$> fs) <= 4294967296) by lia.
  pose (w1 := w <| topic_tree := t1 |>).
  destruct (IH w1
    (<[(split_slash (SubscriptionFilter.filter f), sid) := (filter_qos f, filter_no_local f)]> m)
    (suback <| SubAck.reason_codes := SubAck.reason_codes suback ++ [granted_reason (filter_qos f)] |>)
    Hm1 Hl1) as (t & E & Hm').
  exists t. split; [| done].
  rewrite (bind_ok _ _ w tt (w <| topic_tree := t1 |>)) by (unfold in_tree; by rewrite E1).
  fold w1. rewrite E. simpl. by rewrite <- app_assoc.
Qed.

(** C14: handling a SUBSCRIBE puts the filters of the packet, in order, into the
    subscription table for this session and answers with a SUBACK that carries
    the packet identifier and the granted QoS of every filter in order; nothing
    else of the shared state changes. *)
Theorem subscribe_handled w m sub sid :
  implements (topic_tree w) m ->
  len (topic_tree w) + levels (SubscriptionFilter.filter <$> Subscribe.filter sub) <= 4294967296 ->
  exists t, handle_subscribe sub sid w
      = (Ok (dflt <| SubAck.packet_id := Subscribe.packet_id sub |>
                  <| SubAck.reason_codes := (fun f => granted_reason (filter_qos f))
                       <$> Subscribe.filter sub |>),
         w <| topic_tree := t |>)
    /\ implements t (subscribed sid (Subscribe.filter sub) m).
Proof.
  intros Hm Hl.
  destruct (subscribe_each_run sid (Subscribe.filter sub) w m
    (dflt <| SubAck.packet_id := Subscribe.packet_id sub |>) Hm Hl) as (t & E & Hm').
  exists t. split; [| done]. etrans; [| exact E]. unfold handle_subscribe, SubAck_new_with_packet_id.
  by destruct (Z.eqb_spec (Subscribe.packet_id sub) 0) as [->|_].
Qed.

(** The answers to an UNSUBSCRIBE and the table after it: a topic is answered
    with success when the session is subscribed to it at its turn. *)
Fixpoint unsubscribed (sid : rstring) (topics : list rstring) (m : table) : list Reason * table :=
  match topics with
  | [] => ([], m)
  | topic :: topics =>
      let reason := if bool_decide (is_Some (m !! (split_slash topic, sid)))
                    then Reason.Success else Reason.NoSubscribers in
      let '(reasons, m') := unsubscribed sid topics (delete (split_slash topic, sid) m) in
      (reason :: reasons, m')
  end.

Lemma unsubscribe_each_run sid topics : forall w m unsuback,
  implements (topic_tree w) m ->
  exists t, unsubscribe_each sid topics unsuback w
      = (Ok (unsuback <| UnsubAck.reason_code := UnsubAck.reason_code unsuback
                          ++ (unsubscribed sid topics m).1 |>), w <| topic_tree := t |>)
    /\ implements t (unsubscribed sid topics m).2.
Proof.
  induction topics as [|f fs IH]; intros w m unsuback Hm; cbn [unsubscribe_each unsubscribed].
  { exists (topic_tree w). simpl. rewrite app_nil_r, set_same_tree. by destruct unsuback. }
  destruct (unsubscribe_deletes (topic_tree w) m f sid Hm) as (t1 & E1 & Hm1).
  rewrite (bind_ok _ _ w (bool_decide (is_Some (m !! (split_slash f, sid)))) (w <| topic_tree := t1 |>))
    by (unfold in_tree; by rewrite E1).
  set (reason := if bool_decide (is_Some (m !! (split_slash f, sid)))
                 then Reason.Success else Reason.NoSubscribers).
  pose (w1 := w <| topic_tree := t1 |>).
  destruct (IH w1 (delete (split_slash f, sid) m)
    (unsuback <| UnsubAck.reason_code := UnsubAck.reason_code unsuback ++ [reason] |>) Hm1)
    as (t & E & Hm').
  exists t. destruct (unsubscribed sid fs _) as [reasons m']. simpl in *. split; [| done].
  fold w1. rewrite E. by rewrite <- app_assoc.
Qed.

(** Handling an UNSUBSCRIBE removes the topics of the packet from the
    subscription table for this session and answers each in order with whether
    it was subscribed; nothing else of the shared state changes. *)
Theorem unsubscribe_handled w m unsub sid :
  implements (topic_tree w) m ->
  let '(reasons, m') := unsubscribed sid (Unsubscribe.topics unsub) m in
  exists t, handle_unsubscribe unsub sid w
      = (Ok (dflt <| UnsubAck.packet_id := Unsubscribe.packet_id unsub |>
                  <| UnsubAck.reason_code := reasons |>), w <| topic_tree := t |>)
    /\ implements t m'.
Proof.
  intros Hm.
  destruct (unsubscribe_each_run sid (Unsubscribe.topics unsub) w m
    (dflt <| UnsubAck.packet_id := Unsubscribe.packet_id unsub |>) Hm) as (t & E & Hm').
  destruct (unsubscribed sid (Unsubscribe.topics unsub) m) as [reasons m']. by exists t.
Qed.

(** ** Routing *)

(** The lower of two QoS levels. *)
Definition lower_qos (p q : QoSLevel) : QoSLevel :=
  if QoSLevel_as_u8 p <=? QoSLevel_as_u8 q then p else q.

Lemma granted_lower p q : granted_qos p q = lower_qos p q.
Proof. by destruct p, q. Qed.

(** Whether a subscription asks for a message of the sender. *)
Definition wants (sender : rstring) (sub : Subscriber) : bool :=
  negb (Subscriber.no_local sub && bool_decide (Subscriber.session_id sub = sender)).

(** The copy of a message for a subscription, when the next packet identifier
    of its session is [next]. *)
Definition copy_for (publish : Publish) (qos : QoSLevel) (next : Z) : Publish :=
  let out := publish_set_qos qos publish in
  if bool_decide (qos = QoSLevel.AtMostOnce) then out
  else out <| Publish.packet_id := Some next |>.

(** The session after a copy: above QoS 0 it waits for an acknowledgement. *)
Definition charge (publish : Publish) (qos : QoSLevel) (s : Session) : Session :=
  if bool_decide (qos = QoSLevel.AtMostOnce) then s
  else track_qos_publish (Session.next_packet_id s)
         (copy_for publish qos (Session.next_packet_id s)) ((next_packet_id s).2).

(** A channel after a delivery, or after the request to leave if it is full. *)
Definition push (out : Publish) (c : chan SessionControl) : chan SessionControl :=
  match chan_try_send (SessionControl.Deliver out) c with
  | Some c' => c'
  | None => default c (chan_try_send (SessionControl.Disconnect Reason.QuotaExceeded) c)
  end.

Lemma try_send_run w r s c m :
  sessions w !! r = Some s -> channels w !! Session.sender s = Some c ->
  try_send_control r m w
  = match chan_try_send m c with
    | Some c' => (Ok true, w <| channels := <[Session.sender s := c']> (channels w) |>)
    | None => (Ok false, w)
    end.
Proof.
  intros Hs Hc. unfold try_send_control. rewrite (session_at_run _ _ _ _ Hs), bind_get.
  unfold lift, unwrap. rewrite Hc. unfold mbind at 1, M_bind at 1. by destruct (chan_try_send m c).
Qed.

Lemma deliver_run w r s c out :
  sessions w !! r = Some s -> channels w !! Session.sender s = Some c ->
  deliver r out w = (Ok tt, w <| channels := <[Session.sender s := push out c]> (channels w) |>).
Proof.
  intros Hs Hc. unfold deliver, push. unfold mbind at 1, M_bind at 1.
  rewrite (try_send_run w r s c _ Hs Hc). destruct (chan_try_send _ c); [done |].
  unfold mbind at 1, M_bind at 1. rewrite (try_send_run w r s c _ Hs Hc).
  destruct (chan_try_send _ c); [done |]. simpl. rewrite insert_id by done. by destruct w.
Qed.

(** What routing to one subscription does to a session that exists. *)
Lemma route_to_run w publish q sender sub r s c :
  publish_qos publish = Ok q -> wants sender sub = true ->
  SessionPool.active (session_pool w) !! Subscriber.session_id sub = Some r ->
  sessions w !! r = Some s -> channels w !! Session.sender s = Some c ->
  let g := lower_qos q (Subscriber.qos sub) in
  route_to publish sender sub w
  = (Ok tt, w <| sessions := <[r := charge publish g s]> (sessions w) |>
              <| channels := <[Session.sender s
                   := push (copy_for publish g (Session.next_packet_id s)) c]> (channels w) |>).
Proof.
  intros Hq Hn Ha Hs Hc g. unfold route_to. apply negb_true_iff in Hn. rewrite Hn, Hq.
  change (lift (or_panic (Ok q)) ≫= ?k) with (k q). cbv beta zeta. rewrite granted_lower. fold g.
  assert (E : forall k : option Z -> M World Empty_set unit,
    (get_active (Subscriber.session_id sub) ≫= k) w = k (Some r) w) by (intros k; unfold get_active; by rewrite <- Ha).
  rewrite E. cbv iota. unfold charge, copy_for.
  destruct (decide (g = QoSLevel.AtMostOnce)) as [Hg|Hg].
  - rewrite bool_decide_eq_true_2 by done. cbn [negb].
    rewrite (deliver_run w r s c _ Hs Hc), (insert_id (sessions w)) by done. by destruct w.
  - rewrite bool_decide_eq_false_2 by done. cbn [negb].
    rewrite (session_at_run _ _ _ _ Hs). cbn [next_packet_id].
    rewrite (with_session_run _ _ _ _ _ Hs).
    rewrite (publish_packet_id_set g) by (done || apply publish_qos_set).
    change (lift (or_keep ?a (Ok ?b)) ≫= ?k) with (k b). cbv beta.
    erewrite with_session_run by apply lookup_insert_eq.
    erewrite deliver_run; [| simpl; apply lookup_insert_eq | simpl; exact Hc].
    simpl. by rewrite insert_insert_eq.
Qed.

(** The copies a session gets for its subscriptions, with the packet
    identifiers it hands out from [next] on. *)
Fixpoint copies (publish : Publish) (q : QoSLevel) (next : Z) (subs : list Subscriber)
    : list Publish :=
  match subs with
  | [] => []
  | sub :: subs =>
      let g := lower_qos q (Subscriber.qos sub) in
      copy_for publish g next
      :: copies publish q
           (if bool_decide (g = QoSLevel.AtMostOnce) then next else next mod 65535 + 1) subs
  end.

(** The subscriptions of the session [id] that ask for a message of [sender]. *)
Definition own_subs (id sender : rstring) (subs : list Subscriber) : list Subscriber :=
  List.filter (fun sub => bool_decide (Subscriber.session_id sub = id) && wants sender sub) subs.

#[export] Instance own_subs_proper id sender : Proper ((≡ₚ) ==> (≡ₚ)) (own_subs id sender).
Proof.
  intros l l'. unfold own_subs. induction 1; cbn [List.filter]; repeat case_match; try done.
  - by constructor.
  - by constructor.
  - by etrans.
Qed.

Definition charge_all (publish : Publish) (q : QoSLevel) (subs : list Subscriber) (s : Session) : Session :=
  foldl (fun s sub => charge publish (lower_qos q (Subscriber.qos sub)) s) s subs.

Lemma charge_fields publish g s :
  Session.id (charge publish g s) = Session.id s /\ Session.sender (charge publish g s) = Session.sender s.
Proof. unfold charge. by case_bool_decide. Qed.

Lemma charge_next publish g s :
  valid_packet_id (Session.next_packet_id s) ->
  Session.next_packet_id (charge publish g s)
  = if bool_decide (g = QoSLevel.AtMostOnce) then Session.next_packet_id s
    else Session.next_packet_id s mod 65535 + 1.
Proof. intros Hv. unfold charge. case_bool_decide; [done |]. by apply next_packet_id_step. Qed.

(** Routing to a subscription that does not ask for the message, or whose
    session is not connected, does nothing. *)
Lemma route_to_idle w publish q sender sub :
  publish_qos publish = Ok q ->
  wants sender sub = false \/ SessionPool.active (session_pool w) !! Subscriber.session_id sub = None ->
  route_to publish sender sub w = (Ok tt, w).
Proof.
  intros Hq Hidle. unfold route_to. rewrite <- (negb_involutive (_ && _)). fold (wants sender sub).
  destruct (wants sender sub); [| done]. destruct Hidle as [?|Ha]; [done |]. cbn [negb]. rewrite Hq.
  change (lift (or_panic (Ok q)) ≫= ?k) with (k q). cbv beta zeta.
  unfold get_active, in_pool, gets. unfold mbind, M_bind. by rewrite Ha.
Qed.

(** Routing to a subscription of another session, or one that does not ask for
    the message, leaves the session and its channel alone. *)
Lemma route_to_other w publish sender sub id r s :
  world_ok w -> publish_wf publish -> SessionPool.active (session_pool w) !! id = Some r ->
  sessions w !! r = Some s ->
  bool_decide (Subscriber.session_id sub = id) && wants sender sub = false ->
  exists w', route_to publish sender sub w = (Ok tt, w')
    /\ session_pool w' = session_pool w /\ topic_tree w' = topic_tree w
    /\ sessions w' !! r = Some s
    /\ channels w' !! Session.sender s = channels w !! Session.sender s.
Proof.
  intros Hw [q Hq] Ha Hs Hno. destruct (wants sender sub) eqn:Hwants.
  2: { exists w. split_and!; try done. eapply route_to_idle; [exact Hq | by left]. }
  rewrite andb_true_r in Hno. apply bool_decide_eq_false in Hno.
  destruct (SessionPool.active (session_pool w) !! Subscriber.session_id sub) as [r'|] eqn:Ha'.
  2: { exists w. split_and!; try done. eapply route_to_idle; [exact Hq | by right]. }
  assert (Hne : r' <> r).
  { intros ->. apply Hno. eapply pool_refs_distinct; [apply (wo_pool w Hw) | by apply view_active ..]. }
  destruct (p_filed w (wo_pool w Hw) _ _ true (view_active w _ _ Ha')) as (s' & Hs' & _).
  destruct (wo_sessions w Hw r' s' Hs') as (_ & [c' Hc'] & _).
  eexists. split; [by eapply route_to_run |]. split_and!; [done | done | |]; simpl.
  - by rewrite lookup_insert_ne.
  - rewrite lookup_insert_ne; [done |]. intros E. apply Hne. by apply (wo_senders w Hw r' r s' s).
Qed.

Lemma push_room out c :
  0 < chan_free c ->
  chan_queue (push out c) = chan_queue c ++ [SessionControl.Deliver out]
  /\ chan_free (push out c) = chan_free c - 1.
Proof.
  intros Hf. unfold push. pose proof (chan_try_send_law (SessionControl.Deliver out) c) as H.
  rewrite (proj2 (Z.ltb_lt _ _) Hf) in H. by destruct H as (c' & -> & ? & ? & _).
Qed.

Lemma route_each_run publish q sender id subs : forall w r s c,
  publish_qos publish = Ok q -> world_ok w ->
  SessionPool.active (session_pool w) !! id = Some r -> sessions w !! r = Some s ->
  channels w !! Session.sender s = Some c -> len (own_subs id sender subs) <= chan_free c ->
  exists w' c', route_each publish sender subs w = (Ok tt, w')
    /\ session_pool w' = session_pool w /\ topic_tree w' = topic_tree w
    /\ sessions w' !! r = Some (charge_all publish q (own_subs id sender subs) s)
    /\ channels w' !! Session.sender s = Some c'
    /\ chan_queue c' = chan_queue c ++ (SessionControl.Deliver
         <$> copies publish q (Session.next_packet_id s) (own_subs id sender subs)).
Proof.
  induction subs as [|sub subs IH]; intros w r s c Hq Hw Ha Hs Hc Hl.
  { exists w, c. simpl. by rewrite app_nil_r. }
  assert (Hwf : publish_wf publish) by (by exists q).
  pose proof (sound_route_to publish sender sub Hwf w Hw I) as (Hw1 & _ & _).
  cbn [route_each own_subs List.filter] in *.
  destruct (bool_decide (Subscriber.session_id sub = id) && wants sender sub) eqn:Hown.
  - apply andb_true_iff in Hown as [Hid Hwants]. apply bool_decide_eq_true in Hid.
    set (g := lower_qos q (Subscriber.qos sub)).
    assert (E : route_to publish sender sub w = _) by (apply (route_to_run w publish q sender sub r s c); congruence).
    rewrite (bind_ok _ _ _ _ _ E). rewrite E in Hw1. cbn [snd] in Hw1. fold g in Hw1 |- *.
    destruct (charge_fields publish g s) as [_ Hse].
    cbn [length] in Hl. destruct (push_room (copy_for publish g (Session.next_packet_id s)) c) as [Hpq Hpf]; [lia |].
    edestruct (IH _ r (charge publish g s) (push (copy_for publish g (Session.next_packet_id s)) c) Hq Hw1)
      as (w' & c' & E' & Hp' & Ht' & Hs' & Hc' & Hq').
    + done.
    + simpl. apply lookup_insert_eq.
    + rewrite Hse. simpl. apply lookup_insert_eq.
    + fold (own_subs id sender subs) in *. lia.
    + exists w', c'. rewrite Hse in Hc'. fold (own_subs id sender subs). split_and!; try done.
      rewrite Hq', Hpq, <- app_assoc. cbn [copies fmap list_fmap]. fold g.
      rewrite charge_next; [done |]. by apply (wo_sessions w Hw r s).
  - destruct (route_to_other w publish sender sub id r s Hw Hwf Ha Hs Hown)
      as (w1 & E & Hp1 & Ht1 & Hs1 & Hc1).
    rewrite (bind_ok _ _ _ _ _ E). rewrite E in Hw1. cbn [snd] in Hw1.
    destruct (IH w1 r s c Hq Hw1) as (w' & c' & ? & ? & ? & ? & ? & ?); [congruence | done | congruence | done |].
    exists w', c'. split_and!; try done; congruence.
Qed.

(** Routing visits the subscriptions of the table that match the topic. *)
Lemma route_matching w m publish sender :
  implements (topic_tree w) m -> topic_name (split_slash (Publish.topic_name publish)) ->
  exists subs, route_publish publish sender w = route_each publish sender subs w
    /\ subs ≡ₚ matching_entries m (Publish.topic_name publish).
Proof.
  intros Hm Ht.
  destruct (matching_counts (topic_tree w) m (Publish.topic_name publish) Hm Ht) as (subs & E & Hx).
  exists subs. split; [| done]. unfold route_publish. rewrite (bind_ok _ _ w subs w); [done |].
  unfold in_tree. rewrite E. by rewrite set_same_tree.
Qed.

(** C12: a PUBLISH is routed along the subscription table.  The session of a
    connected client whose channel has room gets, in its channel,
    exactly one copy of the message for every entry of the table that is its own
    and whose filter matches the topic by the wildcard rules of MQTT 4.7.1
    ([matching_entries], a permutation of which is visited), except a no-local
    one of the sender itself: two filters of a session that both match make two
    copies.  A copy has the lower of the two QoS levels; above QoS 0 it carries
    the next packet identifier of the session and waits there for its
    acknowledgement.  Routing returns, and changes neither the pool nor the
    subscriptions. *)
Theorem publish_routed w m publish q sender id r s c :
  world_ok w -> implements (topic_tree w) m -> topic_name (split_slash (Publish.topic_name publish)) ->
  publish_qos publish = Ok q ->
  SessionPool.active (session_pool w) !! id = Some r -> sessions w !! r = Some s ->
  channels w !! Session.sender s = Some c ->
  exists subs,
    subs ≡ₚ matching_entries m (Publish.topic_name publish)
    /\ let own := own_subs id sender subs in
       (len own <= chan_free c ->
        exists w' c', route_publish publish sender w = (Ok tt, w')
          /\ session_pool w' = session_pool w /\ topic_tree w' = topic_tree w
          /\ sessions w' !! r = Some (charge_all publish q own s)
          /\ channels w' !! Session.sender s = Some c'
          /\ chan_queue c' = chan_queue c
               ++ (SessionControl.Deliver <$> copies publish q (Session.next_packet_id s) own)).
Proof.
  intros Hw Hm Ht Hq Ha Hs Hc.
  destruct (route_matching w m publish sender Hm Ht) as (subs & Er & Hx).
  exists subs. split; [done |]. cbv zeta. intros Hl. rewrite Er. by apply route_each_run.
Qed.

(** ** Connecting *)

(** A connected session can be told to leave without waiting. *)
Definition can_leave w (id : rstring) : Prop :=
  forall r s c, SessionPool.active (session_pool w) !! id = Some r -> sessions w !! r = Some s ->
  channels w !! Session.sender s = Some c -> 0 < chan_free c \/ chan_closed c = true.

(** The state after a message to a session, as far as connecting is concerned. *)
Lemma takeover_run w r s c :
  sessions w !! r = Some s -> channels w !! Session.sender s = Some c ->
  0 < chan_free c \/ chan_closed c = true ->
  exists cs, handle_takeover r w = (Ok tt, w <| channels := cs |>)
    /\ forall ch, is_Some (channels w !! ch) -> is_Some (cs !! ch).
Proof.
  intros Hs Hc Hl. unfold handle_takeover, send_control. unfold mbind at 1, M_bind at 1.
  rewrite (try_send_run w r s c _ Hs Hc).
  pose proof (chan_try_send_law (SessionControl.Disconnect Reason.SessionTakeOver) c) as H.
  destruct (Z.ltb_spec 0 (chan_free c)).
  - destruct H as (c' & -> & _). eexists. split; [reflexivity |]. intros ch. apply insert_some.
  - rewrite H. rewrite (session_at_run _ _ _ _ Hs), bind_get. unfold lift, unwrap. rewrite Hc.
    unfold mbind at 1, M_bind at 1. destruct Hl as [?|Hl]; [lia |]. rewrite Hl.
    exists (channels w). split; [by destruct w | done].
Qed.

Lemma cancel_run w r s :
  sessions w !! r = Some s ->
  exists tk, cancel_pending_will r w
      = (Ok tt, w <| cancelled := tk |>
                  <| sessions := <[r := s <| Session.pending_will := None |>]> (sessions w) |>)
    /\ forall t, is_cancelled t tk
         = bool_decide (Session.pending_will s = Some t) || is_cancelled t (cancelled w).
Proof.
  intros Hs. unfold cancel_pending_will. rewrite (session_at_run _ _ _ _ Hs).
  destruct (Session.pending_will s) as [token|] eqn:Ep.
  - rewrite (with_session_run _ _ _ _ _ Hs). exists (cancel token (cancelled w)).
    split; [reflexivity |]. intros t.
    rewrite cancel_law. f_equal. apply bool_decide_ext. naive_solver.
  - exists (cancelled w). split; [| done]. rewrite insert_id; [by destruct w |].
    rewrite Hs. destruct s. simpl in *. by subst.
Qed.

Lemma resume_run w r s connect :
  sessions w !! r = Some s ->
  exists tk,
    let ch := new_ref (channels w) in
    let s' := s <| Session.pending_will := None |> <| Session.will_message := will_message connect |>
                <| Session.sender := ch |> <| Session.receiver := Some ch |> in
    resume_session r connect w
    = (Ok tt, w <| cancelled := tk |>
        <| channels := <[ch := chan_new (Config.session_channel_size (config w))]> (channels w) |>
        <| sessions := <[r := s']> (sessions w) |>)
    /\ forall t, is_cancelled t tk
         = bool_decide (Session.pending_will s = Some t) || is_cancelled t (cancelled w).
Proof.
  intros Hs.
  destruct (cancel_run w r s Hs) as (tk & Hc & Htk). exists tk. cbv zeta. split; [| exact Htk].
  unfold resume_session. rewrite (bind_ok _ _ _ _ _ Hc).
  erewrite with_session_run by (simpl; apply lookup_insert_eq).
  match goal with |- (new_channel ≫= ?k) ?w2 = _ => pose (w3 := w2) end.
  pose (ch := new_ref (channels w)).
  pose (w4 := w3 <| channels := <[ch := chan_new (Config.session_channel_size (config w))]> (channels w) |>).
  change (with_session r (reset_control ch) w4 = (Ok tt, w <| cancelled := tk |>
    <| channels := <[ch := chan_new (Config.session_channel_size (config w))]> (channels w) |>
    <| sessions := <[r := reset_control ch (session_set_will (will_message connect)
         (s <| Session.pending_will := None |>))]> (sessions w) |>)).
  erewrite with_session_eq by (simpl; apply lookup_insert_eq). simpl.
  by rewrite !insert_insert_eq.
Qed.

(** The session [r] of the client [id] that has just connected: the will of the
    CONNECT packet, no will on its way, and an empty channel of its own. *)
Definition ready w (id : rstring) (connect : Connect) (r : Z) (s : Session) : Prop :=
  sessions w !! r = Some s /\ Session.id s = id /\ Session.connected s = true
  /\ Session.will_message s = will_message connect /\ Session.pending_will s = None
  /\ Session.receiver s = Some (Session.sender s)
  /\ channels w !! Session.sender s = Some (chan_new (Config.session_channel_size (config w))).

Lemma start_ready w id connect keep_alive :
  world_ok w -> pool_view (session_pool w) id = None -> room id w ->
  exists r w' s,
    start_session id connect keep_alive w = (Ok r, w') /\ world_ok w' /\ ready w' id connect r s
    /\ topic_tree w' = topic_tree w
    /\ (forall i, pool_view (session_pool w') i
          = if decide (i = id) then Some (r, true) else pool_view (session_pool w) i)
    /\ (forall r0 s0, sessions w !! r0 = Some s0 -> sessions w' !! r0 = Some s0)
    /\ sessions w !! r = None /\ Session.pending_ack s = ∅ /\ Session.next_packet_id s = 1
    /\ Session.keep_alive s = keep_alive.
Proof.
  intros Hw Hv Hroom. destruct (start_run w id connect keep_alive Hw Hv Hroom) as (p & c & H). cbv zeta in H.
  destruct H as (E & Hw' & -> & Hview).
  eexists _, _, (set_connected true (Session_new id (will_message connect) keep_alive (clock w)
    (new_ref (channels w)))). split; [exact E |].
  split_and!; [done | split_and!; try done; simpl; apply lookup_insert_eq | done | done
    | | apply new_ref_fresh | done | done | done].
  intros r0 s0 Hs0. simpl. rewrite lookup_insert_ne; [done |]. intros <-. by rewrite new_ref_fresh in Hs0.
Qed.

(** Continuing a session that is filed as connected. *)
Lemma resume_ready w id connect r s :
  world_ok w -> pool_view (session_pool w) id = Some (r, true) -> sessions w !! r = Some s ->
  exists w' s',
    resume_session r connect w = (Ok tt, w') /\ world_ok w' /\ ready w' id connect r s'
    /\ topic_tree w' = topic_tree w /\ session_pool w' = session_pool w
    /\ Session.pending_ack s' = Session.pending_ack s
    /\ Session.next_packet_id s' = Session.next_packet_id s.
Proof.
  intros Hw Hv Hs. destruct (resume_run w r s connect Hs) as (tk & E & _). cbv zeta in E.
  destruct (p_filed w (wo_pool w Hw) id r true Hv) as (s0 & Hs0 & Hid & Hc).
  rewrite Hs in Hs0. injection Hs0 as <-.
  eexists _, _. split; [exact E |].
  split_and!; [| split_and!; [simpl; apply lookup_insert_eq | ..] | ..]; try done.
  - assert (Hv' : valid r w) by (by exists s). pose proof (sound_resume r connect w Hw Hv') as (Hok & _ & _).
    by rewrite E in Hok.
  - simpl. apply lookup_insert_eq.
Qed.

(** With clean start, the old session is told to leave and a new one takes its
    place. *)
Lemma clean_start_ready w id connect keep_alive :
  world_ok w -> room id w -> can_leave w id -> clean_start connect = true ->
  exists r w' s,
    choose_session id connect keep_alive w = (Ok (r, false), w')
    /\ world_ok w' /\ ready w' id connect r s /\ topic_tree w' = topic_tree w
    /\ (forall i, pool_view (session_pool w') i
          = if decide (i = id) then Some (r, true) else pool_view (session_pool w) i)
    /\ (forall r0 s0, sessions w !! r0 = Some s0 -> sessions w' !! r0 = Some s0)
    /\ sessions w !! r = None /\ Session.pending_ack s = ∅ /\ Session.next_packet_id s = 1
    /\ Session.keep_alive s = keep_alive.
Proof.
  intros Hw Hroom Hl Hclean. unfold choose_session. rewrite Hclean.
  destruct (remove_run w id (wo_pool w Hw)) as (p & Er & Hp & Hv).
  rewrite (bind_ok _ _ _ _ _ Er). pose proof (view_delete _ _ id None Hv) as Hd.
  pose proof (room_delete w p id (wo_capacity w Hw) Hroom Hd) as Hroom1.
  pose proof (pool_world_ok w p Hw Hp (within_delete w p id (wo_capacity w Hw) Hd)) as Hw1.
  assert (Hstart : forall cs, world_ok (w <| session_pool := p |> <| channels := cs |>) ->
    exists r w' s,
      (r ← start_session id connect keep_alive; mret (r, false)) (w <| session_pool := p |> <| channels := cs |>)
      = (Ok (r, false), w')
      /\ world_ok w' /\ ready w' id connect r s /\ topic_tree w' = topic_tree w
      /\ (forall i, pool_view (session_pool w') i
            = if decide (i = id) then Some (r, true) else pool_view (session_pool w) i)
      /\ (forall r0 s0, sessions w !! r0 = Some s0 -> sessions w' !! r0 = Some s0)
      /\ sessions w !! r = None /\ Session.pending_ack s = ∅ /\ Session.next_packet_id s = 1
      /\ Session.keep_alive s = keep_alive).
  { intros cs Hcs. edestruct (start_ready _ id connect keep_alive Hcs) as (r & w' & s & E & ? & ? & ? & Hv' & ?).
    { simpl. by rewrite Hv, decide_True. }
    { exact Hroom1. }
    exists r, w', s. rewrite (bind_ok _ _ _ _ _ E). split_and!; try done; try tauto.
    intros i. rewrite Hv'. simpl. rewrite Hv. by case_decide. }
  assert (Hsame : w <| session_pool := p |> <| channels := channels w |> = w <| session_pool := p |>) by (by destruct w).
  destruct (pool_view (session_pool w) id) as [[old b]|] eqn:Eo; cbn [fmap option_fmap option_map fst].
  - destruct (p_filed w (wo_pool w Hw) id old b Eo) as (s0 & Hs0 & _ & Hb).
    erewrite session_at_run by exact Hs0. rewrite Hb. destruct b.
    + assert (Ha : SessionPool.active (session_pool w) !! id = Some old).
      { unfold pool_view in Eo. destruct (SessionPool.active (session_pool w) !! id); [congruence |].
        by destruct (SessionPool.inactive (session_pool w) !! id). }
      destruct (wo_sessions w Hw old s0 Hs0) as (_ & [c Hc] & _).
      pose (w1 := w <| session_pool := p |>). fold w1.
      destruct (takeover_run w1 old s0 c Hs0 Hc (Hl old s0 c Ha Hs0 Hc)) as (cs & Et & Hcs).
      rewrite (bind_ok _ _ _ _ _ Et). apply Hstart. by apply channels_world_ok.
    + rewrite bind_ret, <- Hsame. apply Hstart. by rewrite Hsame.
  - rewrite <- Hsame. apply Hstart. by rewrite Hsame.
Qed.

(** Without clean start, a disconnected session is connected again and a
    connected one is taken over. *)
Lemma resume_existing w id connect keep_alive r b s0 :
  world_ok w -> room id w -> can_leave w id -> clean_start connect = false ->
  pool_view (session_pool w) id = Some (r, b) -> sessions w !! r = Some s0 ->
  exists w' s,
    choose_session id connect keep_alive w = (Ok (r, true), w')
    /\ world_ok w' /\ ready w' id connect r s /\ topic_tree w' = topic_tree w
    /\ (forall i, pool_view (session_pool w') i
          = if decide (i = id) then Some (r, true) else pool_view (session_pool w) i)
    /\ Session.pending_ack s = Session.pending_ack s0
    /\ Session.next_packet_id s = Session.next_packet_id s0.
Proof.
  intros Hw Hroom Hl Hclean Hv Hs. unfold choose_session. rewrite Hclean.
  pose proof (activate_run w id (wo_pool w Hw)) as Ha. rewrite Hv in Ha. destruct b.
  - rewrite (bind_ok _ _ _ _ _ Ha).
    assert (Hact : SessionPool.active (session_pool w) !! id = Some r).
    { unfold pool_view in Hv. destruct (SessionPool.active (session_pool w) !! id); [congruence |].
      by destruct (SessionPool.inactive (session_pool w) !! id). }
    rewrite (bind_ok _ _ w (Some r) w) by (unfold get_active, in_pool, gets; by rewrite Hact).
    destruct (wo_sessions w Hw r s0 Hs) as (_ & [c Hc] & _).
    destruct (takeover_run w r s0 c Hs Hc (Hl r s0 c Hact Hs Hc)) as (cs & Et & Hcs).
    rewrite (bind_ok _ _ _ _ _ Et). pose proof (channels_world_ok w cs Hw Hcs) as Hw1.
    destruct (resume_ready _ id connect r s0 Hw1 Hv Hs) as (w2 & s & E & Hw2 & Hr & Ht & Hp & ? & ?).
    rewrite (bind_ok _ _ _ _ _ E).
    change ((gets clock ≫= ?k) w2) with (k (clock w2) w2). cbv beta.
    destruct Hr as (Hs2 & Hr). rewrite (with_session_run _ _ _ _ _ Hs2).
    eexists _, (set_last_active (clock w2) s). split; [reflexivity |].
    split_and!; try done.
    + apply (update_world_ok w2 r s); [done | done |]. by split_and!.
    + split; [simpl; apply lookup_insert_eq | exact Hr].
    + intros i. simpl. rewrite Hp. case_decide; [by subst | done].
  - destruct Ha as (p & s1 & Hs1 & Ea & Hp & Hview). rewrite Hs in Hs1. injection Hs1 as <-.
    rewrite (bind_ok _ _ _ _ _ Ea).
    assert (Hw1 : world_ok (w <| session_pool := p |>
      <| sessions := <[r := set_last_active (clock w) (set_connected true s0)]> (sessions w) |>))
      by (eapply refiled_world_ok; try done; eapply within_insert;
          [apply (wo_capacity w Hw) | done | exact (view_insert _ _ id r Hview)]).
    set (w1 := w <| session_pool := p |>
      <| sessions := <[r := set_last_active (clock w) (set_connected true s0)]> (sessions w) |>) in *.
    assert (Hv1 : pool_view (session_pool w1) id = Some (r, true)) by (simpl; by rewrite Hview, decide_True).
    destruct (resume_ready w1 id connect r (set_last_active (clock w) (set_connected true s0)) Hw1 Hv1)
      as (w2 & s & E & Hw2 & Hr & Ht & Hp2 & ? & ?); [apply lookup_insert_eq |].
    rewrite (bind_ok _ _ _ _ _ E). exists w2, s. split_and!; try done.
    intros i. by rewrite Hp2.
Qed.

(** C13: the session of a client that connects.  With clean start, or when the
    client has none, it is a new one, with no pending message; otherwise it is
    the session the client had, connected or not, with the messages that wait
    for acknowledgement and its packet identifiers.  Only then is session
    present reported.  In all cases the client is filed as connected under its
    identifier, its will is the one of this CONNECT packet, the session has no
    delayed will on its way (one that an earlier session of the client had
    registered is cancelled when that session is resumed, not by a clean start),
    its channel is new and empty, and no other client and no subscription is
    affected. *)
Theorem connect_session w id connect keep_alive :
  world_ok w -> room id w -> can_leave w id ->
  let view := pool_view (session_pool w) in
  exists r present w' s,
    choose_session id connect keep_alive w = (Ok (r, present), w')
    /\ world_ok w' /\ ready w' id connect r s /\ topic_tree w' = topic_tree w
    /\ (forall i, pool_view (session_pool w') i = if decide (i = id) then Some (r, true) else view i)
    /\ present = negb (clean_start connect) && bool_decide (is_Some (view id))
    /\ if (present : bool) then
         exists b s0, view id = Some (r, b) /\ sessions w !! r = Some s0
           /\ Session.pending_ack s = Session.pending_ack s0
           /\ Session.next_packet_id s = Session.next_packet_id s0
       else sessions w !! r = None /\ Session.pending_ack s = ∅
           /\ Session.next_packet_id s = 1 /\ Session.keep_alive s = keep_alive.
Proof.
  intros Hw Hroom Hl view. destruct (clean_start connect) eqn:Hclean.
  - destruct (clean_start_ready w id connect keep_alive Hw Hroom Hl Hclean) as (r & w' & s & ?).
    exists r, false, w', s. cbn [negb andb]. tauto.
  - destruct (view id) as [[r b]|] eqn:Hv.
    + destruct (p_filed w (wo_pool w Hw) id r b Hv) as (s0 & Hs0 & _).
      destruct (resume_existing w id connect keep_alive r b s0 Hw Hroom Hl Hclean Hv Hs0) as (w' & s & ?).
      exists r, true, w', s. split_and!; try tauto. exists b, s0. tauto.
    + destruct (start_ready w id connect keep_alive Hw Hv Hroom) as (r & w' & s & E & ?).
      exists r, false, w', s. split_and!; try tauto. unfold choose_session. rewrite Hclean.
      pose proof (activate_run w id (wo_pool w Hw)) as Ha. fold view in Ha. rewrite Hv in Ha.
      rewrite (bind_ok _ _ _ _ _ Ha).
      assert (Hact : SessionPool.active (session_pool w) !! id = None).
      { unfold view, pool_view in Hv. by destruct (SessionPool.active (session_pool w) !! id). }
      rewrite (bind_ok _ _ w None w) by (unfold get_active, in_pool, gets; by rewrite Hact).
      by rewrite (bind_ok _ _ _ _ _ E).
Qed.

(** ** Reachable states *)

(** C7: in every state the broker can reach, whatever clients connect and send
    and in whatever order packets, control messages, timers, delayed wills and
    commands are served: the pool's counters are the sizes of its maps, each
    client identifier has one session, filed under its own identifier and
    connection state; no more sessions are connected than the configured limit
    allows; every session hands out valid packet identifiers, has a channel of
    its own and waits only for well-formed packets; the topic tree is well
    formed unless it has outgrown its index type; and a connection that counts
    as connected has a session. *)
Theorem broker_invariant cfg sys :
  reachable cfg sys ->
  let w := shared sys in
  let p := session_pool w in
  (SessionPool.active_sessions p = u32 (Z.of_nat (size (SessionPool.active p)))
   /\ SessionPool.inactive_sessions p = u32 (Z.of_nat (size (SessionPool.inactive p)))
   /\ (forall id r, SessionPool.active p !! id = Some r -> SessionPool.inactive p !! id = None)
   /\ forall id r b, pool_view p id = Some (r, b) ->
        exists s, sessions w !! r = Some s /\ Session.id s = id /\ Session.connected s = b)
  /\ (forall k, Config.max_active_sessions cfg = Some k -> is_u32 k ->
       Z.of_nat (size (SessionPool.active p)) <= k)
  /\ (forall r s, sessions w !! r = Some s ->
       valid_packet_id (Session.next_packet_id s) /\ is_Some (channels w !! Session.sender s)
       /\ map_Forall (fun _ p => publish_wf p) (Session.pending_ack s)
       /\ forall r' s', sessions w !! r' = Some s' -> Session.sender s' = Session.sender s -> r' = r)
  /\ (4294967296 < len (topic_tree w) \/ tree_ok (topic_tree w))
  /\ (forall i c, clients sys !! i = Some c -> c_connected c = true ->
       exists r s, c_session c = Some r /\ sessions w !! r = Some s).
Proof.
  intros Hr w p. destruct (reachable_ok cfg sys Hr) as [[[[Ha Hi Hdis Hf] Hcap Ht Hs Hd] Hc] (_ & _ & Hcfg)].
  split_and!; try done.
  - intros k Hk. apply Hcap. rewrite Hcfg. exact Hk.
  - intros r s Hrs. destruct (Hs r s Hrs) as (? & ? & ?). split_and!; try done.
    intros r' s' Hrs' E. by apply (Hd r' r s' s).
  - intros i c Hic Hcon. specialize (Hc i c Hic). unfold conn_ok in Hc.
    destruct (c_session c) as [r|]; [| congruence]. destruct Hc as [s Hsr]. eauto.
Qed.

(** ** A copy at QoS 0 *)

(** A message without properties, as the encoder sees it. *)
Definition plain_publish (h : FixedHeader) (topic : rstring) (id : option Z) (payload : list Z)
    : Publish :=
  dflt <| Publish.fixed_header := h |> <| Publish.topic_name := topic |>
       <| Publish.packet_id := id |> <| Publish.payload := Some payload |>.

Lemma plain_properties h topic id payload :
  property_bytes (s_fields Publish_struct) (plain_publish h topic id payload) = [].
Proof.
  unfold property_bytes, fields_bytes. simpl. unfold unskipped_bytes, field_bytes. simpl.
  by rewrite pairs_empty.
Qed.

Lemma plain_body h topic id payload :
  packet_body (Packet.Publish (plain_publish h topic id payload))
  = prefixed topic ++ match id with Some id => be16 id | None => [] end ++ [0] ++ payload.
Proof.
  cbn [packet_body]. rewrite Publish_body. unfold property_section. by rewrite plain_properties.
Qed.

Lemma plain_ok h topic id payload :
  mqtt_string topic -> opt_ok is_u16 id -> len topic + len payload <= 2097000 ->
  packet_ok (Packet.Publish (plain_publish h topic id payload)).
Proof.
  intros Ht Hid Hl. split; [| split].
  - repeat first [apply props_ok_empty | split]; try done; simpl; unfold u16_max; try lia; apply Ht.
  - cbn [packet_properties]. rewrite plain_properties. simpl. unfold MAX_VARIABLE_BYTE_INT. lia.
  - rewrite plain_body. unfold prefixed, MAX_VARIABLE_BYTE_INT. rewrite !len_app.
    destruct id; simpl; lia.
Qed.

Lemma plain_fit h topic id payload :
  properties_fit Publish_struct (plain_publish h topic id payload)
  /\ excess Publish_struct (plain_publish h topic id payload) = 0.
Proof.
  apply properties_fit_exact.
  - apply Publish_regular. apply map_Forall_empty.
  - by each_field.
  - rewrite plain_properties. simpl. lia.
Qed.

Lemma plain_exact topic payload :
  packet_exact (Packet.Publish (plain_publish (FixedHeader_new PacketType.Publish) topic None payload)).
Proof.
  destruct (plain_fit (FixedHeader_new PacketType.Publish) topic None payload) as [Hf _].
  split_and!; try done. by exists QoSLevel.AtMostOnce.
Qed.

(** The bytes of a PUBLISH of QoS 0 with an identifier below 256 are those of one
    whose payload begins with it. *)
Lemma misread_identifier uuid topic id payload :
  1 <= id <= 255 -> mqtt_string topic -> len topic + len payload <= 2096000 ->
  let bs := [] ++ packet_bytes (FixedHeader_new PacketType.Publish)
              (prefixed topic ++ be16 id ++ [0] ++ payload) in
  exists received,
    codec_decode uuid bs = (Ok (Some (Packet.Publish received, len bs)), [])
    /\ Publish.topic_name received = topic /\ Publish.payload received = Some (id :: 0 :: payload).
Proof.
  intros Hid Ht Hl bs. set (got := plain_publish (FixedHeader_new PacketType.Publish) topic None (id :: 0 :: payload)).
  assert (Hbody : prefixed topic ++ be16 id ++ [0] ++ payload = packet_body (Packet.Publish got)).
  { unfold got. rewrite !plain_body. unfold be16. rewrite Z.div_small, Z.mod_0_l, Z.mod_small by lia. done. }
  assert (Hokg : packet_ok (Packet.Publish got)) by (apply plain_ok; [done | done | simpl; lia]).
  destruct (packet_decodes uuid [] [] (Packet.Publish got) Hokg (plain_exact _ _)) as (bs' & Henc & Hdec).
  { unfold got. rewrite plain_body. unfold prefixed. rewrite !len_app. simpl. destruct Ht. lia. }
  rewrite (encode_packet_bytes _ Hokg []) in Henc. injection Henc as <-.
  exists got. split; [| done]. unfold bs. rewrite Hbody.
  rewrite app_nil_r in Hdec. change (packet_excess (Packet.Publish got)) with (excess Publish_struct got) in Hdec.
  assert (Hex : excess Publish_struct got = 0) by apply plain_fit.
  rewrite Hex, Z.add_0_r in Hdec. exact Hdec.
Qed.

(** C36: a subscriber at QoS 0 gets a corrupted copy of a message that was
    published above QoS 0 (the message has no properties).  Routing lowers the
    QoS of the copy to 0 but leaves the packet identifier of the publisher in it,
    and for every identifier the encoder writes it between topic and properties,
    where a PUBLISH of QoS 0 has none.  The receiver reads its high byte as the
    length of the properties: for the identifiers from 1 to 255 that is an empty
    property section, and the copy is accepted with the low byte of the
    identifier and a zero byte in front of the payload.  (For larger identifiers
    the bytes that follow are taken for properties.) *)
Theorem downgraded_copy_corrupted w topic q id payload p sender sub r s c uuid :
  world_ok w -> q <> QoSLevel.AtMostOnce -> new_with_payload (Some id) topic q payload = Ok p ->
  1 <= id <= 65535 -> mqtt_string topic -> len topic + len payload <= 2096000 ->
  Subscriber.qos sub = QoSLevel.AtMostOnce -> wants sender sub = true ->
  SessionPool.active (session_pool w) !! Subscriber.session_id sub = Some r ->
  sessions w !! r = Some s -> channels w !! Session.sender s = Some c -> 0 < chan_free c ->
  exists w' c' out bs,
    route_to p sender sub w = (Ok tt, w')
    /\ channels w' !! Session.sender s = Some c'
    /\ chan_queue c' = chan_queue c ++ [SessionControl.Deliver out]
    /\ publish_qos out = Ok QoSLevel.AtMostOnce
    /\ encode (Packet.Publish out) [] = (Ok tt, bs)
    /\ (let body := prefixed topic ++ be16 id ++ [0] ++ payload in
        bs = packet_bytes (FixedHeader_new PacketType.Publish) body)
    /\ (id <= 255 -> exists received,
         codec_decode uuid bs = (Ok (Some (Packet.Publish received, len bs)), [])
         /\ Publish.topic_name received = topic
         /\ Publish.payload received = Some (id :: 0 :: payload)).
Proof.
  intros Hw Hq Hp Hid Ht Hl Hsub Hwants Ha Hs Hc Hf.
  assert (E : p = plain_publish (header_set_qos q (FixedHeader_new PacketType.Publish)) topic (Some id) payload).
  { rewrite new_with_payload_spec in Hp. case_bool_decide; [| done]. by injection Hp as <-. }
  assert (Hpq : publish_qos p = Ok q) by (subst p; apply header_qos_set).
  pose proof (route_to_run w p q sender sub r s c Hpq Hwants Ha Hs Hc) as Hrun. cbv zeta in Hrun.
  assert (Hg : lower_qos q (Subscriber.qos sub) = QoSLevel.AtMostOnce) by (rewrite Hsub; by destruct q).
  rewrite Hg in Hrun.
  set (out := copy_for p QoSLevel.AtMostOnce (Session.next_packet_id s)) in *.
  assert (Hout : out = plain_publish (FixedHeader_new PacketType.Publish) topic (Some id) payload).
  { unfold out. rewrite E. by destruct q. }
  destruct (push_room out c Hf) as [Hpush _].
  assert (Hok : packet_ok (Packet.Publish out)).
  { rewrite Hout. apply plain_ok; [done | simpl; unfold is_u16; lia | lia]. }
  do 4 eexists. split; [exact Hrun |]. split_and!.
  - simpl. apply lookup_insert_eq.
  - exact Hpush.
  - rewrite Hout. done.
  - apply (encode_packet_bytes _ Hok []).
  - rewrite Hout. cbv zeta. by rewrite plain_body.
  - intros Hsmall. rewrite Hout, plain_body. apply misread_identifier; [lia | done ..].
Qed.

(** ** A connection that was taken over *)

Lemma no_will_run w r s :
  sessions w !! r = Some s -> Session.will_message s = None -> initiate_will r w = (Ok tt, w).
Proof.
  intros Hs Hn. unfold initiate_will. rewrite (session_at_run _ _ _ _ Hs). cbn [take_will].
  rewrite Hn, (with_session_run _ _ _ _ _ Hs). rewrite insert_id; [by destruct w |].
  rewrite Hs. destruct s. simpl in *. by subst.
Qed.

(** The end of a connection deactivates whatever session is filed under the
    identifier of its own. *)
Lemma close_deactivates_id w c r s r' :
  world_ok w -> c_session c = Some r -> sessions w !! r = Some s -> Session.will_message s = None ->
  pool_view (session_pool w) (Session.id s) = Some (r', true) ->
  exists w', on_close (w, c) = (Ok Return, (w', c))
    /\ pool_view (session_pool w') (Session.id s) = Some (r', false)
    /\ forall publish q sender sub, publish_qos publish = Ok q ->
         Subscriber.session_id sub = Session.id s ->
         route_to publish sender sub w' = (Ok tt, w').
Proof.
  intros Hw Hc Hs Hn Hv. pose proof (deactivate_run w (Session.id s) (wo_pool w Hw)) as Hd.
  rewrite Hv in Hd. destruct Hd as (p & s' & _ & Hrun & _ & Hview).
  eexists (w <| session_pool := p |> <| sessions := <[r' := set_connected false s']> (sessions w) |>).
  assert (Hv' : pool_view p (Session.id s) = Some (r', false)) by (by rewrite Hview, decide_True).
  split_and!; [| exact Hv' |].
  - unfold on_close. change ((variable c_session ≫= ?k) (w, c)) with (k (c_session c) (w, c)).
    rewrite Hc. cbv iota beta. unfold lose_client, in_world. unfold mbind, M_bind.
    unfold session_at, get, lift, unwrap, mbind, M_bind. rewrite Hs, (no_will_run w r s Hs Hn), Hrun.
    done.
  - intros publish q sender sub Hq Hid. eapply route_to_idle; [exact Hq | right]. rewrite Hid.
    change (SessionPool.active p !! Session.id s = None). by rewrite view_lookup_active, Hv'.
Qed.

(** C37: when a client starts over with a new session while its old connection
    is still open, the end of the old connection disconnects the new session.
    The old connection deactivates the identifier of its session, not the
    session: the new one, whose client is still connected, is filed as
    disconnected, and no message is routed to it any more. *)
Theorem stale_close_parks_new_session w c r s connect keep_alive :
  world_ok w -> room (Session.id s) w -> can_leave w (Session.id s) ->
  c_session c = Some r -> sessions w !! r = Some s -> Session.will_message s = None ->
  clean_start connect = true ->
  exists r' w1 w2,
    choose_session (Session.id s) connect keep_alive w = (Ok (r', false), w1) /\ r' <> r
    /\ pool_view (session_pool w1) (Session.id s) = Some (r', true)
    /\ on_close (w1, c) = (Ok Return, (w2, c))
    /\ pool_view (session_pool w2) (Session.id s) = Some (r', false)
    /\ forall publish q sender sub, publish_qos publish = Ok q ->
         Subscriber.session_id sub = Session.id s ->
         route_to publish sender sub w2 = (Ok tt, w2).
Proof.
  intros Hw Hroom Hl Hc Hs Hn Hclean.
  destruct (clean_start_ready w (Session.id s) connect keep_alive Hw Hroom Hl Hclean)
    as (r' & w1 & s' & E & Hw1 & _ & _ & Hview & Hkeep & Hfresh & _).
  assert (Hv1 : pool_view (session_pool w1) (Session.id s) = Some (r', true))
    by (by rewrite Hview, decide_True).
  destruct (close_deactivates_id w1 c r s r' Hw1 Hc (Hkeep r s Hs) Hn Hv1) as (w2 & ? & ? & ?).
  exists r', w1, w2. split_and!; try done. intros ->. congruence.
Qed.
End facts.
