(* ===== verification/BrokerSamples.v ===== *)
(** * A small broker *)
(** Concrete runs of the broker on which its theorems are applied. *)

From S2P Require Import Prelude Bytes Codec Fixed Property Macro MacroFacts Subscriptions.
From S2P Require Import Acks Publish Connect Packet Topic Stream Runtime Sessions.
From S2P Require Import Broker BrokerLogic BrokerFacts.

(** Two clients connect, and the second subscribes to a topic. *)
Definition anna : rstring := str "anna".
Definition bert : rstring := str "bert".
Definition hello_of (id : rstring) : Connect := set_clean_start true (Connect_new id).

Definition news : Subscribe :=
  (Subscribe_new_with_packet_id 9) <| Subscribe.filter :=
    [SubscriptionFilter_new sensor_hash QoSLevel.AtMostOnce;
     SubscriptionFilter_new room1 QoSLevel.ExactlyOnce] |>.

Definition morning : M World Empty_set SubAck :=
  choose_session anna (hello_of anna) (secs 45) ≫= fun _ =>
  choose_session bert (hello_of bert) (secs 45) ≫= fun _ =>
  handle_subscribe news bert.

Definition office : World := (morning (BrokerState_new Config_default)).2.

(** Without a limit there is always room. *)
Lemma unlimited_room w id : Config.max_active_sessions (config w) = None -> room id w.
Proof. intros H. right. intros k Hk. congruence. Qed.

Lemma office_ok : world_ok office.
Proof.
  assert (H : sound (fun w => config w = Config_default) morning (fun _ _ => True)).
  { assert (Hst : stable (fun w => config w = Config_default)).
    { intros w w' (_ & _ & ->). done. }
    eapply sound_seq; [done | eapply sound_pre; [apply sound_choose |] |].
    { intros w Hc. apply unlimited_room. by rewrite Hc. }
    intros x. eapply sound_bind; [eapply sound_pre; [apply sound_choose |] |].
    { intros w [Hc _]. apply unlimited_room. by rewrite Hc. }
    intros y. apply sound_subscribe_each. }
  destruct (start_ok Config_default) as [Hw _].
  by destruct (H (BrokerState_new Config_default) Hw eq_refl) as (Hok & _ & _).
Qed.

Definition news_table : table :=
  subscribed bert (Subscribe.filter news) ∅.

Lemma office_implements : implements (topic_tree office) news_table.
Proof.
  assert (E : topic_tree office = (handle_subscribe news bert (BrokerState_new Config_default)).2.(topic_tree))
    by (by vm_compute).
  rewrite E.
  destruct (subscribe_each_run bert (Subscribe.filter news) (BrokerState_new Config_default) ∅
    (dflt <| SubAck.packet_id := 9 |>)) as (t & Et & Ht).
  - apply implements_new.
  - by vm_compute.
  - change (handle_subscribe news bert (BrokerState_new Config_default))
      with (subscribe_each bert (Subscribe.filter news) (dflt <| SubAck.packet_id := 9 |>)
              (BrokerState_new Config_default)).
    by rewrite Et.
Qed.

(** The references of the two sessions. *)
Definition ref_of (id : rstring) : Z := default (-1) (SessionPool.active (session_pool office) !! id).
Definition session_of (id : rstring) : Session := default alice (sessions office !! ref_of id).
Definition channel_of (id : rstring) : queue SessionControl :=
  default (Queue [] 0 true) (channels office !! Session.sender (session_of id)).

Definition reading : Publish :=
  plain_publish (header_set_qos QoSLevel.AtLeastOnce (FixedHeader_new PacketType.Publish)) room1
    (Some 5) [42].

Lemma subscribe_handled_witness :
  exists t, handle_subscribe news anna office
      = (Ok (dflt <| SubAck.packet_id := 9 |>
                  <| SubAck.reason_codes := [Reason.Success; Reason.GrantedQoS2] |>),
         office <| topic_tree := t |>)
    /\ implements t (subscribed anna (Subscribe.filter news) news_table).
Proof.
  apply (subscribe_handled office news_table news anna); [apply office_implements | by vm_compute].
Defined.

Lemma unsubscribe_handled_witness :
  let unsub := Unsubscribe.mk (FixedHeader_new PacketType.Unsubscribe) 4 ∅ [room1; room1] in
  exists t, handle_unsubscribe unsub bert office
      = (Ok (dflt <| UnsubAck.packet_id := 4 |>
                  <| UnsubAck.reason_code := [Reason.Success; Reason.NoSubscribers] |>),
         office <| topic_tree := t |>)
    /\ implements t (unsubscribed bert [room1; room1] news_table).2.
Proof.
  exact (unsubscribe_handled office news_table
    (Unsubscribe.mk (FixedHeader_new PacketType.Unsubscribe) 4 ∅ [room1; room1]) bert office_implements).
Defined.

(** Both subscriptions of [bert] match: two copies. *)
Lemma publish_routed_witness :
  exists own, own ≡ₚ own_subs bert anna (matching_entries news_table room1) /\ len own = 2
    /\ exists w' c', route_publish reading anna office = (Ok tt, w')
         /\ session_pool w' = session_pool office /\ topic_tree w' = topic_tree office
         /\ sessions w' !! ref_of bert
            = Some (charge_all reading QoSLevel.AtLeastOnce own (session_of bert))
         /\ channels w' !! Session.sender (session_of bert) = Some c'
         /\ q_items c' = SessionControl.Deliver <$> copies reading QoSLevel.AtLeastOnce 1 own.
Proof.
  destruct (publish_routed office news_table reading QoSLevel.AtLeastOnce anna bert (ref_of bert)
    (session_of bert) (channel_of bert)) as (subs & Hsubs & H).
  - apply office_ok.
  - apply office_implements.
  - split; refine (bool_decide_unpack _ _); by vm_compute.
  - by vm_compute.
  - by vm_compute.
  - by vm_compute.
  - by vm_compute.
  - exists (own_subs bert anna subs). assert (Hown : own_subs bert anna subs
      ≡ₚ own_subs bert anna (matching_entries news_table room1)) by (by rewrite Hsubs).
    assert (Hl : len (own_subs bert anna subs) = 2) by (rewrite Hown; by vm_compute).
    split_and!; [done.. |]. cbv zeta in H. destruct H as (w' & c' & H1 & H2 & H3 & H4 & H5 & H6).
    { rewrite Hl. by vm_compute. }
    exists w', c'. split_and!; [exact H1 | exact H2 | exact H3 | exact H4 | exact H5 | exact H6].
Defined.

Lemma office_can_leave id : id = anna -> can_leave office id.
Proof.
  intros -> r s c Hr Hs Hc. left.
  assert (Er : r = ref_of anna) by (unfold ref_of; by rewrite Hr). subst r.
  assert (Es : s = session_of anna) by (unfold session_of; by rewrite Hs). subst s.
  assert (Ec : Some c = Some (channel_of anna)) by (rewrite <- Hc; by vm_compute).
  injection Ec as ->. by vm_compute.
Qed.

Lemma connect_session_witness :
  let connect := Connect_new anna in
  exists r present w' s,
    choose_session anna connect (secs 90) office = (Ok (r, present), w')
    /\ world_ok w' /\ ready w' anna connect r s /\ topic_tree w' = topic_tree office
    /\ (forall i, pool_view (session_pool w') i
          = if decide (i = anna) then Some (r, true) else pool_view (session_pool office) i)
    /\ present = true
    /\ if (present : bool) then
         exists b s0, pool_view (session_pool office) anna = Some (r, b) /\ sessions office !! r = Some s0
           /\ Session.pending_ack s = Session.pending_ack s0
           /\ Session.next_packet_id s = Session.next_packet_id s0
       else sessions office !! r = None /\ Session.pending_ack s = ∅
           /\ Session.next_packet_id s = 1 /\ Session.keep_alive s = secs 90.
Proof.
  apply (connect_session office anna (Connect_new anna) (secs 90)).
  - apply office_ok.
  - by apply unlimited_room.
  - by apply office_can_leave.
Defined.

Lemma downgraded_copy_corrupted_witness :
  exists w' c' out bs received,
    route_to reading anna (Subscriber.mk bert QoSLevel.AtMostOnce false) office = (Ok tt, w')
    /\ channels w' !! Session.sender (session_of bert) = Some c'
    /\ q_items c' = [] ++ [SessionControl.Deliver out]
    /\ encode (Packet.Publish out) [] = (Ok tt, bs)
    /\ codec_decode [] bs = (Ok (Some (Packet.Publish received, len bs)), [])
    /\ Publish.topic_name received = room1
    /\ Publish.payload received = Some [5; 0; 42].
Proof.
  destruct (downgraded_copy_corrupted office room1 QoSLevel.AtLeastOnce 5 [42] reading anna
    (Subscriber.mk bert QoSLevel.AtMostOnce false) (ref_of bert) (session_of bert) (channel_of bert) [])
    as (w' & c' & out & bs & H1 & H2 & H3 & _ & H4 & _ & H5).
  - apply office_ok.
  - done.
  - by vm_compute.
  - lia.
  - split; [done | simpl; unfold u16_max; lia].
  - simpl. lia.
  - done.
  - done.
  - by vm_compute.
  - by vm_compute.
  - by vm_compute.
  - by vm_compute.
  - destruct H5 as (received & H5 & H6 & H7); [lia |]. exists w', c', out, bs, received.
    split; [exact H1 |]. split; [exact H2 |]. split; [exact H3 |]. split; [exact H4 |].
    split; [exact H5 |]. split; [exact H6 | exact H7].
Defined.

(** The connection that serves the session of [anna]. *)
Definition anna_conn : Conn :=
  (Conn_new (PacketStream_new (mkChunked [] 0 []) (Some 4) None))
    <| c_session := Some (ref_of anna) |> <| c_connected := true |>.

Lemma stale_close_parks_new_session_witness :
  exists r' w1 w2,
    choose_session anna (hello_of anna) (secs 45) office = (Ok (r', false), w1) /\ r' <> ref_of anna
    /\ pool_view (session_pool w1) anna = Some (r', true)
    /\ on_close (w1, anna_conn) = (Ok Return, (w2, anna_conn))
    /\ pool_view (session_pool w2) anna = Some (r', false)
    /\ forall publish q sender sub, publish_qos publish = Ok q ->
         Subscriber.session_id sub = anna -> route_to publish sender sub w2 = (Ok tt, w2).
Proof.
  apply (stale_close_parks_new_session office anna_conn (ref_of anna) (session_of anna)
    (hello_of anna) (secs 45)).
  - apply office_ok.
  - by apply unlimited_room.
  - by apply office_can_leave.
  - done.
  - by vm_compute.
  - by vm_compute.
  - by vm_compute.
Defined.

(** A client connects to a broker and its CONNECT packet is read. *)
Definition limited : Config := Config.mk DEFAULT_KEEP_ALIVE MAX_KEEP_ALIVE DEFAULT_SESSION_EXPIRY
  DEFAULT_MAX_TOPIC_NAME_LEN DEFAULT_MAX_TOPIC_MEM DEFAULT_SESSION_CHANNEL_SIZE (Some 3).

Definition dialled : t_state := mkChunked (wire_bytes (Packet.Connect (hello_of anna))) 63 [].
Definition dialled_conn : Conn := Conn_new (PacketStream_new dialled (Some INIT_STREAM_BUFFER_SIZE) None).
Definition opened : System := mkSystem (BrokerState_new limited) (<[1 := dialled_conn]> ∅).
Definition welcomed : System :=
  default opened (settle 1 opened (on_read 10 [] [] (shared opened, dialled_conn))).

Lemma some_default {A} (o : option A) d :
  match o with Some _ => true | None => false end = true -> o = Some (default d o).
Proof. by destruct o. Qed.

Lemma welcomed_reachable : reachable limited welcomed.
Proof.
  eapply rtc_l; [exact (step_accept (start limited) 1 dialled eq_refl) |].
  eapply rtc_l; [| apply rtc_refl].
  refine (step_task opened _ (step_read opened 1 dialled_conn 10 [] [] welcomed _ _)); [done |].
  apply some_default. vm_compute. reflexivity.
Qed.

Definition welcomed_conn : Conn := default dialled_conn (clients welcomed !! 1).

Lemma broker_invariant_witness :
  SessionPool.active (session_pool (shared welcomed)) !! anna = Some 0
  /\ Z.of_nat (size (SessionPool.active (session_pool (shared welcomed)))) <= 3
  /\ exists r s, c_session welcomed_conn = Some r /\ sessions (shared welcomed) !! r = Some s.
Proof.
  split; [vm_compute; reflexivity |].
  destruct (broker_invariant limited welcomed welcomed_reachable) as (_ & Hk & _ & _ & Hc).
  split; [apply (Hk 3); [reflexivity | unfold is_u32; lia] |].
  apply (Hc 1 welcomed_conn); [| vm_compute; reflexivity].
  apply some_default. vm_compute. reflexivity.
Defined.
