(* ===== verification/BrokerWills.v ===== *)
(** * The wills of the broker *)
(** When a will is published, when it is discarded, and what happens to it on a
    takeover.  The part of the state that concerns wills is [will_view]; code
    that leaves it alone is [calm], and [wills_ok] is an invariant of every
    reachable state. *)

From S2P Require Import Prelude Bytes Codec Fixed Property Macro MacroFacts Subscriptions.
From S2P Require Import Acks Publish Connect Packet Topic Stream Runtime Sessions.
From S2P Require Import Broker BrokerLogic BrokerFacts BrokerSamples.

Section wills.
Context {B : Buf} {HI : HashIter} {T : Transport} {R : Runtime} {D : DrainOrder}.
Implicit Types w : World.

(** ** Code that does not touch wills *)

Definition session_will (s : Session) : rstring * option WillMessage * option Z :=
  (Session.id s, Session.will_message s, Session.pending_will s).

Definition will_view w : tokens * gmap Z (Z * WillMessage) * Z * gmap Z (rstring * option WillMessage * option Z) :=
  (cancelled w, delayed_wills w, next_token w, session_will <$> sessions w).

(** Code that does not change a view of the state. *)
Definition steady {V A} (v : World -> V) (m : M World Empty_set A) : Prop := forall w, v (m w).2 = v w.
Abbreviation calm := (steady will_view).

Lemma steady_bind {V A C} (v : World -> V) (m : M World Empty_set A) (k : A -> M World Empty_set C) :
  steady v m -> (forall a, steady v (k a)) -> steady v (m ≫= k).
Proof.
  intros Hm Hk w. specialize (Hm w). unfold mbind, M_bind.
  destruct (m w) as [[a|[]| |] w1]; [| done ..]. simpl in Hm. by rewrite Hk.
Qed.

Lemma steady_ret {V A} (v : World -> V) (a : A) : steady v (mret a).
Proof. done. Qed.
Lemma steady_lift {V A} (v : World -> V) (o : outcome Empty_set A) : steady v (lift o).
Proof. by intros w. Qed.
Lemma steady_no_fuel {V A} (v : World -> V) : steady v (no_fuel : M World Empty_set A).
Proof. done. Qed.
Lemma steady_gets {V A} (v : World -> V) (f : World -> A) : steady v (gets f).
Proof. done. Qed.
Lemma steady_get {V} (v : World -> V) : steady v get.
Proof. done. Qed.
Lemma steady_modify {V} (v : World -> V) f : (forall w, v (f w) = v w) -> steady v (modify f).
Proof. done. Qed.

Lemma steady_session_at {V} (v : World -> V) r : steady v (session_at r).
Proof. apply steady_bind; [apply steady_get | intros; apply steady_lift]. Qed.

Lemma calm_with_session r f : (forall s, session_will (f s) = session_will s) -> calm (with_session r f).
Proof.
  intros Hf w. unfold with_session, session_at, mbind, M_bind, get, lift, unwrap.
  destruct (sessions w !! r) as [s|] eqn:Hs; [| done]. unfold will_view. simpl. f_equal.
  rewrite fmap_insert, Hf. apply insert_id. by rewrite lookup_fmap, Hs.
Qed.

(** A session put back after a change that the code made on a copy of it. *)
Lemma calm_replace {C} r s s' (k : unit -> M World Empty_set C) w :
  sessions w !! r = Some s -> session_will s' = session_will s -> (forall u, calm (k u)) ->
  will_view ((with_session r (fun _ => s') ≫= k) w).2 = will_view w.
Proof.
  intros Hs Hf Hk. rewrite (with_session_run _ _ _ _ _ Hs), Hk. unfold will_view. simpl. f_equal.
  rewrite fmap_insert, Hf. apply insert_id. by rewrite lookup_fmap, Hs.
Qed.

Lemma calm_in_tree {A} (m : M TopicTree Empty_set A) : calm (in_tree m).
Proof. intros w. unfold in_tree. by destruct (m (topic_tree w)). Qed.
Lemma calm_in_pool {A} (f : SessionPool -> A) : calm (in_pool f).
Proof. apply steady_gets. Qed.
Lemma calm_with_pool f : calm (with_pool f).
Proof. by apply steady_modify. Qed.

Create HintDb calm.
#[local] Hint Resolve steady_ret steady_lift steady_no_fuel steady_gets steady_get steady_session_at calm_in_tree
  calm_in_pool calm_with_pool : calm.

Ltac calm_steps :=
  repeat first
    [ progress auto with calm
    | apply calm_with_session; done
    | apply steady_bind; [| intros ?]
    | apply steady_modify; done
    | progress cbv zeta beta
    | match goal with |- steady _ (match ?x with _ => _ end) => destruct x end ].

Lemma calm_get_active id : calm (get_active id).
Proof. apply calm_in_pool. Qed.
Lemma calm_remove id : calm (remove id).
Proof. unfold remove. calm_steps. Qed.
Lemma calm_add r : calm (add r).
Proof. unfold add. calm_steps. Qed.
Lemma calm_activate id : calm (activate id).
Proof. unfold activate, activate_found. calm_steps. Qed.
Lemma calm_deactivate id : calm (deactivate id).
Proof. unfold deactivate, deactivate_found. calm_steps. Qed.
Lemma calm_new_channel : calm new_channel.
Proof. unfold new_channel. calm_steps. Qed.
Lemma calm_try_send r m : calm (try_send_control r m).
Proof. unfold try_send_control. calm_steps. Qed.
#[local] Hint Resolve calm_get_active calm_remove calm_add calm_activate calm_deactivate
  calm_new_channel calm_try_send : calm.

Lemma calm_send r m : calm (send_control r m).
Proof. unfold send_control. calm_steps. Qed.
Lemma calm_deliver r out : calm (deliver r out).
Proof. unfold deliver. calm_steps. Qed.
Lemma calm_takeover r : calm (handle_takeover r).
Proof. apply calm_send. Qed.
#[local] Hint Resolve calm_send calm_deliver calm_takeover : calm.

Lemma calm_route_to publish sender sub : calm (route_to publish sender sub).
Proof.
  unfold route_to. destruct (_ && _); [apply steady_ret |].
  apply steady_bind; [apply steady_lift | intros pq]. cbv zeta.
  apply steady_bind; [apply calm_get_active | intros [r|]; [| apply steady_ret]].
  destruct (negb _); [| apply calm_deliver]. intros w.
  destruct (sessions w !! r) as [s|] eqn:Hs.
  - rewrite (session_at_run _ _ _ _ Hs). cbn [next_packet_id].
    eapply calm_replace; [exact Hs | done |]. intros u. calm_steps.
  - unfold session_at, mbind at 1, M_bind at 1. rewrite bind_get. unfold lift, unwrap. by rewrite Hs.
Qed.

Lemma calm_route publish sender : calm (route_publish publish sender).
Proof.
  unfold route_publish. apply steady_bind; [auto with calm |]. intros subs.
  induction subs as [|sub subs IH]; [apply steady_ret |].
  apply steady_bind; [apply calm_route_to | done].
Qed.

Lemma calm_publish_will will : calm (publish_will will).
Proof. apply steady_bind; [apply steady_lift | intros; apply calm_route]. Qed.

Lemma calm_subscribe_each sid filters : forall suback, calm (subscribe_each sid filters suback).
Proof. induction filters as [|f fs IH]; intros suback; cbn [subscribe_each]; calm_steps. Qed.
Lemma calm_unsubscribe_each sid topics : forall unsuback, calm (unsubscribe_each sid topics unsuback).
Proof. induction topics as [|f fs IH]; intros unsuback; cbn [unsubscribe_each]; calm_steps. Qed.

(** ** Initiating a will *)

(** The delay of a will in seconds. *)
Definition delay_of (will : WillMessage) : Z :=
  default 0 (WillHeader.will_delay (WillMessage.header will)).

(** The message of a will. *)
Definition will_message_of (will : WillMessage) : Publish :=
  match will_publish will with Ok p => p | _ => dflt end.

Lemma will_publish_ok will :
  will_publish will = Ok (will_message_of will)
  /\ publish_qos (will_message_of will) = Ok (WillMessage.qos will).
Proof.
  unfold will_message_of, will_publish. simpl new_from_header. cbv iota beta. split; [done |].
  assert (Hq : forall h, header_qos (header_set_retain (WillMessage.retain will)
    (header_set_qos (WillMessage.qos will) h)) = Ok (WillMessage.qos will)).
  { intros h. by rewrite header_qos_set_retain, header_qos_set. }
  destruct (WillHeader.payload_format _); unfold publish_qos, set_payload_format; simpl; [| apply Hq].
  case_bool_decide; apply Hq.
Qed.

Lemma publish_will_run will w : publish_will will w = route_publish (will_message_of will) [] w.
Proof. unfold publish_will. by rewrite (proj1 (will_publish_ok will)). Qed.

Lemma initiate_now w r s will :
  sessions w !! r = Some s -> Session.will_message s = Some will -> delay_of will = 0 ->
  initiate_will r w
  = route_publish (will_message_of will) [] (w <| sessions := <[r := clear_will s]> (sessions w) |>).
Proof.
  intros Hs Hm Hd. unfold initiate_will. rewrite (session_at_run _ _ _ _ Hs). cbn [take_will].
  rewrite (with_session_run _ _ _ _ _ Hs), Hm. cbv zeta. fold (delay_of will). rewrite Hd.
  apply publish_will_run.
Qed.

Lemma initiate_later w r s will :
  sessions w !! r = Some s -> Session.will_message s = Some will -> delay_of will <> 0 ->
  exists tk,
    let t := next_token w in
    initiate_will r w
    = (Ok tt, w <| next_token := t + 1 |>
        <| delayed_wills := <[t := (clock w + secs (delay_of will), will)]> (delayed_wills w) |>
        <| cancelled := tk |>
        <| sessions := <[r := (clear_will s) <| Session.pending_will := Some t |>]> (sessions w) |>)
    /\ forall t, is_cancelled t tk
         = bool_decide (Session.pending_will s = Some t) || is_cancelled t (cancelled w).
Proof.
  intros Hs Hm Hd. unfold initiate_will. rewrite (session_at_run _ _ _ _ Hs). cbn [take_will].
  rewrite (with_session_run _ _ _ _ _ Hs), Hm. cbv zeta. fold (delay_of will).
  apply Z.eqb_neq in Hd. rewrite Hd, bind_get.
  change ((modify ?f ≫= ?k) ?w) with (k tt (f w)). cbv beta. simpl.
  match goal with |- context [set_pending_will r ?t ?w] => set (w1 := w) end.
  destruct (cancel_run w1 r (clear_will s)) as (tk & Ec & Htk); [apply lookup_insert_eq |].
  exists tk. split; [| exact Htk]. unfold set_pending_will. rewrite (bind_ok _ _ _ _ _ Ec).
  erewrite with_session_eq by (simpl; apply lookup_insert_eq). subst w1. simpl.
  by rewrite !insert_insert_eq.
Qed.

(** ** The invariant of wills *)

(** Tokens that are in use were handed out, and no two sessions share one. *)
Record wills_ok w : Prop := {
  ok_delayed t x : delayed_wills w !! t = Some x -> t < next_token w;
  ok_cancelled t : is_cancelled t (cancelled w) = true -> t < next_token w;
  ok_pending r s t : sessions w !! r = Some s -> Session.pending_will s = Some t -> t < next_token w;
  ok_distinct r r' s s' t : sessions w !! r = Some s -> sessions w !! r' = Some s' ->
    Session.pending_will s = Some t -> Session.pending_will s' = Some t -> r = r';
}.

Lemma view_eq w w' :
  will_view w' = will_view w ->
  cancelled w' = cancelled w /\ delayed_wills w' = delayed_wills w /\ next_token w' = next_token w
  /\ forall r s', sessions w' !! r = Some s' ->
       exists s, sessions w !! r = Some s /\ session_will s' = session_will s
         /\ Session.pending_will s' = Session.pending_will s.
Proof.
  intros E. injection E as Ec Ed En Es. split_and!; try done. intros r s' Hr.
  assert (Hr' : (session_will <$> sessions w) !! r = Some (session_will s'))
    by (by rewrite <- Es, lookup_fmap, Hr).
  rewrite lookup_fmap in Hr'. destruct (sessions w !! r) as [s|]; [| done].
  injection Hr' as Hi Hm Hp. exists s. split_and!; [done | | done]. unfold session_will. congruence.
Qed.

Lemma wills_ok_view w w' : will_view w' = will_view w -> wills_ok w -> wills_ok w'.
Proof.
  intros E [H1 H2 H3 H4]. destruct (view_eq w w' E) as (Ec & Ed & En & Hs).
  split; rewrite ?Ec, ?Ed, ?En; [done | done | |].
  - intros r s' t Hr Ht. destruct (Hs r s' Hr) as (s & Hr' & _ & Ep). apply (H3 r s); congruence.
  - intros r r' s s' t Hr Hr' Ht Ht'.
    destruct (Hs r s Hr) as (u & Hu & _ & Eu), (Hs r' s' Hr') as (u' & Hu' & _ & Eu').
    apply (H4 r r' u u' t); congruence.
Qed.

(** A session whose token is gone, kept, or new. *)
Lemma wills_ok_session w r s s' :
  wills_ok w -> sessions w !! r = Some s ->
  Session.pending_will s' = None \/ Session.pending_will s' = Session.pending_will s ->
  wills_ok (w <| sessions := <[r := s']> (sessions w) |>).
Proof.
  intros [H1 H2 H3 H4] Hs Hp. split; simpl; [done | done | |].
  - intros r1 s1 t. rewrite lookup_insert_Some. intros [[<- <-]|[? Hr]] Ht; [| by apply (H3 r1 s1)].
    apply (H3 r s); [done |]. destruct Hp; congruence.
  - intros r1 r2 s1 s2 t. rewrite !lookup_insert_Some.
    intros [[<- <-]|[? Hr1]] [[<- <-]|[? Hr2]] Ht1 Ht2; try done.
    + apply (H4 r r2 s s2 t); [done | done | | done]. destruct Hp; congruence.
    + apply (H4 r1 r s1 s t); [done | done | done |]. destruct Hp; congruence.
    + by apply (H4 r1 r2 s1 s2 t).
Qed.

(** What later steps cannot undo: tokens are handed out upwards, a delayed will
    stays registered, and a token is cancelled or kept only if it was that of a
    session, or cancelled, before. *)
Record holds w w' : Prop := {
  h_next : next_token w <= next_token w';
  h_entry t : t < next_token w -> delayed_wills w' !! t = delayed_wills w !! t;
  h_cancelled t : is_cancelled t (cancelled w') = true -> t < next_token w ->
    is_cancelled t (cancelled w) = true
    \/ exists r s, sessions w !! r = Some s /\ Session.pending_will s = Some t;
  h_pending r s' t : sessions w' !! r = Some s' -> Session.pending_will s' = Some t -> t < next_token w ->
    exists s, sessions w !! r = Some s /\ Session.pending_will s = Some t;
}.

Lemma holds_refl w : holds w w.
Proof. split; [lia | done | by left | eauto]. Qed.

Lemma holds_trans w1 w2 w3 : holds w1 w2 -> holds w2 w3 -> holds w1 w3.
Proof.
  intros [N1 E1 C1 P1] [N2 E2 C2 P2]. split; [lia | | |].
  - intros t Ht. rewrite E2 by lia. by apply E1.
  - intros t Hc Ht. destruct (C2 t Hc) as [H|(r & s & Hr & Hp)]; [lia | auto |].
    right. destruct (P1 r s t Hr Hp Ht) as (s0 & ? & ?). eauto.
  - intros r s' t Hr Hp Ht. destruct (P2 r s' t Hr Hp) as (s & ? & ?); [lia |]. eauto.
Qed.

(** A session changed while the rest of the view is kept. *)
Lemma holds_session w r s s' :
  sessions w !! r = Some s ->
  Session.pending_will s' = None \/ Session.pending_will s' = Session.pending_will s ->
  holds w (w <| sessions := <[r := s']> (sessions w) |>).
Proof.
  intros Hs Hp. split; simpl; [lia | done | by left |].
  intros r1 s1 t. rewrite lookup_insert_Some. intros [[<- <-]|[? Hr]] Ht _; [| eauto].
  exists s. split; [done |]. destruct Hp; congruence.
Qed.

Lemma holds_view w w' : will_view w' = will_view w -> holds w w'.
Proof.
  intros E. destruct (view_eq w w' E) as (Ec & Ed & En & Es).
  split; rewrite ?Ec, ?Ed, ?En; [lia | done | by left |]. intros r s' t Hr Hp _.
  destruct (Es r s' Hr) as (s & ? & _ & ?). exists s. split; congruence.
Qed.

(** Code that keeps the invariant, and what later steps cannot undo. *)
Definition keeps {A} (m : M World Empty_set A) : Prop :=
  forall w, wills_ok w -> wills_ok (m w).2 /\ holds w (m w).2.

Lemma keeps_calm {A} (m : M World Empty_set A) : calm m -> keeps m.
Proof. intros Hm w Hw. split; [by apply (wills_ok_view w) | by apply holds_view]. Qed.

Lemma keeps_then {A C} (m : M World Empty_set A) (k : A -> M World Empty_set C) :
  keeps m -> (forall a, keeps (k a)) -> keeps (m ≫= k).
Proof.
  intros Hm Hk w Hw. destruct (Hm w Hw) as [Hw1 H1]. unfold mbind, M_bind.
  destruct (m w) as [[a|[]| |] w1]; [| done ..]. destruct (Hk a w1 Hw1) as [Hw2 H2].
  split; [done | by eapply holds_trans].
Qed.

Lemma keeps_with_session r f :
  (forall s, Session.pending_will (f s) = Session.pending_will s) -> keeps (with_session r f).
Proof.
  intros Hf w Hw. unfold with_session, session_at, mbind, M_bind, get, lift, unwrap.
  destruct (sessions w !! r) as [s|] eqn:Hs; [| split; [done | apply holds_refl]].
  split; [eapply wills_ok_session | eapply holds_session]; try done; right; apply Hf.
Qed.

Lemma keeps_new_session s : Session.pending_will s = None -> keeps (new_session s).
Proof.
  intros Hp w [H1 H2 H3 H4]. split.
  - split; simpl; [done | done | |].
    + intros r1 s1 t. rewrite lookup_insert_Some. intros [[<- <-]|[? Hr]] Ht; [congruence |].
      by apply (H3 r1 s1).
    + intros r1 r2 s1 s2 t. rewrite !lookup_insert_Some.
      intros [[<- <-]|[? Hr1]] [[<- <-]|[? Hr2]] Ht1 Ht2; try congruence. by apply (H4 r1 r2 s1 s2 t).
  - split; simpl; [lia | done | by left |]. intros r1 s1 t. rewrite lookup_insert_Some.
    intros [[<- <-]|[? Hr]] Ht _; [congruence | eauto].
Qed.

Lemma no_session {A} (k : Session -> M World Empty_set A) r w :
  sessions w !! r = None -> (session_at r ≫= k) w = (Panic, w).
Proof. intros Hs. unfold session_at. unfold mbind, M_bind, get, lift, unwrap. by rewrite Hs. Qed.

(** Cancelling the token of a session. *)
Lemma keeps_tokens w r s tk :
  wills_ok w -> sessions w !! r = Some s ->
  (forall t, is_cancelled t tk = bool_decide (Session.pending_will s = Some t) || is_cancelled t (cancelled w)) ->
  wills_ok (w <| cancelled := tk |>) /\ holds w (w <| cancelled := tk |>).
Proof.
  intros [H1 H2 H3 H4] Hs Htk. split; split; simpl; try done; try lia; [| | eauto].
  - intros t. rewrite Htk. intros [Ht|Ht]%orb_prop; [| by apply H2].
    apply bool_decide_eq_true in Ht. by apply (H3 r s).
  - intros t. rewrite Htk. intros [Ht|Ht]%orb_prop _; [| by left]. apply bool_decide_eq_true in Ht. eauto.
Qed.

Lemma keeps_cancel r : keeps (cancel_pending_will r).
Proof.
  intros w Hw. destruct (sessions w !! r) as [s|] eqn:Hs.
  2: { unfold cancel_pending_will. rewrite no_session by done. split; [done | apply holds_refl]. }
  destruct (cancel_run w r s Hs) as (tk & E & Htk). rewrite E.
  destruct (keeps_tokens w r s tk Hw Hs Htk) as [Hw' Hh].
  pose (s' := s <| Session.pending_will := None |>). pose (w1 := w <| cancelled := tk |>). split.
  - exact (wills_ok_session _ r s s' Hw' Hs (or_introl eq_refl)).
  - eapply holds_trans; [exact Hh |]. exact (holds_session w1 r s s' Hs (or_introl eq_refl)).
Qed.

(** A will registered under a new token, which becomes that of its session. *)
Lemma keeps_registered w r s s' x :
  let t := next_token w in
  wills_ok w -> sessions w !! r = Some s -> Session.pending_will s' = Some t ->
  let w' := w <| next_token := t + 1 |> <| delayed_wills := <[t := x]> (delayed_wills w) |>
              <| sessions := <[r := s']> (sessions w) |> in
  wills_ok w' /\ holds w w'.
Proof.
  intros t [H1 H2 H3 H4] Hs Hp w'. split; split; simpl.
  - intros t' x'. rewrite lookup_insert_Some. intros [[<- <-]|[? Hx]]; [lia |].
    pose proof (H1 t' x' Hx). lia.
  - intros t' Ht. pose proof (H2 t' Ht). lia.
  - intros r1 s1 t'. rewrite lookup_insert_Some. intros [[<- <-]|[? Hr]] Ht.
    + assert (t' = t) by congruence. lia.
    + pose proof (H3 r1 s1 t' Hr Ht). lia.
  - intros r1 r2 s1 s2 t'. rewrite !lookup_insert_Some.
    intros [[<- <-]|[? Hr1]] [[<- <-]|[? Hr2]] Ht1 Ht2; try done.
    + assert (t' = t) by congruence. pose proof (H3 r2 s2 _ Hr2 Ht2). lia.
    + assert (t' = t) by congruence. pose proof (H3 r1 s1 _ Hr1 Ht1). lia.
    + by apply (H4 r1 r2 s1 s2 t').
  - lia.
  - intros t' Ht. rewrite lookup_insert_ne by lia. done.
  - by left.
  - intros r1 s1 t'. rewrite lookup_insert_Some. intros [[<- <-]|[? Hr]] Ht Hlt; [| eauto].
    assert (t' = t) by congruence. lia.
Qed.

Lemma keeps_initiate r : keeps (initiate_will r).
Proof.
  intros w Hw. destruct (sessions w !! r) as [s|] eqn:Hs.
  2: { unfold initiate_will. rewrite no_session by done. split; [done | apply holds_refl]. }
  destruct (Session.will_message s) as [will|] eqn:Hm.
  2: { rewrite (no_will_run w r s Hs Hm). split; [done | apply holds_refl]. }
  destruct (decide (delay_of will = 0)) as [Hd|Hd].
  - rewrite (initiate_now w r s will Hs Hm Hd).
    destruct (keeps_calm _ (calm_route (will_message_of will) [])
      (w <| sessions := <[r := clear_will s]> (sessions w) |>)) as [Hw1 H1].
    { eapply wills_ok_session; [done | exact Hs | by right]. }
    split; [done |]. eapply holds_trans; [| exact H1]. eapply holds_session; [exact Hs | by right].
  - destruct (initiate_later w r s will Hs Hm Hd) as (tk & E & Htk). rewrite E. clear E.
    destruct (keeps_tokens w r s tk Hw Hs Htk) as [Hw' Hh].
    pose (w1 := w <| cancelled := tk |>).
    pose (s1 := (clear_will s) <| Session.pending_will := Some (next_token w) |>).
    assert (Hp : Session.pending_will s1 = Some (next_token w1)) by done.
    destruct (keeps_registered w1 r s s1 (clock w + secs (delay_of will), will) Hw' Hs Hp) as [Hw2 H2].
    split; [exact Hw2 | eapply holds_trans; [exact Hh | exact H2]].
Qed.

Create HintDb keeps.
#[local] Hint Resolve keeps_cancel keeps_initiate : keeps.

Ltac keeps_steps :=
  repeat first
    [ progress auto with keeps
    | apply keeps_calm; solve [calm_steps]
    | apply keeps_with_session; done
    | apply keeps_new_session; done
    | apply keeps_then; [| intros ?]
    | progress cbv zeta beta
    | match goal with |- keeps (match ?x with _ => _ end) => destruct x end ].

Lemma keeps_start id connect keep_alive : keeps (start_session id connect keep_alive).
Proof. unfold start_session. keeps_steps. Qed.
Lemma keeps_resume r connect : keeps (resume_session r connect).
Proof. unfold resume_session. keeps_steps. Qed.
#[local] Hint Resolve keeps_start keeps_resume : keeps.

Lemma keeps_choose id connect keep_alive : keeps (choose_session id connect keep_alive).
Proof. unfold choose_session. keeps_steps. Qed.
Lemma keeps_handle_subscribe sub sid : keeps (handle_subscribe sub sid).
Proof. apply keeps_calm, calm_subscribe_each. Qed.
Lemma keeps_handle_unsubscribe unsub sid : keeps (handle_unsubscribe unsub sid).
Proof. apply keeps_calm, calm_unsubscribe_each. Qed.
Lemma keeps_route publish sender : keeps (route_publish publish sender).
Proof. apply keeps_calm, calm_route. Qed.
Lemma keeps_command cmd : keeps (on_command cmd).
Proof. unfold on_command. keeps_steps. Qed.
#[local] Hint Resolve keeps_choose keeps_handle_subscribe keeps_handle_unsubscribe keeps_route : keeps.

(** Handlers of a connection. *)
Definition keeps_in {A} (m : M (World * Conn) BrokerError A) : Prop :=
  forall w c, wills_ok w -> wills_ok (m (w, c)).2.1 /\ holds w (m (w, c)).2.1.

Lemma keeps_in_bind {A C} (m : M (World * Conn) BrokerError A) (k : A -> M (World * Conn) BrokerError C) :
  keeps_in m -> (forall a, keeps_in (k a)) -> keeps_in (m ≫= k).
Proof.
  intros Hm Hk w c Hw. destruct (Hm w c Hw) as [Hw1 H1]. unfold mbind, M_bind.
  destruct (m (w, c)) as [[a|e| |] [w1 c1]]; try done. destruct (Hk a w1 c1 Hw1) as [Hw2 H2].
  split; [done | by eapply holds_trans].
Qed.

(** A step that leaves the shared state alone. *)
Lemma keeps_in_same {A} (m : M (World * Conn) BrokerError A) :
  (forall w c, (m (w, c)).2.1 = w) -> keeps_in m.
Proof. intros Hm w c Hw. rewrite Hm. split; [done | apply holds_refl]. Qed.

Lemma keeps_in_ret {A} (a : A) : keeps_in (mret a).
Proof. by apply keeps_in_same. Qed.
Lemma keeps_in_lift {A} (o : outcome BrokerError A) : keeps_in (lift o).
Proof. by apply keeps_in_same. Qed.
Lemma keeps_in_raise {A} e : keeps_in (raise e : M (World * Conn) BrokerError A).
Proof. by apply keeps_in_same. Qed.
Lemma keeps_in_local f : keeps_in (local f).
Proof. by apply keeps_in_same. Qed.
Lemma keeps_in_variable {A} (f : Conn -> A) : keeps_in (variable f).
Proof. by apply keeps_in_same. Qed.
Lemma keeps_in_world {A} (m : M World Empty_set A) : keeps m -> keeps_in (in_world m).
Proof.
  intros Hm w c Hw. specialize (Hm w Hw). unfold in_world. by destruct (m w) as [[a|[]| |] w1].
Qed.
Lemma keeps_in_stream {A} (m : M PacketStream StreamError A) : keeps_in (on_stream m).
Proof. apply keeps_in_same. intros w c. unfold on_stream. by destruct (m (c_stream c)) as [o t]. Qed.
Lemma keeps_in_send p : keeps_in (send p).
Proof. apply keeps_in_stream. Qed.
#[local] Hint Resolve keeps_in_ret keeps_in_lift keeps_in_raise keeps_in_local keeps_in_variable
  keeps_in_stream keeps_in_send : keeps.

Ltac keeps_in_steps :=
  repeat first
    [ progress auto with keeps
    | apply keeps_in_world; solve [keeps_steps]
    | apply keeps_in_bind; [| intros ?]
    | progress cbv zeta beta
    | match goal with |- keeps_in (match ?x with _ => _ end) => destruct x end ].

Lemma keeps_in_packet packet r : keeps_in (handle_packet packet r).
Proof. destruct packet; unfold handle_packet; keeps_in_steps. Qed.

Lemma keeps_in_pre_connect uuid packet : keeps_in (handle_pre_connect uuid packet).
Proof. destruct packet; unfold handle_pre_connect, handle_connect; keeps_in_steps. Qed.

Lemma keeps_in_resend r pending : keeps_in (resend_pending r pending).
Proof. induction pending as [|[id p] pending IH]; cbn [resend_pending]; keeps_in_steps. Qed.
#[local] Hint Resolve keeps_in_packet keeps_in_pre_connect keeps_in_resend : keeps.

(** Reading a session, changing it and putting it back. *)
Lemma keeps_in_put {A} r (f : Session -> Session) (k : Session -> unit -> M (World * Conn) BrokerError A) :
  (forall s, Session.pending_will (f s) = Session.pending_will s) ->
  (forall s u, keeps_in (k s u)) ->
  keeps_in (in_world (session_at r) ≫= fun s => in_world (with_session r (fun _ => f s)) ≫= k s).
Proof.
  intros Hf Hk w c Hw. destruct (sessions w !! r) as [s|] eqn:Hs.
  - assert (E : forall k', (in_world (session_at r) ≫= k') (w, c) = k' s (w, c) :> outcome BrokerError A * _).
    { intros k'. unfold in_world at 1, session_at, mbind, M_bind, get, lift, unwrap. by rewrite Hs. }
    rewrite E. clear E.
    assert (H : keeps_in (in_world (with_session r f) ≫= k s)).
    { apply keeps_in_bind; [by apply keeps_in_world, keeps_with_session | apply Hk]. }
    specialize (H w c Hw). revert H. unfold mbind, M_bind, in_world.
    by rewrite !(with_session_eq _ _ _ _ Hs).
  - assert (E : forall k', (in_world (session_at r) ≫= k') (w, c) = (Panic, (w, c)) :> outcome BrokerError A * _).
    { intros k'. unfold in_world at 1, session_at, mbind, M_bind, get, lift, unwrap. by rewrite Hs. }
    rewrite E. split; [done | apply holds_refl].
Qed.

Lemma keeps_in_serve r : keeps_in (serve r).
Proof.
  unfold serve. cbn [take_control_receiver drain_pending].
  apply (keeps_in_put r (fun s => (drain_pending ((take_control_receiver s).2)).2)); [done |].
  intros s u. keeps_in_steps.
Qed.

Lemma keeps_in_lose r : keeps_in (lose_client r).
Proof. unfold lose_client. keeps_in_steps. Qed.
#[local] Hint Resolve keeps_in_serve keeps_in_lose : keeps.

Lemma keeps_in_control m : keeps_in (on_control m).
Proof. unfold on_control. keeps_in_steps. Qed.
Lemma keeps_in_timer : keeps_in on_keep_alive.
Proof. unfold on_keep_alive. keeps_in_steps. Qed.
Lemma keeps_in_on_packet uuid packet : keeps_in (on_packet uuid packet).
Proof. unfold on_packet. keeps_in_steps. Qed.
Lemma keeps_in_close : keeps_in on_close.
Proof. unfold on_close. keeps_in_steps. Qed.

Lemma keeps_in_read fuel uuid1 uuid2 : keeps_in (on_read fuel uuid1 uuid2).
Proof.
  intros w c Hw. unfold on_read.
  destruct (read fuel uuid1 (c_stream c)) as [[[packet|]|e| |] t];
    [| | | split; [done | apply holds_refl] ..].
  - by apply keeps_in_on_packet.
  - by apply keeps_in_close.
  - apply keeps_in_bind; [apply keeps_in_close | intros; apply keeps_in_raise | done].
Qed.

(** ** Steps of the system *)

Definition dropped (t : Z) w : World := w <| delayed_wills := delete t (delayed_wills w) |>.

Lemma delayed_run timer t w :
  run_delayed_will timer t w
  = match delayed_wills w !! t with
    | None => (Ok tt, w)
    | Some (deadline, will) =>
        if is_cancelled t (cancelled w) && negb (timer && (deadline <=? clock w)) then (Ok tt, dropped t w)
        else if deadline <=? clock w then route_publish (will_message_of will) [] (dropped t w)
        else (Ok tt, w)
    end.
Proof.
  unfold run_delayed_will. rewrite bind_get. destruct (delayed_wills w !! t) as [[deadline will]|]; [| done].
  cbv zeta. destruct (is_cancelled _ _ && _); [done |]. destruct (deadline <=? clock w); [| done].
  unfold mbind at 1, M_bind at 1. simpl. apply publish_will_run.
Qed.

Lemma wills_ok_dropped t w : wills_ok w -> wills_ok (dropped t w).
Proof.
  intros [H1 H2 H3 H4]. split; simpl; [| done | done | done].
  intros t' x [_ Hx]%lookup_delete_Some. by apply (H1 t' x).
Qed.

(** The will of a token that fires. *)
Definition fires (t : Z) (will : WillMessage) w : World :=
  (route_publish (will_message_of will) [] (dropped t w)).2.

Lemma fires_view t will w : will_view (fires t will w) = will_view (dropped t w).
Proof. apply calm_route. Qed.

Lemma settle_view i sys sys' res :
  settle i sys res = Some sys' -> will_view (shared sys') = will_view res.2.1.
Proof.
  destruct res as [o [w c]]. intros Hs.
  assert (Hd : will_view (drop_control c w) = will_view w).
  { unfold drop_control. destruct (c_control c) as [ch|]; [| done].
    by destruct (channels w !! ch). }
  destruct o as [[]|e| |]; simpl in Hs; try done; by injection Hs as <-.
Qed.

Lemma keeps_settle i sys sys' w c (m : M (World * Conn) BrokerError flow) :
  keeps_in m -> wills_ok w -> settle i sys (m (w, c)) = Some sys' ->
  wills_ok (shared sys') /\ holds w (shared sys').
Proof.
  intros Hm Hw Hs%settle_view. destruct (Hm w c Hw) as [Hw1 H1].
  split; [by apply (wills_ok_view (m (w, c)).2.1) |].
  eapply holds_trans; [exact H1 | by apply holds_view].
Qed.

(** A step keeps the wills, or is one of the task of a delayed will. *)
Lemma step_wills sys sys' :
  step sys sys' -> wills_ok (shared sys) ->
  wills_ok (shared sys')
  /\ (holds (shared sys) (shared sys')
      \/ exists timer t o, run_delayed_will timer t (shared sys) = (o, shared sys')
                         /\ clients sys' = clients sys).
Proof.
  intros Hstep Hw. destruct Hstep as [i t Hi|sys' Hs|cmd o w' Hr].
  { split; [done | left; apply holds_refl]. }
  2: { pose proof (keeps_command cmd (shared sys) Hw) as H. rewrite Hr in H. destruct H. eauto. }
  destruct Hs as [i c fuel u1 u2 sys' Hi Hs|i c ch q m q' sys' Hi Hch Hq Hr Hs
    |i c sys' Hi Hs|timer token o w' Hr _|d Hd].
  - destruct (keeps_settle _ _ _ _ _ _ (keeps_in_read fuel u1 u2) Hw Hs). eauto.
  - assert (Hw' : wills_ok ((shared sys) <| channels := <[ch := q']> (channels (shared sys)) |>))
      by (revert Hw; by apply wills_ok_view).
    destruct (keeps_settle _ _ _ _ _ _ (keeps_in_control m) Hw' Hs) as [H1 H2]. split; [done | left].
    eapply holds_trans; [| exact H2]. by apply holds_view.
  - destruct (keeps_settle _ _ _ _ _ _ keeps_in_timer Hw Hs). eauto.
  - split; [| right; by exists timer, token, o]. simpl. rewrite delayed_run in Hr.
    destruct (delayed_wills (shared sys) !! token) as [[deadline will]|]; [| by injection Hr as _ <-].
    destruct (_ && _); [injection Hr as _ <-; by apply wills_ok_dropped |].
    destruct (_ <=? _); [| by injection Hr as _ <-].
    apply (wills_ok_view (dropped token (shared sys))); [| by apply wills_ok_dropped].
    pose proof (fires_view token will (shared sys)) as H. unfold fires in H. by rewrite Hr in H.
  - split; [revert Hw; by apply wills_ok_view | left; by apply holds_view].
Qed.

Lemma wills_ok_reachable cfg sys : reachable cfg sys -> wills_ok (shared sys).
Proof.
  intros Hr. assert (H0 : wills_ok (shared (start cfg))).
  { split; simpl.
    - intros t x. by rewrite lookup_empty.
    - intros t. by rewrite no_tokens_law.
    - intros r s t. by rewrite lookup_empty.
    - intros r r' s s' t. by rewrite lookup_empty. }
  revert H0. induction Hr as [|s1 s2 s3 H12 _ IH]; [done |]. intros H.
  by apply IH, (step_wills s1 s2).
Qed.

(** A will that is no longer registered does not come back. *)
Lemma gone_step sys sys' t :
  step sys sys' -> wills_ok (shared sys) -> t < next_token (shared sys) ->
  delayed_wills (shared sys) !! t = None ->
  t < next_token (shared sys') /\ delayed_wills (shared sys') !! t = None.
Proof.
  intros Hstep Hw Ht Hn. destruct (step_wills sys sys' Hstep Hw) as [_ [[H1 H2 _ _]|(timer & t' & o & Hr & _)]].
  { rewrite H2 by done. split; [lia | done]. }
  rewrite delayed_run in Hr.
  destruct (delayed_wills (shared sys) !! t') as [[deadline will]|] eqn:E; [| by injection Hr as _ <-].
  assert (Hd : t < next_token (dropped t' (shared sys)) /\ delayed_wills (dropped t' (shared sys)) !! t = None).
  { split; [done |]. simpl. destruct (decide (t = t')) as [->|]; [apply lookup_delete_eq |].
    by rewrite lookup_delete_ne. }
  destruct (_ && _); [by injection Hr as _ <- |]. destruct (_ <=? _); [| by injection Hr as _ <-].
  pose proof (fires_view t' will (shared sys)) as H. unfold fires in H. rewrite Hr in H.
  destruct (view_eq _ _ H) as (_ & Ed & En & _). simpl in Ed, En |- *. by rewrite Ed, En.
Qed.

Lemma gone_steps sys sys' t :
  rtc step sys sys' -> wills_ok (shared sys) -> t < next_token (shared sys) ->
  delayed_wills (shared sys) !! t = None -> delayed_wills (shared sys') !! t = None.
Proof.
  induction 1 as [|s1 s2 s3 H12 _ IH]; [done |]. intros Hw Ht Hn.
  destruct (gone_step s1 s2 t H12 Hw Ht Hn). apply IH; [| done | done]. by apply (step_wills s1 s2).
Qed.

(** C16: a delayed will is published once, after its delay, or not at all.  In
    every reachable state and for every step from it, a registered will stays
    registered, or the step is the one of its task: then either its token was
    cancelled and nothing else changes, or its deadline has passed and the
    message of the will is routed to its subscribers.  In both cases the will is
    gone for good.  And a token is cancelled only if a session holds it. *)
Theorem delayed_will_fate cfg sys sys' t deadline will :
  reachable cfg sys -> step sys sys' -> delayed_wills (shared sys) !! t = Some (deadline, will) ->
  let w := shared sys in
  (delayed_wills (shared sys') !! t = Some (deadline, will)
   \/ clients sys' = clients sys
      /\ (is_cancelled t (cancelled w) = true /\ shared sys' = dropped t w
          \/ deadline <= clock w /\ shared sys' = (route_publish (will_message_of will) [] (dropped t w)).2)
      /\ forall sys'', rtc step sys' sys'' -> delayed_wills (shared sys'') !! t = None)
  /\ (is_cancelled t (cancelled (shared sys')) = true -> is_cancelled t (cancelled w) = true
      \/ exists r s, sessions w !! r = Some s /\ Session.pending_will s = Some t).
Proof.
  intros Hr Hstep Hd w. pose proof (wills_ok_reachable cfg sys Hr) as Hw.
  pose proof (ok_delayed _ Hw t _ Hd) as Ht.
  destruct (step_wills sys sys' Hstep Hw) as [Hw' [[H1 H2 H3 _]|(timer & t' & o & Hrun & Hc)]].
  { split; [left; by rewrite H2 | auto]. }
  rewrite delayed_run in Hrun.
  assert (Hgone : t = t' -> delayed_wills (shared sys') = delete t (delayed_wills w) ->
    next_token (shared sys') = next_token w -> forall sys'', rtc step sys' sys'' -> delayed_wills (shared sys'') !! t = None).
  { intros -> E En sys'' Hs. apply (gone_steps sys' sys'' t' Hs Hw'); [by rewrite En |].
    rewrite E. apply lookup_delete_eq. }
  destruct (delayed_wills (shared sys) !! t') as [[deadline' will']|] eqn:Hd';
    [| injection Hrun as _ E; unfold w; rewrite <- E; split; by left].
  assert (Hne : t <> t' -> delayed_wills (dropped t' w) !! t = Some (deadline, will))
    by (intros; simpl; by rewrite lookup_delete_ne).
  destruct (is_cancelled t' (cancelled (shared sys)) && _) eqn:Ec.
  { injection Hrun as _ E. rewrite <- E in Hgone |- *. split; [| by left].
    destruct (decide (t = t')) as [->|]; [| auto]. right.
    apply andb_prop in Ec as [Ec _]. split_and!; [done | by left | by apply Hgone]. }
  destruct (Z.leb_spec deadline' (clock (shared sys))); [| injection Hrun as _ E; unfold w; rewrite <- E; split; by left].
  pose proof (fires_view t' will' w) as Hv. unfold fires, w in Hv. rewrite Hrun in Hv.
  destruct (view_eq _ _ Hv) as (Ek & Ed & En & _). simpl in Ek, Ed, En. split; [| rewrite Ek; by left].
  destruct (decide (t = t')) as [->|]; [| left; rewrite Ed; by apply Hne]. right.
  assert (will' = will /\ deadline' = deadline) as [-> ->] by (split; congruence).
  split_and!; [done | right; split; [done | unfold w; by rewrite Hrun] | by apply Hgone].
Qed.
(** ** A client that is lost *)

(** The pool after the session of a client was filed as disconnected. *)
Definition park (id : rstring) (v : rstring -> option (Z * bool)) (i : rstring) : option (Z * bool) :=
  if decide (i = id) then (fun x => (x.1, false)) <$> v i else v i.

Lemma in_world_bind {A C} (m : M World Empty_set A) (k : A -> M (World * Conn) BrokerError C) w w1 a c :
  m w = (Ok a, w1) -> (in_world m ≫= k) (w, c) = k a (w1, c).
Proof. intros E. unfold mbind, M_bind, in_world. by rewrite E. Qed.

Lemma session_at_eq r s w : sessions w !! r = Some s -> session_at r w = (Ok s, w).
Proof. intros Hs. unfold session_at, mbind, M_bind, get, lift, unwrap. by rewrite Hs. Qed.

(** What the end of a connection does after the will was initiated. *)
Lemma lose_run w c r s w1 :
  world_ok w1 -> c_session c = Some r -> sessions w !! r = Some s -> initiate_will r w = (Ok tt, w1) ->
  exists w', on_close (w, c) = (Ok Return, (w', c)) /\ on_keep_alive (w, c) = (Ok Continue, (w', c))
    /\ channels w' = channels w1 /\ topic_tree w' = topic_tree w1 /\ clock w' = clock w1
    /\ will_view w' = will_view w1 /\ (exists o, deactivate (Session.id s) w1 = (Ok o, w'))
    /\ forall i, pool_view (session_pool w') i = park (Session.id s) (pool_view (session_pool w1)) i.
Proof.
  intros Hw1 Hc Hs Hi.
  assert (H : exists o w', deactivate (Session.id s) w1 = (Ok o, w')
    /\ channels w' = channels w1 /\ topic_tree w' = topic_tree w1 /\ clock w' = clock w1
    /\ forall i, pool_view (session_pool w') i = park (Session.id s) (pool_view (session_pool w1)) i).
  { pose proof (deactivate_run w1 (Session.id s) (wo_pool w1 Hw1)) as Hd. unfold park.
    destruct (pool_view (session_pool w1) (Session.id s)) as [[r' []]|] eqn:Hv.
    - destruct Hd as (p & s' & _ & E & _ & Hv'). do 2 eexists. split; [exact E |].
      split_and!; try done. intros i. simpl. rewrite Hv'. case_decide; [by subst; rewrite Hv | done].
    - do 2 eexists. split; [exact Hd |]. split_and!; try done. intros i.
      case_decide; [subst; by rewrite Hv | done].
    - do 2 eexists. split; [exact Hd |]. split_and!; try done. intros i.
      case_decide; [subst; by rewrite Hv | done]. }
  destruct H as (o & w' & Hd & ? & ? & ? & ?). exists w'.
  assert (Hl : lose_client r (w, c) = (Ok tt, (w', c))).
  { unfold lose_client. rewrite (in_world_bind _ _ _ _ _ _ (session_at_eq r s w Hs)).
    by rewrite (in_world_bind _ _ _ _ _ _ Hi), (in_world_bind _ _ _ _ _ _ Hd). }
  pose proof (calm_deactivate (Session.id s) w1) as Hcalm. rewrite Hd in Hcalm.
  split_and!; try done; [| | by exists o]; unfold on_close, on_keep_alive;
    change ((variable c_session ≫= ?k) (w, c)) with (k (c_session c) (w, c)); rewrite Hc; cbv iota beta;
    by rewrite (bind_ok _ _ _ _ _ Hl).
Qed.

(** Routing files no session anew. *)
Definition pool_and_tree w := (session_pool w, topic_tree w).

Lemma filed_with_session r f : steady pool_and_tree (with_session r f).
Proof. apply steady_bind; [apply steady_session_at | intros s]. by apply steady_modify. Qed.

Lemma filed_try_send r m : steady pool_and_tree (try_send_control r m).
Proof.
  apply steady_bind; [apply steady_session_at | intros s]. apply steady_bind; [apply steady_get | intros w0].
  apply steady_bind; [apply steady_lift | intros ch]. destruct (chan_try_send m ch); [| apply steady_ret].
  by apply steady_bind; [apply steady_modify | intros; apply steady_ret].
Qed.

Lemma filed_deliver r out : steady pool_and_tree (deliver r out).
Proof.
  apply steady_bind; [apply filed_try_send | intros [|]; [apply steady_ret |]].
  apply steady_bind; [apply filed_try_send | intros; apply steady_ret].
Qed.

Lemma filed_route_to publish sender sub : steady pool_and_tree (route_to publish sender sub).
Proof.
  unfold route_to. destruct (_ && _); [apply steady_ret |].
  apply steady_bind; [apply steady_lift | intros q]. cbv zeta.
  apply steady_bind; [apply steady_gets | intros [r|]; [| apply steady_ret]].
  destruct (negb _); [| apply filed_deliver].
  apply steady_bind; [apply steady_session_at | intros s]. cbn [next_packet_id].
  apply steady_bind; [apply filed_with_session | intros u].
  apply steady_bind; [apply steady_lift | intros out].
  apply steady_bind; [apply filed_with_session | intros u']. apply filed_deliver.
Qed.

Lemma filed_route_each publish sender subs : steady pool_and_tree (route_each publish sender subs).
Proof.
  induction subs as [|sub subs IH]; [apply steady_ret |].
  apply steady_bind; [apply filed_route_to | done].
Qed.

Lemma route_to_returns w publish sender sub :
  world_ok w -> publish_wf publish -> exists w', route_to publish sender sub w = (Ok tt, w').
Proof.
  intros Hw [q Hq]. destruct (wants sender sub) eqn:Hwants.
  2: { exists w. eapply route_to_idle; [exact Hq | by left]. }
  destruct (SessionPool.active (session_pool w) !! Subscriber.session_id sub) as [r|] eqn:Ha.
  2: { exists w. eapply route_to_idle; [exact Hq | by right]. }
  destruct (p_filed w (wo_pool w Hw) _ _ true (view_active w _ _ Ha)) as (s & Hs & _).
  destruct (wo_sessions w Hw r s Hs) as (_ & [c Hc] & _). eexists. by eapply route_to_run.
Qed.

Lemma route_each_returns publish sender subs : forall w,
  world_ok w -> publish_wf publish ->
  exists w', route_each publish sender subs w = (Ok tt, w') /\ world_ok w'.
Proof.
  induction subs as [|sub subs IH]; intros w Hw Hp; [by exists w |].
  destruct (route_to_returns w publish sender sub Hw Hp) as [w1 E1].
  destruct (sound_route_to publish sender sub Hp w Hw I) as (Hw1 & _). rewrite E1 in Hw1.
  cbn [route_each]. rewrite (bind_ok _ _ _ _ _ E1). by apply IH.
Qed.

(** Routing returns, and leaves pool, subscriptions and wills as they are. *)
Lemma route_returns w m publish sender :
  world_ok w -> implements (topic_tree w) m -> topic_name (split_slash (Publish.topic_name publish)) ->
  publish_wf publish ->
  exists w', route_publish publish sender w = (Ok tt, w') /\ world_ok w'
    /\ session_pool w' = session_pool w /\ topic_tree w' = topic_tree w /\ will_view w' = will_view w.
Proof.
  intros Hw Hm Ht Hp. destruct (route_matching w m publish sender Hm Ht) as (subs & E & _).
  pose proof (calm_route publish sender w) as Hc. rewrite E in Hc |- *.
  pose proof (filed_route_each publish sender subs w) as Hf. injection Hf as Hf1 Hf2.
  destruct (route_each_returns publish sender subs w Hw Hp) as (w' & Er & Hw').
  rewrite Er in *. exists w'. by split_and!.
Qed.

(** The message of a will. *)
Lemma will_message_fields will :
  Publish.topic_name (will_message_of will) = WillMessage.topic will
  /\ Publish.payload (will_message_of will) = Some (WillMessage.payload will)
  /\ Publish.user_properties (will_message_of will) = Publish.user_properties dflt.
Proof.
  unfold will_message_of, will_publish. simpl new_from_header. cbv iota beta.
  destruct (WillHeader.payload_format _); [| done]. unfold set_payload_format. by case_bool_decide.
Qed.

Lemma will_wf will : publish_wf (will_message_of will).
Proof. eexists. apply will_publish_ok. Qed.

(** The state in which the will of a session was taken from it. *)
Definition taken w (r : Z) (s : Session) : World :=
  w <| sessions := <[r := clear_will s]> (sessions w) |>.

Lemma taken_ok w r s : world_ok w -> sessions w !! r = Some s -> world_ok (taken w r s).
Proof. intros Hw Hs. by apply (update_world_ok w r s). Qed.

Lemma view_session w w' r s :
  will_view w' = will_view w -> sessions w !! r = Some s ->
  exists s', sessions w' !! r = Some s' /\ session_will s' = session_will s.
Proof.
  intros E Hs. symmetry in E. injection E as _ _ _ Es.
  assert (H : (session_will <$> sessions w') !! r = Some (session_will s)) by (by rewrite <- Es, lookup_fmap, Hs).
  rewrite lookup_fmap in H. destruct (sessions w' !! r) as [s'|]; [| done]. exists s'. split; [done |].
  injection H as ? ? ?. unfold session_will. congruence.
Qed.

(** The end of a connection whose will has no delay: it is routed at once. *)
Lemma lose_now w m c r s will :
  world_ok w -> implements (topic_tree w) m -> topic_name (split_slash (WillMessage.topic will)) ->
  c_session c = Some r -> sessions w !! r = Some s ->
  Session.will_message s = Some will -> delay_of will = 0 ->
  exists wr w',
    route_publish (will_message_of will) [] (taken w r s) = (Ok tt, wr)
    /\ on_close (w, c) = (Ok Return, (w', c)) /\ on_keep_alive (w, c) = (Ok Continue, (w', c))
    /\ channels w' = channels wr /\ topic_tree w' = topic_tree w
    /\ (exists s', sessions w' !! r = Some s' /\ Session.will_message s' = None)
    /\ delayed_wills w' = delayed_wills w
    /\ forall i, pool_view (session_pool w') i = park (Session.id s) (pool_view (session_pool w)) i.
Proof.
  intros Hw Hm Ht Hc Hs Hwill Hd. destruct (will_message_fields will) as (Etopic & _).
  rewrite <- Etopic in Ht. pose proof (taken_ok w r s Hw Hs) as Hw1.
  destruct (route_returns (taken w r s) m (will_message_of will) [] Hw1 Hm Ht (will_wf will))
    as (wr & Er & Hwr & Hp & Htr & Hv).
  destruct (lose_run w c r s wr Hwr Hc Hs) as (w' & Hcl & Hka & Hch & Ht' & _ & Hv' & _ & Hpark).
  { by rewrite (initiate_now w r s will Hs Hwill Hd). }
  exists wr, w'. split_and!; try done.
  - by rewrite Ht', Htr.
  - rewrite Hv in Hv'. destruct (view_session _ w' r (clear_will s) Hv') as (s' & Hs' & Es');
      [apply lookup_insert_eq |]. exists s'. split; [done |].
    by injection Es' as _ Em _.
  - destruct (view_eq _ _ Hv') as (_ & -> & _). by destruct (view_eq _ _ Hv) as (_ & -> & _).
  - intros i. by rewrite Hpark, Hp.
Qed.

(** C15: the will of a client that is lost reaches its subscribers.  When a
    connection ends without a DISCONNECT, or its keep-alive timer fires, and the
    will of its session has no delay, the message of the will (its topic, payload
    and QoS level) is routed along the subscription table: a connected session
    whose channel has room gets exactly one copy for each of its subscriptions
    that match ([matching_entries], a permutation of which is visited).  The will
    is taken from the session, so that it is not published again, and the client is filed as disconnected; subscriptions and
    other clients are not affected. *)
Theorem lost_client_will w m c r s will id r2 s2 ch :
  world_ok w -> implements (topic_tree w) m -> topic_name (split_slash (WillMessage.topic will)) ->
  c_session c = Some r -> sessions w !! r = Some s ->
  Session.will_message s = Some will -> delay_of will = 0 ->
  SessionPool.active (session_pool w) !! id = Some r2 -> sessions w !! r2 = Some s2 ->
  channels w !! Session.sender s2 = Some ch ->
  let p := will_message_of will in
  Publish.topic_name p = WillMessage.topic will /\ Publish.payload p = Some (WillMessage.payload will)
  /\ publish_qos p = Ok (WillMessage.qos will)
  /\ exists subs,
    subs ≡ₚ matching_entries m (WillMessage.topic will)
    /\ let own := own_subs id [] subs in
       (len own <= chan_free ch ->
        exists w' ch',
          on_close (w, c) = (Ok Return, (w', c)) /\ on_keep_alive (w, c) = (Ok Continue, (w', c))
          /\ channels w' !! Session.sender s2 = Some ch'
          /\ chan_queue ch' = chan_queue ch
               ++ (SessionControl.Deliver <$> copies p (WillMessage.qos will) (Session.next_packet_id s2) own)
          /\ (exists s', sessions w' !! r = Some s' /\ Session.will_message s' = None)
          /\ topic_tree w' = topic_tree w
          /\ forall i, pool_view (session_pool w') i = park (Session.id s) (pool_view (session_pool w)) i).
Proof.
  intros Hw Hm Ht Hc Hs Hwill Hd Ha2 Hs2 Hch p. destruct (will_message_fields will) as (Etopic & Epay & _).
  destruct (will_publish_ok will) as [_ Hq]. split_and!; try done.
  assert (Ht' : topic_name (split_slash (Publish.topic_name p))) by (unfold p; by rewrite Etopic).
  destruct (route_matching (taken w r s) m p [] Hm Ht') as (subs & Er & Hx).
  exists subs. unfold p in Hx. rewrite Etopic in Hx. split; [exact Hx |]. cbv zeta. intros Hl.
  assert (H2 : exists s2', sessions (taken w r s) !! r2 = Some s2' /\ Session.sender s2' = Session.sender s2
    /\ Session.next_packet_id s2' = Session.next_packet_id s2).
  { simpl. destruct (decide (r2 = r)) as [->|]; [| exists s2; by rewrite lookup_insert_ne].
    rewrite lookup_insert_eq. exists (clear_will s). rewrite Hs in Hs2. injection Hs2 as <-. by split_and!. }
  destruct H2 as (s2' & Hs2' & Ese & Enx).
  destruct (route_each_run p (WillMessage.qos will) [] id subs (taken w r s) r2 s2' ch Hq
    (taken_ok w r s Hw Hs) Ha2 Hs2') as (wr & ch' & E & _ & _ & _ & Hch' & Hqueue);
    [by rewrite Ese | exact Hl |].
  destruct (lose_now w m c r s will Hw Hm Ht Hc Hs Hwill Hd) as (wr' & w' & Er' & Hcl & Hka & Hcs & Htr & Hs' & _ & Hpark).
  fold p in Er'. rewrite Er, E in Er'. injection Er' as <-.
  exists w', ch'. rewrite Hcs. rewrite Ese in Hch'. rewrite Enx in Hqueue. by split_and!.
Qed.

(** A client that says good-bye takes its will with it.  After a DISCONNECT
    with reason 0 no message was sent to anyone, the session has no will and the
    client is filed as disconnected; and when its connection ends then, again
    nothing is sent and no delayed will is started. *)
Theorem normal_disconnect_discards_will w c r s packet uuid :
  world_ok w -> c_session c = Some r -> c_connected c = true -> sessions w !! r = Some s ->
  Disconnect.reason packet = Reason.Success ->
  exists w1 w2,
    on_packet uuid (Packet.Disconnect packet) (w, c) = (Ok Continue, (w1, c))
    /\ channels w1 = channels w /\ delayed_wills w1 = delayed_wills w
    /\ (exists s', sessions w1 !! r = Some s' /\ Session.will_message s' = None)
    /\ (forall i, pool_view (session_pool w1) i = park (Session.id s) (pool_view (session_pool w)) i)
    /\ on_close (w1, c) = (Ok Return, (w2, c))
    /\ channels w2 = channels w /\ delayed_wills w2 = delayed_wills w
    /\ forall i, pool_view (session_pool w2) i = pool_view (session_pool w1) i.
Proof.
  intros Hw Hc Hcon Hs Hreason.
  pose proof (taken_ok w r s Hw Hs) as Hw1.
  assert (Hs1 : sessions (taken w r s) !! r = Some (clear_will s)) by apply lookup_insert_eq.
  destruct (lose_run (taken w r s) c r (clear_will s) (taken w r s) Hw1 Hc Hs1
    (no_will_run _ r _ Hs1 eq_refl)) as (w1 & Hcl & _ & Hch & _ & _ & Hv & [o Hd] & Hpark).
  destruct (view_session _ w1 r (clear_will s) Hv Hs1) as (s' & Hs' & Es').
  injection Es' as Eid Ewill _.
  assert (Hw1' : world_ok w1).
  { pose proof (branch_close (taken w r s) c Hw1) as Hb. rewrite Hcl in Hb. apply Hb.
    unfold conn_ok. rewrite Hc. by eexists. }
  destruct (lose_run w1 c r s' w1 Hw1' Hc Hs' (no_will_run _ r _ Hs' Ewill))
    as (w2 & Hcl2 & _ & Hch2 & _ & _ & Hv2 & _ & Hpark2).
  destruct (view_eq _ _ Hv) as (_ & Ed & _), (view_eq _ _ Hv2) as (_ & Ed2 & _).
  exists w1, w2. split_and!; try done.
  - unfold on_packet.
    change ((variable c_connected ≫= ?k) (w, c)) with (k (c_connected c) (w, c)). rewrite Hcon. cbn [negb].
    change ((variable c_session ≫= ?k) ?x) with (k (c_session x.2) x). cbn [snd]. rewrite Hc. cbv iota beta.
    rewrite (bind_ok _ _ _ tt (w1, c)); [done |]. unfold handle_packet. rewrite bool_decide_eq_true_2 by done.
    rewrite (in_world_bind _ _ _ _ _ _ (with_session_eq r clear_will s w Hs)). fold (taken w r s).
    rewrite (in_world_bind _ _ _ _ _ _ (session_at_eq r _ _ Hs1)).
    by rewrite (in_world_bind _ _ _ _ _ _ Hd).
  - eauto.
  - by rewrite Hch2, Hch.
  - by rewrite Ed2, Ed.
  - intros i. rewrite Hpark2. unfold park at 1. rewrite Eid. case_decide; [| done].
    rewrite Hpark. unfold park. rewrite decide_True by done.
    by destruct (pool_view (session_pool (taken w r s)) i) as [[? ?]|].
Qed.
(** The next token is not in use. *)
Lemma next_token_fresh w :
  wills_ok w ->
  delayed_wills w !! next_token w = None /\ is_cancelled (next_token w) (cancelled w) = false
  /\ forall r s, sessions w !! r = Some s -> Session.pending_will s <> Some (next_token w).
Proof.
  intros [H1 H2 H3 _]. split_and!.
  - destruct (delayed_wills w !! next_token w) as [x|] eqn:Hx; [| done]. pose proof (H1 _ _ Hx). lia.
  - destruct (is_cancelled (next_token w) (cancelled w)) eqn:Hc; [| done]. pose proof (H2 _ Hc). lia.
  - intros r s Hs Hp. pose proof (H3 r s _ Hs Hp). lia.
Qed.

(** A client that comes back in time cancels its delayed will.  In a
    reachable state, when a connection ends whose session has a will with a delay,
    nothing is sent: the will is registered under a token that was never used and
    is not cancelled, with the end of the delay as its deadline, and the session
    holds the token.  If the session is continued later, the token is cancelled,
    and until the deadline the task of the will only ends. *)
Theorem reconnect_cancels_will cfg sys c r s will :
  reachable cfg sys ->
  let w := shared sys in
  c_session c = Some r -> sessions w !! r = Some s ->
  Session.will_message s = Some will -> delay_of will <> 0 ->
  let deadline := clock w + secs (delay_of will) in
  exists w1 t s1,
    on_close (w, c) = (Ok Return, (w1, c)) /\ on_keep_alive (w, c) = (Ok Continue, (w1, c))
    /\ channels w1 = channels w
    /\ delayed_wills w !! t = None /\ is_cancelled t (cancelled w) = false
    /\ delayed_wills w1 = <[t := (deadline, will)]> (delayed_wills w)
    /\ is_cancelled t (cancelled w1) = false
    /\ sessions w1 !! r = Some s1 /\ Session.will_message s1 = None /\ Session.pending_will s1 = Some t
    /\ forall connect now timer, now < deadline ->
         exists w2, resume_session r connect (w1 <| clock := now |>) = (Ok tt, w2)
           /\ is_cancelled t (cancelled w2) = true
           /\ run_delayed_will timer t w2 = (Ok tt, dropped t w2).
Proof.
  intros Hr w Hc Hs Hm Hd deadline. pose proof (wills_ok_reachable cfg sys Hr) as Hok. fold w in Hok.
  destruct (reachable_ok cfg sys Hr) as [[Hw _] _]. fold w in Hw.
  destruct (initiate_later w r s will Hs Hm Hd) as (tk & E & Htk). set (t := next_token w) in *. cbv zeta in E.
  destruct (sound_initiate_will r w Hw) as (Hwi & _); [by eexists |]. rewrite E in Hwi. cbn [snd] in Hwi.
  destruct (lose_run w c r s _ Hwi Hc Hs E) as (w1 & Hcl & Hka & Hch & _ & _ & Hv & _).
  destruct (view_session _ w1 r _ Hv (lookup_insert_eq _ _ _)) as (s1 & Hs1 & Es1).
  destruct (view_eq _ _ Hv) as (Ek & Edl & _ & _). simpl in Ek, Edl, Es1. injection Es1 as _ Em Ep.
  destruct (next_token_fresh w Hok) as [Hnone Hft].
  assert (Hnew : is_cancelled t (cancelled w1) = false).
  { rewrite Ek, Htk. unfold t. rewrite (proj1 Hft), bool_decide_eq_false_2; [done |]. by apply (proj2 Hft r). }
  exists w1, t, s1. split_and!; try done; [apply Hft |].
  intros connect now timer Hnow. pose (wn := w1 <| clock := now |>).
  destruct (resume_run wn r s1 connect Hs1) as (tk2 & E2 & Htk2). cbv zeta in E2.
  eexists. split; [exact E2 |]. simpl. split; [rewrite Htk2, Ep; by rewrite bool_decide_eq_true_2 |].
  rewrite delayed_run. simpl. rewrite Edl, lookup_insert_eq.
  rewrite Htk2, Ep, bool_decide_eq_true_2 by done. fold deadline.
  rewrite (proj2 (Z.leb_gt deadline now)) by done. by rewrite andb_false_r.
Qed.

(** C38: when a client takes its session over from another connection, the end of
    that connection publishes the will of the new one and files the session as
    disconnected, although its client is connected: both connections serve the
    same session. *)
Theorem takeover_fires_will w m id connect keep_alive r s0 c will :
  world_ok w -> room id w -> can_leave w id -> implements (topic_tree w) m ->
  clean_start connect = false ->
  pool_view (session_pool w) id = Some (r, true) -> sessions w !! r = Some s0 -> c_session c = Some r ->
  will_message connect = Some will -> delay_of will = 0 ->
  topic_name (split_slash (WillMessage.topic will)) ->
  exists w1 s wr w2,
    choose_session id connect keep_alive w = (Ok (r, true), w1) /\ ready w1 id connect r s
    /\ pool_view (session_pool w1) id = Some (r, true)
    /\ route_publish (will_message_of will) [] (taken w1 r s) = (Ok tt, wr)
    /\ on_close (w1, c) = (Ok Return, (w2, c)) /\ channels w2 = channels wr
    /\ (exists s', sessions w2 !! r = Some s' /\ Session.will_message s' = None)
    /\ pool_view (session_pool w2) id = Some (r, false).
Proof.
  intros Hw Hroom Hl Hm Hclean Hv Hs Hc Hwill Hd Ht.
  destruct (resume_existing w id connect keep_alive r true s0 Hw Hroom Hl Hclean Hv Hs)
    as (w1 & s & E & Hw1 & Hready & Htree & Hview & _).
  pose proof Hready as (Hs1 & Hid & _ & Hwm & _). rewrite <- Htree in Hm.
  rewrite <- Hwm in Hwill.
  destruct (lose_now w1 m c r s will Hw1 Hm Ht Hc Hs1 Hwill Hd)
    as (wr & w2 & Er & Hcl & _ & Hch & _ & Hs' & _ & Hpark).
  assert (Hv1 : pool_view (session_pool w1) id = Some (r, true)) by (by rewrite Hview, decide_True).
  exists w1, s, wr, w2. split_and!; try done.
  rewrite Hpark, Hid. unfold park. by rewrite decide_True, Hv1.
Qed.
End wills.

(** ** Examples *)

Definition bequest (delay : Z) : WillMessage :=
  WillMessage.mk (dflt <| WillHeader.will_delay := Some delay |>) room1 [7] QoSLevel.AtLeastOnce false.

(** The small broker, after [anna] has left a will. *)
Definition testator : Session := session_set_will (Some (bequest 0)) (session_of anna).
Definition willed : World := office <| sessions := <[ref_of anna := testator]> (sessions office) |>.

Lemma willed_ok : world_ok willed.
Proof. apply (update_world_ok office (ref_of anna) (session_of anna)); [apply office_ok | by vm_compute | done]. Qed.

Lemma room1_name : topic_name (split_slash room1).
Proof. split; refine (bool_decide_unpack _ _); by vm_compute. Qed.

Lemma lost_client_will_witness :
  exists subs,
    subs ≡ₚ matching_entries news_table room1
    /\ let own := own_subs bert [] subs in
       (len own <= 10 ->
        exists w' ch',
          on_close (willed, anna_conn) = (Ok Return, (w', anna_conn))
          /\ channels w' !! Session.sender (session_of bert) = Some ch'
          /\ q_items ch' = SessionControl.Deliver
               <$> copies (will_message_of (bequest 0)) QoSLevel.AtLeastOnce 1 own
          /\ pool_view (session_pool w') anna = Some (ref_of anna, false)).
Proof.
  destruct (lost_client_will willed news_table anna_conn (ref_of anna) testator (bequest 0) bert (ref_of bert)
    (session_of bert) (channel_of bert)) as (_ & _ & _ & subs & Hx & H).
  - apply willed_ok.
  - apply office_implements.
  - apply room1_name.
  - done.
  - by vm_compute.
  - done.
  - done.
  - by vm_compute.
  - by vm_compute.
  - by vm_compute.
  - exists subs. split; [exact Hx |]. cbv zeta in H |- *. intros Hl.
    destruct (H Hl) as (w' & ch' & Hcl & _ & Hch & Hq & _ & _ & Hpark).
    exists w', ch'. split_and!; [exact Hcl | exact Hch | exact Hq |]. rewrite Hpark. by vm_compute.
Defined.

Lemma normal_disconnect_discards_will_witness :
  exists w1 w2,
    on_packet [] (Packet.Disconnect (Disconnect_new Reason.Success)) (willed, anna_conn)
      = (Ok Continue, (w1, anna_conn))
    /\ on_close (w1, anna_conn) = (Ok Return, (w2, anna_conn))
    /\ channels w2 = channels willed /\ delayed_wills w2 = ∅.
Proof.
  destruct (normal_disconnect_discards_will willed anna_conn (ref_of anna) testator
    (Disconnect_new Reason.Success) []) as (w1 & w2 & H1 & _ & _ & _ & _ & H2 & H3 & H4 & _).
  - apply willed_ok.
  - done.
  - done.
  - by vm_compute.
  - done.
  - exists w1, w2. split_and!; [exact H1 | exact H2 | exact H3 | exact H4].
Defined.

(** A client connects with a delayed will and its connection breaks. *)
Definition dying : t_state :=
  mkChunked (wire_bytes (Packet.Connect (set_will_message (bequest 60) (hello_of anna)))) 200 [].
Definition dying_conn : Conn := Conn_new (PacketStream_new dying (Some INIT_STREAM_BUFFER_SIZE) None).
Definition rung : System := mkSystem (BrokerState_new limited) (<[1 := dying_conn]> ∅).
Definition served_once : System :=
  default rung (settle 1 rung (on_read 10 [] [] (shared rung, dying_conn))).
Definition served_conn : Conn := default dying_conn (clients served_once !! 1).
Definition broken : System :=
  default rung (settle 1 served_once (on_read 10 [] [] (shared served_once, served_conn))).
Definition due : System :=
  mkSystem ((shared broken) <| clock := clock (shared broken) + secs 60 |>) (clients broken).
Definition fired : System := mkSystem (run_delayed_will true 0 (shared due)).2 (clients due).

Lemma served_reachable : reachable limited served_once.
Proof.
  eapply rtc_l; [exact (step_accept (start limited) 1 dying eq_refl) |].
  eapply rtc_l; [| apply rtc_refl].
  refine (step_task rung _ (step_read rung 1 dying_conn 10 [] [] served_once _ _)); [done |].
  apply some_default. vm_compute. reflexivity.
Qed.

Lemma due_reachable : reachable limited due.
Proof.
  unfold reachable. etrans; [exact served_reachable |].
  eapply rtc_l; [refine (step_task served_once _ (step_read served_once 1 served_conn 10 [] [] broken _ _)) |].
  - apply some_default. vm_compute. reflexivity.
  - apply some_default. vm_compute. reflexivity.
  - eapply rtc_l; [apply step_task, (step_tick broken (secs 60)); by vm_compute | apply rtc_refl].
Qed.

Lemma none_not_some {A} (o : option A) x (P : Prop) : o = None -> o = Some x -> P.
Proof. by intros ->. Qed.
Lemma false_not_true (b : bool) (P : Prop) : b = false -> b = true -> P.
Proof. by intros ->. Qed.

Lemma delayed_will_fate_witness :
  clients fired = clients due
  /\ shared fired = (route_publish (will_message_of (bequest 60)) [] (dropped 0 (shared due))).2
  /\ forall sys, rtc step fired sys -> delayed_wills (shared sys) !! 0 = None.
Proof.
  destruct (delayed_will_fate limited due fired 0 (secs 60) (bequest 60)) as [[H|(Hc & H & Hg)] _].
  - exact due_reachable.
  - apply step_task, (step_will due true 0 (run_delayed_will true 0 (shared due)).1); [by destruct (run_delayed_will _ _ _) | by vm_compute].
  - by vm_compute.
  - assert (E : delayed_wills (shared fired) !! 0 = None) by (vm_compute; reflexivity).
    exact (none_not_some _ _ _ E H).
  - split_and!; [exact Hc | | exact Hg]. destruct H as [[H _]|[_ H]]; [| exact H].
    assert (E : is_cancelled 0 (cancelled (shared due)) = false) by (vm_compute; reflexivity).
    exact (false_not_true _ _ E H).
Defined.

Lemma reconnect_cancels_will_witness :
  let w := shared served_once in
  exists w1 t s1,
    on_close (w, served_conn) = (Ok Return, (w1, served_conn)) /\ channels w1 = channels w
    /\ delayed_wills w1 = <[t := (secs 60, bequest 60)]> ∅
    /\ sessions w1 !! 0 = Some s1 /\ Session.pending_will s1 = Some t
    /\ exists w2, resume_session 0 (hello_of anna) (w1 <| clock := secs 30 |>) = (Ok tt, w2)
         /\ run_delayed_will true t w2 = (Ok tt, dropped t w2).
Proof.
  destruct (reconnect_cancels_will limited served_once served_conn 0
    (default alice (sessions (shared served_once) !! 0)) (bequest 60))
    as (w1 & t & s1 & H1 & _ & H2 & _ & _ & H3 & _ & H4 & _ & H5 & H6).
  - exact served_reachable.
  - by vm_compute.
  - by vm_compute.
  - by vm_compute.
  - done.
  - exists w1, t, s1. split_and!; [exact H1 | exact H2 | exact H3 | exact H4 | exact H5 |].
    destruct (H6 (hello_of anna) (secs 30) true) as (w2 & E2 & _ & R2); [by vm_compute |].
    exists w2. split; [exact E2 | exact R2].
Defined.

Lemma takeover_fires_will_witness :
  let connect := set_will_message (bequest 0) (Connect_new anna) in
  exists w1 s wr w2,
    choose_session anna connect (secs 45) office = (Ok (ref_of anna, true), w1)
    /\ route_publish (will_message_of (bequest 0)) [] (taken w1 (ref_of anna) s) = (Ok tt, wr)
    /\ on_close (w1, anna_conn) = (Ok Return, (w2, anna_conn)) /\ channels w2 = channels wr
    /\ pool_view (session_pool w2) anna = Some (ref_of anna, false).
Proof.
  destruct (takeover_fires_will office news_table anna (set_will_message (bequest 0) (Connect_new anna))
    (secs 45) (ref_of anna) (session_of anna) anna_conn (bequest 0))
    as (w1 & s & wr & w2 & H1 & _ & _ & H2 & H3 & H4 & _ & H5).
  - apply office_ok.
  - by apply unlimited_room.
  - by apply office_can_leave.
  - apply office_implements.
  - by vm_compute.
  - by vm_compute.
  - by vm_compute.
  - done.
  - by vm_compute.
  - done.
  - apply room1_name.
  - exists w1, s, wr, w2. split_and!; [exact H1 | exact H2 | exact H3 | exact H4 | exact H5].
Defined.
