(* ===== verification/BrokerRun.v ===== *)
(** * The broker as a program *)
(** vaux-broker/src/lib.rs ([Broker] and the task of [run]) and vaux/src/main.rs:
    the broker handle with its command channel, the loop that accepts
    connections, and the start-up of the server.  The loop and the tasks it
    spawns refine the step relation of Broker.v.  The listener, TLS, addresses
    and files come from [tokio], [rustls] and the operating system: they are the
    class [ServerNetwork]. *)

From S2P Require Import Prelude Bytes Codec Fixed Property Macro MacroFacts Subscriptions.
From S2P Require Import Acks Publish Connect Packet Topic Stream Runtime ClientSession Connection Sessions.
From S2P Require Import Broker BrokerLogic.

Class ServerNetwork `{Network} := {
  TlsAcceptor : Type;
  (** [TlsAcceptor::accept], [None] when the handshake fails *)
  tls_accept : TlsAcceptor -> @t_state tcp -> option (@t_state server_tls);
  Ipv4Addr : Type;
  (** [Ipv4Addr::from_str] and [SocketAddr::from] *)
  ipv4_from_str : rstring -> option Ipv4Addr;
  socket_addr : Ipv4Addr -> Z -> SocketAddr;
  (** the address [DEFAULT_LISTEN_ADDR], which parses *)
  localhost : Ipv4Addr;
  (** [File::open], [rustls_pemfile] and [rustls::ServerConfig] *)
  File : Type;
  open_file : rstring -> option File;
  Certificate : Type;
  PrivateKey : Type;
  pem_certs : File -> option (list Certificate);
  pem_private_key : File -> option (option PrivateKey);
  server_config : list Certificate -> PrivateKey -> option TlsAcceptor;
}.

Definition DEFAULT_PORT : Z := 1883.
Definition DEFAULT_TLS_PORT : Z := 8883.

Section run.
Context {B : Buf} {HI : HashIter} {N : Network} {S : ServerNetwork} {R : Runtime} {D : DrainOrder}.

(** ** The handle *)

(** The configuration with the two fields that only [run] uses. *)
Record Settings := mkSettings {
  s_config : Config;
  listen_addr : SocketAddr;
  tls_acceptor : option TlsAcceptor;
}.

(** The task of [run]: not started, in its loop, or over with its result. *)
Inductive listening := Idle | Listening | Ended (result : outcome BrokerError unit).

(** The shared state and the tasks, the command channel, whether its receiver
    is still in the handle, and whether the handle, which owns the sender, was
    dropped. *)
Record Broker := mkBroker {
  b_system : System;
  b_tls : option TlsAcceptor;
  b_commands : chan BrokerCommand;
  b_receiver : bool;
  b_dropped : bool;
  b_listening : listening;
}.

#[export] Instance Broker_eta : Eta Broker := fun b =>
  mkBroker (b_system b) (b_tls b) (b_commands b) (b_receiver b) (b_dropped b) (b_listening b).

(** [mpsc::channel] panics when asked for a channel of size 0. *)
Definition channel {A} (size : Z) : outcome Empty_set (chan A) :=
  if size <=? 0 then Panic else Ok (chan_new size).

Definition broker_new (size : Z) (s : Settings) : outcome Empty_set Broker :=
  match channel size with
  | Ok commands => Ok (mkBroker (start (s_config s)) (tls_acceptor s) commands true false Idle)
  | Panic => Panic
  | OutOfFuel => OutOfFuel
  | Err e => Err e
  end.

Definition Broker_new_with_config (s : Settings) : outcome Empty_set Broker :=
  broker_new (Config.session_channel_size (s_config s)) s.

Definition Broker_default (addr : SocketAddr) : outcome Empty_set Broker :=
  broker_new DEFAULT_SESSION_CHANNEL_SIZE (mkSettings Config_default addr None).

Definition in_shared {A} (m : M World Empty_set A) (b : Broker) : Broker :=
  b <| b_system := mkSystem (m (shared (b_system b))).2 (clients (b_system b)) |>.

Definition set_session_expiration (expiration : Z) (b : Broker) : Broker :=
  in_shared (with_pool (pool_set_session_expiry expiration)) b.

Definition stop (b : Broker) : Broker := b.

Definition accepting_connections (b : Broker) : bool := accept_connections (shared (b_system b)).

(** [run], when binding the listen address had the result [bound]: the receiver
    of the commands moves into the task. *)
Definition run (bound : option IoErrorKind) (b : Broker) : outcome BrokerError unit * Broker :=
  match bound with
  | None =>
      if b_receiver b then (Ok tt, b <| b_receiver := false |> <| b_listening := Listening |>)
      else (Panic, b)
  | Some e => (Err (BrokerError.Io e), b)
  end.

(** ** The loop of the task *)

(** What the [select!] of the loop yields. *)
Inductive listen_event :=
| Command (cmd : option BrokerCommand)
| Incoming (result : outcome IoErrorKind (@t_state tcp)).

(** The stream of the task that serves a socket, unless the handshake fails. *)
Definition mqtt_stream (tls : option TlsAcceptor) (socket : @t_state tcp) : option MqttStream :=
  match tls with
  | Some acceptor => MqttStream.ServerTlsStream <$> tls_accept acceptor socket
  | None => Some (MqttStream.TcpStream socket)
  end.

(** A task of its own serves the connection, as client [i]. *)
Definition spawn (i : Z) (stream : MqttStream) (sys : System) : System :=
  mkSystem (shared sys)
    (<[i := Conn_new (PacketStream_new (T := AsyncMqttStream) stream (Some INIT_STREAM_BUFFER_SIZE) None)]>
       (clients sys)).

Definition on_event (i : Z) (ev : listen_event) (b : Broker) : Broker :=
  match ev with
  | Command (Some cmd) =>
      let b' := in_shared (on_command cmd) b in
      match (on_command cmd (shared (b_system b))).1 with
      | Ok Return => b' <| b_listening := Ended (Ok tt) |>
      | _ => b'
      end
  | Command None => b <| b_listening := Ended (Ok tt) |>
  | Incoming (Ok socket) =>
      match mqtt_stream (b_tls b) socket with
      | Some stream => b <| b_system := spawn i stream (b_system b) |>
      | None => b
      end
  | Incoming (Err e) => b <| b_listening := Ended (Err (BrokerError.Io e)) |>
  | Incoming _ => b
  end.

(** The steps of the program.  The handle is used by its owner until it is
    dropped; the task takes commands from the channel, learns that the sender is
    gone when the channel is empty, and accepts connections; the other tasks run
    as in Broker.v.  The sender is private and no method of the handle uses it:
    no step puts a command into the channel. *)
Inductive broker_step (b : Broker) : Broker -> Prop :=
| broker_run bound o b' : b_dropped b = false -> run bound b = (o, b') -> broker_step b b'
| broker_expiry d : b_dropped b = false -> broker_step b (set_session_expiration d b)
| broker_stop : b_dropped b = false -> broker_step b (stop b)
| broker_drop : broker_step b (b <| b_dropped := true |>)
| broker_command i cmd ch :
    b_listening b = Listening -> chan_recv (b_commands b) = Some (cmd, ch) ->
    broker_step b (on_event i (Command (Some cmd)) (b <| b_commands := ch |>))
| broker_closed i :
    b_listening b = Listening -> chan_recv (b_commands b) = None -> b_dropped b = true ->
    broker_step b (on_event i (Command None) b)
| broker_incoming i result :
    b_listening b = Listening -> clients (b_system b) !! i = None ->
    broker_step b (on_event i (Incoming result) b)
| broker_task sys' :
    task_step (b_system b) sys' -> broker_step b (b <| b_system := sys' |>).

(** ** Theorems *)

(** A command is one step of the system. *)
Lemma command_steps cmd b : step (b_system b) (b_system (in_shared (on_command cmd) b)).
Proof.
  apply (step_command _ cmd (on_command cmd (shared (b_system b))).1).
  by destruct (on_command cmd (shared (b_system b))).
Qed.

Lemma broker_step_refines b b' : broker_step b b' -> rtc step (b_system b) (b_system b').
Proof.
  destruct 1 as [bound o b' _ Hr|d _|_| |i cmd ch _ _|i _ _ _|i result _ Hi|sys' Hs].
  - unfold run in Hr. destruct bound; [by injection Hr as _ <- |].
    destruct (b_receiver b); by injection Hr as _ <-.
  - apply rtc_once. exact (command_steps (BrokerCommand.SetSessionExpiry d) b).
  - done.
  - done.
  - apply rtc_once. pose proof (command_steps cmd (b <| b_commands := ch |>)) as H. by destruct cmd.
  - done.
  - destruct result as [socket|e| |]; try done. cbn [on_event].
    destruct (mqtt_stream (b_tls b) socket) as [stream|]; [| done].
    apply rtc_once. exact (step_accept (T := AsyncMqttStream) (b_system b) i stream Hi).
  - apply rtc_once. by apply step_task.
Qed.

(** The states a broker of the given settings can reach. *)
Definition broker_reachable (s : Settings) (b : Broker) : Prop :=
  exists b0, Broker_new_with_config s = Ok b0 /\ rtc broker_step b0 b.

(** No command is ever in the channel; the task ends only when the handle was
    dropped or accepting failed; and it is started once. *)
Definition unheard (b : Broker) : Prop :=
  chan_queue (b_commands b) = []
  /\ match b_listening b with
     | Ended (Ok _) => b_dropped b = true
     | Ended (Err e) => exists io, e = BrokerError.Io io
     | Ended _ => False
     | _ => True
     end
  /\ (b_receiver b = true -> b_listening b = Idle).

Lemma unheard_step b b' : broker_step b b' -> unheard b -> unheard b'.
Proof.
  intros Hstep (Hq & Hl & Hr0).
  destruct Hstep as [bound o b' _ Hr|d _|_| |i cmd ch _ Hr|i Hi _ Hd|i result Hi _|sys' _].
  - unfold run in Hr. destruct bound; [by injection Hr as _ <- |].
    destruct (b_receiver b) eqn:Er; injection Hr as _ <-; split_and!; try done. congruence.
  - done.
  - done.
  - split_and!; try done. simpl. by destruct (b_listening b) as [| |[]].
  - pose proof (chan_recv_law (b_commands b)) as H. rewrite Hq in H. congruence.
  - split_and!; try done. intros H. apply Hr0 in H. congruence.
  - assert (Hb : b_receiver b <> true) by (intros H; apply Hr0 in H; congruence).
    destruct result as [socket|e| |]; try (by split_and!); cbn [on_event].
    + destruct (mqtt_stream (b_tls b) socket); by split_and!.
    + split_and!; [done | by eexists | done].
  - by split_and!.
Qed.

Lemma unheard_new s b : Broker_new_with_config s = Ok b -> unheard b /\ b_system b = start (s_config s).
Proof.
  unfold Broker_new_with_config, broker_new, channel.
  destruct (Z.leb_spec (Config.session_channel_size (s_config s)) 0) as [|Hs]; [done |].
  intros [= <-]. destruct (chan_new_law (A := BrokerCommand) _ Hs) as (? & _). by split_and!.
Qed.

Lemma settle_clients i sys res sys' :
  is_Some (clients sys !! i) -> settle i sys res = Some sys' -> dom (clients sys') ⊆ dom (clients sys).
Proof.
  intros [c Hi]. destruct res as [o [w' c']].
  assert (Hd : dom (delete i (clients sys)) ⊆ dom (clients sys)) 
    by (intros x; rewrite dom_delete, elem_of_difference; tauto).
  assert (Hin : i ∈ dom (clients sys)) by (apply elem_of_dom; by eexists).
  destruct o as [[]|e| |]; simpl; intros [= <-]; simpl; try done.
  rewrite dom_insert. apply union_least; [by apply singleton_subseteq_l | done].
Qed.

Lemma task_step_clients sys sys' : task_step sys sys' -> dom (clients sys') ⊆ dom (clients sys).
Proof. destruct 1; try done; by eapply settle_clients; eauto. Qed.

(** Once the task is over, no connection is accepted. *)
Lemma ended_step b b' r :
  broker_step b b' -> unheard b -> b_listening b = Ended r ->
  b_listening b' = Ended r /\ dom (clients (b_system b')) ⊆ dom (clients (b_system b)).
Proof.
  intros Hstep (Hq & Hl & Hr0) He.
  destruct Hstep as [bound o b' _ Hr|d _|_| |i cmd ch Hi _|i Hi _ Hd|i result Hi _|sys' Hs];
    try congruence; try done.
  - unfold run in Hr. destruct bound; [by injection Hr as _ <- |].
    destruct (b_receiver b); [| by injection Hr as _ <-]. rewrite Hr0 in He by done. done.
  - split; [done | by apply task_step_clients].
Qed.

Lemma ended_steps b b' r :
  rtc broker_step b b' -> unheard b -> b_listening b = Ended r ->
  b_listening b' = Ended r /\ dom (clients (b_system b')) ⊆ dom (clients (b_system b)).
Proof.
  induction 1 as [|b1 b2 b3 H12 _ IH]; [done |]. intros Hu He.
  destruct (ended_step b1 b2 r H12 Hu He) as [He2 Hd2].
  destruct (IH (unheard_step _ _ H12 Hu) He2) as [? ?]. split; [done | by etrans].
Qed.

(** C11: the broker as a program refines the system of its tasks.  Whatever the
    owner of the handle does, and whatever connections come in, with or without
    TLS, the shared state and the connections are ones the step relation reaches,
    so that all that holds there holds here.  The accept loop ends only when the
    handle was dropped or when accepting a connection failed: no command ever
    reaches it, and [stop] does not end it.  Once it has ended, it has ended for
    good, and no connection is accepted any more. *)
Theorem broker_refines_system s b :
  broker_reachable s b ->
  reachable (T := AsyncMqttStream) (s_config s) (b_system b)
  /\ chan_queue (b_commands b) = []
  /\ match b_listening b with
     | Ended (Ok _) => b_dropped b = true
     | Ended (Err e) => exists io, e = BrokerError.Io io
     | Ended _ => False
     | _ => True
     end
  /\ forall r, b_listening b = Ended r -> forall b', rtc broker_step b b' ->
       b_listening b' = Ended r /\ dom (clients (b_system b')) ⊆ dom (clients (b_system b)).
Proof.
  intros (b0 & Hnew & Hsteps). destruct (unheard_new s b0 Hnew) as [Hu0 H0].
  assert (H : rtc step (b_system b0) (b_system b) /\ unheard b).
  { clear Hnew H0. induction Hsteps as [|b1 b2 b3 H12 _ IH]; [done |].
    destruct (IH (unheard_step _ _ H12 Hu0)) as [? ?]. split; [| done].
    etrans; [by apply broker_step_refines | done]. }
  destruct H as [Hr Hu]. unfold reachable. rewrite <- H0. pose proof Hu as (Hq & Hl & _).
  split_and!; try done. intros r He b' Hb'. by apply ended_steps.
Qed.

(** A second [run] on a port that can be bound panics: the receiver is gone. *)
Lemma second_run_panics b : (run None (run None b).2).1 = Panic.
Proof. unfold run. by destruct (b_receiver b) eqn:E; simpl; rewrite ?E. Qed.

(** ** The server *)

Record Args := mkArgs {
  a_listen_addr : option rstring;
  a_port : option Z;
  a_max_sessions : option Z;
  a_max_active_sessions : option Z;
  a_session_expiration : option Z;
  a_session_timeout : option Z;
  a_max_session_timeout : option Z;
  a_tui : bool;
  a_tls_cert : option rstring;
  a_tls_key : option rstring;
  a_channel_size : option Z;
}.

(** Which step of [load_tls_acceptor] failed; the texts are left out. *)
Inductive TlsError :=
| NoCertFile | NoKeyFile | BadCerts | NoCerts | BadKey | NoKey | InvalidPair.

Definition or_tls {A} (e : TlsError) (o : option A) : outcome TlsError A :=
  match o with Some a => Ok a | None => Err e end.

Definition load_tls_acceptor (cert_path key_path : rstring) : M unit TlsError TlsAcceptor :=
  cert_file ← lift (or_tls NoCertFile (open_file cert_path));
  key_file ← lift (or_tls NoKeyFile (open_file key_path));
  certs ← lift (or_tls BadCerts (pem_certs cert_file));
  match certs with
  | [] => raise NoCerts
  | _ =>
      key ← lift (or_tls BadKey (pem_private_key key_file));
      key ← lift (or_tls NoKey key);
      lift (or_tls InvalidPair (server_config certs key))
  end.

(** The acceptor the arguments ask for; an error panics. *)
Definition args_tls (args : Args) : outcome Empty_set (option TlsAcceptor) :=
  match a_tls_cert args, a_tls_key args with
  | Some cert, Some key =>
      match (load_tls_acceptor cert key tt).1 with Ok acceptor => Ok (Some acceptor) | _ => Panic end
  | None, None => Ok None
  | _, _ => Panic
  end.

Definition args_addr (args : Args) : outcome Empty_set Ipv4Addr :=
  match a_listen_addr args with
  | Some addr => unwrap (ipv4_from_str addr)
  | None => Ok localhost
  end.

(** [Config::new]. *)
Definition Config_new (addr : SocketAddr) : Settings := mkSettings Config_default addr None.

(** The part of [main] up to the configuration. *)
Definition main_settings (args : Args) : outcome Empty_set Settings :=
  match args_addr args, args_tls args with
  | Ok addr, Ok tls =>
      let default_port := if bool_decide (is_Some tls) then DEFAULT_TLS_PORT else DEFAULT_PORT in
      let port := default default_port (a_port args) in
      let config := s_config (Config_new (socket_addr addr port)) in
      let config := match a_session_expiration args with
                    | Some expiration => config <| Config.session_expiry := secs expiration |>
                    | None => config
                    end in
      let config := match a_channel_size args with
                    | Some size => config <| Config.session_channel_size := size |>
                    | None => config
                    end in
      let config := match a_max_active_sessions args with
                    | Some max => config <| Config.max_active_sessions := Some max |>
                    | None => config
                    end in
      Ok (mkSettings config (socket_addr addr port) tls)
  | _, _ => Panic
  end.

(** [main] until it waits for the signal: the broker is created and run. *)
Definition main (args : Args) (bound : option IoErrorKind)
    : outcome Empty_set (outcome BrokerError unit * Broker) :=
  match main_settings args with
  | Ok s =>
      match Broker_new_with_config s with
      | Ok b => Ok (run bound b)
      | _ => Panic
      end
  | _ => Panic
  end.

(** The options for the number of sessions, the two time-outs and the terminal
    interface change nothing. *)
Lemma options_ignored args n t t' ui bound :
  main (mkArgs (a_listen_addr args) (a_port args) n (a_max_active_sessions args)
          (a_session_expiration args) t t' ui (a_tls_cert args) (a_tls_key args) (a_channel_size args)) bound
  = main args bound.
Proof. done. Qed.

(** The server starts: with valid arguments and a free address, [main] leaves a
    broker that listens, with the limits and the TLS that were asked for; the
    default port is 8883 with TLS and 1883 without. *)
Lemma server_starts args addr tls :
  args_addr args = Ok addr -> args_tls args = Ok tls ->
  (forall n, a_channel_size args = Some n -> 0 < n) ->
  exists s b, main_settings args = Ok s /\ main args None = Ok (Ok tt, b)
    /\ broker_reachable s b /\ b_listening b = Listening
    /\ listen_addr s = socket_addr addr (default (match tls with Some _ => 8883 | None => 1883 end) (a_port args))
    /\ tls_acceptor s = tls
    /\ Config.max_active_sessions (s_config s) = a_max_active_sessions args
    /\ Config.session_channel_size (s_config s) = default 10 (a_channel_size args).
Proof.
  intros Ha Ht Hn. unfold main, main_settings. rewrite Ha, Ht.
  match goal with |- context [match Broker_new_with_config ?s with _ => _ end] => set (s0 := s) end.
  assert (Hsize : Config.session_channel_size (s_config s0) = default 10 (a_channel_size args)).
  { unfold s0. by destruct (a_session_expiration args), (a_channel_size args), (a_max_active_sessions args). }
  assert (Hnew : exists b0, Broker_new_with_config s0 = Ok b0 /\ b_receiver b0 = true /\ b_dropped b0 = false).
  { unfold Broker_new_with_config, broker_new, channel. rewrite Hsize.
    rewrite (proj2 (Z.leb_gt _ _)); [by eexists |].
    destruct (a_channel_size args) as [n|]; [by apply Hn | simpl; lia]. }
  destruct Hnew as (b0 & E & Hr & Hd). exists s0, (b0 <| b_receiver := false |> <| b_listening := Listening |>).
  assert (Hrun : run None b0 = (Ok tt, b0 <| b_receiver := false |> <| b_listening := Listening |>))
    by (unfold run; by rewrite Hr).
  split_and!; try done.
  - by rewrite E, Hrun.
  - exists b0. split; [done |]. eapply rtc_once, broker_run; [exact Hd | exact Hrun].
  - unfold s0. by destruct tls.
  - unfold s0. by destruct (a_session_expiration args), (a_channel_size args), (a_max_active_sessions args).
Qed.
End run.

(** ** An example *)

(** A server without TLS on a scripted network. *)
#[local] Instance scripted : Network := {|
  tcp := chunked_transport; client_tls := chunked_transport; server_tls := chunked_transport;
  SocketAddr := Z; ServerName := unit; RootCertStore := unit;
  to_socket_addrs _ := None; tcp_connect _ _ := None; server_name _ := None; tls_connect _ _ _ := None;
|}.
#[local] Instance scripted_server : ServerNetwork := {|
  TlsAcceptor := unit; tls_accept _ t := Some t;
  Ipv4Addr := unit; ipv4_from_str _ := None; socket_addr _ port := port; localhost := tt;
  File := unit; open_file _ := None; Certificate := unit; PrivateKey := unit;
  pem_certs _ := None; pem_private_key _ := None; server_config _ _ := None;
|}.

Definition no_args : Args := mkArgs None None None None None None None false None None None.

(** The server starts, a connection comes in, [stop] is called, and another
    connection is accepted; then the handle is dropped and the loop ends. *)
Definition settings : Settings := mkSettings Config_default DEFAULT_PORT None.
Definition afternoon : option Broker :=
  match main no_args None with
  | Ok (Ok _, b) =>
      let b := on_event 1 (Incoming (Ok (mkChunked [] 0 []))) b in
      let b := on_event 2 (Incoming (Ok (mkChunked [] 0 []))) (stop b) in
      Some (on_event 3 (Command None) (b <| b_dropped := true |>))
  | _ => None
  end.
Definition evening : Broker :=
  default (mkBroker (start Config_default) None (chan_new 1) true false Idle) afternoon.

Lemma evening_reachable : broker_reachable settings evening.
Proof.
  destruct (server_starts no_args localhost None eq_refl eq_refl) as (s & b & Hs & Hm & (b0 & H0 & Hr) & _); [done |].
  assert (E : s = settings) by (injection Hs as <-; reflexivity). subst s.
  exists b0. split; [done |]. etrans; [exact Hr |].
  assert (Hb : b = (run None (mkBroker (start Config_default) None (chan_new 10) true false Idle)).2)
    by (injection Hm as <-; reflexivity).
  clear Hm Hr Hs. subst b.
  eapply rtc_l; [refine (broker_incoming _ 1 (Ok (mkChunked [] 0 [])) _ _); reflexivity |].
  eapply rtc_l; [refine (broker_stop _ _); reflexivity |].
  eapply rtc_l; [refine (broker_incoming _ 2 (Ok (mkChunked [] 0 [])) _ _); reflexivity |].
  eapply rtc_l; [apply broker_drop |].
  eapply rtc_l; [refine (broker_closed _ 3 _ _ _); reflexivity |]. apply rtc_refl.
Qed.

Lemma broker_refines_system_witness :
  reachable (T := AsyncMqttStream) Config_default (b_system evening)
  /\ b_dropped evening = true /\ dom (clients (b_system evening)) = {[1; 2]}
  /\ forall b, rtc broker_step evening b -> b_listening b = Ended (Ok tt).
Proof.
  destruct (broker_refines_system settings evening evening_reachable) as (H1 & _ & H2 & H3).
  split_and!; [exact H1 | exact H2 | vm_compute; reflexivity |]. intros b Hb.
  exact (proj1 (H3 (Ok tt) eq_refl b Hb)).
Defined.
