(* ===== verification/BrokerTasks.v ===== *)
(** * vaux-broker/src/lib.rs, interrupted at every [await] *)
(** The handlers of [Broker] as programs of [Tasks]: the locks of the pool, of
    the topic tree and of each session are taken and released where the code
    takes and releases them, and a task can be interrupted wherever it awaits a
    lock, a channel or its stream.  [run] of each program is the handler of
    [Broker]; [fine_step] is the step relation of the interrupted tasks. *)

From S2P Require Import Prelude Bytes Codec Fixed Property MacroFacts Subscriptions.
From S2P Require Import Acks Publish Connect Packet Topic Stream Runtime Sessions Tasks Broker.

Module BrokerLock.
Inductive lock := Pool | Tree | Session (r : Z).
End BrokerLock.
Abbreviation lock := BrokerLock.lock.

#[export] Instance lock_eq_dec : EqDecision lock.
Proof. solve_decision. Defined.

Section tasks.
Context {B : Buf} {HI : HashIter} {T : Transport} {R : Runtime} {D : DrainOrder}.

Abbreviation Shared := (prog lock World Empty_set).
Abbreviation Handling := (prog lock (World * Conn) BrokerError).

Definition pool_read {A} : Shared A -> Shared A := under BrokerLock.Pool Mode.Read.
Definition pool_write {A} : Shared A -> Shared A := under BrokerLock.Pool Mode.Write.
Definition session_read {A} (r : Z) : Shared A -> Shared A := under (BrokerLock.Session r) Mode.Read.
Definition session_write {A} (r : Z) : Shared A -> Shared A := under (BrokerLock.Session r) Mode.Write.

(** Code of the shared state inside a handler. *)
Fixpoint shared_task {A} (p : Shared A) : Handling A :=
  match p with
  | Value a => Value a
  | Do m k => Do (in_world m) (fun x => shared_task (k x))
  | Lock l m p => Lock l m (shared_task p)
  | Unlock l m p => Unlock l m (shared_task p)
  end.

(** ** The pool, whose lock is held *)

Definition add_task (r : Z) : Shared unit :=
  s ← session_read r (act (session_at r));
  act (if Session.connected s
       then with_pool (fun p => insert_active (Session.id s) r (count_active 1 p))
       else with_pool (fun p => insert_inactive (Session.id s) r (count_inactive 1 p))).

Definition activate_task (session_id : rstring) : Shared (option Z) :=
  found ← act (p ← in_pool id;
    match SessionPool.inactive p !! session_id with
    | Some r => with_pool (delete_inactive session_id) ≫= fun _ => mret (Some r)
    | None => mret None
    end);
  match found with
  | Some r =>
      session_write r (act (
        now ← gets clock;
        with_session r (fun s => set_last_active now (set_connected true s)) ≫= fun _ =>
        s ← session_at r;
        with_pool (fun p => count_inactive (-1) (insert_active (Session.id s) r (count_active 1 p)))
        ≫= fun _ => mret (Some r)))
  | None => mret None
  end.

Definition deactivate_task (session_id : rstring) : Shared (option Z) :=
  found ← act (p ← in_pool id;
    match SessionPool.active p !! session_id with
    | Some r => with_pool (delete_active session_id) ≫= fun _ => mret (Some r)
    | None => mret None
    end);
  match found with
  | Some r =>
      s ← session_write r (act (with_session r (set_connected false) ≫= fun _ => session_at r));
      act (with_pool (fun p => count_active (-1) (insert_inactive (Session.id s) r (count_inactive 1 p)))
           ≫= fun _ => mret (Some r))
  | None => mret None
  end.

(** [state.session_pool.write().await.deactivate(&session_id).await]. *)
Definition park_task (session_id : rstring) : Shared unit :=
  pool_write (deactivate_task session_id) ≫= fun _ => mret tt.

(** ** Routing *)

(** The body of the loop for a subscriber that is connected: under the lock of
    its session, for writing when a packet identifier is drawn. *)
Definition deliver_task (publish : Publish) (qos : QoSLevel) (r : Z) : Shared unit :=
  let out := publish_set_qos qos publish in
  if negb (bool_decide (qos = QoSLevel.AtMostOnce)) then
    session_write r (act (
      s ← session_at r;
      let '(packet_id, s') := next_packet_id s in
      with_session r (fun _ => s') ≫= fun _ =>
      out ← lift (or_keep out (publish_set_packet_id (Some packet_id) out));
      with_session r (track_qos_publish packet_id out) ≫= fun _ =>
      deliver r out))
  else session_read r (act (deliver r out)).

Definition route_to_task (publish : Publish) (sender_session_id : rstring) (sub : Subscriber)
    : Shared unit :=
  if Subscriber.no_local sub && bool_decide (Subscriber.session_id sub = sender_session_id)
  then mret tt
  else
    pq ← act (lift (or_panic (publish_qos publish)));
    let qos := granted_qos pq (Subscriber.qos sub) in
    target ← act (get_active (Subscriber.session_id sub));
    match target with
    | None => mret tt
    | Some r => deliver_task publish qos r
    end.

Fixpoint route_each_task (publish : Publish) (sender : rstring) (subs : list Subscriber) : Shared unit :=
  match subs with
  | [] => mret tt
  | sub :: subs => route_to_task publish sender sub ≫= fun _ => route_each_task publish sender subs
  end.

Definition route_publish_task (publish : Publish) (sender_session_id : rstring) : Shared unit :=
  subscribers ← under BrokerLock.Tree Mode.Read
    (act (in_tree (matching_subscribers (Publish.topic_name publish))));
  pool_read (route_each_task publish sender_session_id subscribers).

(** ** Wills *)

Definition publish_will_task (will : WillMessage) : Shared unit :=
  publish ← act (lift (will_publish will));
  route_publish_task publish [].

Definition initiate_will_task (r : Z) : Shared unit :=
  will ← session_write r (act (
    s ← session_at r;
    let '(will, s') := take_will s in
    with_session r (fun _ => s') ≫= fun _ => mret will));
  match will with
  | None => mret tt
  | Some will =>
      let delay_secs := default 0 (WillHeader.will_delay (WillMessage.header will)) in
      if delay_secs =? 0 then publish_will_task will
      else
        token ← act (
          w ← get;
          let token := next_token w in
          modify (fun w => w <| next_token := token + 1 |> <| delayed_wills :=
            <[token := (clock w + secs delay_secs, will)]> (delayed_wills w) |>) ≫= fun _ => mret token);
        session_write r (act (set_pending_will r token))
  end.

(** [session.read().await.disconnect(..).await]: the guard is kept while the
    channel is full.  The sleep of 500 ms that follows, with the pool still
    locked, is a delay like any other between two steps of a task. *)
Definition handle_takeover_task (r : Z) : Shared unit :=
  session_read r (act (send_control r (SessionControl.Disconnect Reason.SessionTakeOver))).

(** ** Connecting, under the lock of the pool *)

Definition start_session_task (session_id : rstring) (connect : Connect) (keep_alive : Z) : Shared Z :=
  r ← act (
    ch ← new_channel;
    now ← gets clock;
    new_session (set_connected true
      (Session_new session_id (will_message connect) keep_alive now ch)));
  add_task r ≫= fun _ => mret r.

Definition choose_session_task (session_id : rstring) (connect : Connect) (keep_alive : Z)
    : Shared (Z * bool) :=
  if clean_start connect then
    existing ← act (remove session_id);
    match existing with
    | Some old =>
        s ← session_read old (act (session_at old));
        (if Session.connected s then handle_takeover_task old else mret tt) ≫= fun _ =>
        r ← start_session_task session_id connect keep_alive; mret (r, false)
    | None => r ← start_session_task session_id connect keep_alive; mret (r, false)
    end
  else
    inactive ← activate_task session_id;
    match inactive with
    | Some r => session_write r (act (resume_session r connect)) ≫= fun _ => mret (r, true)
    | None =>
        active ← act (get_active session_id);
        match active with
        | Some r =>
            handle_takeover_task r ≫= fun _ =>
            session_write r (act (
              resume_session r connect ≫= fun _ =>
              now ← gets clock;
              with_session r (set_last_active now))) ≫= fun _ => mret (r, true)
        | None => r ← start_session_task session_id connect keep_alive; mret (r, false)
        end
    end.

(** The part of [handle_connect] under the lock of the pool: no session when the
    broker is full. *)
Definition admit_task (session_id : rstring) (connect : Connect) (keep_alive : Z)
    : Shared (option (Z * bool)) :=
  full ← act (
    p ← in_pool id;
    cfg ← gets config;
    existing ← get_active session_id;
    mret (negb (bool_decide (is_Some existing)) && at_capacity (Config.max_active_sessions cfg) p));
  if (full : bool) then mret None
  else chosen ← choose_session_task session_id connect keep_alive; mret (Some chosen).

(** The limit is read only when a lifetime is requested. *)
Definition max_expiry_task (requested : option Z) : Shared Z :=
  match requested with
  | Some requested_expiry =>
      if 0 <? requested_expiry
      then pool_read (act (in_pool (fun p => u32 (as_secs (SessionPool.session_expiry p)))))
      else mret 0
  | None => mret 0
  end.

Definition handle_connect_task (uuid : rstring) (connect : Connect) : Handling (option Z) :=
  p ← shared_task (pool_read (act (in_pool id)));
  let '(keep_alive, ack) := negotiate_keep_alive (Connect.keep_alive connect)
        (default_keep_alive_secs p) (max_keep_alive_secs p) dflt in
  max_expiry ← shared_task (max_expiry_task (Connect.session_expiry_interval connect));
  let '(session_expiry, ack) := negotiate_expiry (Connect.session_expiry_interval connect)
        max_expiry ack in
  let '(session_id, ack) :=
    match Connect.client_id connect with
    | [] => (uuid, ack <| ConnAck.assigned_client_id := Some uuid |>)
    | client_id => (client_id, ack)
    end in
  chosen ← shared_task (pool_write (admit_task session_id connect keep_alive));
  match chosen with
  | None =>
      act (send (Packet.ConnAck (ack <| ConnAck.reason := Reason.QuotaExceeded |>))) ≫= fun _ =>
      act (on_stream shutdown) ≫= fun _ => mret None
  | Some (r, present) =>
      let ack := if (present : bool) then set_session_present true ack else ack in
      shared_task (session_write r (act
        match session_expiry with
        | Some expiry => with_session r (session_set_session_expiry expiry)
        | None => mret tt
        end)) ≫= fun _ =>
      act (send (Packet.ConnAck ack)) ≫= fun _ => mret (Some r)
  end.

Definition handle_pre_connect_task (uuid : rstring) (packet : Packet) : Handling (option Z) :=
  match packet with
  | Packet.Connect connect =>
      accepting ← act (in_world (gets accept_connections));
      if negb accepting then
        act (send (Packet.ConnAck (dflt <| ConnAck.reason := Reason.ServerBusy |>))) ≫= fun _ =>
        act (on_stream shutdown) ≫= fun _ => mret None
      else handle_connect_task uuid connect
  | Packet.PingRequest _ => act (send (Packet.PingResponse dflt)) ≫= fun _ => mret None
  | _ => act (send (Packet.Disconnect (Disconnect_new Reason.ProtocolErr))) ≫= fun _ => mret None
  end.

(** ** Packets of a connected client *)

Definition session_id_task (r : Z) : Shared rstring :=
  session_read r (act (s ← session_at r; mret (Session.id s))).

Definition handle_packet_task (packet : Packet) (r : Z) : Handling unit :=
  match packet with
  | Packet.PingRequest _ => act (send (Packet.PingResponse dflt))
  | Packet.Subscribe subscribe =>
      session_id ← shared_task (session_id_task r);
      suback ← shared_task (under BrokerLock.Tree Mode.Write (act (handle_subscribe subscribe session_id)));
      act (send (Packet.SubAck suback))
  | Packet.Unsubscribe unsubscribe =>
      session_id ← shared_task (session_id_task r);
      unsuback ← shared_task
        (under BrokerLock.Tree Mode.Write (act (handle_unsubscribe unsubscribe session_id)));
      act (send (Packet.UnsubAck unsuback))
  | Packet.Publish publish =>
      session_id ← shared_task (session_id_task r);
      qos ← act (lift (or_panic (publish_qos publish)));
      (if bool_decide (qos = QoSLevel.AtLeastOnce) then
         match Publish.packet_id publish with
         | Some packet_id => act (send (Packet.PubAck (new_puback_with_packet_id packet_id)))
         | None =>
             act (send (Packet.Disconnect (Disconnect_new Reason.MalformedPacket))) ≫= fun _ =>
             act (raise (BrokerError.Codec MqttCodecError_new))
         end
       else mret tt) ≫= fun _ =>
      shared_task (route_publish_task publish session_id)
  | Packet.PubAck puback =>
      shared_task (session_write r
        (act (with_session r (fun s => (acknowledge (PubResp.packet_id puback) s).2))))
  | Packet.Disconnect packet =>
      shared_task (if bool_decide (Disconnect.reason packet = Reason.Success)
                   then session_write r (act (with_session r clear_will))
                   else initiate_will_task r) ≫= fun _ =>
      session_id ← shared_task (session_id_task r);
      shared_task (park_task session_id)
  | _ => mret tt
  end.

(** ** The branches of [handle_client] *)

Definition lose_client_task (r : Z) : Shared unit :=
  session_id ← session_id_task r;
  initiate_will_task r ≫= fun _ => park_task session_id.

Definition on_control_task (control : SessionControl) : Handling flow :=
  match control with
  | SessionControl.Disconnect reason =>
      session ← act (variable c_session);
      match session with
      | Some r =>
          session_id ← shared_task (session_id_task r);
          (if bool_decide (reason = Reason.SessionTakeOver) then mret tt
           else shared_task (park_task session_id)) ≫= fun _ =>
          act (send (Packet.Disconnect (Disconnect_new reason))) ≫= fun _ => mret Continue
      | None => act (on_stream shutdown) ≫= fun _ => mret Broker.Return
      end
  | SessionControl.Deliver publish => act (send (Packet.Publish publish)) ≫= fun _ => mret Continue
  end.

Definition on_keep_alive_task : Handling flow :=
  session ← act (variable c_session);
  match session with
  | Some r => shared_task (lose_client_task r) ≫= fun _ => mret Continue
  | None => act (on_stream shutdown) ≫= fun _ => mret Broker.Return
  end.

Fixpoint resend_pending_task (r : Z) (pending : list (Z * Publish)) : Handling unit :=
  match pending with
  | [] => mret tt
  | (packet_id, publish) :: pending =>
      publish ← act (lift (or_keep publish (publish_set_dup true publish)));
      publish ← act (lift (or_keep publish (publish_set_packet_id (Some packet_id) publish)));
      shared_task (session_write r (act (with_session r (track_qos_publish packet_id publish)))) ≫= fun _ =>
      act (send (Packet.Publish publish)) ≫= fun _ =>
      resend_pending_task r pending
  end.

(** The connection takes over what it needs of its session under one lock. *)
Definition take_session (r : Z) : M (World * Conn) BrokerError (list (Z * Publish)) :=
  s ← in_world (session_at r);
  let '(control, s') := take_control_receiver s in
  let '(pending, s'') := drain_pending s' in
  in_world (with_session r (fun _ => s'')) ≫= fun _ =>
  local (fun c => c <| c_keep_alive := Session.keep_alive s |> <| c_control := control |>) ≫= fun _ =>
  mret pending.

Definition serve_task (r : Z) : Handling flow :=
  pending ← under (BrokerLock.Session r) Mode.Write (act (take_session r));
  resend_pending_task r pending ≫= fun _ =>
  act (local (fun c => c <| c_session := Some r |>)) ≫= fun _ =>
  act (local (fun c => c <| c_connected := true |>)) ≫= fun _ => mret Continue.

Definition on_packet_task (uuid : rstring) (packet : Packet) : Handling flow :=
  connected ← act (variable c_connected);
  if negb connected then
    session ← handle_pre_connect_task uuid packet;
    match session with
    | Some r => serve_task r
    | None => mret Continue
    end
  else
    session ← act (variable c_session);
    match session with
    | Some r => handle_packet_task packet r ≫= fun _ => mret Continue
    | None => mret Continue
    end.

Definition on_close_task : Handling flow :=
  session ← act (variable c_session);
  match session with
  | Some r => shared_task (lose_client_task r) ≫= fun _ => mret Broker.Return
  | None => mret Broker.Return
  end.

(** The branch for what [stream.read()] returned; none for a read that waits. *)
Definition on_read_task (uuid : rstring) (result : outcome StreamError (option Packet))
    : option (Handling flow) :=
  match result with
  | Ok (Some packet) => Some (on_packet_task uuid packet)
  | Ok None => Some on_close_task
  | Err e => Some (on_close_task ≫= fun _ => act (raise (BrokerError.Stream e)))
  | Panic => Some (act panic)
  | OutOfFuel => None
  end.

(** ** The tasks *)

(** A task of a connection waits at its [select!] or is inside a branch; a
    delayed will that is due is published by a task of its own. *)
Inductive Task :=
| Waiting (c : Conn)
| Busy (c : Conn) (p : Handling flow) (held : locks lock)
| Publishing (p : Shared unit) (held : locks lock).

Record Tasks := mkTasks { t_world : World; t_tasks : gmap Z Task }.

Definition held_by (t : Task) : locks lock :=
  match t with Waiting _ => [] | Busy _ _ held => held | Publishing _ held => held end.

(** The locks that are held, and those another task than [i] holds. *)
Definition held_in (ts : gmap Z Task) : locks lock :=
  concat ((fun e => held_by e.2) <$> map_to_list ts).
Definition others (i : Z) (ts : gmap Z Task) : locks lock := held_in (delete i ts).

(** The system after a step of the branch of task [i]. *)
Definition settle_branch (i : Z) (ts : gmap Z Task)
    (res : progress lock (World * Conn) BrokerError flow * (World * Conn)) : Tasks :=
  match res with
  | (Running p held, (w, c)) => mkTasks w (<[i := Busy c p held]> ts)
  | (Finished (Ok Continue), (w, c)) => mkTasks w (<[i := Waiting c]> ts)
  | (Finished _, (w, c)) => mkTasks (drop_control c w) (delete i ts)
  end.

Definition settle_will (i : Z) (ts : gmap Z Task) (res : progress lock World Empty_set unit * World) : Tasks :=
  match res with
  | (Running p held, w) => mkTasks w (<[i := Publishing p held]> ts)
  | (Finished _, w) => mkTasks w (delete i ts)
  end.

Inductive fine_step (sys : Tasks) : Tasks -> Prop :=
| fine_accept i t :
    t_tasks sys !! i = None ->
    fine_step sys (mkTasks (t_world sys)
      (<[i := Waiting (Conn_new (PacketStream_new t (Some INIT_STREAM_BUFFER_SIZE) None))]> (t_tasks sys)))
| fine_read i c fuel uuid1 uuid2 o s p :
    t_tasks sys !! i = Some (Waiting c) -> read fuel uuid1 (c_stream c) = (o, s) ->
    on_read_task uuid2 o = Some p ->
    fine_step sys (mkTasks (t_world sys) (<[i := Busy (c <| c_stream := s |>) p []]> (t_tasks sys)))
| fine_cancelled i c fuel uuid s :  (** the read is dropped while it waits, for another branch *)
    t_tasks sys !! i = Some (Waiting c) -> read fuel uuid (c_stream c) = (OutOfFuel, s) ->
    fine_step sys (mkTasks (t_world sys) (<[i := Waiting (c <| c_stream := s |>)]> (t_tasks sys)))
| fine_control i c ch q m q' :
    t_tasks sys !! i = Some (Waiting c) -> c_control c = Some ch ->
    channels (t_world sys) !! ch = Some q -> chan_recv q = Some (m, q') ->
    fine_step sys (mkTasks ((t_world sys) <| channels := <[ch := q']> (channels (t_world sys)) |>)
      (<[i := Busy c (on_control_task m) []]> (t_tasks sys)))
| fine_timer i c :
    t_tasks sys !! i = Some (Waiting c) ->
    fine_step sys (mkTasks (t_world sys) (<[i := Busy c on_keep_alive_task []]> (t_tasks sys)))
| fine_advance i c p held res :
    t_tasks sys !! i = Some (Busy c p held) ->
    advance (others i (t_tasks sys)) held p (t_world sys, c) = Some res ->
    fine_step sys (settle_branch i (t_tasks sys) res)
| fine_cancel token deadline will :
    delayed_wills (t_world sys) !! token = Some (deadline, will) ->
    is_cancelled token (cancelled (t_world sys)) = true ->
    fine_step sys (mkTasks ((t_world sys) <| delayed_wills := delete token (delayed_wills (t_world sys)) |>)
      (t_tasks sys))
| fine_due i token deadline will :
    delayed_wills (t_world sys) !! token = Some (deadline, will) ->
    deadline <= clock (t_world sys) -> t_tasks sys !! i = None ->
    fine_step sys (mkTasks ((t_world sys) <| delayed_wills := delete token (delayed_wills (t_world sys)) |>)
      (<[i := Publishing (publish_will_task will) []]> (t_tasks sys)))
| fine_publish i p held res :
    t_tasks sys !! i = Some (Publishing p held) ->
    advance (others i (t_tasks sys)) held p (t_world sys) = Some res ->
    fine_step sys (settle_will i (t_tasks sys) res)
| fine_tick d :
    0 <= d ->
    fine_step sys (mkTasks ((t_world sys) <| clock := clock (t_world sys) + d |>) (t_tasks sys))
(** the lock of the pool is taken for a command that changes it *)
| fine_command cmd o w' :
    on_command cmd (t_world sys) = (o, w') ->
    match cmd with
    | BrokerCommand.SetSessionExpiry _ => admits (held_in (t_tasks sys)) BrokerLock.Pool Mode.Write = true
    | _ => True
    end ->
    fine_step sys (mkTasks w' (t_tasks sys)).

Definition fine_start (cfg : Config) : Tasks := mkTasks (BrokerState_new cfg) ∅.
Definition fine_reachable (cfg : Config) : Tasks -> Prop := rtc fine_step (fine_start cfg).

(** ** Without interruption *)

(** [p] does what [m] does when nothing interrupts it. *)
Definition behaves {S E A} (p : prog lock S E A) (m : M S E A) : Prop := forall s, run p s = m s.

Lemma behaves_ret {S E A} (a : A) : behaves (S:=S) (E:=E) (mret a) (mret a).
Proof. done. Qed.
Lemma behaves_act {S E A} (m : M S E A) : behaves (act m) m.
Proof. intros s. apply run_act. Qed.
Lemma behaves_under {S E A} l md (p : prog lock S E A) m : behaves p m -> behaves (under l md p) m.
Proof. intros Hp s. by rewrite run_under. Qed.

Lemma bind_pointwise {S E A C} (m m' : M S E A) (k k' : A -> M S E C) s :
  (forall s, m s = m' s) -> (forall a s, k a s = k' a s) -> (m ≫= k) s = (m' ≫= k') s.
Proof. intros Hm Hk. unfold mbind, M_bind. rewrite Hm. by destruct (m' s) as [[]]. Qed.

Lemma behaves_bind {S E A C} (p : prog lock S E A) (k : A -> prog lock S E C) m f :
  behaves p m -> (forall a, behaves (k a) (f a)) -> behaves (p ≫= k) (m ≫= f).
Proof. intros Hp Hk s. rewrite run_bind. by apply bind_pointwise. Qed.

(** Pieces may be grouped differently. *)
Lemma sequence_assoc {S E A C F} (m : M S E A) (f : A -> M S E C) (g : C -> M S E F) s :
  ((m ≫= f) ≫= g) s = (m ≫= fun a => f a ≫= g) s.
Proof. unfold mbind, M_bind. by destruct (m s) as [[]]. Qed.

Lemma behaves_assoc {S E A C F} (p : prog lock S E F) (m : M S E A) (f : A -> M S E C) (g : C -> M S E F) :
  behaves p ((m ≫= f) ≫= g) -> behaves p (m ≫= fun a => f a ≫= g).
Proof. intros Hp s. rewrite Hp. apply sequence_assoc. Qed.

Lemma behaves_iff {S E A} (p : prog lock S E A) m m' :
  behaves p m -> (forall s, m s = m' s) -> behaves p m'.
Proof. intros Hp Hm s. by rewrite Hp, Hm. Qed.

Lemma behaves_shared {A} (p : Shared A) m : behaves p m -> behaves (shared_task p) (in_world m).
Proof.
  intros Hp [w c]. assert (H : run (shared_task p) (w, c) = in_world (run p) (w, c)).
  { clear Hp m. revert w. induction p as [a|X m f IH|l m p IH|l m p IH]; intros w; simpl; [done | | apply IH ..].
    unfold in_world, mbind, M_bind in *. destruct (m w) as [[x|[]| |] w1]; simpl; [apply IH | done ..]. }
  rewrite H. unfold in_world. by rewrite Hp.
Qed.

Lemma in_world_seq {A C} (m : M World Empty_set A) (k : A -> M World Empty_set C) s :
  in_world (m ≫= k) s = (in_world m ≫= fun a => in_world (k a)) s.
Proof.
  destruct s as [w c]. unfold in_world, mbind, M_bind. by destruct (m w) as [[x|[]| |] w1].
Qed.

Create HintDb behaves.
#[local] Hint Resolve behaves_ret behaves_act behaves_under behaves_bind behaves_shared : behaves.

(** A case analysis that both sides make. *)
Ltac behave :=
  repeat first
    [ progress (auto with behaves)
    | apply behaves_bind; [| intros ?]
    | apply behaves_under | apply behaves_shared
    | match goal with |- behaves (match ?x with _ => _ end) _ => destruct x end ].

Lemma add_behaves r : behaves (add_task r) (add r).
Proof.
  unfold add_task, add. apply behaves_bind; [behave |]. intros s. destruct (Session.connected s); behave.
Qed.

(** A session that is looked up and taken out of one of the maps. *)
Lemma found_behaves {A} (sel : SessionPool -> option Z) f (k : option Z -> Shared A) m m0 :
  (forall r, behaves (k (Some r)) (m r)) -> behaves (k None) m0 ->
  behaves
    (found ← act (p ← in_pool id;
       match sel p with Some r => with_pool f ≫= fun _ => mret (Some r) | None => mret None end);
     k found)
    (p ← in_pool id; match sel p with Some r => with_pool f ≫= fun _ => m r | None => m0 end).
Proof.
  intros Hk H0 w. rewrite run_bind.
  etrans; [apply bind_pointwise; [apply run_act | reflexivity] |]. rewrite sequence_assoc.
  unfold in_pool, gets. unfold mbind at 1 4, M_bind at 1 4. unfold Datatypes.id.
  destruct (sel (session_pool w)) as [r|]; [apply Hk | apply H0].
Qed.

Lemma activate_behaves id : behaves (activate_task id) (activate id).
Proof.
  apply (found_behaves (fun p => SessionPool.inactive p !! id) (delete_inactive id)); [| done].
  intros r. apply behaves_under, behaves_act.
Qed.

Lemma deactivate_behaves id : behaves (deactivate_task id) (deactivate id).
Proof.
  apply (found_behaves (fun p => SessionPool.active p !! id) (delete_active id)); [| done].
  intros r. apply behaves_assoc. behave.
Qed.

Lemma park_behaves id : behaves (park_task id) (deactivate id ≫= fun _ => mret tt).
Proof. apply behaves_bind; [apply behaves_under, deactivate_behaves | behave]. Qed.

Lemma route_to_behaves publish sender sub : behaves (route_to_task publish sender sub) (route_to publish sender sub).
Proof.
  unfold route_to_task, route_to, deliver_task. destruct (_ && _); [behave |].
  apply behaves_bind; [behave |]. intros pq. cbv zeta. apply behaves_bind; [behave |]. intros [r|]; behave.
Qed.

Lemma route_each_behaves publish sender subs :
  behaves (route_each_task publish sender subs) (route_each publish sender subs).
Proof.
  induction subs as [|sub subs IH]; [done |]. apply behaves_bind; [apply route_to_behaves | done].
Qed.

Lemma route_publish_behaves publish sender :
  behaves (route_publish_task publish sender) (route_publish publish sender).
Proof. apply behaves_bind; [behave |]. intros subs. apply behaves_under, route_each_behaves. Qed.

Lemma publish_will_behaves will : behaves (publish_will_task will) (publish_will will).
Proof. apply behaves_bind; [behave |]. intros p. apply route_publish_behaves. Qed.

Lemma initiate_will_behaves r : behaves (initiate_will_task r) (initiate_will r).
Proof.
  eapply behaves_iff.
  - apply behaves_bind; [apply behaves_under, behaves_act |]. intros will.
    apply (behaves_iff _ (match will with None => mret tt | Some will =>
      let delay_secs := default 0 (WillHeader.will_delay (WillMessage.header will)) in
      if delay_secs =? 0 then publish_will will
      else
        w ← get;
        let token := next_token w in
        modify (fun w => w <| next_token := token + 1 |> <| delayed_wills :=
          <[token := (clock w + secs delay_secs, will)]> (delayed_wills w) |>) ≫= fun _ =>
        set_pending_will r token end)); [| done].
    destruct will as [will|]; [| behave]. cbv zeta. destruct (_ =? 0); [apply publish_will_behaves |].
    eapply behaves_iff; [apply behaves_bind; [apply behaves_act | intros token; apply behaves_under, behaves_act] |].
    done.
  - intros w. rewrite sequence_assoc. apply bind_pointwise; [done |]. intros s w1. simpl. by rewrite sequence_assoc.
Qed.

Lemma start_session_behaves id connect keep_alive :
  behaves (start_session_task id connect keep_alive) (start_session id connect keep_alive).
Proof.
  eapply behaves_iff; [apply behaves_bind; [apply behaves_act | intros r];
    apply behaves_bind; [apply add_behaves | intros u; apply behaves_ret] |]. done.
Qed.

Lemma choose_session_behaves id connect keep_alive :
  behaves (choose_session_task id connect keep_alive) (choose_session id connect keep_alive).
Proof.
  assert (Hs : behaves (r ← start_session_task id connect keep_alive; mret (r, false))
    (r ← start_session id connect keep_alive; mret (r, false)))
    by (apply behaves_bind; [apply start_session_behaves | behave]).
  unfold choose_session_task, choose_session. destruct (clean_start connect).
  - apply behaves_bind; [behave |]. intros [old|]; [| done]. apply behaves_bind; [behave |]. intros s.
    apply behaves_bind; [| done]. destruct (Session.connected s); unfold handle_takeover_task, handle_takeover; behave.
  - apply behaves_bind; [apply activate_behaves |]. intros [r|]; [behave |].
    apply behaves_bind; [behave |]. intros [r|]; [| done].
    apply behaves_bind; [unfold handle_takeover_task, handle_takeover; behave |]. intros u.
    eapply behaves_iff; [apply behaves_bind; [apply behaves_under, behaves_act | intros u'; apply behaves_ret] |].
    intros w. rewrite sequence_assoc. apply bind_pointwise; [done |]. intros u' w'. by rewrite sequence_assoc.
Qed.

(** The checks and the choice of the session, as [handle_connect] makes them. *)
Lemma admit_behaves id connect keep_alive :
  behaves (admit_task id connect keep_alive)
    (p ← in_pool Datatypes.id;
     cfg ← gets config;
     existing ← get_active id;
     if negb (bool_decide (is_Some existing)) && at_capacity (Config.max_active_sessions cfg) p
     then mret None
     else chosen ← choose_session id connect keep_alive; mret (Some chosen)).
Proof.
  eapply behaves_iff.
  - apply behaves_bind; [apply behaves_act |]. intros full.
    apply (behaves_iff _ (if (full : bool) then mret None
      else chosen ← choose_session id connect keep_alive; mret (Some chosen))); [| done].
    destruct full; [behave |]. apply behaves_bind; [apply choose_session_behaves | behave].
  - done.
Qed.

Lemma max_expiry_behaves requested :
  behaves (max_expiry_task requested)
    (p ← in_pool Datatypes.id;
     mret (match requested with
           | Some e => if 0 <? e then u32 (as_secs (SessionPool.session_expiry p)) else 0
           | None => 0
           end)).
Proof.
  unfold max_expiry_task. destruct requested as [e|]; [destruct (0 <? e) |]; [| done ..].
  apply behaves_under. by intros w.
Qed.

Lemma negotiate_expiry_same requested p ack :
  negotiate_expiry requested
    (match requested with Some e => if 0 <? e then p else 0 | None => 0 end) ack
  = negotiate_expiry requested p ack.
Proof. unfold negotiate_expiry. destruct requested as [e|]; [by destruct (0 <? e) | done]. Qed.

(** What follows the part of a handler that works on the shared state. *)
Lemma run_shared_bind {A C} (p : Shared A) (k : A -> Handling C) m s :
  behaves p m -> run (shared_task p ≫= k) s = (in_world m ≫= fun a => run (k a)) s.
Proof. intros Hp. rewrite run_bind. apply bind_pointwise; [by apply behaves_shared | done]. Qed.

(** The answer to a CONNECT whose session was chosen. *)
Lemma connect_tail_behaves r present expiry (ack : ConnAck) :
  behaves
    (let ack := if (present : bool) then set_session_present true ack else ack in
     shared_task (session_write r (act
       match expiry with
       | Some expiry => with_session r (session_set_session_expiry expiry)
       | None => mret tt
       end)) ≫= fun _ =>
     act (send (Packet.ConnAck ack)) ≫= fun _ => mret (Some r))
    (let ack := if (present : bool) then set_session_present true ack else ack in
     in_world (match expiry with
               | Some expiry => with_session r (session_set_session_expiry expiry)
               | None => mret tt
               end) ≫= fun _ =>
     send (Packet.ConnAck ack) ≫= fun _ => mret (Some r)).
Proof. cbv zeta. behave. Qed.

Lemma handle_connect_behaves uuid connect :
  behaves (handle_connect_task uuid connect) (handle_connect uuid connect).
Proof.
  intros [w c]. unfold handle_connect_task, handle_connect.
  etrans; [apply run_shared_bind, behaves_under, behaves_act |].
  change ((in_world (in_pool id) ≫= ?k) (w, c)) with (k (session_pool w) (w, c)). cbv beta.
  destruct (negotiate_keep_alive _ _ _ _) as [keep_alive ack].
  etrans; [apply run_shared_bind, max_expiry_behaves |].
  change ((in_world (in_pool id ≫= fun p => mret (@?f p)) ≫= ?k) (w, c)) with (k (f (session_pool w)) (w, c)).
  cbv beta. rewrite negotiate_expiry_same.
  destruct (negotiate_expiry _ _ _) as [expiry ack1].
  destruct (match Connect.client_id connect with [] => _ | _ => _ end) as [id ack2].
  etrans; [apply run_shared_bind, behaves_under, admit_behaves |].
  change ((in_world (in_pool Datatypes.id ≫= ?f) ≫= ?k) (w, c)) with ((in_world (f (session_pool w)) ≫= k) (w, c)).
  change ((in_world (in_pool Datatypes.id) ≫= ?k) (w, c)) with (k (session_pool w) (w, c)). cbv beta.
  change ((in_world (gets config ≫= ?f) ≫= ?k) (w, c)) with ((in_world (f (config w)) ≫= k) (w, c)).
  change ((in_world (gets config) ≫= ?k) (w, c)) with (k (config w) (w, c)). cbv beta.
  change ((in_world (get_active id ≫= ?f) ≫= ?k) (w, c))
    with ((in_world (f (SessionPool.active (session_pool w) !! id)) ≫= k) (w, c)).
  change ((in_world (get_active id) ≫= ?k) (w, c)) with (k (SessionPool.active (session_pool w) !! id) (w, c)).
  cbv beta. destruct (negb _ && _).
  - assert (H : forall m n : M (World * Conn) BrokerError unit,
      behaves (act m ≫= fun _ => act n ≫= fun _ => mret (@None Z)) (m ≫= fun _ => n ≫= fun _ => mret None))
      by (intros; behave). apply H.
  - etrans; [apply bind_pointwise; [intros; apply in_world_seq | reflexivity] |]. rewrite sequence_assoc.
    apply bind_pointwise; [done |]. intros [r present] [w' c'].
    exact (connect_tail_behaves r present expiry ack2 (w', c')).
Qed.

Lemma pre_connect_behaves uuid packet :
  behaves (handle_pre_connect_task uuid packet) (handle_pre_connect uuid packet).
Proof.
  destruct packet; cbn [handle_pre_connect_task handle_pre_connect]; try solve [behave].
  apply behaves_bind; [behave |]. intros accepting. destruct (negb accepting); [behave |].
  apply handle_connect_behaves.
Qed.

Lemma session_id_behaves r : behaves (session_id_task r) (s ← session_at r; mret (Session.id s)).
Proof. apply behaves_under, behaves_act. Qed.

(** A handler that first asks for the identifier of its session. *)
Lemma behaves_with_id {A} r (k : rstring -> Handling A) f :
  (forall s, behaves (k (Session.id s)) (f s)) ->
  behaves (id ← shared_task (session_id_task r); k id) (s ← in_world (session_at r); f s).
Proof.
  intros Hk s. etrans; [apply run_shared_bind, session_id_behaves |].
  etrans; [apply bind_pointwise; [intros; apply in_world_seq | reflexivity] |].
  rewrite sequence_assoc. apply bind_pointwise; [done |]. intros a [w c]. apply Hk.
Qed.

Lemma parked_pointwise id s :
  in_world (deactivate id ≫= fun _ => mret tt) s = (in_world (deactivate id) ≫= fun _ => mret tt) s.
Proof. etrans; [apply in_world_seq |]. apply bind_pointwise; [done |]. by intros a [w c]. Qed.

Lemma behaves_parked id : behaves (shared_task (park_task id)) (in_world (deactivate id) ≫= fun _ => mret tt).
Proof. intros s. etrans; [apply behaves_shared, park_behaves |]. apply parked_pointwise. Qed.

Lemma handle_packet_behaves packet r : behaves (handle_packet_task packet r) (handle_packet packet r).
Proof.
  destruct packet; cbn [handle_packet_task handle_packet]; try solve [behave].
  - apply behaves_with_id. intros s0. apply behaves_bind; [behave |]. intros q.
    apply behaves_bind; [behave |]. intros u. apply behaves_shared, route_publish_behaves.
  - apply behaves_bind.
    { destruct (bool_decide _); apply behaves_shared; [behave | apply initiate_will_behaves]. }
    intros u. apply behaves_with_id. intros s0. apply behaves_parked.
  - apply behaves_with_id. intros s0. behave.
  - apply behaves_with_id. intros s0. behave.
Qed.

Lemma lose_client_behaves r : behaves (shared_task (lose_client_task r)) (lose_client r).
Proof.
  intros s. assert (H : behaves (lose_client_task r)
    (s ← session_at r; initiate_will r ≫= fun _ => deactivate (Session.id s) ≫= fun _ => mret tt)).
  { eapply behaves_iff; [apply behaves_bind; [apply session_id_behaves | intros id];
      apply behaves_bind; [apply initiate_will_behaves | intros u; apply park_behaves] |].
    intros w. by rewrite sequence_assoc. }
  etrans; [apply behaves_shared, H |]. unfold lose_client.
  etrans; [apply in_world_seq |]. apply bind_pointwise; [done |]. intros s0 s1.
  etrans; [apply in_world_seq |]. apply bind_pointwise; [done |]. intros u s2. apply parked_pointwise.
Qed.

Lemma on_control_behaves m : behaves (on_control_task m) (on_control m).
Proof.
  destruct m as [reason|p]; cbn [on_control_task on_control]; [| behave].
  apply behaves_bind; [behave |]. intros [r|]; [| behave]. apply behaves_with_id. intros s.
  apply behaves_bind; [| intros u; behave]. destruct (bool_decide _); [behave | apply behaves_parked].
Qed.

Lemma on_keep_alive_behaves : behaves on_keep_alive_task on_keep_alive.
Proof.
  apply behaves_bind; [behave |]. intros [r|]; [| behave]. apply behaves_bind; [apply lose_client_behaves | behave].
Qed.

Lemma on_close_behaves : behaves on_close_task on_close.
Proof.
  apply behaves_bind; [behave |]. intros [r|]; [| behave]. apply behaves_bind; [apply lose_client_behaves | behave].
Qed.

Lemma resend_behaves r pending : behaves (resend_pending_task r pending) (resend_pending r pending).
Proof.
  induction pending as [|[id p] pending IH]; [done |]. cbn [resend_pending_task resend_pending].
  apply behaves_bind; [behave |]. intros p1. apply behaves_bind; [behave |]. intros p2.
  apply behaves_bind; [behave |]. intros u. by apply behaves_bind; [behave |].
Qed.

Lemma serve_behaves r : behaves (serve_task r) (serve r).
Proof.
  eapply behaves_iff.
  - apply behaves_bind; [apply behaves_under, behaves_act |]. intros pending.
    apply behaves_bind; [apply resend_behaves |]. intros u.
    apply behaves_bind; [apply behaves_act |]. intros u1.
    apply behaves_bind; [apply behaves_act |]. intros u2. apply behaves_ret.
  - intros s. unfold take_session, serve. rewrite sequence_assoc. apply bind_pointwise; [done |]. intros s0 s1.
    cbn [take_control_receiver drain_pending]. by rewrite !sequence_assoc.
Qed.

Lemma on_packet_behaves uuid packet : behaves (on_packet_task uuid packet) (on_packet uuid packet).
Proof.
  apply behaves_bind; [behave |]. intros connected. destruct (negb connected).
  - apply behaves_bind; [apply pre_connect_behaves |]. intros [r|]; [apply serve_behaves | behave].
  - apply behaves_bind; [behave |]. intros [r|]; [| behave].
    apply behaves_bind; [apply handle_packet_behaves | behave].
Qed.
End tasks.
