(* ===== verification/BrokerLocks.v ===== *)
(** * The locks of the broker protect its shared state *)
(** Every piece of code that a task of [BrokerTasks] runs between two points at
    which it waits reads the pool, the topic tree and a session only under their
    locks, and writes them only under a lock for writing ([disciplined]).  The
    tasks also take no lock twice and give back what they take ([clean]).  What
    follows for the interleaved runs is in [BrokerRaces]. *)

From S2P Require Import Prelude Bytes Codec Fixed Property MacroFacts Subscriptions.
From S2P Require Import Acks Publish Connect Packet Topic Stream Runtime Sessions Tasks Broker.
From S2P Require Import BrokerTasks.

(** A search leaves the tree as it is, also when it panics. *)
Lemma collect_reads topic : forall i t, (collect_matches i topic t).2 = t.
Proof.
  assert (Hb : forall A C (m : Tree A) (k : A -> Tree C),
    (forall t, (m t).2 = t) -> (forall a t, (k a t).2 = t) -> forall t, ((m ≫= k) t).2 = t).
  { intros A C m k Hm Hk t. unfold mbind, M_bind. specialize (Hm t).
    destruct (m t) as [[a|e| |] t1]; simpl in *; subst; [apply Hk | done ..]. }
  assert (Hn : forall i t, (node_at i t).2 = t) by done.
  assert (Hh : forall n t, (hash_subscribers n t).2 = t).
  { intros n. unfold hash_subscribers. destruct (_ !! _); [apply Hb |]; done. }
  induction topic as [|s topic IH]; intros i; cbn [collect_matches]; apply Hb; try done; intros n.
  - by apply Hb.
  - apply Hb; [destruct (_ !! _); [apply IH | done] |]. intros r1.
    apply Hb; [destruct (_ !! _); [apply IH | done] |]. intros r2. by apply Hb.
Qed.

Section races.
Context {B : Buf} {HI : HashIter} {T : Transport} {R : Runtime} {D : DrainOrder}.
Implicit Types w : World.

(** ** What a lock protects *)

Definition no_sessions : SessionPool := SessionPool.mk 0 0 0 ∅ ∅ 0 0.

(** The state that no lock of the model protects: channels, tokens, clock and
    configuration. *)
Definition outside w : World :=
  w <| session_pool := no_sessions |> <| topic_tree := [] |> <| sessions := ∅ |>.

(** Two states that a task with the locks [held] cannot tell apart; which
    sessions exist is known to the allocator. *)
Record agree (held : locks lock) w1 w2 : Prop := {
  ag_outside : outside w1 = outside w2;
  ag_dom : dom (sessions w1) = dom (sessions w2);
  ag_pool : BrokerLock.Pool ∈ held.*1 -> session_pool w1 = session_pool w2;
  ag_tree : BrokerLock.Tree ∈ held.*1 -> topic_tree w1 = topic_tree w2;
  ag_session r : BrokerLock.Session r ∈ held.*1 -> sessions w1 !! r = sessions w2 !! r;
}.

(** The part of the state behind a lock is as it was. *)
Definition kept (l : lock) w w' : Prop :=
  match l with
  | BrokerLock.Pool => session_pool w' = session_pool w
  | BrokerLock.Tree => topic_tree w' = topic_tree w
  | BrokerLock.Session r => forall s, sessions w !! r = Some s -> sessions w' !! r = Some s
  end.

(** Only what is locked for writing may change. *)
Definition untouched (held : locks lock) w w' : Prop :=
  forall l, (l, Mode.Write) ∉ held -> kept l w w'.

#[export] Instance untouched_preorder held : PreOrder (untouched held).
Proof.
  split.
  - intros w [] _; simpl; auto.
  - intros w1 w2 w3 H1 H2 l Hl. specialize (H1 l Hl). specialize (H2 l Hl).
    destruct l; simpl in *; [congruence | congruence | auto].
Qed.

Section respects.
Context {S C E : Type} (world : S -> World) (own : S -> C).

(** A piece of code with the locks [held]: its outcome and effect depend on what
    it has locked only, and it changes only what it has locked for writing. *)
Definition respects {A} (held : locks lock) (m : M S E A) : Prop :=
  forall s1 s2, own s1 = own s2 -> agree held (world s1) (world s2) ->
  (m s1).1 = (m s2).1 /\ own (m s1).2 = own (m s2).2
  /\ agree held (world (m s1).2) (world (m s2).2) /\ untouched held (world s1) (world (m s1).2).

(** A program all pieces of which respect the locks held there. *)
Fixpoint disciplined {A} (held : locks lock) (p : prog lock S E A) : Prop :=
  match p with
  | Value _ => True
  | Do m k => respects held m /\ forall x, disciplined held (k x)
  | Lock l m k => disciplined ((l, m) :: held) k
  | Unlock l m k => disciplined (drop_guard l m held) k
  end.

Lemma respects_ret {A} held (a : A) : respects held (mret a).
Proof. intros s1 s2 Ho Ha. by split_and!. Qed.

Lemma respects_lift {A} held (o : outcome E A) : respects held (lift o).
Proof. intros s1 s2 Ho Ha. by split_and!. Qed.

Lemma respects_bind {A X} held (m : M S E X) (k : X -> M S E A) :
  respects held m -> (forall x, respects held (k x)) -> respects held (m ≫= k).
Proof.
  intros Hm Hk s1 s2 Ho Ha. destruct (Hm s1 s2 Ho Ha) as (E1 & Ho1 & Ha1 & Hu1).
  unfold mbind, M_bind. destruct (m s1) as [o1 t1], (m s2) as [o2 t2]; simpl in *. subst o2.
  destruct o1 as [x|e| |]; simpl; [| by split_and! ..].
  destruct (Hk x t1 t2 Ho1 Ha1) as (E2 & Ho2 & Ha2 & Hu2). split_and!; [done .. |]. by etrans.
Qed.

(** The programs of the tasks: disciplined, and with the locks of the start at
    the end, none of which is taken twice. *)
Definition clean {A} (held : locks lock) (p : prog lock S E A) : Prop :=
  disciplined held p /\ balanced held p.

Lemma disciplined_bind {A X} held (p : prog lock S E X) (k : X -> prog lock S E A) Q :
  disciplined held p -> tidy held p Q -> (forall x h, Q x h -> disciplined h (k x)) ->
  disciplined held (p ≫= k).
Proof.
  intros Hp Hb Hk. revert held Hp Hb.
  induction p as [a|Y m f IH|l m p IH|l m p IH]; intros h Hp Hb; simpl in *.
  - by apply Hk.
  - destruct Hp as [Hm Hf]. split; [done |]. intros x. apply IH; auto.
  - destruct Hb. by apply IH.
  - by apply IH.
Qed.

Lemma clean_bind {A X} held (p : prog lock S E X) (k : X -> prog lock S E A) :
  clean held p -> (forall x, clean held (k x)) -> clean held (p ≫= k).
Proof.
  intros [Hp Hb] Hk. split; [| apply balanced_bind; [done | apply Hk]].
  eapply disciplined_bind; [done | exact Hb |]. intros x h ->. apply Hk.
Qed.

Lemma clean_ret {A} held (a : A) : clean held (mret a).
Proof. done. Qed.

Lemma clean_act {A} held (m : M S E A) : respects held m -> clean held (act m).
Proof. intros Hm. by split; [split |]. Qed.

Lemma clean_under {A} held l m (p : prog lock S E A) :
  l ∉ held.*1 -> clean ((l, m) :: held) p -> clean held (under l m p).
Proof.
  intros Hl [Hp Hb]. split; [| by apply balanced_under].
  by eapply (disciplined_bind ((l, m) :: held) p).
Qed.
End respects.

(** ** Code of the shared state *)

Abbreviation fair := (respects (E := Empty_set) (fun w : World => w) (fun _ => tt)).
Abbreviation clean_shared := (clean (E := Empty_set) (fun w : World => w) (fun _ => tt)).

Implicit Types held : locks lock.

Lemma written_held held l : (l, Mode.Write) ∈ held -> l ∈ held.*1.
Proof. intros H. by apply (list_elem_of_fmap_2 fst) in H. Qed.

(** Code that depends on the state outside the locks and changes nothing else. *)
Lemma fair_outside {A} held (m : M World Empty_set A) :
  (forall w1 w2, outside w1 = outside w2 -> (m w1).1 = (m w2).1 /\ outside (m w1).2 = outside (m w2).2) ->
  (forall w, session_pool (m w).2 = session_pool w /\ topic_tree (m w).2 = topic_tree w
     /\ sessions (m w).2 = sessions w) -> fair held m.
Proof.
  intros Ho Hk w1 w2 _ [Ao Ad Ap At As]. destruct (Ho w1 w2 Ao) as [E1 E2].
  destruct (Hk w1) as (P1 & T1 & S1), (Hk w2) as (P2 & T2 & S2). split_and!; [done | done | |].
  - split; rewrite ?P1, ?P2, ?T1, ?T2, ?S1, ?S2; auto.
  - intros [] _; simpl; rewrite ?P1, ?T1, ?S1; auto.
Qed.

Lemma fair_clock held : fair held (gets clock).
Proof. apply fair_outside; [| done]. intros w1 w2 E. split; [| done]. simpl. f_equal. by injection E. Qed.

Lemma fair_config held : fair held (gets config).
Proof. apply fair_outside; [| done]. intros w1 w2 E. split; [| done]. simpl. f_equal. by injection E. Qed.

Lemma fair_accepting held : fair held (gets accept_connections).
Proof. apply fair_outside; [| done]. intros w1 w2 E. split; [| done]. simpl. f_equal. by injection E. Qed.

Lemma fair_no_fuel {A} held : fair held (@no_fuel World Empty_set A).
Proof. by apply fair_outside. Qed.

Lemma fair_cancel held token : fair held (modify (fun w => w <| cancelled := cancel token (cancelled w) |>)).
Proof.
  apply fair_outside; [| done]. intros w1 w2 E. split; [done |]. destruct w1, w2. unfold outside in *.
  simpl in *. injection E as -> -> -> -> -> -> ->. done.
Qed.

Lemma fair_channel held : fair held new_channel.
Proof.
  apply fair_outside; [| done]. intros w1 w2 E. destruct w1, w2. unfold outside in *. simpl in *.
  injection E as -> -> -> -> -> -> ->. done.
Qed.

Lemma fair_token held delay_secs will : fair held (
  w ← get;
  let token := next_token w in
  modify (fun w => w <| next_token := token + 1 |> <| delayed_wills :=
    <[token := (clock w + secs delay_secs, will)]> (delayed_wills w) |>) ≫= fun _ => mret token).
Proof.
  apply fair_outside; [| done]. intros w1 w2 E. destruct w1, w2. unfold outside in *. simpl in *.
  injection E as -> -> -> -> -> -> ->. done.
Qed.

Lemma fair_session_at held r : BrokerLock.Session r ∈ held.*1 -> fair held (session_at r).
Proof.
  intros Hl w1 w2 _ Ha. unfold session_at, mbind, M_bind, get, lift, unwrap. simpl.
  rewrite (ag_session _ _ _ Ha r Hl). by split_and!.
Qed.

Lemma agree_update held r s w1 w2 :
  agree held w1 w2 ->
  agree held (w1 <| sessions := <[r := s]> (sessions w1) |>) (w2 <| sessions := <[r := s]> (sessions w2) |>).
Proof.
  intros [Ao Ad Ap At As]. split; simpl; auto.
  - by rewrite !dom_insert_L, Ad.
  - intros r' Hr'. destruct (decide (r' = r)) as [->|]; [by rewrite !lookup_insert_eq |].
    rewrite !lookup_insert_ne by done. auto.
Qed.

Lemma fair_with_session held r f : (BrokerLock.Session r, Mode.Write) ∈ held -> fair held (with_session r f).
Proof.
  intros Hl. apply respects_bind; [by apply fair_session_at, written_held |]. intros s w1 w2 _ Ha.
  split_and!; [done | done | by apply agree_update |]. intros [| |r'] Hn; simpl; [done | done |].
  intros s' Hs'. rewrite lookup_insert_ne; [done | congruence].
Qed.

(** A new session is nobody's yet. *)
Lemma fair_new_session held s : fair held (new_session s).
Proof.
  intros w1 w2 _ Ha. assert (E : new_ref (sessions w1) = new_ref (sessions w2)).
  { unfold new_ref. by rewrite (ag_dom _ _ _ Ha). }
  unfold new_session, mbind, M_bind, get, modify, mret, M_ret. cbn [fst snd]. rewrite <- E.
  split_and!; [done | done | by apply agree_update |].
  intros [| |r'] _; simpl; [done | done |]. intros s' Hs'. rewrite lookup_insert_ne; [done |].
  intros <-. by rewrite new_ref_fresh in Hs'.
Qed.

Lemma fair_in_pool {A} held (f : SessionPool -> A) : BrokerLock.Pool ∈ held.*1 -> fair held (in_pool f).
Proof. intros Hl w1 w2 _ Ha. simpl. rewrite (ag_pool _ _ _ Ha Hl). by split_and!. Qed.

Lemma fair_with_pool held f : (BrokerLock.Pool, Mode.Write) ∈ held -> fair held (with_pool f).
Proof.
  intros Hl w1 w2 _ Ha. split_and!; [done | done | |].
  - destruct Ha as [Ao Ad Ap At As]. split; simpl; auto. intros H. by rewrite Ap.
  - by intros [] Hn; simpl.
Qed.

Lemma fair_tree_write {A} held (m : M TopicTree Empty_set A) :
  (BrokerLock.Tree, Mode.Write) ∈ held -> fair held (in_tree m).
Proof.
  intros Hl w1 w2 _ Ha. unfold in_tree. rewrite (ag_tree _ _ _ Ha (written_held _ _ Hl)).
  destruct (m (topic_tree w2)) as [o t]. split_and!; [done | done | |].
  - destruct Ha as [Ao Ad Ap At As]. split; simpl; auto.
  - by intros [] Hn; simpl.
Qed.

Lemma fair_tree_read {A} held (m : M TopicTree Empty_set A) :
  (forall t, (m t).2 = t) -> BrokerLock.Tree ∈ held.*1 -> fair held (in_tree m).
Proof.
  intros Hm Hl w1 w2 _ Ha. unfold in_tree. rewrite (ag_tree _ _ _ Ha Hl). specialize (Hm (topic_tree w2)).
  destruct (m (topic_tree w2)) as [o t]. simpl in *. subst t. split_and!; [done | done | |].
  - destruct Ha as [Ao Ad Ap At As]. split; simpl; auto.
  - intros [] _; simpl; [done | by rewrite (ag_tree _ _ _ Ha Hl) | done].
Qed.

(** The channel of a session is found through the session. *)
Lemma fair_channel_of {A} held r (k : Session -> chan SessionControl -> M World Empty_set A) :
  BrokerLock.Session r ∈ held.*1 -> (forall s c, fair held (k s c)) ->
  fair held (s ← session_at r; w ← get; c ← lift (unwrap (channels w !! Session.sender s)); k s c).
Proof.
  intros Hl Hk. apply respects_bind; [by apply fair_session_at |]. intros s w1 w2 _ Ha.
  assert (E : channels w1 = channels w2) by (pose proof (ag_outside _ _ _ Ha) as E; by injection E).
  rewrite !bind_get, E.
  exact (respects_bind _ _ held _ (k s) (respects_lift _ _ held _) (Hk s) w1 w2 eq_refl Ha).
Qed.

Lemma fair_put_channel held ch c : fair held (modify (fun w => w <| channels := <[ch := c]> (channels w) |>)).
Proof.
  apply fair_outside; [| done]. intros w1 w2 E. split; [done |]. destruct w1, w2. unfold outside in *.
  simpl in *. injection E as -> -> -> -> -> -> ->. done.
Qed.

Create HintDb fair.
#[local] Hint Resolve respects_ret respects_lift fair_clock fair_config fair_accepting fair_no_fuel
  fair_cancel fair_channel fair_token fair_session_at fair_with_session fair_new_session fair_in_pool
  fair_with_pool fair_tree_write fair_put_channel written_held clean_ret clean_act : fair.
#[local] Hint Extern 1 (_ ∈ _) => solve [simpl; rewrite ?list.elem_of_cons; tauto] : fair.

Ltac not_held := simpl; rewrite ?not_elem_of_cons; repeat split; try done; apply not_elem_of_nil.

(** Case analyses and sequences, down to the accesses, whose locks are looked up. *)
Ltac discipline :=
  repeat first
    [ progress (auto with fair)
    | simple apply respects_bind; [| intros ?]
    | simple apply clean_bind; [| intros ?]
    | progress unfold pool_read, pool_write, session_read, session_write
    | simple apply clean_under; [not_held |]
    | progress cbv zeta
    | match goal with
      | |- respects _ _ _ (match ?x with _ => _ end) => destruct x
      | |- clean _ _ _ (match ?x with _ => _ end) => destruct x
      | |- clean _ _ _ (act _) => simple apply clean_act
      end ].

Lemma fair_try_send held r m : BrokerLock.Session r ∈ held.*1 -> fair held (try_send_control r m).
Proof. intros Hl. apply fair_channel_of; [done |]. intros s c. discipline. Qed.
#[local] Hint Resolve fair_try_send : fair.

Lemma fair_send held r m : BrokerLock.Session r ∈ held.*1 -> fair held (send_control r m).
Proof.
  intros Hl. apply respects_bind; [by apply fair_try_send |]. intros [|]; [discipline |].
  apply fair_channel_of; [done |]. intros s c. discipline.
Qed.

Lemma fair_deliver held r out : BrokerLock.Session r ∈ held.*1 -> fair held (deliver r out).
Proof. intros Hl. unfold deliver. discipline. Qed.

Lemma fair_cancel_will held r : (BrokerLock.Session r, Mode.Write) ∈ held -> fair held (cancel_pending_will r).
Proof. intros Hl. unfold cancel_pending_will. discipline. Qed.
#[local] Hint Resolve fair_send fair_deliver fair_cancel_will : fair.

Lemma fair_set_will held r token : (BrokerLock.Session r, Mode.Write) ∈ held -> fair held (set_pending_will r token).
Proof. intros Hl. unfold set_pending_will. discipline. Qed.

Lemma fair_resume held r connect : (BrokerLock.Session r, Mode.Write) ∈ held -> fair held (resume_session r connect).
Proof. intros Hl. unfold resume_session. discipline. Qed.

Lemma fair_remove held id : (BrokerLock.Pool, Mode.Write) ∈ held -> fair held (remove id).
Proof. intros Hl. unfold remove. discipline. Qed.

Lemma fair_get_active held id : BrokerLock.Pool ∈ held.*1 -> fair held (get_active id).
Proof. apply fair_in_pool. Qed.

Lemma fair_subscribe held sub id : (BrokerLock.Tree, Mode.Write) ∈ held -> fair held (handle_subscribe sub id).
Proof.
  intros Hl. unfold handle_subscribe. cbv zeta.
  generalize (match SubAck_new_with_packet_id (Subscribe.packet_id sub) with Ok suback => suback | _ => dflt end).
  induction (Subscribe.filter sub) as [|f fs IH]; intros ack; cbn [subscribe_each]; discipline.
Qed.

Lemma fair_unsubscribe held unsub id :
  (BrokerLock.Tree, Mode.Write) ∈ held -> fair held (handle_unsubscribe unsub id).
Proof.
  intros Hl. unfold handle_unsubscribe. generalize (dflt <| UnsubAck.packet_id := Unsubscribe.packet_id unsub |>).
  induction (Unsubscribe.topics unsub) as [|f fs IH]; intros ack; cbn [unsubscribe_each]; discipline.
Qed.
#[local] Hint Resolve fair_set_will fair_resume fair_remove fair_get_active fair_subscribe fair_unsubscribe : fair.

(** ** The tasks *)

Abbreviation pool_locked := [(BrokerLock.Pool, Mode.Write)].

Lemma clean_add r : clean_shared pool_locked (add_task r).
Proof. unfold add_task. discipline. Qed.

Lemma clean_activate id : clean_shared pool_locked (activate_task id).
Proof. unfold activate_task. discipline. Qed.

Lemma clean_deactivate id : clean_shared pool_locked (deactivate_task id).
Proof. unfold deactivate_task. discipline. Qed.
#[local] Hint Resolve clean_add clean_activate clean_deactivate : fair.

Lemma clean_park id : clean_shared [] (park_task id).
Proof. unfold park_task. discipline. Qed.

Lemma clean_route_each publish sender subs :
  clean_shared [(BrokerLock.Pool, Mode.Read)] (route_each_task publish sender subs).
Proof.
  induction subs as [|sub subs IH]; simpl; [discipline |]. apply clean_bind; [| done].
  unfold route_to_task, deliver_task. discipline.
Qed.

Lemma clean_route publish sender : clean_shared [] (route_publish_task publish sender).
Proof.
  unfold route_publish_task. apply clean_bind; [| intros subs; discipline; apply clean_route_each].
  apply clean_under; [not_held |]. apply clean_act, fair_tree_read; [| auto with fair].
  intros t. apply collect_reads.
Qed.

Lemma clean_publish_will will : clean_shared [] (publish_will_task will).
Proof. unfold publish_will_task. discipline. all: apply clean_route. Qed.

Lemma clean_initiate_will r : clean_shared [] (initiate_will_task r).
Proof. unfold initiate_will_task. discipline. all: apply clean_publish_will. Qed.

Lemma clean_start_session id connect k : clean_shared pool_locked (start_session_task id connect k).
Proof. unfold start_session_task. discipline. Qed.

Lemma clean_takeover r : clean_shared pool_locked (handle_takeover_task r).
Proof. unfold handle_takeover_task. discipline. Qed.
#[local] Hint Resolve clean_start_session clean_takeover : fair.

Lemma clean_admit id connect k : clean_shared pool_locked (admit_task id connect k).
Proof. unfold admit_task, choose_session_task. discipline. Qed.

Lemma clean_max_expiry requested : clean_shared [] (max_expiry_task requested).
Proof. unfold max_expiry_task. discipline. Qed.

Lemma clean_session_id r : clean_shared [] (session_id_task r).
Proof. unfold session_id_task. discipline. Qed.

Lemma clean_lose_client r : clean_shared [] (lose_client_task r).
Proof. unfold lose_client_task. discipline; [apply clean_session_id | apply clean_initiate_will | apply clean_park]. Qed.

(** ** Handlers *)

Abbreviation fair_handler := (respects (E := BrokerError) (fun s : World * Conn => s.1) snd).
Abbreviation clean_handler := (clean (E := BrokerError) (fun s : World * Conn => s.1) snd).

Lemma fair_in_world {A} held (m : M World Empty_set A) : fair held m -> fair_handler held (in_world m).
Proof.
  intros Hm [w1 c1] [w2 c2] Ho Ha. simpl in Ho. subst c2. destruct (Hm w1 w2 eq_refl Ha) as (E1 & _ & Ha1 & Hu1).
  unfold in_world. destruct (m w1) as [o1 t1], (m w2) as [o2 t2]; simpl in *. subst o2.
  by destruct o1 as [a|[]| |]; split_and!.
Qed.

Lemma fair_on_stream {A} held (m : M PacketStream StreamError A) : fair_handler held (on_stream m).
Proof.
  intros [w1 c1] [w2 c2] Ho Ha. simpl in Ho. subst c2. unfold on_stream. destruct (m (c_stream c1)) as [o s].
  by split_and!.
Qed.

Lemma fair_send_packet held p : fair_handler held (send p).
Proof. apply fair_on_stream. Qed.

Lemma fair_local held f : fair_handler held (local f).
Proof. intros [w1 c1] [w2 c2] Ho Ha. simpl in Ho. subst c2. by split_and!. Qed.

Lemma fair_variable {A} held (f : Conn -> A) : fair_handler held (variable f).
Proof. intros [w1 c1] [w2 c2] Ho Ha. simpl in Ho. subst c2. by split_and!. Qed.

Lemma fair_raise {A} held e : fair_handler held (@raise _ _ A e).
Proof. by apply respects_lift. Qed.

Lemma clean_shared_task {A} held (p : prog lock World Empty_set A) :
  clean_shared held p -> clean_handler held (shared_task p).
Proof.
  unfold clean, balanced. generalize (fun (_ : A) h => h = held) as Q. intros Q. revert held.
  induction p as [a|X m f IH|l m p IH|l m p IH]; intros held; simpl; [done | | | apply IH].
  - intros [[Hm Hd] Ht]. split; [split; [by apply fair_in_world |] |]; intros x; by apply IH.
  - intros [Hd [Hl Ht]]. split; [| split; [done |]]; by apply IH.
Qed.

#[local] Hint Resolve fair_in_world fair_on_stream fair_send_packet fair_local fair_variable fair_raise : fair.
#[local] Hint Resolve clean_session_id clean_park clean_route clean_initiate_will clean_max_expiry
  clean_lose_client clean_admit : fair.
Ltac discipline_handler := repeat first [progress discipline | simple apply clean_shared_task].

Lemma clean_pre_connect uuid packet : clean_handler [] (handle_pre_connect_task uuid packet).
Proof.
  destruct packet; cbn [handle_pre_connect_task]; discipline_handler.
  all: unfold handle_connect_task; discipline_handler.
Qed.

Lemma clean_handle_packet packet r : clean_handler [] (handle_packet_task packet r).
Proof. destruct packet; cbn [handle_packet_task]; discipline_handler. Qed.

Lemma clean_resend r pending : clean_handler [] (resend_pending_task r pending).
Proof. induction pending as [|[id p] pending IH]; cbn [resend_pending_task]; discipline_handler. Qed.
#[local] Hint Resolve clean_pre_connect clean_handle_packet clean_resend : fair.

Lemma clean_on_packet uuid packet : clean_handler [] (on_packet_task uuid packet).
Proof. unfold on_packet_task, serve_task, take_session. discipline_handler. Qed.

Lemma clean_on_close : clean_handler [] on_close_task.
Proof. unfold on_close_task. discipline_handler. Qed.

Lemma clean_on_timer : clean_handler [] on_keep_alive_task.
Proof. unfold on_keep_alive_task. discipline_handler. Qed.

Lemma clean_on_control m : clean_handler [] (on_control_task m).
Proof. destruct m; cbn [on_control_task]; discipline_handler. Qed.

Lemma clean_on_read uuid o p : on_read_task uuid o = Some p -> clean_handler [] p.
Proof.
  destruct o as [[packet|]|e| |]; intros E; try done; apply (inj Some) in E as <-.
  - apply clean_on_packet.
  - apply clean_on_close.
  - apply clean_bind; [apply clean_on_close | intros; discipline_handler].
  - apply clean_act, respects_lift.
Qed.
End races.
