(* ===== verification/BrokerInterleaved.v ===== *)
(** * The broker under every interleaving *)
(** The runs of [Broker], where a branch is one step, are among the runs of the
    interrupted tasks of [BrokerTasks]. *)

From S2P Require Import Prelude Bytes Codec Fixed Property MacroFacts Subscriptions.
From S2P Require Import Acks Publish Connect Packet Topic Stream Runtime Sessions Tasks Broker.
From S2P Require Import BrokerLogic BrokerTasks BrokerLocks.

Section inclusion.
Context {B : Buf} {HI : HashIter} {T : Transport} {R : Runtime} {D : DrainOrder}.

(** ** A branch that is not interrupted *)

Lemma held_nil (ts : gmap Z Task) :
  (forall i t, ts !! i = Some t -> held_by t = []) -> held_in ts = [].
Proof.
  intros H. unfold held_in. assert (Hl : Forall (fun e => held_by e.2 = []) (map_to_list ts)).
  { apply list.Forall_forall. intros [i t] Hin%elem_of_map_to_list. by apply (H i). }
  induction Hl as [|e l He _ IH]; [done |]. rewrite fmap_cons. cbn [concat]. by rewrite He, IH.
Qed.

(** No task but [i] holds a lock. *)
Definition calm_but (i : Z) (ts : gmap Z Task) : Prop :=
  forall j t, j <> i -> ts !! j = Some t -> held_by t = [].

Lemma others_calm i ts t : calm_but i ts -> others i (<[i := t]> ts) = [].
Proof.
  intros H. apply held_nil. intros j t'. rewrite delete_insert_eq.
  destruct (decide (j = i)) as [->|]; [by rewrite lookup_delete_eq |]. rewrite lookup_delete_ne by done. by apply H.
Qed.

Lemma settle_branch_insert i ts t res : settle_branch i (<[i := t]> ts) res = settle_branch i ts res.
Proof.
  destruct res as [[p h|[[]|e| |]] [w c]]; simpl; by rewrite ?insert_insert_eq, ?delete_insert_eq.
Qed.

Lemma settle_will_insert i ts t res : settle_will i (<[i := t]> ts) res = settle_will i ts res.
Proof. destruct res as [[p h|o] w]; simpl; by rewrite ?insert_insert_eq, ?delete_insert_eq. Qed.

(** A program that holds no other lock than it says, among tasks without locks,
    runs to its end as [run] says. *)
Lemma branch_alone i ts Q p : forall held w c o s,
  calm_but i ts -> tidy held p Q -> run p (w, c) = (o, s) -> o <> OutOfFuel ->
  rtc fine_step (mkTasks w (<[i := Busy c p held]> ts)) (settle_branch i ts (Finished o, s)).
Proof.
  induction p as [a|X m f IH|l m p IH|l m p IH]; intros held w c o s Hc Ht Hr Ho.
  all: assert (Hstep : forall q res, advance [] held q (w, c) = Some res ->
    fine_step (mkTasks w (<[i := Busy c q held]> ts)) (settle_branch i ts res))
    by (intros q res Hres; rewrite <- (settle_branch_insert i ts (Busy c q held));
        eapply fine_advance; [apply lookup_insert_eq | cbn [t_tasks t_world]; by rewrite others_calm]).
  - injection Hr as <- <-. apply rtc_once. by apply Hstep.
  - simpl in Hr. unfold mbind, M_bind in Hr. specialize (Hstep (Do m f)). simpl in Hstep.
    destruct (m (w, c)) as [[x|e| |] [w1 c1]]; try (injection Hr as <- <-).
    + eapply rtc_l; [by apply Hstep |]. by apply (IH x held).
    + apply rtc_once. by apply Hstep.
    + apply rtc_once. by apply Hstep.
    + done.
  - destruct Ht as [Hl Ht]. eapply rtc_l; [| by apply (IH ((l, m) :: held))].
    apply (Hstep _ (Running p ((l, m) :: held), (w, c))). simpl. by rewrite admits_fresh.
  - eapply rtc_l; [| by apply (IH (drop_guard l m held))].
    by apply (Hstep _ (Running p (drop_guard l m held), (w, c))).
Qed.

Lemma will_alone i ts Q p : forall held w o w',
  calm_but i ts -> tidy held p Q -> run p w = (o, w') -> o <> OutOfFuel ->
  rtc fine_step (mkTasks w (<[i := Publishing p held]> ts)) (settle_will i ts (Finished o, w')).
Proof.
  induction p as [a|X m f IH|l m p IH|l m p IH]; intros held w o w' Hc Ht Hr Ho.
  all: assert (Hstep : forall q res, advance [] held q w = Some res ->
    fine_step (mkTasks w (<[i := Publishing q held]> ts)) (settle_will i ts res))
    by (intros q res Hres; rewrite <- (settle_will_insert i ts (Publishing q held));
        eapply fine_publish; [apply lookup_insert_eq | cbn [t_tasks t_world]; by rewrite others_calm]).
  - injection Hr as <- <-. apply rtc_once. by apply Hstep.
  - simpl in Hr. unfold mbind, M_bind in Hr. specialize (Hstep (Do m f)). simpl in Hstep.
    destruct (m w) as [[x|e| |] w1]; try (injection Hr as <- <-).
    + eapply rtc_l; [by apply Hstep |]. by apply (IH x held).
    + apply rtc_once. by apply Hstep.
    + apply rtc_once. by apply Hstep.
    + done.
  - destruct Ht as [Hl Ht]. eapply rtc_l; [| by apply (IH ((l, m) :: held))].
    apply (Hstep _ (Running p ((l, m) :: held), w)). simpl. by rewrite admits_fresh.
  - eapply rtc_l; [| by apply (IH (drop_guard l m held))].
    by apply (Hstep _ (Running p (drop_guard l m held), w)).
Qed.

(** ** Atomic runs are among the interleaved ones *)

(** The system between two branches. *)
Definition at_rest (sys : System) : Tasks := mkTasks (shared sys) (Waiting <$> clients sys).

Lemma rest_calm i sys : calm_but i (t_tasks (at_rest sys)).
Proof. intros j t _. simpl. rewrite lookup_fmap_Some. by intros (c & <- & _). Qed.

Lemma rest_held sys : held_in (t_tasks (at_rest sys)) = [].
Proof. apply held_nil. intros j t. simpl. rewrite lookup_fmap_Some. by intros (c & <- & _). Qed.

Lemma settle_rest i sys o s sys' :
  settle i sys (o, s) = Some sys' ->
  o <> OutOfFuel /\ settle_branch i (t_tasks (at_rest sys)) (Finished o, s) = at_rest sys'.
Proof.
  destruct s as [w c], o as [[]|e| |]; intros [= <-]; (split; [done |]); unfold at_rest; simpl;
    by rewrite ?fmap_insert, ?fmap_delete.
Qed.

(** A branch of the atomic model, interrupted by nobody. *)
Lemma branch_included i sys w c p m sys' :
  behaves p m -> balanced [] p -> settle i sys (m (w, c)) = Some sys' ->
  rtc fine_step (mkTasks w (<[i := Busy c p []]> (t_tasks (at_rest sys)))) (at_rest sys').
Proof.
  intros Hp Hb Hs. destruct (m (w, c)) as [o s] eqn:E. apply settle_rest in Hs as [Ho <-].
  eapply branch_alone; [apply rest_calm | exact Hb | by rewrite Hp | done].
Qed.

Lemma on_read_behaves fuel uuid1 uuid2 w c o s p :
  read fuel uuid1 (c_stream c) = (o, s) -> on_read_task uuid2 o = Some p ->
  run p (w, c <| c_stream := s |>) = on_read fuel uuid1 uuid2 (w, c).
Proof.
  intros Hr Hp. unfold on_read. rewrite Hr. destruct o as [[packet|]|e| |]; try done;
    apply (inj Some) in Hp as <-.
  - apply on_packet_behaves.
  - apply on_close_behaves.
  - rewrite run_bind. apply bind_pointwise; [apply on_close_behaves | intros; apply run_act].
  - apply run_act.
Qed.

Lemma rest_lookup sys i c : clients sys !! i = Some c -> t_tasks (at_rest sys) !! i = Some (Waiting c).
Proof. intros Hi. simpl. by rewrite lookup_fmap, Hi. Qed.

Lemma will_included timer token sys o w' :
  run_delayed_will timer token (shared sys) = (o, w') -> o <> OutOfFuel ->
  rtc fine_step (at_rest sys) (at_rest (mkSystem w' (clients sys))).
Proof.
  intros Hr Ho. unfold run_delayed_will in Hr. rewrite bind_get in Hr.
  destruct (delayed_wills (shared sys) !! token) as [[deadline will]|] eqn:Ew;
    [| injection Hr as <- <-; by destruct sys].
  cbv zeta in Hr. destruct (is_cancelled _ _ && _) eqn:Ec.
  { injection Hr as <- <-. apply andb_true_iff in Ec as [Ec _]. apply rtc_once.
    by apply (fine_cancel (at_rest sys) token deadline will). }
  destruct (Z.leb_spec deadline (clock (shared sys))) as [Hd|]; [| injection Hr as <- <-; by destruct sys].
  pose (i := new_ref (t_tasks (at_rest sys))).
  assert (Hi : t_tasks (at_rest sys) !! i = None) by apply new_ref_fresh.
  eapply rtc_l; [by apply (fine_due (at_rest sys) i token deadline will) |].
  assert (E : at_rest (mkSystem w' (clients sys)) = settle_will i (t_tasks (at_rest sys)) (Finished o, w')).
  { unfold settle_will, at_rest. cbn [t_tasks shared clients] in *. by rewrite delete_id. }
  rewrite E. eapply will_alone; [apply rest_calm | apply clean_publish_will | | done].
  rewrite publish_will_behaves. exact Hr.
Qed.

Lemma task_step_included sys sys' : task_step sys sys' -> rtc fine_step (at_rest sys) (at_rest sys').
Proof.
  intros Hstep. destruct Hstep as [i c fuel u1 u2 sys' Hi Hs|i c ch q m q' sys' Hi Hch Hq Hr Hs
    |i c sys' Hi Hs|timer token o w' Hr Ho|d Hd].
  - destruct (read fuel u1 (c_stream c)) as [o s] eqn:Hr.
    destruct (on_read_task u2 o) as [p|] eqn:Hp.
    + eapply rtc_l; [by apply (fine_read (at_rest sys) i c fuel u1 u2 o s p); [apply rest_lookup | |] |].
      rewrite <- (on_read_behaves fuel u1 u2 (shared sys) c o s p Hr Hp) in Hs.
      eapply (branch_included _ _ _ _ _ (run p)); [done | by eapply clean_on_read | exact Hs].
    + destruct o as [[]| | |]; try done. unfold on_read in Hs. by rewrite Hr in Hs.
  - eapply rtc_l; [by apply (fine_control (at_rest sys) i c ch q m q'); [apply rest_lookup | | |] |].
    eapply branch_included; [apply on_control_behaves | apply clean_on_control | exact Hs].
  - eapply rtc_l; [by apply (fine_timer (at_rest sys) i c), rest_lookup |].
    eapply branch_included; [apply on_keep_alive_behaves | apply clean_on_timer | exact Hs].
  - by eapply will_included.
  - apply rtc_once. by apply (fine_tick (at_rest sys)).
Qed.

Lemma step_included sys sys' : step sys sys' -> rtc fine_step (at_rest sys) (at_rest sys').
Proof.
  intros Hstep. destruct Hstep as [i t Hi|sys' Hs|cmd o w' Hr].
  - apply rtc_once. unfold at_rest at 2. cbn [clients shared]. rewrite fmap_insert.
    apply (fine_accept (at_rest sys)). simpl. by rewrite lookup_fmap, Hi.
  - by apply task_step_included.
  - apply rtc_once. apply (fine_command (at_rest sys) cmd o w' Hr). destruct cmd; try done. by rewrite rest_held.
Qed.

Lemma runs_included cfg sys : reachable cfg sys -> fine_reachable cfg (at_rest sys).
Proof.
  assert (H : forall s s', rtc step s s' -> rtc fine_step (at_rest s) (at_rest s')).
  { induction 1 as [|s1 s2 s3 H12 _ IH]; [done |]. etrans; [by apply step_included | done]. }
  intros Hr. apply H in Hr. unfold fine_reachable, fine_start. unfold at_rest at 1 in Hr. simpl in Hr.
  by rewrite fmap_empty in Hr.
Qed.
End inclusion.
