(* ===== verification/BrokerRely.v ===== *)
(** * What the tasks of the broker rely on *)
(** The part of the broker's invariant that holds also while a task has the pool
    locked and is changing it ([steady]), what a task may do to the shared state
    with and without that lock ([guarantee]), what it relies on meanwhile
    ([relies]), and the rules for the pieces of the handlers. *)

From S2P Require Import Prelude Bytes Codec Fixed Property MacroFacts Subscriptions.
From S2P Require Import Acks Publish Connect Packet Topic Stream Runtime Sessions Tasks Broker.
From S2P Require Import BrokerLogic BrokerTasks BrokerLocks.

Section rely.
Context {B : Buf} {HI : HashIter} {T : Transport} {R : Runtime} {D : DrainOrder}.
Implicit Types w : World.

(** ** The invariant while the pool changes *)

(** The state with the pool left out. *)
Definition unpooled w : World := w <| session_pool := no_sessions |>.

Definition entries_ok w : Prop :=
  forall id r b, pool_view (session_pool w) id = Some (r, b) ->
  exists s, sessions w !! r = Some s /\ Session.id s = id.

Record steady w : Prop := {
  st_world : world_ok (unpooled w);
  st_within : within w;
  st_entries : entries_ok w;
}.

Lemma steady_world_ok w : steady w -> pool_ok w -> world_ok w.
Proof. intros [[_ _ Ht Hs Hd] Hc _] Hp. by split. Qed.

Lemma pool_ok_none w : session_pool w = no_sessions -> pool_ok w.
Proof. intros E. split; rewrite E; simpl; [by rewrite map_size_empty .. | done | done]. Qed.

Lemma world_ok_steady w : world_ok w -> steady w.
Proof.
  intros [Hp Hc Ht Hs Hd]. split; [| done |].
  - split; [| | done | done | done]; simpl.
    + by apply pool_ok_none.
    + intros k _ Hk. simpl. rewrite map_size_empty. unfold is_u32 in Hk. lia.
  - intros id r b Hv. destruct (p_filed w Hp id r b Hv) as (s & ? & ? & _). eauto.
Qed.

(** ** What a step may do *)

(** A channel without room whose receiver is there. *)
Definition stuffed (q : chan SessionControl) : Prop := chan_free q <= 0 /\ chan_closed q = false.

(** Any task: channels stay, full ones as they are; a receiver that a session has
    is one it had, or that of a new channel. *)
Record stir w w' : Prop := {
  sr_channels ch : is_Some (channels w !! ch) -> is_Some (channels w' !! ch);
  sr_stuffed ch q : channels w !! ch = Some q -> stuffed q -> channels w' !! ch = Some q;
  sr_receiver r s' ch : sessions w' !! r = Some s' -> Session.receiver s' = Some ch ->
    channels w !! ch = None \/ exists s, sessions w !! r = Some s /\ Session.receiver s = Some ch;
}.

(** A session as other tasks see it. *)
Definition alike (s s' : Session) : Prop :=
  Session.id s' = Session.id s /\ Session.connected s' = Session.connected s
  /\ Session.sender s' = Session.sender s.

(** Without the lock of the pool: the pool stays, and what it says of sessions. *)
Definition keeps_pool w w' : Prop :=
  session_pool w' = session_pool w
  /\ forall r s, sessions w !! r = Some s -> exists s', sessions w' !! r = Some s' /\ alike s s'.

#[export] Instance stir_preorder : PreOrder stir.
Proof.
  split.
  - intros w. split; [done | done |]. eauto.
  - intros w1 w2 w3 [C1 S1 R1] [C2 S2 R2]. split; [auto | auto |]. intros r s' ch Hr Hs.
    destruct (R2 r s' ch Hr Hs) as [Hn|(s & Hs2 & Hch)]; [| by eapply R1].
    left. apply eq_None_not_Some. intros Hsome. apply C1 in Hsome as [q Hq]. congruence.
Qed.

#[export] Instance keeps_pool_preorder : PreOrder keeps_pool.
Proof.
  split.
  - intros w. split; [done |]. intros r s Hs. by exists s.
  - intros w1 w2 w3 [P1 S1] [P2 S2]. split; [congruence |]. intros r s Hs.
    destruct (S1 r s Hs) as (s2 & Hs2 & ? & ? & ?). destruct (S2 r s2 Hs2) as (s3 & Hs3 & ? & ? & ?).
    exists s3. split; [done |]. split_and!; congruence.
Qed.

Definition guarantee (owner : bool) w w' : Prop :=
  extends w w' /\ steady w' /\ stir w w' /\ (owner = false -> keeps_pool w w').

Definition relies (owner : bool) w w' : Prop :=
  extends w w' /\ (steady w -> steady w') /\ (owner = true -> keeps_pool w w').

#[export] Instance relies_preorder b : PreOrder (relies b).
Proof.
  split.
  - intros w. by split_and!.
  - intros w1 w2 w3 (E1 & S1 & K1) (E2 & S2 & K2). split_and!; [by etrans | auto |].
    intros Hb. etrans; auto.
Qed.

(** Steps of two tasks that do not both own the pool. *)
Lemma guarantee_relies b b' w w' : b && b' = false -> guarantee b w w' -> relies b' w w'.
Proof. intros Hb (? & ? & ? & Hk). split_and!; [done | done |]. intros ->. apply Hk. by destruct b. Qed.

(** ** Facts that last *)

Definition lasting (owner : bool) (F : World -> Prop) : Prop := forall w w', relies owner w w' -> F w -> F w'.

Lemma lasting_stable b F : stable F -> lasting b F.
Proof. intros HF w w' [He _]. by apply HF. Qed.

Lemma lasting_and b F G : lasting b F -> lasting b G -> lasting b (fun w => F w /\ G w).
Proof. intros HF HG w w' Hr [? ?]. split; eauto. Qed.

Lemma pool_ok_kept w w' : keeps_pool w w' -> pool_ok w -> pool_ok w'.
Proof.
  intros [Hp Hs] [Ha Hi Hd Hf]. split; rewrite ?Hp; try done. intros id r b Hv.
  destruct (Hf id r b Hv) as (s & Hr & Hid & Hc). destruct (Hs r s Hr) as (s' & Hr' & ? & ? & ?).
  exists s'. split_and!; congruence.
Qed.

Lemma lasting_pool_ok : lasting true pool_ok.
Proof. intros w w' (_ & _ & Hk). by apply pool_ok_kept, Hk. Qed.

(** ** Steps of a piece of code *)

(** A piece of code that starts in [P], with the lock of the pool or without. *)
Definition does {A} (owner : bool) (P : World -> Prop) (m : M World Empty_set A) (Q : A -> World -> Prop) : Prop :=
  forall w, steady w -> P w ->
  match m w with
  | (Ok a, w') => guarantee owner w w' /\ Q a w'
  | (OutOfFuel, _) => True
  | (_, w') => guarantee owner w w' /\ (owner = true -> pool_ok w')
  end.

(** Code that neither reads nor writes the pool. *)
Definition blind {A} (m : M World Empty_set A) : Prop :=
  forall w p, m (w <| session_pool := p |>) = ((m w).1, (m w).2 <| session_pool := p |>).

(** Code that leaves the sessions in the pool alike. *)
Definition calm {A} (m : M World Empty_set A) : Prop := forall w, stir w (m w).2 /\ keeps_pool w (m w).2.

Lemma world_twice w p q : w <| session_pool := p |> <| session_pool := q |> = w <| session_pool := q |>.
Proof. by destruct w. Qed.

Lemma world_same_pool w : w <| session_pool := session_pool w |> = w.
Proof. by destruct w. Qed.

(** Facts about the rest of the state. *)
Definition unpooled_fact (F : World -> Prop) : Prop := forall w, F w <-> F (unpooled w).

Lemma extends_unpooled w w' : extends (unpooled w) (unpooled w') -> extends w w'.
Proof. done. Qed.

Lemma steady_kept w w' :
  steady w -> keeps_pool w w' -> config w' = config w -> world_ok (unpooled w') -> steady w'.
Proof.
  intros [_ Hc He] [Hp Hs] Hcfg Hw. split; [done | |].
  - intros k. rewrite Hp, Hcfg. apply Hc.
  - intros id r b. rewrite Hp. intros Hv. destruct (He id r b Hv) as (s & Hr & Hid).
    destruct (Hs r s Hr) as (s' & Hr' & ? & _). exists s'. split; [done | congruence].
Qed.

Lemma does_calm {A} P (m : M World Empty_set A) Q :
  blind m -> calm m -> sound P m Q -> unpooled_fact P -> (forall a, unpooled_fact (Q a)) ->
  does false P m Q.
Proof.
  intros Hb Hc Hm HP HQ w Hw Hp. specialize (Hb w no_sessions). destruct (Hc w) as [Hstir Hkeep].
  destruct (Hm (unpooled w) (st_world w Hw) (proj1 (HP w) Hp)) as (Hw' & He & Hres).
  unfold unpooled in Hw', He, Hres. rewrite Hb in Hw', He, Hres. simpl in Hw', He, Hres.
  assert (Hg : guarantee false w (m w).2).
  { split_and!; [done | | done | done]. eapply steady_kept; [done | done | apply He | done]. }
  destruct (m w) as [[a|e| |] w1]; simpl in *; [| done .. ].
  split; [done |]. by apply HQ.
Qed.

(** *** Code outside the pool *)

Lemma blind_bind {A C} (m : M World Empty_set A) (k : A -> M World Empty_set C) :
  blind m -> (forall a, blind (k a)) -> blind (m ≫= k).
Proof.
  intros Hm Hk w p. unfold mbind, M_bind. rewrite Hm. destruct (m w) as [[a|e| |] w1]; simpl; try done. apply Hk.
Qed.

Lemma blind_ret {A} (a : A) : blind (mret a).
Proof. done. Qed.
Lemma blind_lift {A} (o : outcome Empty_set A) : blind (lift o).
Proof. done. Qed.
Lemma blind_session_at r : blind (session_at r).
Proof. done. Qed.
Lemma blind_with_session r f : blind (with_session r f).
Proof. intros w p. unfold with_session, session_at, mbind, M_bind, get, lift. simpl. by destruct (sessions w !! r). Qed.
Lemma blind_in_tree {A} (m : M TopicTree Empty_set A) : blind (in_tree m).
Proof. intros w p. unfold in_tree. simpl. by destruct (m (topic_tree w)). Qed.
Lemma blind_modify f : (forall w p, f (w <| session_pool := p |>) = (f w) <| session_pool := p |>) -> blind (modify f).
Proof. intros Hf w p. unfold modify. cbn [fst snd]. f_equal. apply Hf. Qed.

Lemma calm_bind {A C} (m : M World Empty_set A) (k : A -> M World Empty_set C) :
  calm m -> (forall a, calm (k a)) -> calm (m ≫= k).
Proof.
  intros Hm Hk w. destruct (Hm w) as [S1 K1]. unfold mbind, M_bind.
  destruct (m w) as [[a|e| |] w1]; simpl in *; try done. destruct (Hk a w1). split; by etrans.
Qed.

Lemma calm_still {A} (m : M World Empty_set A) :
  (forall w, let w' := (m w).2 in sessions w' = sessions w /\ session_pool w' = session_pool w
    /\ channels w' = channels w) -> calm m.
Proof.
  intros Hm w. destruct (Hm w) as (Es & Ep & Ec). split.
  - split; rewrite ?Es, ?Ec; eauto.
  - split; [done |]. rewrite Es. intros r s Hs. by exists s.
Qed.

Lemma calm_ret {A} (a : A) : calm (mret a).
Proof. by apply calm_still. Qed.
Lemma calm_lift {A} (o : outcome Empty_set A) : calm (lift o).
Proof. by apply calm_still. Qed.
Lemma calm_session_at r : calm (session_at r).
Proof. by apply calm_still. Qed.
Lemma calm_tree {A} (m : M TopicTree Empty_set A) : calm (in_tree m).
Proof. apply calm_still. intros w. unfold in_tree. by destruct (m (topic_tree w)). Qed.

(** An update that other tasks do not notice; the receiver may be taken. *)
Definition gentle (s s' : Session) : Prop :=
  alike s s' /\ (Session.receiver s' = Session.receiver s \/ Session.receiver s' = None).

Lemma update_calm w r s s' :
  sessions w !! r = Some s -> gentle s s' ->
  stir w (w <| sessions := <[r := s']> (sessions w) |>) /\ keeps_pool w (w <| sessions := <[r := s']> (sessions w) |>).
Proof.
  intros Hr [Ha Hrec]. split.
  - split; [done | done |]. simpl. intros r' t ch. rewrite lookup_insert_Some.
    intros [[<- <-]|[_ Ht]] Hch; right; [| by exists t]. exists s. split; [done |].
    destruct Hrec; congruence.
  - split; [done |]. simpl. intros r' t Ht. destruct (decide (r' = r)) as [->|].
    + exists s'. rewrite lookup_insert_eq. split; [done |]. congruence.
    + exists t. by rewrite lookup_insert_ne.
Qed.

Lemma calm_update_session r f : (forall s, gentle s (f s)) -> calm (with_session r f).
Proof.
  intros Hf w. unfold with_session, session_at. unfold mbind, M_bind, get, lift, unwrap, modify. simpl.
  destruct (sessions w !! r) as [s|] eqn:Hs; simpl; [by apply (update_calm w r s) | done].
Qed.

(** An update that was computed from the session. *)
Lemma calm_put {A} r (g : Session -> Session) (k : Session -> unit -> M World Empty_set A) :
  (forall s, gentle s (g s)) -> (forall s u, calm (k s u)) ->
  calm (s ← session_at r; with_session r (fun _ => g s) ≫= k s).
Proof.
  intros Hg Hk w. destruct (sessions w !! r) as [s|] eqn:Hs.
  - rewrite (session_at_run _ _ _ _ Hs), (with_session_run _ _ _ _ _ Hs).
    destruct (update_calm w r s (g s) Hs (Hg s)) as [S1 K1].
    destruct (Hk s tt (w <| sessions := <[r := g s]> (sessions w) |>)). split; by etrans.
  - unfold session_at, mbind, M_bind, get, lift, unwrap. by rewrite Hs.
Qed.

(** Sending leaves full channels alone. *)
Lemma send_calm w ch q q' :
  channels w !! ch = Some q -> 0 < chan_free q ->
  let w' := w <| channels := <[ch := q']> (channels w) |> in stir w w' /\ keeps_pool w w'.
Proof.
  intros Hq Hf. split.
  - split; simpl; [intros; by apply insert_some | | eauto].
    intros ch' q0 Hq0 [Hs _]. rewrite lookup_insert_ne; [done |]. intros <-. simplify_eq. lia.
  - split; [done |]. intros r s Hs. by exists s.
Qed.

Lemma try_send_outcome r m w s q :
  sessions w !! r = Some s -> channels w !! Session.sender s = Some q ->
  try_send_control r m w
  = match chan_try_send m q with
    | Some q' => (Ok true, w <| channels := <[Session.sender s := q']> (channels w) |>)
    | None => (Ok false, w)
    end.
Proof.
  intros Hs Hq. unfold try_send_control. rewrite (session_at_run _ _ _ _ Hs), bind_get.
  unfold lift, unwrap. rewrite Hq. unfold mbind at 1, M_bind at 1. by destruct (chan_try_send m q).
Qed.

Lemma try_send_missing r m w :
  (forall s q, sessions w !! r = Some s -> channels w !! Session.sender s = Some q -> False) ->
  try_send_control r m w = (Panic, w).
Proof.
  intros H. unfold try_send_control, session_at, mbind, M_bind, get, lift, unwrap.
  destruct (sessions w !! r) as [s|] eqn:Hs; [| done]. specialize (H s).
  destruct (channels w !! Session.sender s) as [q|] eqn:Hq; [by destruct (H q) | done].
Qed.

Lemma try_send_cases r w :
  (exists s q, sessions w !! r = Some s /\ channels w !! Session.sender s = Some q)
  \/ (forall s q, sessions w !! r = Some s -> channels w !! Session.sender s = Some q -> False).
Proof.
  destruct (sessions w !! r) as [s|]; [| right; by intros]. destruct (channels w !! Session.sender s) as [q|] eqn:E; [left; eauto |].
  right. intros s' q [= <-]. congruence.
Qed.

Lemma calm_try_control r m : calm (try_send_control r m).
Proof.
  intros w. destruct (try_send_cases r w) as [(s & q & Hs & Hq)|Hn]; [| by rewrite try_send_missing].
  rewrite (try_send_outcome r m w s q Hs Hq). pose proof (chan_try_send_law m q) as Hlaw.
  destruct (Z.ltb_spec 0 (chan_free q)); [| rewrite Hlaw; done].
  destruct Hlaw as (q' & -> & _). by apply (send_calm w _ q q').
Qed.

Lemma blind_try_send r m : blind (try_send_control r m).
Proof.
  intros w p. destruct (try_send_cases r w) as [(s & q & Hs & Hq)|Hn].
  - rewrite (try_send_outcome r m w s q Hs Hq). etrans; [by apply (try_send_outcome r m _ s q) |].
    by destruct (chan_try_send m q).
  - rewrite (try_send_missing r m w Hn). by apply try_send_missing.
Qed.

Create HintDb calm.
#[local] Hint Resolve blind_ret blind_lift blind_session_at blind_with_session blind_in_tree blind_try_send
  calm_ret calm_lift calm_session_at calm_tree calm_try_control : calm.

Ltac calm_steps :=
  repeat first
    [ progress auto with calm
    | simple apply blind_bind; [| intros ?] | simple apply calm_bind; [| intros ?]
    | progress cbv zeta
    | match goal with
      | |- blind (match ?x with _ => _ end) => destruct x
      | |- calm (match ?x with _ => _ end) => destruct x
      end ].

Lemma blind_deliver r out : blind (deliver r out).
Proof. unfold deliver. calm_steps. Qed.
Lemma calm_delivery r out : calm (deliver r out).
Proof. unfold deliver. calm_steps. Qed.

(** The end of [send_control], which waits while the channel is full. *)
Lemma blind_waiting r : blind (s ← session_at r; w ← get;
  c ← lift (unwrap (channels w !! Session.sender s)); if chan_closed c then mret tt else no_fuel).
Proof.
  intros w p. unfold session_at, mbind, M_bind, get, lift, unwrap. simpl.
  destruct (sessions w !! r) as [s|]; [| done]. destruct (channels w !! Session.sender s) as [c|]; [| done].
  by destruct (chan_closed c).
Qed.

Lemma calm_waiting r : calm (s ← session_at r; w ← get;
  c ← lift (unwrap (channels w !! Session.sender s)); if chan_closed c then mret tt else no_fuel).
Proof.
  apply calm_still. intros w. unfold session_at, mbind, M_bind, get, lift, unwrap. simpl.
  destruct (sessions w !! r) as [s|]; [| done]. destruct (channels w !! Session.sender s) as [c|]; [| done].
  by destruct (chan_closed c).
Qed.

Lemma blind_send_control r m : blind (send_control r m).
Proof. apply blind_bind; [auto with calm |]. intros []; [auto with calm | apply blind_waiting]. Qed.
Lemma calm_send_control r m : calm (send_control r m).
Proof. apply calm_bind; [auto with calm |]. intros []; [auto with calm | apply calm_waiting]. Qed.

Lemma blind_cancel_will r : blind (cancel_pending_will r).
Proof. unfold cancel_pending_will. calm_steps. by apply blind_modify. Qed.

Lemma calm_cancel_will r : calm (cancel_pending_will r).
Proof.
  unfold cancel_pending_will. calm_steps.
  - apply calm_update_session. intros s. split; [done | by left].
  - by apply calm_still.
Qed.

Lemma blind_set_will r token : blind (set_pending_will r token).
Proof. apply blind_bind; [apply blind_cancel_will | auto with calm]. Qed.
Lemma calm_set_will r token : calm (set_pending_will r token).
Proof.
  apply calm_bind; [apply calm_cancel_will |]. intros u. apply calm_update_session. intros s.
  split; [done | by left].
Qed.

Lemma blind_subscribe_each id filters : forall suback, blind (subscribe_each id filters suback).
Proof. induction filters as [|f fs IH]; intros suback; simpl; calm_steps. Qed.
Lemma calm_subscribing id filters : forall suback, calm (subscribe_each id filters suback).
Proof. induction filters as [|f fs IH]; intros suback; simpl; calm_steps. Qed.
Lemma blind_unsubscribe_each id topics : forall unsuback, blind (unsubscribe_each id topics unsuback).
Proof. induction topics as [|f fs IH]; intros unsuback; simpl; calm_steps. Qed.
Lemma calm_unsubscribing id topics : forall unsuback, calm (unsubscribe_each id topics unsuback).
Proof. induction topics as [|f fs IH]; intros unsuback; simpl; calm_steps. Qed.

(** *** Triples *)

Abbreviation pool_owner := (owner BrokerLock.Pool).
Abbreviation shared_wp := (wp BrokerLock.Pool pool_ok relies guarantee).

(** The program, started in [P] with the locks [held], leaves them as they were
    and [Q]. *)
Definition triple {A} (held : locks lock) (P : World -> Prop) (p : prog lock World Empty_set A)
    (Q : A -> World -> Prop) : Prop :=
  forall w, steady w -> P w -> shared_wp held p (fun a h w => h = held /\ steady w /\ Q a w) w.

Lemma triple_ret {A} held (a : A) (Q : A -> World -> Prop) :
  lasting (pool_owner held) (Q a) -> triple held (Q a) (mret a) Q.
Proof. intros HQ w Hw Hp w1 Hr. split_and!; [done | by apply Hr | by eapply HQ]. Qed.

Lemma triple_act {A} held P (m : M World Empty_set A) Q :
  lasting (pool_owner held) P -> (forall a, lasting (pool_owner held) (Q a)) ->
  does (pool_owner held) P m Q -> triple held P (act m) Q.
Proof.
  intros HP HQ Hm w Hw Hp w1 Hr. pose proof (proj1 (proj2 Hr) Hw) as Hw1.
  specialize (Hm w1 Hw1 (HP w w1 Hr Hp)). destruct (m w1) as [[a|e| |] w2]; try done.
  destruct Hm as [Hg Hq]. split; [done |]. intros w3 Hr3. split_and!; [done | | by eapply HQ].
  apply (proj1 (proj2 Hr3)). apply Hg.
Qed.

Lemma triple_bind {A C} held P (p : prog lock World Empty_set A) (k : A -> prog lock World Empty_set C) Q S :
  triple held P p Q -> (forall a, triple held (Q a) (k a) S) -> triple held P (p ≫= k) S.
Proof.
  intros Hp Hk w Hw HP. apply wp_bind; [apply _ |]. eapply wp_mono; [| by apply Hp].
  intros a h w1 (-> & Hw1 & HQ). by apply Hk.
Qed.

Lemma triple_weaken {A} held (P P' : World -> Prop) (p : prog lock World Empty_set A) (Q Q' : A -> World -> Prop) :
  triple held P' p Q' -> (forall w, steady w -> P w -> P' w) -> (forall a w, Q' a w -> Q a w) -> triple held P p Q.
Proof.
  intros Hp HP HQ w Hw H. eapply wp_mono; [| by apply Hp; [| apply HP]].
  intros a h w1 (? & ? & ?). split_and!; auto.
Qed.

(** Taking any lock but that of the pool for writing. *)
Lemma triple_under {A} held l m P (p : prog lock World Empty_set A) Q :
  (l ∉ held.*1) -> (l, m) <> (BrokerLock.Pool, Mode.Write) ->
  lasting (pool_owner held) P -> (forall a, lasting (pool_owner held) (Q a)) ->
  triple ((l, m) :: held) P p Q -> triple held P (under l m p) Q.
Proof.
  intros Hl Hne HP HQ Hp w Hw HPw w1 Hr _. pose proof (proj1 (proj2 Hr) Hw) as Hw1.
  apply wp_bind; [apply _ |]. eapply wp_mono; [| by apply Hp; [| by eapply HP]].
  intros a h w2 (-> & Hw2 & HQ2) w3 Hr3. split; [intros -> ->; by destruct Hne |].
  assert (Hb : pool_owner ((l, m) :: held) = pool_owner held).
  { unfold owner. apply bool_decide_ext. rewrite elem_of_cons. split; [| by right]. intros [[= <- <-]|?]; [| done].
    by destruct Hne. }
  rewrite Hb in Hr3. pose proof (proj1 (proj2 Hr3) Hw2) as Hw3.
  rewrite drop_guard_cons by done. intros w4 Hr4. split_and!; [done | by apply Hr4 |].
  eapply HQ; [exact Hr4 |]. by eapply HQ.
Qed.

(** Taking the lock of the pool for writing: the pool is consistent then, and
    has to be when the lock is given back. *)
Lemma triple_pool_write {A} P (p : prog lock World Empty_set A) (Q : A -> World -> Prop) :
  stable P -> (forall a, stable (Q a)) ->
  triple [(BrokerLock.Pool, Mode.Write)] (fun w => P w /\ pool_ok w) p (fun a w => Q a w /\ pool_ok w) ->
  triple [] P (pool_write p) Q.
Proof.
  intros HP HQ Hp w Hw HPw w1 Hr Hfree. pose proof (proj1 (proj2 Hr) Hw) as Hw1.
  apply wp_bind; [apply _ |]. eapply wp_mono; [| apply Hp; [done |]].
  - intros a h w2 (-> & Hw2 & HQ2 & Hok) w3 Hr3. change (pool_owner _) with true in Hr3.
    split; [intros _ _; by eapply lasting_pool_ok |]. pose proof (proj1 (proj2 Hr3) Hw2) as Hw3.
    change (drop_guard _ _ _) with (@nil (lock * mode)). intros w4 Hr4.
    split_and!; [done | by apply Hr4 |]. eapply (lasting_stable false); [by apply HQ | exact Hr4 |].
    by eapply (lasting_stable true); [apply HQ | exact Hr3 |].
  - split; [| by apply Hfree]. by eapply (lasting_stable false); [| exact Hr |].
Qed.

(** *** Without the lock of the pool *)

(** Locks that may be held while the lock of a session is taken. *)
Definition outside (held : locks lock) : Prop :=
  pool_owner held = false /\ forall r, BrokerLock.Session r ∉ held.*1.

Lemma outside_nil : outside [].
Proof. split; [done |]. intros r. apply not_elem_of_nil. Qed.

Lemma outside_pool_read : outside [(BrokerLock.Pool, Mode.Read)].
Proof. split; [done |]. intros r. simpl. rewrite list_elem_of_singleton. done. Qed.

Lemma session_owner r m held : pool_owner ((BrokerLock.Session r, m) :: held) = pool_owner held.
Proof. unfold owner. apply bool_decide_ext. rewrite elem_of_cons. split; [| by right]. by intros [[=]|?]. Qed.

Lemma triple_quiet {A} held P (m : M World Empty_set A) Q :
  pool_owner held = false -> stable P -> (forall a, stable (Q a)) -> blind m -> calm m -> sound P m Q ->
  unpooled_fact P -> (forall a, unpooled_fact (Q a)) -> triple held P (act m) Q.
Proof.
  intros Hh HP HQ Hb Hc Hm HP' HQ'. apply triple_act; rewrite ?Hh.
  - by apply lasting_stable.
  - intros a. by apply lasting_stable.
  - by apply does_calm.
Qed.

Lemma triple_in_session {A} held r md P (m : M World Empty_set A) Q :
  outside held -> stable P -> (forall a, stable (Q a)) -> blind m -> calm m -> sound P m Q ->
  unpooled_fact P -> (forall a, unpooled_fact (Q a)) ->
  triple held P (under (BrokerLock.Session r) md (act m)) Q.
Proof.
  intros [Hh Hr] HP HQ Hb Hc Hm HP' HQ'. apply triple_under; [apply Hr | done | .. ]; rewrite ?Hh.
  - by apply lasting_stable.
  - intros a. by apply lasting_stable.
  - apply triple_quiet; try done. by rewrite session_owner.
Qed.

Definition always {A} : A -> World -> Prop := fun _ _ => True.

Lemma stable_always {A} (a : A) : stable (always a).
Proof. by intros w w'. Qed.

Lemma sound_always {A} P (m : M World Empty_set A) Q : sound P m Q -> sound P m always.
Proof. intros Hm. eapply sound_weaken; [exact Hm | done | done]. Qed.

Lemma triple_always {A} held P (p : prog lock World Empty_set A) Q : triple held P p Q -> triple held P p always.
Proof. intros Hp. eapply triple_weaken; [exact Hp | done | done]. Qed.

Lemma triple_nop held P : stable P -> triple held P (mret tt) always.
Proof.
  intros HP. eapply triple_weaken; [apply (triple_ret held tt always); by apply lasting_stable, stable_always | done | done].
Qed.

(** A stable fact is kept in mind. *)
Lemma triple_keep {A} held F P (p : prog lock World Empty_set A) Q :
  stable F -> triple held P p Q -> triple held (fun w => F w /\ P w) p (fun a w => F w /\ Q a w).
Proof.
  intros HF Hp w Hw [Hf HP]. eapply wp_mono; [| eapply (wp_frame _ _ _ _ F); [.. | exact Hf | by apply Hp]].
  - intros a h w1 (? & ? & ? & ?). by split_and!.
  - intros b w1 w2 [He _]. by apply HF.
  - intros b w1 w2 [He _]. by apply HF.
Qed.

Lemma triple_seq {A C} held F (p : prog lock World Empty_set A) (k : A -> prog lock World Empty_set C) P Q S :
  stable F -> triple held P p Q -> (forall w, F w -> P w) ->
  (forall a, triple held (fun w => F w /\ Q a w) (k a) S) -> triple held F (p ≫= k) S.
Proof.
  intros HF Hp HFP Hk. eapply triple_bind; [| exact Hk].
  eapply triple_weaken; [apply (triple_keep held F P); [done | exact Hp] | | ]; cbv beta.
  - intros w _ Hf. split; [done | by apply HFP].
  - done.
Qed.

Lemma triple_session_id held r : outside held -> triple held (valid r) (session_id_task r) always.
Proof.
  intros Hh. apply triple_in_session; try done.
  - apply stable_valid.
  - calm_steps.
  - calm_steps.
  - eapply sound_bind; [apply sound_session_at |]. intros s. apply sound_done.
Qed.

Lemma sound_deliver_tracked publish q r :
  q <> QoSLevel.AtMostOnce ->
  sound (valid r)
    (s ← session_at r;
     let '(packet_id, s') := next_packet_id s in
     with_session r (fun _ => s') ≫= fun _ =>
     out ← lift (or_keep (publish_set_qos q publish)
       (publish_set_packet_id (Some packet_id) (publish_set_qos q publish)));
     with_session r (track_qos_publish packet_id out) ≫= fun _ => deliver r out) always.
Proof.
  intros Hq. eapply sound_bind; [apply sound_session_at |]. intros s. cbn [next_packet_id].
  eapply sound_bind; [apply sound_put_session, mild_next_packet_id |]. intros u.
  rewrite (publish_packet_id_set q) by (done || apply publish_qos_set).
  change (lift (or_keep ?a (Ok ?b)) ≫= ?k) with (k b). cbv beta.
  eapply sound_bind; [| intros; apply sound_deliver].
  apply sound_with_session. intros s'. apply mild_track. exists q. apply publish_qos_set.
Qed.

Lemma triple_deliver held publish q r : outside held -> triple held (valid r) (deliver_task publish q r) always.
Proof.
  intros Hh. unfold deliver_task. case_bool_decide as Hq; cbn [negb]; apply triple_in_session; try done.
  - apply stable_valid.
  - apply blind_deliver.
  - apply calm_delivery.
  - apply sound_deliver.
  - apply stable_valid.
  - cbn [next_packet_id]. calm_steps. apply blind_deliver.
  - cbn [next_packet_id]. apply (calm_put r (fun s => (next_packet_id s).2)); [intros s; split; [done | by left] |].
    intros s u. calm_steps; [apply calm_update_session; intros s'; split; [done | by left] | apply calm_delivery].
  - by apply sound_deliver_tracked.
Qed.

(** Code that changes nothing. *)
Lemma triple_read {A} held (f : World -> A) (Q : A -> World -> Prop) :
  pool_owner held = false -> (forall a, stable (Q a)) -> (forall w, steady w -> Q (f w) w) ->
  triple held (fun _ => True) (act (gets f)) Q.
Proof.
  intros Hh HQ Hf. apply triple_act; rewrite ?Hh; [by intros w w' | intros a; by apply lasting_stable |].
  intros w Hw _. simpl. split; [| auto]. by split_and!.
Qed.

Lemma triple_lift {A} held P (o : outcome Empty_set A) :
  pool_owner held = false -> stable P -> triple held P (act (lift o)) (fun a w => o = Ok a /\ P w).
Proof.
  intros Hh HP. apply triple_act; rewrite ?Hh.
  - by apply lasting_stable.
  - intros a. apply lasting_stable, stable_and; [by intros w w' | done].
  - intros w Hw Hp. simpl. destruct o as [a|e| |]; [| by split; [split_and! |] ..| done].
    split; [by split_and! | done].
Qed.
End rely.
