(* ===== verification/BrokerExclusion.v ===== *)
(** * The locks of the broker protect the pool *)
(** The rules of [BrokerRely] for every handler, and the invariant of all
    interleavings: no two tasks hold a lock that excludes the other, the pool is
    consistent whenever nobody has locked it for writing, and the limit on
    connected sessions is kept at every moment. *)

From S2P Require Import Prelude Bytes Codec Fixed Property MacroFacts Subscriptions.
From S2P Require Import Acks Publish Connect Packet Topic Stream Runtime Sessions Tasks Broker.
From S2P Require Import BrokerLogic BrokerTasks BrokerLocks BrokerInterleaved BrokerRely.

Section exclusion.
Context {B : Buf} {HI : HashIter} {T : Transport} {R : Runtime} {D : DrainOrder}.
Implicit Types w : World.

Abbreviation pool_owner := (owner BrokerLock.Pool).

(** ** Routing and wills *)

Lemma triple_get_active held id :
  pool_owner held = false ->
  triple held (fun _ => True) (act (get_active id)) (fun o w => match o with Some r => valid r w | None => True end).
Proof.
  intros Hh. apply triple_read; [done | |].
  - intros [r|]; [apply stable_valid | apply stable_true].
  - intros w Hw. destruct (SessionPool.active (session_pool w) !! id) as [r|] eqn:E; [| done].
    destruct (st_entries w Hw id r true) as (s & Hs & _); [by apply view_active | by exists s].
Qed.

Lemma triple_route_to publish sender sub held :
  outside held -> triple held (fun _ => True) (route_to_task publish sender sub) always.
Proof.
  intros Hh. pose proof Hh as [Ho _]. unfold route_to_task.
  destruct (_ && _); [apply triple_nop, stable_true |].
  eapply triple_bind; [apply triple_lift; [done | apply stable_true] |]. intros q. cbv zeta.
  eapply triple_weaken with (P' := fun _ => True); [| done | done].
  eapply triple_bind; [by apply triple_get_active |].
  intros [r|]; [by apply triple_deliver | apply triple_nop, stable_true].
Qed.

Lemma triple_route_each publish sender subs held :
  outside held -> triple held (fun _ => True) (route_each_task publish sender subs) always.
Proof.
  intros Hh. induction subs as [|sub subs IH]; [apply triple_nop, stable_true |].
  eapply triple_bind; [by apply triple_route_to |]. intros u. exact IH.
Qed.

Lemma triple_route publish sender : triple [] (fun _ => True) (route_publish_task publish sender) always.
Proof.
  eapply (triple_bind _ _ _ _ always).
  - apply triple_under; [apply not_elem_of_nil | done | by intros w w' | by intros a w w' |].
    apply triple_quiet; try done.
    + apply blind_in_tree.
    + apply calm_tree.
    + eapply sound_always, sound_matching.
  - intros subs. apply triple_under; [apply not_elem_of_nil | done | by intros w w' | by intros a w w' |].
    apply triple_route_each, outside_pool_read.
Qed.

Lemma triple_publish_will will : triple [] (fun _ => True) (publish_will_task will) always.
Proof.
  eapply triple_bind; [apply triple_lift; [done | apply stable_true] |]. intros p.
  eapply triple_weaken; [apply triple_route | done | done].
Qed.

Lemma triple_with_session held r md f :
  outside held -> (forall s, mild s (f s)) -> (forall s, gentle s (f s)) ->
  triple held (valid r) (under (BrokerLock.Session r) md (act (with_session r f))) (fun _ => valid r).
Proof.
  intros Hh Hm Hg. apply triple_in_session; try done.
  - apply stable_valid.
  - intros a. apply stable_valid.
  - apply blind_with_session.
  - by apply calm_update_session.
  - by apply sound_with_session.
Qed.

Lemma triple_take_will r :
  triple [] (valid r)
    (session_write r (act (s ← session_at r; let '(will, s') := take_will s in
      with_session r (fun _ => s') ≫= fun _ => mret will))) always.
Proof.
  apply triple_in_session; try done.
  - apply outside_nil.
  - apply stable_valid.
  - intros w p. unfold session_at, with_session, mbind, M_bind, get, lift, unwrap. simpl. by destruct (sessions w !! r).
  - apply (calm_put r (fun s => (take_will s).2)); [intros s; split; [done | by left] |].
    intros s u. apply calm_ret.
  - eapply sound_bind; [apply sound_session_at |]. intros s. cbn [take_will].
    eapply sound_bind; [by apply sound_put_session |]. intros u. apply sound_done.
Qed.

Lemma triple_initiate_will r : triple [] (valid r) (initiate_will_task r) always.
Proof.
  eapply (triple_seq _ _ _ _ (valid r)); [apply stable_valid | apply triple_take_will | done |].
  intros [will|]; [| apply triple_nop, stable_and; [apply stable_valid | apply stable_true]].
  cbv zeta. destruct (_ =? 0); [eapply triple_weaken; [apply triple_publish_will | done | done] |].
  eapply (triple_weaken _ _ (valid r)); [| by intros w _ [] | done].
  eapply (triple_seq _ _ _ _ (fun _ => True) always); [apply stable_valid | | done |].
  - apply triple_act; [by intros w w' | by intros a w w' |]. intros w Hw _. simpl.
    split; [| done]. assert (Hk : keeps_pool w (w <| next_token := next_token w + 1 |> <| delayed_wills :=
      <[next_token w := (clock w + secs (default 0 (WillHeader.will_delay (WillMessage.header will))), will)]>
        (delayed_wills w) |>)) by (split; [done |]; intros r' s Hs; by exists s).
    split_and!; [by apply extends_same | | by split; eauto | done].
    apply (steady_kept w); [done | done | done |].
    by eapply world_ok_same; [.. | apply (st_world w Hw)].
  - intros token. apply (triple_weaken _ _ (valid r) _ _ always); [| by intros w _ [] | done].
    apply triple_in_session; try done.
    + apply outside_nil.
    + apply stable_valid.
    + apply blind_set_will.
    + apply calm_set_will.
    + eapply sound_always, sound_set_will.
Qed.

(** ** Under the lock of the pool *)

(** The pool [p] is consistent but for the session of [id], which is on its way
    between the two maps. *)
Record all_but (id : rstring) (p : SessionPool) w : Prop := {
  ab_active : SessionPool.active_sessions p = u32 (Z.of_nat (size (SessionPool.active p)));
  ab_inactive : SessionPool.inactive_sessions p = u32 (Z.of_nat (size (SessionPool.inactive p)));
  ab_disjoint i r : SessionPool.active p !! i = Some r -> SessionPool.inactive p !! i = None;
  ab_filed i r b : i <> id -> pool_view p i = Some (r, b) ->
    exists s, sessions w !! r = Some s /\ Session.id s = i /\ Session.connected s = b;
}.

Lemma pool_ok_all_but id w : pool_ok w -> all_but id (session_pool w) w.
Proof. intros [Ha Hi Hd Hf]. split; eauto. Qed.

Definition is_session (r : Z) (id : rstring) w : Prop :=
  exists s, sessions w !! r = Some s /\ Session.id s = id.

Lemma all_but_update id p w r s s' :
  all_but id p w -> sessions w !! r = Some s -> Session.id s = id -> 
  all_but id p (w <| sessions := <[r := s']> (sessions w) |>).
Proof.
  intros [Ha Hi Hd Hf] Hr Hid. split; [done .. |]. intros i r' b Hne Hv.
  destruct (Hf i r' b Hne Hv) as (t & Ht & Hti & Htc). exists t. simpl.
  rewrite lookup_insert_ne; [done |]. intros <-. congruence.
Qed.

Lemma lasting_all_but id p : lasting true (all_but id p).
Proof.
  intros w w' (_ & _ & Hk) [Ha Hi Hd Hf]. destruct (Hk eq_refl) as [_ Hs]. split; [done .. |].
  intros i r b Hne Hv. destruct (Hf i r b Hne Hv) as (s & Hr & ? & ?).
  destruct (Hs r s Hr) as (s' & Hr' & ? & ? & _). exists s'. split_and!; congruence.
Qed.

Lemma stable_is_session r id : stable (is_session r id).
Proof.
  intros w w' [He _] (s & Hs & Hid). destruct (He r s Hs) as (s' & Hs' & Hid'). exists s'. split; [done | congruence].
Qed.

(** A session that is not connected. *)
Definition is_offline (r : Z) w : Prop := exists s, sessions w !! r = Some s /\ Session.connected s = false.

Lemma lasting_offline r : lasting true (is_offline r).
Proof.
  intros w w' (_ & _ & Hk) (s & Hs & Hc). destruct (Hk eq_refl) as [_ Hall].
  destruct (Hall r s Hs) as (s' & Hs' & _ & ? & _). exists s'. split; [done | congruence].
Qed.

Lemma lasting_pool (F : SessionPool -> Prop) : lasting true (fun w => F (session_pool w)).
Proof. intros w w' (_ & _ & Hk). by destruct (Hk eq_refl) as [-> _]. Qed.

Lemma lasting_room id : lasting true (room id).
Proof.
  intros w w' ((_ & _ & Hc) & _ & Hk). destruct (Hk eq_refl) as [Hp _]. unfold room. by rewrite Hp, Hc.
Qed.

(** A change of the pool alone. *)
Lemma pool_guarantee w p :
  steady w -> within (w <| session_pool := p |>) -> entries_ok (w <| session_pool := p |>) ->
  guarantee true w (w <| session_pool := p |>).
Proof.
  intros [Hw _ _] Hc He. split_and!; [by apply extends_same | | split; eauto | done].
  split; [| done | done]. by destruct w.
Qed.

(** Taking a session out of one of the maps. *)
Lemma entries_less w p :
  entries_ok w -> (forall id r b, pool_view p id = Some (r, b) -> pool_view (session_pool w) id = Some (r, b)) ->
  entries_ok (w <| session_pool := p |>).
Proof. intros He Hp id r b Hv. by apply (He id r b), Hp. Qed.

Lemma within_same w p :
  within w -> SessionPool.active p = SessionPool.active (session_pool w) -> within (w <| session_pool := p |>).
Proof. intros Hc Ha k Hk Hu. simpl. rewrite Ha. by apply Hc. Qed.

Definition leaving (id : rstring) (r : Z) w : Prop :=
  (exists p, session_pool w = delete_active id p /\ SessionPool.active p !! id = Some r /\ all_but id p w)
  /\ is_session r id w.

Definition returning (id : rstring) (r : Z) w : Prop :=
  (exists p, session_pool w = delete_inactive id p /\ SessionPool.inactive p !! id = Some r /\ all_but id p w)
  /\ is_session r id w.

Lemma lasting_moving (F : SessionPool -> SessionPool -> Prop) id r :
  lasting true (fun w => (exists p, F (session_pool w) p /\ all_but id p w) /\ is_session r id w).
Proof.
  intros w w' Hr [(p & HF & Hp) Hs]. split; [| by eapply lasting_stable; [apply stable_is_session | |]].
  exists p. split; [| by eapply lasting_all_but]. by apply (lasting_pool (fun q => F q p) w).
Qed.

Lemma lasting_leaving id r : lasting true (leaving id r).
Proof.
  intros w w' Hr [(p & Hp & Ha & Hb) Hs].
  destruct (lasting_moving (fun q p => q = delete_active id p /\ SessionPool.active p !! id = Some r) id r w w' Hr)
    as [(p' & (? & ?) & ?) ?]; [split; [exists p |]; done |]. split; [exists p' |]; done.
Qed.

Lemma lasting_returning id r : lasting true (returning id r).
Proof.
  intros w w' Hr [(p & Hp & Ha & Hb) Hs].
  destruct (lasting_moving (fun q p => q = delete_inactive id p /\ SessionPool.inactive p !! id = Some r) id r w w' Hr)
    as [(p' & (? & ?) & ?) ?]; [split; [exists p |]; done |]. split; [exists p' |]; done.
Qed.

Lemma view_delete_active p id i r b :
  (forall i r, SessionPool.active p !! i = Some r -> SessionPool.inactive p !! i = None) ->
  pool_view (delete_active id p) i = Some (r, b) -> pool_view p i = Some (r, b).
Proof.
  intros Hd. unfold pool_view, delete_active. simpl. destruct (decide (i = id)) as [->|].
  - rewrite lookup_delete_eq. destruct (SessionPool.active p !! id) as [r'|] eqn:E; [| done].
    by rewrite (Hd id r' E).
  - by rewrite lookup_delete_ne.
Qed.

Lemma view_delete_inactive p id i r b :
  pool_view (delete_inactive id p) i = Some (r, b) -> pool_view p i = Some (r, b).
Proof.
  unfold pool_view, delete_inactive. simpl. destruct (SessionPool.active p !! i); [done |].
  destruct (decide (i = id)) as [->|]; [by rewrite lookup_delete_eq | by rewrite lookup_delete_ne].
Qed.

Lemma does_find_active id :
  does true pool_ok
    (p ← in_pool Datatypes.id;
     match SessionPool.active p !! id with
     | Some r => with_pool (delete_active id) ≫= fun _ => mret (Some r)
     | None => mret None
     end)
    (fun o w => match o with Some r => leaving id r w | None => pool_ok w end).
Proof.
  intros w Hw Hok. unfold in_pool, gets. unfold mbind at 1, M_bind at 1. unfold Datatypes.id.
  destruct (SessionPool.active (session_pool w) !! id) as [r|] eqn:Ea;
    [| split; [| done]; split_and!; by try done].
  pose proof Hok as [_ _ Hd Hf]. unfold with_pool, modify, mbind, M_bind, mret, M_ret. split.
  - apply pool_guarantee; [done | |].
    + by eapply within_delete; [apply (st_within w Hw) |].
    + apply entries_less; [apply (st_entries w Hw) |]. intros i r' b. by apply view_delete_active.
  - split.
    + exists (session_pool w). split_and!; [done | done |]. by apply (pool_ok_all_but id) in Hok as [].
    + destruct (Hf id r true) as (s & ? & ? & _); [by apply view_active | by exists s].
Qed.

Lemma does_find_inactive id :
  does true (fun w => room id w /\ pool_ok w)
    (p ← in_pool Datatypes.id;
     match SessionPool.inactive p !! id with
     | Some r => with_pool (delete_inactive id) ≫= fun _ => mret (Some r)
     | None => mret None
     end)
    (fun o w => room id w /\ match o with
       | Some r => returning id r w
       | None => SessionPool.inactive (session_pool w) !! id = None /\ pool_ok w
       end).
Proof.
  intros w Hw [Hroom Hok]. unfold in_pool, gets. unfold mbind at 1, M_bind at 1. unfold Datatypes.id.
  destruct (SessionPool.inactive (session_pool w) !! id) as [r|] eqn:Ei;
    [| split; [| done]; split_and!; by try done].
  pose proof Hok as [_ _ Hd Hf]. unfold with_pool, modify, mbind, M_bind, mret, M_ret. split; [| split; [done |]].
  - apply pool_guarantee; [done | |].
    + by eapply within_same; [apply (st_within w Hw) |].
    + apply entries_less; [apply (st_entries w Hw) |]. intros i r' b. apply view_delete_inactive.
  - split.
    + exists (session_pool w). split_and!; [done | done |]. by apply (pool_ok_all_but id) in Hok as [].
    + destruct (Hf id r false) as (s & ? & ? & _); [| by exists s].
      unfold pool_view. rewrite Ei. destruct (SessionPool.active (session_pool w) !! id) as [r'|] eqn:E; [| done].
      rewrite (Hd id r' E) in Ei. done.
Qed.

(** A session changes its connection state; the pool stays. *)
Lemma flag_guarantee w r s s' :
  steady w -> sessions w !! r = Some s -> Session.id s' = Session.id s ->
  Session.sender s' = Session.sender s -> Session.next_packet_id s' = Session.next_packet_id s ->
  Session.pending_ack s' = Session.pending_ack s -> Session.receiver s' = Session.receiver s ->
  guarantee true w (w <| sessions := <[r := s']> (sessions w) |>).
Proof.
  intros [Hw Hc He] Hr Hid Hse Hn Hp Hrec. split_and!; [by eapply update_extends | | | done].
  - split; [| done |].
    + apply (refiled_world_ok (unpooled w) no_sessions r s s'); try done. apply (wo_capacity _ Hw).
    + intros i r' b Hv. destruct (He i r' b Hv) as (t & Ht & Hti). simpl.
      destruct (decide (r' = r)) as [->|]; [exists s'; rewrite lookup_insert_eq | exists t; by rewrite lookup_insert_ne].
      split; [done |]. congruence.
  - split; simpl; [done | done |]. intros r' t ch. rewrite lookup_insert_Some.
    intros [[<- <-]|[_ Ht]] Hch; right; [exists s | exists t]; split; [done | congruence | done | done].
Qed.

Lemma does_set_offline id r :
  does true (leaving id r) (with_session r (set_connected false) ≫= fun _ => session_at r)
    (fun s w => Session.id s = id /\ leaving id r w /\ is_offline r w).
Proof.
  intros w Hw [(p & Hp & Ha & Hb) (s & Hs & Hid)].
  rewrite (with_session_run _ r _ s w Hs). pose (w1 := w <| sessions := <[r := set_connected false s]> (sessions w) |>).
  assert (Hs1 : sessions w1 !! r = Some (set_connected false s)) by apply lookup_insert_eq.
  change (session_at r _) with (session_at r w1). unfold session_at. rewrite bind_get. unfold lift, unwrap. rewrite Hs1.
  split; [by apply (flag_guarantee w r s) |]. split_and!; [done | | by eexists].
  split; [| by eexists]. exists p. split_and!; [done | done |]. by eapply all_but_update.
Qed.

Lemma does_file_inactive id r s :
  Session.id s = id ->
  does true (fun w => leaving id r w /\ is_offline r w)
    (with_pool (fun p => count_active (-1) (insert_inactive (Session.id s) r (count_inactive 1 p))) ≫= fun _ =>
     mret (Some r))
    (fun _ => pool_ok).
Proof.
  intros Hid w Hw [[(p & Hp & Ha & Hb) (t & Ht & Htid)] (t' & Ht' & Hoff)]. rewrite Hid.
  rewrite Ht in Ht'. injection Ht' as <-. destruct Hb as [Hca Hci Hd Hf].
  unfold with_pool, modify, mbind, M_bind, mret, M_ret. rewrite Hp.
  set (p' := count_active (-1) (insert_inactive id r (count_inactive 1 (delete_active id p)))).
  assert (Hview : forall i r' b, pool_view p' i = Some (r', b) ->
    i = id /\ r' = r /\ b = false \/ i <> id /\ pool_view p i = Some (r', b)).
  { intros i r' b. unfold pool_view. simpl. destruct (decide (i = id)) as [->|].
    - rewrite lookup_delete_eq, lookup_insert_eq. intros [= <- <-]. by left.
    - rewrite lookup_delete_ne, lookup_insert_ne by done. by right. }
  assert (Hok : pool_ok (w <| session_pool := p' |>)).
  { split; simpl.
    - rewrite Hca. by eapply delete_count.
    - rewrite Hci. apply insert_count. by eapply Hd.
    - intros i r'. destruct (decide (i = id)) as [->|]; [by rewrite lookup_delete_eq |].
      rewrite lookup_delete_ne, lookup_insert_ne by done. apply Hd.
    - intros i r' b Hv. destruct (Hview i r' b Hv) as [(-> & -> & ->)|[Hne Hv']]; [by exists t | by apply Hf]. }
  split; [| done]. apply pool_guarantee; [done | |].
  - eapply within_same; [apply (st_within w Hw) |]. by rewrite Hp.
  - intros i r' b Hv. destruct (p_filed _ Hok i r' b Hv) as (x & ? & ? & _). by exists x.
Qed.

Lemma does_file_active id r :
  does true (fun w => room id w /\ returning id r w)
    (now ← gets clock;
     with_session r (fun s => set_last_active now (set_connected true s)) ≫= fun _ =>
     s ← session_at r;
     with_pool (fun p => count_inactive (-1) (insert_active (Session.id s) r (count_active 1 p))) ≫= fun _ =>
     mret (Some r))
    (fun o w => o = Some r /\ valid r w /\ pool_ok w).
Proof.
  intros w Hw [Hroom [(p & Hp & Ha & Hb) (s & Hs & Hid)]].
  pose (s1 := set_last_active (clock w) (set_connected true s)).
  pose (w1 := w <| sessions := <[r := s1]> (sessions w) |>).
  assert (Hs1 : sessions w1 !! r = Some s1) by apply lookup_insert_eq.
  set (p' := count_inactive (-1) (insert_active id r (count_active 1 (delete_inactive id p)))).
  match goal with |- context [?m w] => assert (Hrun : m w = (Ok (Some r), w1 <| session_pool := p' |>)) end.
  { unfold gets. unfold mbind at 1, M_bind at 1. rewrite (with_session_run _ r _ s w Hs).
    etrans; [apply (session_at_run _ r s1 w1 Hs1) |].
    unfold with_pool, modify, mbind, M_bind, mret, M_ret, p'.
    change (Session.id s1) with (Session.id s). rewrite Hid. change (session_pool w1) with (session_pool w).
    by rewrite Hp. }
  rewrite Hrun. destruct Hb as [Hca Hci Hd Hf].
  assert (Hna : SessionPool.active p !! id = None).
  { destruct (SessionPool.active p !! id) as [r'|] eqn:E; [| done]. by rewrite (Hd id r' E) in Ha. }
  assert (Hview : forall i r' b, pool_view p' i = Some (r', b) ->
    i = id /\ r' = r /\ b = true \/ i <> id /\ pool_view p i = Some (r', b)).
  { intros i r' b. unfold pool_view. simpl. destruct (decide (i = id)) as [->|].
    - rewrite lookup_insert_eq. intros [= <- <-]. by left.
    - rewrite lookup_delete_ne, lookup_insert_ne by done. by right. }
  assert (Hok : pool_ok (w1 <| session_pool := p' |>)).
  { split; simpl.
    - rewrite Hca. by apply insert_count.
    - rewrite Hci. by eapply delete_count.
    - intros i r'. destruct (decide (i = id)) as [->|]; [by rewrite lookup_delete_eq |].
      rewrite lookup_delete_ne, lookup_insert_ne by done. apply Hd.
    - intros i r' b Hv. destruct (Hview i r' b Hv) as [(-> & -> & ->)|[Hne Hv']]; [by exists s1 |].
      destruct (Hf i r' b Hne Hv') as (t & Ht & Hti & Htc). exists t. split_and!; try done.
      rewrite lookup_insert_ne; [done |]. intros <-. congruence. }
  assert (Hg1 : guarantee true w w1) by by apply (flag_guarantee w r s).
  split; [| split_and!; [done | by exists s1 | done]].
  assert (Hg2 : guarantee true w1 (w1 <| session_pool := p' |>)).
  { apply pool_guarantee; [apply Hg1 | |].
    - apply (within_insert w1 p' id r); [apply Hg1 | exact Hroom |]. simpl. by rewrite Hp.
    - intros i r' b Hv. destruct (p_filed _ Hok i r' b Hv) as (x & ? & ? & _). by exists x. }
  destruct Hg1 as (E1 & _ & T1 & _), Hg2 as (E2 & S2 & T2 & _).
  split_and!; [by etrans | done | by etrans | done].
Qed.

Abbreviation in_lock := [(BrokerLock.Pool, Mode.Write)].

Lemma triple_pool_do {A} P (m : M World Empty_set A) Q :
  lasting true P -> (forall a, lasting true (Q a)) -> does true P m Q -> triple in_lock P (act m) Q.
Proof. intros HP HQ Hm. by apply triple_act. Qed.

Lemma triple_pool_session {A} r md P (m : M World Empty_set A) Q :
  lasting true P -> (forall a, lasting true (Q a)) -> does true P m Q ->
  triple in_lock P (under (BrokerLock.Session r) md (act m)) Q.
Proof.
  intros HP HQ Hm. apply triple_under; [simpl; by rewrite list_elem_of_singleton | done | done | done |].
  apply triple_act; by rewrite session_owner.
Qed.

(** Code that keeps the invariant of the atomic model. *)
Lemma does_sound {A} P (m : M World Empty_set A) Q :
  sound P m Q -> (forall w, stir w (m w).2) ->
  does true (fun w => P w /\ pool_ok w) m (fun a w => Q a w /\ pool_ok w).
Proof.
  intros Hm Hs w Hw [HP Hok]. destruct (Hm w (steady_world_ok w Hw Hok) HP) as (Hw' & He & HQ).
  specialize (Hs w). destruct (m w) as [[a|e| |] w1]; simpl in *; try done.
  - split; [| split; [done | apply (wo_pool _ Hw')]]. split_and!; [done | by apply world_ok_steady | done | done].
  - split; [| intros _; apply (wo_pool _ Hw')]. split_and!; [done | by apply world_ok_steady | done | done].
Qed.

Lemma lasting_offline_leaving id r (s : Session) :
  lasting true (fun w => Session.id s = id /\ leaving id r w /\ is_offline r w).
Proof.
  apply lasting_and; [by intros w w' |]. apply lasting_and; [apply lasting_leaving | apply lasting_offline].
Qed.

Lemma triple_deactivate id : triple in_lock pool_ok (deactivate_task id) (fun _ => pool_ok).
Proof.
  eapply triple_bind; [apply triple_pool_do; [apply lasting_pool_ok | | apply does_find_active] |].
  { intros [r|]; [apply lasting_leaving | apply lasting_pool_ok]. }
  intros [r|]; [| apply (triple_ret in_lock None (fun _ => pool_ok)), lasting_pool_ok].
  eapply triple_bind; [apply triple_pool_session; [apply lasting_leaving | | apply does_set_offline] |].
  { intros s. apply lasting_offline_leaving. }
  intros s w Hw (Hid & HP). revert w Hw HP. apply triple_pool_do.
  - apply lasting_and; [apply lasting_leaving | apply lasting_offline].
  - intros a. apply lasting_pool_ok.
  - by apply does_file_inactive.
Qed.

Lemma triple_park P id : stable P -> triple [] P (park_task id) always.
Proof.
  intros HP. eapply (triple_bind _ _ _ _ always); [| intros a; apply triple_nop, stable_always].
  apply triple_pool_write; [done | apply stable_always |].
  eapply triple_weaken; [apply triple_deactivate | by intros w _ [] | done].
Qed.

(** The session a client continues, or that it has none that waits for it. *)
Definition activated (id : rstring) (o : option Z) w : Prop :=
  match o with
  | Some r => valid r w
  | None => room id w /\ SessionPool.inactive (session_pool w) !! id = None
  end.

Lemma lasting_activated id o : lasting true (activated id o).
Proof.
  destruct o as [r|]; [apply lasting_stable, stable_valid |]. apply lasting_and; [apply lasting_room |].
  apply (lasting_pool (fun p => SessionPool.inactive p !! id = None)).
Qed.

Lemma triple_activate id :
  triple in_lock (fun w => room id w /\ pool_ok w) (activate_task id) (fun o w => activated id o w /\ pool_ok w).
Proof.
  eapply triple_bind; [apply triple_pool_do; [| | apply does_find_inactive] |].
  { apply lasting_and; [apply lasting_room | apply lasting_pool_ok]. }
  { intros o. apply lasting_and; [apply lasting_room |]. destruct o; [apply lasting_returning |].
    apply lasting_and; [| apply lasting_pool_ok]. apply (lasting_pool (fun p => SessionPool.inactive p !! id = None)). }
  intros [r|].
  - eapply triple_weaken; [apply triple_pool_session; [| | apply (does_file_active id r)] | done |].
    + apply lasting_and; [apply lasting_room | apply lasting_returning].
    + intros o. apply lasting_and; [by intros w w' |]. apply lasting_and; [| apply lasting_pool_ok].
      apply lasting_stable, stable_valid.
    + intros o w (-> & ? & ?). done.
  - eapply triple_weaken; [apply (triple_ret in_lock None (fun o w => activated id o w /\ pool_ok w)) | | done].
    + apply lasting_and; [apply lasting_activated | apply lasting_pool_ok].
    + unfold activated. tauto.
Qed.

(** ** A new session *)

Definition is_online (id : rstring) (r : Z) w : Prop :=
  exists s, sessions w !! r = Some s /\ Session.id s = id /\ Session.connected s = true.

Lemma lasting_online id r : lasting true (is_online id r).
Proof.
  intros w w' (_ & _ & Hk) (s & Hs & Hid & Hc). destruct (Hk eq_refl) as [_ Hall].
  destruct (Hall r s Hs) as (s' & Hs' & ? & ? & _). exists s'. split_and!; congruence.
Qed.

(** There is room for the session of [id], which has none. *)
Definition vacant (id : rstring) w : Prop := pool_view (session_pool w) id = None /\ room id w.

Lemma lasting_vacant id : lasting true (vacant id).
Proof.
  apply lasting_and; [| apply lasting_room]. apply (lasting_pool (fun p => pool_view p id = None)).
Qed.

Lemma does_new_session id will keep_alive :
  does true (fun w => vacant id w /\ pool_ok w)
    (ch ← new_channel; now ← gets clock;
     new_session (set_connected true (Session_new id will keep_alive now ch)))
    (fun r w => (is_online id r w /\ vacant id w) /\ pool_ok w).
Proof.
  intros w Hw [Hv Hok]. set (ch := new_ref (channels w)). set (r := new_ref (sessions w)).
  set (s := set_connected true (Session_new id will keep_alive (clock w) ch)).
  set (c := chan_new (Config.session_channel_size (config w)) : chan SessionControl).
  pose (w1 := w <| channels := <[ch := c]> (channels w) |> <| sessions := <[r := s]> (sessions w) |>).
  match goal with |- context [?m w] => assert (Hrun : m w = (Ok r, w1)) by reflexivity end. rewrite Hrun.
  assert (Hfr : sessions w !! r = None) by apply new_ref_fresh.
  assert (Hfc : channels w !! ch = None) by apply new_ref_fresh.
  assert (Hw1 : world_ok w1).
  { apply given_channel_world_ok; try done; [by apply steady_world_ok |]. by rewrite Hfr. }
  split; [| split; [split; [| exact Hv] | apply (wo_pool _ Hw1)]].
  - split_and!; [| by apply world_ok_steady | | done].
    + split_and!; [| simpl; lia | done]. intros r' t Ht. exists t. simpl. rewrite lookup_insert_ne; [done | congruence].
    + split; simpl.
      * intros ch' Hc. by apply insert_some.
      * intros ch' q Hq _. rewrite lookup_insert_ne; [done | congruence].
      * intros r' s' ch'. rewrite lookup_insert_Some. intros [[<- <-]|[_ Hs']] Hch; [left | right; by exists s'].
        simpl in Hch. congruence.
  - exists s. split_and!; [apply lookup_insert_eq | done | done].
Qed.

Lemma does_file_new id r s :
  Session.id s = id -> Session.connected s = true ->
  does true (fun w => (is_online id r w /\ vacant id w) /\ pool_ok w)
    (if Session.connected s
     then with_pool (fun p => insert_active (Session.id s) r (count_active 1 p))
     else with_pool (fun p => insert_inactive (Session.id s) r (count_inactive 1 p)))
    (fun _ w => valid r w /\ pool_ok w).
Proof.
  intros Hid Hc w Hw [[(t & Ht & Htid & Htc) [Hv Hroom]] Hok]. rewrite Hc, Hid.
  rewrite <- Htid in Hv. destruct (add_run w r t Hok Ht Hv) as (p & Hadd & Hp & Hview).
  assert (E : with_pool (fun p => insert_active id r (count_active 1 p)) w = (Ok tt, w <| session_pool := p |>)).
  { rewrite <- Hadd. unfold add. rewrite (session_at_run _ _ _ _ Ht), Htc, Htid. done. }
  rewrite E. split; [| split; [by exists t | done]]. apply pool_guarantee; [done | |].
  - eapply within_insert; [apply (st_within w Hw) | exact Hroom |]. apply view_insert.
    rewrite Htid, Htc in Hview. exact Hview.
  - intros i r' b Hv'. destruct (p_filed _ Hp i r' b Hv') as (x & ? & ? & _). by exists x.
Qed.

Lemma triple_start id connect keep_alive :
  triple in_lock (fun w => vacant id w /\ pool_ok w) (start_session_task id connect keep_alive)
    (fun r w => valid r w /\ pool_ok w).
Proof.
  assert (Hl : forall r, lasting true (fun w => (is_online id r w /\ vacant id w) /\ pool_ok w)).
  { intros r. apply lasting_and; [apply lasting_and; [apply lasting_online | apply lasting_vacant] | apply lasting_pool_ok]. }
  assert (Hv : forall r, lasting true (fun w => valid r w /\ pool_ok w)).
  { intros r. apply lasting_and; [apply lasting_stable, stable_valid | apply lasting_pool_ok]. }
  eapply triple_bind; [apply triple_pool_do; [| exact Hl | apply does_new_session] |].
  { apply lasting_and; [apply lasting_vacant | apply lasting_pool_ok]. }
  intros r. eapply triple_bind; [| intros u; by apply (triple_ret in_lock r (fun r w => valid r w /\ pool_ok w))].
  eapply (triple_bind _ _ _ _ (fun s w => (Session.id s = id /\ Session.connected s = true)
    /\ (is_online id r w /\ vacant id w) /\ pool_ok w)).
  - apply triple_pool_session; [apply Hl | intros s; apply lasting_and; [by intros w w' | apply Hl] |].
    intros w Hw HP. pose proof HP as [[(s & Hs & Hid & Hc) _] _].
    unfold session_at. rewrite bind_get. unfold lift, unwrap. rewrite Hs. split; [by split_and! | done].
  - intros s w Hw ([Hid Hc] & HP). revert w Hw HP. apply triple_pool_do; [apply Hl | intros a; apply Hv |].
    by apply does_file_new.
Qed.

(** ** Choosing the session *)

(** Code that leaves the pool alone keeps what is known of it. *)
Lemma does_keep {A} G P (m : M World Empty_set A) Q :
  lasting true G -> calm m -> does true P m Q ->
  does true (fun w => G w /\ P w) m (fun a w => G w /\ Q a w).
Proof.
  intros HG Hc Hm w Hw [Hg HP]. specialize (Hm w Hw HP). destruct (Hc w) as [_ Hk].
  destruct (m w) as [[a|e| |] w1]; simpl in *; try done. destruct Hm as [Hgu HQ]. split; [done |]. split; [| done].
  eapply HG; [| exact Hg]. destruct Hgu as (? & ? & _). by split_and!.
Qed.

Lemma triple_takeover G r :
  lasting true G ->
  triple in_lock (fun w => G w /\ valid r w /\ pool_ok w) (handle_takeover_task r)
    (fun _ w => G w /\ valid r w /\ pool_ok w).
Proof.
  intros HG. assert (HG' : lasting true (fun w => G w /\ valid r w)).
  { apply lasting_and; [done | apply lasting_stable, stable_valid]. }
  apply (triple_weaken _ _ (fun w => (G w /\ valid r w) /\ valid r w /\ pool_ok w) _ _
    (fun _ w => (G w /\ valid r w) /\ True /\ pool_ok w)); [| tauto | tauto].
  apply triple_pool_session.
  - apply lasting_and; [done |]. apply lasting_and; [apply lasting_stable, stable_valid | apply lasting_pool_ok].
  - intros u. apply lasting_and; [done |]. apply lasting_and; [by intros w w' | apply lasting_pool_ok].
  - apply does_keep; [done | apply calm_send_control |].
    eapply (does_sound (valid r) _ (fun _ _ => True)); [| intros w; apply calm_send_control].
    intros w Hw Hv. destruct (sound_send r (SessionControl.Disconnect Reason.SessionTakeOver) (session_pool w) (config w) w Hw)
      as (? & ? & H); [done |]. split_and!; [done | done |]. by destruct ((send_control _ _ w).1).
Qed.

Definition stirs {A} (m : M World Empty_set A) : Prop := forall w, stir w (m w).2.

Lemma stirs_bind {A C} (m : M World Empty_set A) (k : A -> M World Empty_set C) :
  stirs m -> (forall a, stirs (k a)) -> stirs (m ≫= k).
Proof.
  intros Hm Hk w. specialize (Hm w). unfold mbind, M_bind. destruct (m w) as [[a|e| |] w1]; try done.
  etrans; [exact Hm | apply Hk].
Qed.

Lemma calm_stirs {A} (m : M World Empty_set A) : calm m -> stirs m.
Proof. intros Hm w. apply Hm. Qed.

Lemma stirs_reset r : stirs (ch ← new_channel; with_session r (reset_control ch)).
Proof.
  intros w. set (ch := new_ref (channels w)).
  set (c := chan_new (Config.session_channel_size (config w)) : chan SessionControl).
  pose (w1 := w <| channels := <[ch := c]> (channels w) |>).
  assert (E : (new_channel ≫= fun ch => with_session r (reset_control ch)) w = with_session r (reset_control ch) w1)
    by done.
  assert (Hfc : channels w !! ch = None) by apply new_ref_fresh.
  assert (Hnew : forall ss, (forall r' s', ss !! r' = Some s' -> Session.receiver s' = Some ch \/ sessions w !! r' = Some s') ->
    stir w (w1 <| sessions := ss |>)).
  { intros ss Hss. split; simpl.
    - intros ch' Hc. by apply insert_some.
    - intros ch' q Hq _. rewrite lookup_insert_ne; [done | congruence].
    - intros r' s' ch' Hs' Hch. destruct (Hss r' s' Hs') as [Hr|Hr]; [left; congruence | right; by exists s']. }
  rewrite E. destruct (sessions w !! r) as [s|] eqn:Hs.
  - pose proof (with_session_eq r (reset_control ch) s w1 Hs) as Hrun. rewrite Hrun. cbn [snd]. apply Hnew.
    intros r' s'. rewrite lookup_insert_Some. intros [[<- <-]|[_ ?]]; [by left | by right].
  - unfold with_session, session_at, mbind, M_bind, get, lift, unwrap. simpl. rewrite Hs. cbn [snd].
    specialize (Hnew (sessions w) (fun r' s' H => or_intror H)). exact Hnew.
Qed.

Lemma stirs_resume r connect : stirs (resume_session r connect).
Proof.
  apply stirs_bind; [apply calm_stirs, calm_cancel_will |]. intros u.
  apply stirs_bind; [apply calm_stirs, calm_update_session; intros s; split; [done | by left] |]. intros u'.
  apply stirs_reset.
Qed.

Lemma lasting_valid_ok r : lasting true (fun w => valid r w /\ pool_ok w).
Proof. apply lasting_and; [apply lasting_stable, stable_valid | apply lasting_pool_ok]. Qed.

Lemma triple_resume r (m : M World Empty_set unit) :
  sound (valid r) m (fun _ => valid r) -> stirs m ->
  triple in_lock (fun w => valid r w /\ pool_ok w) (session_write r (act m)) (fun _ w => valid r w /\ pool_ok w).
Proof.
  intros Hm Hs. apply triple_pool_session; [apply lasting_valid_ok | intros u; apply lasting_valid_ok |].
  by apply does_sound.
Qed.

Lemma stirs_remove id : stirs (remove id).
Proof.
  intros w. unfold remove, in_pool, gets. unfold mbind at 1, M_bind at 1. unfold Datatypes.id.
  repeat case_match; by split; eauto.
Qed.

Lemma triple_remove id :
  triple in_lock (fun w => room id w /\ pool_ok w) (act (remove id))
    (fun o w => (vacant id w /\ match o with Some r => valid r w | None => True end) /\ pool_ok w).
Proof.
  apply triple_pool_do.
  - apply lasting_and; [apply lasting_room | apply lasting_pool_ok].
  - intros o. apply lasting_and; [| apply lasting_pool_ok]. apply lasting_and; [apply lasting_vacant |].
    apply lasting_stable. destruct o; [apply stable_valid | apply stable_true].
  - apply (does_sound (room id)); [| apply stirs_remove].
    eapply sound_weaken; [apply sound_remove | done |]. unfold vacant. intros a w. tauto.
Qed.

Definition chosen_ok (res : Z * bool) w : Prop := valid res.1 w /\ pool_ok w.

Lemma triple_chosen r b : triple in_lock (fun w => valid r w /\ pool_ok w) (mret (r, b)) chosen_ok.
Proof. apply (triple_ret in_lock (r, b) chosen_ok). apply lasting_valid_ok. Qed.

Lemma triple_start_new id connect keep_alive :
  triple in_lock (fun w => vacant id w /\ pool_ok w)
    (r ← start_session_task id connect keep_alive; mret (r, false)) chosen_ok.
Proof. eapply triple_bind; [apply triple_start |]. intros r. apply triple_chosen. Qed.

(** A clean start: the old session leaves the pool, its connection is told. *)
Lemma triple_clean_start id connect keep_alive old :
  triple in_lock (fun w => (vacant id w /\ valid old w) /\ pool_ok w)
    (s ← session_read old (act (session_at old));
     (if Session.connected s then handle_takeover_task old else mret tt) ≫= fun _ =>
     r ← start_session_task id connect keep_alive; mret (r, false)) chosen_ok.
Proof.
  assert (HP : lasting true (fun w => vacant id w /\ valid old w /\ pool_ok w)).
  { apply lasting_and; [apply lasting_vacant | apply lasting_valid_ok]. }
  eapply (triple_bind _ _ _ _ (fun _ w => vacant id w /\ valid old w /\ pool_ok w)).
  - apply (triple_weaken _ _ (fun w => vacant id w /\ valid old w /\ pool_ok w) _ _
      (fun _ w => vacant id w /\ valid old w /\ pool_ok w)); [| tauto | done].
    apply triple_pool_session; [done | done |].
    intros w Hw HPw. pose proof HPw as (_ & [s Hs] & _).
    unfold session_at. rewrite bind_get. unfold lift, unwrap. rewrite Hs. split; [by split_and! | done].
  - intros s. eapply (triple_bind _ _ _ _ (fun _ w => vacant id w /\ valid old w /\ pool_ok w)).
    + destruct (Session.connected s); [apply triple_takeover, lasting_vacant |].
      by apply (triple_ret in_lock tt (fun _ w => vacant id w /\ valid old w /\ pool_ok w)).
    + intros u. eapply triple_weaken; [apply triple_start_new | tauto | done].
Qed.

Lemma triple_active id :
  triple in_lock (fun w => (room id w /\ SessionPool.inactive (session_pool w) !! id = None) /\ pool_ok w)
    (act (get_active id))
    (fun o w => match o with Some r => valid r w | None => vacant id w end /\ pool_ok w).
Proof.
  apply triple_pool_do.
  - apply lasting_and; [| apply lasting_pool_ok]. apply lasting_and; [apply lasting_room |].
    apply (lasting_pool (fun p => SessionPool.inactive p !! id = None)).
  - intros o. apply lasting_and; [| apply lasting_pool_ok].
    destruct o; [apply lasting_stable, stable_valid | apply lasting_vacant].
  - intros w Hw [[Hroom Hi] Hok]. simpl. split; [by split_and! |]. split; [| done].
    destruct (SessionPool.active (session_pool w) !! id) as [r|] eqn:Ea.
    + destruct (p_filed w Hok id r true) as (s & Hs & _); [by apply view_active | by exists s].
    + split; [| done]. unfold pool_view. by rewrite Ea, Hi.
Qed.

Lemma triple_choose id connect keep_alive :
  triple in_lock (fun w => room id w /\ pool_ok w) (choose_session_task id connect keep_alive) chosen_ok.
Proof.
  unfold choose_session_task. destruct (clean_start connect).
  - eapply triple_bind; [apply triple_remove |]. intros [old|]; [apply triple_clean_start |].
    eapply triple_weaken; [apply triple_start_new | tauto | done].
  - eapply triple_bind; [apply triple_activate |]. intros [r|]; unfold activated.
    { eapply triple_bind; [apply triple_resume; [apply sound_resume | apply stirs_resume] |].
      intros u. apply triple_chosen. }
    eapply triple_bind; [apply triple_active |]. intros [r|]; [| apply triple_start_new].
    eapply (triple_bind _ _ _ _ (fun _ w => valid r w /\ pool_ok w)).
    { eapply triple_weaken; [apply (triple_takeover (fun _ => True)); by intros w w' | by intros w _ [] | by intros a w (_ & ? & ?)]. }
    intros u. eapply triple_bind; [apply triple_resume | intros u'; apply triple_chosen].
    + eapply sound_bind; [apply sound_resume |]. intros u'.
      eapply (sound_bind _ _ _ (fun _ => valid r)); [intros w Hw Hv; by split_and! |].
      intros now. by apply sound_with_session.
    + apply stirs_bind; [apply stirs_resume |]. intros u'. apply calm_stirs.
      apply calm_bind; [by apply calm_still |]. intros now. apply calm_update_session. intros s. split; [done | by left].
Qed.

Definition admitted (o : option (Z * bool)) w : Prop :=
  match o with Some res => valid res.1 w | None => True end.

Lemma stable_admitted o : stable (admitted o).
Proof. destruct o as [[r b]|]; [apply stable_valid | apply stable_true]. Qed.

Lemma triple_admit id connect keep_alive :
  triple [] (fun _ => True) (pool_write (admit_task id connect keep_alive)) admitted.
Proof.
  apply triple_pool_write; [apply stable_true | apply stable_admitted |].
  eapply (triple_bind _ _ _ _ (fun full w => (full = false -> room id w) /\ pool_ok w)).
  - apply triple_pool_do; [apply lasting_and; [by intros w w' | apply lasting_pool_ok] | |].
    + intros full. apply lasting_and; [| apply lasting_pool_ok]. intros w w' Hr Hf E. eapply lasting_room; eauto.
    + intros w Hw [_ Hok]. unfold in_pool, gets, get_active, mbind, M_bind, mret, M_ret. simpl.
      split; [by split_and! |]. split; [| done]. intros E. by apply capacity_room; [apply steady_world_ok |].
  - intros [|].
    + eapply triple_weaken; [apply (triple_ret in_lock None (fun o w => admitted o w /\ pool_ok w)) | | done].
      * apply lasting_and; [by intros w w' | apply lasting_pool_ok].
      * by intros w _ [].
    + eapply (triple_bind _ _ _ _ chosen_ok).
      { eapply triple_weaken; [apply triple_choose | | done]. intros w _ [H ?]. split; [by apply H | done]. }
      intros res. eapply triple_weaken; [apply (triple_ret in_lock (Some res) (fun o w => admitted o w /\ pool_ok w)) | | done].
      * apply lasting_and; [apply lasting_stable, stable_admitted | apply lasting_pool_ok].
      * done.
Qed.

(** ** Handlers *)

(** The connection belongs to its task; the channel it listens on is the one it
    had or was that of a session. *)
Definition listens w (c c' : Conn) : Prop :=
  forall ch, c_control c' = Some ch ->
  c_control c = Some ch \/ exists r s, sessions w !! r = Some s /\ Session.receiver s = Some ch.

Definition conn_relies (owner : bool) (s s' : World * Conn) : Prop := relies owner s.1 s'.1 /\ s'.2 = s.2.
Definition conn_guarantee (owner : bool) (s s' : World * Conn) : Prop :=
  guarantee owner s.1 s'.1 /\ listens s.1 s.2 s'.2.

#[export] Instance conn_relies_preorder b : PreOrder (conn_relies b).
Proof.
  split.
  - intros s. split; [reflexivity | done].
  - intros s1 s2 s3 [R1 E1] [R2 E2]. split; [by etrans | congruence].
Qed.

Abbreviation handler_wp := (wp BrokerLock.Pool (fun s : World * Conn => pool_ok s.1) conn_relies conn_guarantee).

(** A connection with the same session. *)
Definition like (c0 c : Conn) : Prop := c_session c = c_session c0 /\ c_connected c = c_connected c0.

Definition handles {A} (c0 : Conn) (P : World -> Prop) (p : prog lock (World * Conn) BrokerError A)
    (Q : A -> World -> Prop) : Prop :=
  forall w c, steady w -> P w -> like c0 c ->
  handler_wp [] p (fun a h s => h = [] /\ steady s.1 /\ like c0 s.2 /\ Q a s.1) (w, c).

Lemma shared_handler_wp {A} (p : prog lock World Empty_set A) Q c : forall held w,
  wp BrokerLock.Pool pool_ok relies guarantee held p Q w ->
  handler_wp held (shared_task p) (fun a h s => Q a h s.1 /\ s.2 = c) (w, c).
Proof.
  induction p as [a|X m f IH|l m p IH|l m p IH]; intros held w; simpl; intros Hp.
  - intros [w1 c1] [Hr E]. simpl in *. auto.
  - intros [w1 c1] [Hr E]. simpl in *. subst c1. specialize (Hp w1 Hr). unfold in_world.
    destruct (m w1) as [[x|[]| |] w2]; [| | done].
    + destruct Hp as [Hg Hp]. split; [split; [done | by left] |]. by apply IH.
    + destruct Hp as [Hg Hp]. split; [split; [done | by left] | done].
  - intros [w1 c1] [Hr E] Hf. simpl in *. subst c1. apply IH. auto.
  - intros [w1 c1] [Hr E]. simpl in *. subst c1. destruct (Hp w1 Hr). split; [done | by apply IH].
Qed.

Lemma handles_shared {A} c0 P (p : prog lock World Empty_set A) Q : triple [] P p Q -> handles c0 P (shared_task p) Q.
Proof.
  intros Hp w c Hw HP Hl. eapply wp_mono; [| apply shared_handler_wp, Hp; done].
  intros a h [w1 c1] [(-> & ? & ?) E]. simpl in *. subst c1. done.
Qed.

Lemma handles_bind {A C} c0 P (p : prog lock (World * Conn) BrokerError A) (k : A -> prog lock (World * Conn) BrokerError C) Q S :
  handles c0 P p Q -> (forall a, handles c0 (Q a) (k a) S) -> handles c0 P (p ≫= k) S.
Proof.
  intros Hp Hk w c Hw HP Hl. apply wp_bind; [apply _ |]. eapply wp_mono; [| by apply Hp].
  intros a h [w1 c1] (-> & ? & ? & ?). by apply Hk.
Qed.

Lemma handles_weaken {A} c0 (P P' : World -> Prop) (p : prog lock (World * Conn) BrokerError A) (Q Q' : A -> World -> Prop) :
  handles c0 P' p Q' -> (forall w, P w -> P' w) -> (forall a w, Q' a w -> Q a w) -> handles c0 P p Q.
Proof.
  intros Hp HP HQ w c Hw H Hl. eapply wp_mono; [| by apply Hp; [| apply HP |]].
  intros a h [w1 c1] (? & ? & ? & ?). split_and!; auto.
Qed.

Lemma handles_ret {A} c0 (a : A) (Q : A -> World -> Prop) : stable (Q a) -> handles c0 (Q a) (mret a) Q.
Proof.
  intros HQ w c Hw Hq Hl [w1 c1] [Hr E]. simpl in *. subst c1. split_and!; [done | by apply Hr | done |].
  by eapply HQ; [apply Hr |].
Qed.

(** Code that works on the connection only. *)
Definition own {A} (m : M (World * Conn) BrokerError A) : Prop :=
  forall w c, let '(_, (w', c')) := m (w, c) in w' = w /\ c_control c' = c_control c /\ like c c'.

Lemma handles_own {A} c0 P (m : M (World * Conn) BrokerError A) :
  own m -> stable P -> handles c0 P (act m) (fun _ => P).
Proof.
  intros Hm HP w c Hw Hp Hl [w1 c1] [Hr E]. simpl in *. subst c1.
  assert (Hw1 : steady w1) by by apply Hr. assert (Hp1 : P w1) by by eapply HP; [apply Hr |].
  specialize (Hm w1 c). destruct (m (w1, c)) as [o [w2 c2]]. destruct Hm as (-> & Hc & Hl2).
  assert (Hg : conn_guarantee false (w1, c) (w1, c2)).
  { split; [by split_and! |]. intros ch Hch. left. simpl in *. congruence. }
  assert (Hlike : like c0 c2) by (destruct Hl, Hl2; split; congruence).
  destruct o as [a|e| |]; try done. split; [done |].
  intros [w3 c3] [Hr3 E3]. simpl in *. subst c3. split_and!; [done | by apply Hr3 | done |].
  by eapply HP; [apply Hr3 |].
Qed.

Lemma own_stream {A} (m : M PacketStream StreamError A) : own (on_stream m).
Proof. intros w c. unfold on_stream. by destruct (m (c_stream c)) as [[] t]. Qed.
Lemma own_send p : own (send p).
Proof. apply own_stream. Qed.
Lemma own_lift {A} (o : outcome BrokerError A) : own (lift o).
Proof. by intros w c. Qed.
Lemma own_raise {A} e : own (raise e : M (World * Conn) BrokerError A).
Proof. by intros w c. Qed.
Lemma own_gets {A} (f : World -> A) : own (in_world (gets f)).
Proof. by intros w c. Qed.
Lemma own_variable {A} (f : Conn -> A) : own (variable f).
Proof. by intros w c. Qed.

Lemma handles_session c0 P :
  stable P -> handles c0 P (act (variable c_session)) (fun o w => o = c_session c0 /\ P w).
Proof.
  intros HP w c Hw Hp Hl [w1 c1] [Hr E]. simpl in *. subst c1. split; [split |].
  - split_and!; [done | by apply Hr | done | done].
  - by left.
  - intros [w3 c3] [Hr3 E3]. simpl in *. subst c3. split_and!; [done | by apply Hr3, Hr | done | by destruct Hl |].
    eapply HP; [apply Hr3 |]. by eapply HP; [apply Hr |].
Qed.

Create HintDb own.
#[local] Hint Resolve own_stream own_send own_lift own_raise own_gets own_variable : own.

Lemma handles_nop {A} c0 P (a : A) : handles c0 P (mret a) always.
Proof. eapply handles_weaken; [apply (handles_ret c0 a always), stable_always | done | done]. Qed.

Lemma handles_forget {A} c0 P (p : prog lock (World * Conn) BrokerError A) Q : handles c0 P p Q -> handles c0 P p always.
Proof. intros Hp. eapply handles_weaken; [exact Hp | done | done]. Qed.

(** A piece of code after which only [P] is known. *)
Lemma handles_then {A C} c0 P (m : M (World * Conn) BrokerError A) (k : A -> prog lock (World * Conn) BrokerError C) Q :
  own m -> stable P -> (forall a, handles c0 P (k a) Q) -> handles c0 P (act m ≫= k) Q.
Proof. intros Hm HP Hk. eapply handles_bind; [by apply handles_own | done]. Qed.

Lemma handles_own_end {A} c0 P (m : M (World * Conn) BrokerError A) : own m -> stable P -> handles c0 P (act m) always.
Proof. intros Hm HP. by eapply handles_forget, handles_own. Qed.

(** Shared code after which [F] is still known. *)
Lemma handles_keep {A C} c0 F (p : prog lock World Empty_set A) (k : A -> prog lock (World * Conn) BrokerError C) P Q :
  stable F -> triple [] P p always -> (forall w, F w -> P w) -> (forall a, handles c0 F (k a) Q) ->
  handles c0 F (shared_task p ≫= k) Q.
Proof.
  intros HF Hp HFP Hk. eapply handles_bind with (Q := fun _ => F); [| done]. apply handles_shared.
  eapply triple_weaken; [apply (triple_keep [] F P); [done | exact Hp] | |].
  - intros w _ Hf. split; [done | by apply HFP].
  - by intros a w [].
Qed.

Lemma triple_tree {A} P (m : M World Empty_set A) :
  stable P -> blind m -> calm m -> unpooled_fact P -> sound P m always ->
  triple [] P (under BrokerLock.Tree Mode.Write (act m)) always.
Proof.
  intros HP Hb Hc Hu Hm. apply triple_under; [apply not_elem_of_nil | done | by apply lasting_stable | by intros a w w' |].
  by apply triple_quiet.
Qed.

Lemma handles_packet c0 packet r : handles c0 (valid r) (handle_packet_task packet r) always.
Proof.
  pose proof (stable_valid r) as Hv. pose proof (triple_session_id [] r outside_nil) as Hid.
  destruct packet; cbn [handle_packet_task]; try apply handles_nop; try (apply handles_own_end; [auto with own | done]).
  - eapply handles_keep; [done | exact Hid | done |]. intros id.
    apply handles_then; [auto with own | done |]. intros q.
    eapply (handles_bind _ _ _ _ (fun _ => valid r)).
    + destruct (bool_decide _); [| by apply (handles_ret c0 tt (fun _ => valid r))].
      destruct (Publish.packet_id p) as [i|]; [apply handles_own; auto with own |].
      apply handles_then; [auto with own | done |]. intros u. apply handles_own; auto with own.
    + intros u. apply handles_shared. eapply triple_weaken; [apply triple_route | done | done].
  - apply handles_shared. eapply triple_always, triple_with_session; [apply outside_nil | apply mild_acknowledge |].
    intros s. split; [done | by left].
  - apply (handles_keep _ _ _ _ (valid r)); [done | | done |].
    + destruct (bool_decide _); [| apply triple_initiate_will].
      eapply triple_always, triple_with_session; [apply outside_nil | done |]. intros s. split; [done | by left].
    + intros u. eapply handles_keep; [done | exact Hid | done |]. intros id. apply handles_shared.
      by apply triple_park.
  - eapply handles_keep; [done | exact Hid | done |]. intros id.
    apply (handles_keep _ _ _ _ (valid r)); [done | | done | intros a; apply handles_own_end; auto with own].
    apply triple_tree; try done; [apply blind_subscribe_each | apply calm_subscribing | apply sound_subscribe_each].
  - eapply handles_keep; [done | exact Hid | done |]. intros id.
    apply (handles_keep _ _ _ _ (valid r)); [done | | done | intros a; apply handles_own_end; auto with own].
    apply triple_tree; try done; [apply blind_unsubscribe_each | apply calm_unsubscribing | apply sound_unsubscribe_each].
Qed.

Lemma triple_lose_client r : triple [] (valid r) (lose_client_task r) always.
Proof.
  eapply triple_seq; [apply stable_valid | apply triple_session_id, outside_nil | done |]. intros id.
  eapply (triple_weaken _ _ (valid r) _ _ always); [| by intros w _ [] | done].
  eapply triple_seq; [apply stable_valid | apply triple_initiate_will | done |]. intros u.
  eapply (triple_weaken _ _ (fun _ => True)); [apply triple_park, stable_true | done | done].
Qed.

(** ** Connecting *)

Lemma triple_pool_look {A} (f : World -> A) : triple [] (fun _ => True) (pool_read (act (gets f))) always.
Proof.
  apply triple_under; [apply not_elem_of_nil | done | by intros w w' | by intros a w w' |].
  apply triple_read; [done | by intros a w w' | done].
Qed.

Lemma stable_served o : stable (served o).
Proof. destruct o; [apply stable_valid | apply stable_true]. Qed.

Lemma handles_refuse c0 P p q :
  stable P -> own q -> handles c0 P (act (send p) ≫= fun _ => act q ≫= fun _ : unit => mret None) served.
Proof.
  intros HP Hq. apply handles_then; [auto with own | done |]. intros u. apply handles_then; [done | done |]. intros u'.
  eapply handles_weaken; [apply (handles_ret c0 None served), stable_true | done | done].
Qed.

Lemma handles_connect c0 uuid connect : handles c0 (fun _ => True) (handle_connect_task uuid connect) served.
Proof.
  pose proof stable_true as Ht. unfold handle_connect_task.
  eapply handles_keep; [done | apply triple_pool_look | done |]. intros p.
  destruct (negotiate_keep_alive _ _ _ _) as [keep_alive ack].
  eapply (handles_keep _ _ _ _ (fun _ => True)); [done | | done |].
  { unfold max_expiry_task. destruct (Connect.session_expiry_interval connect) as [e|]; [destruct (0 <? e) |];
      [apply triple_pool_look | apply (triple_ret [] 0 always), lasting_stable, stable_always ..]. }
  intros max. destruct (negotiate_expiry _ _ _) as [expiry ack1].
  destruct (match Connect.client_id connect with [] => _ | _ => _ end) as [id ack2].
  eapply handles_bind; [apply handles_shared, triple_admit |].
  intros [[r present]|]; [| apply handles_refuse; [apply stable_true | apply own_stream]].
  cbv zeta. eapply (handles_bind _ _ _ _ (fun _ => valid r)).
  - apply handles_shared. destruct expiry as [e|].
    + apply triple_with_session; [apply outside_nil | done |]. intros s. split; [done | by left].
    + apply (triple_in_session [] r Mode.Write (valid r)); [apply outside_nil | apply stable_valid
        | intros a; apply stable_valid | done | apply calm_ret | apply (sound_ret (fun _ : unit => valid r)) | done | done].
  - intros u. apply handles_then; [auto with own | apply stable_valid |]. intros u'.
    apply (handles_ret c0 (Some r) served), stable_valid.
Qed.

Lemma handles_pre_connect c0 uuid packet :
  handles c0 (fun _ => True) (handle_pre_connect_task uuid packet) served.
Proof.
  assert (Ha : forall p, handles c0 (fun _ => True) (act (send p) ≫= fun _ => mret None) served).
  { intros p. apply handles_then; [auto with own | apply stable_true |]. intros u.
    apply (handles_ret c0 None served), stable_true. }
  destruct packet; cbn [handle_pre_connect_task]; try apply Ha.
  apply handles_then; [auto with own | apply stable_true |]. intros accepting.
  destruct (negb accepting); [apply handles_refuse; [apply stable_true | apply own_stream] | apply handles_connect].
Qed.
End exclusion.
