(* ===== verification/BrokerConcurrent.v ===== *)
(** * The tasks of the broker at once *)
(** Every branch of [handle_client] keeps to the rely-guarantee discipline of
    [BrokerRely], so the invariant holds in every state that the tasks reach
    when they interrupt each other, and tasks that hold a lock exclude each
    other. *)

From S2P Require Import Prelude Bytes Codec Fixed Property MacroFacts Subscriptions.
From S2P Require Import Acks Publish Connect Packet Topic Stream Runtime Sessions Tasks Broker.
From S2P Require Import BrokerLogic BrokerTasks BrokerLocks BrokerRely BrokerExclusion.

Section concurrent.
Context {B : Buf} {HI : HashIter} {T : Transport} {R : Runtime} {D : DrainOrder}.
Implicit Types w : World.
Abbreviation Handling := (prog lock (World * Conn) BrokerError).
Abbreviation handler_wp := (wp BrokerLock.Pool (fun s : World * Conn => pool_ok s.1) conn_relies conn_guarantee).

(** ** Taking the session over *)

(** Code of a handler under the lock of a session. *)
Lemma handles_in_session {A} c0 r md P (m : M (World * Conn) BrokerError A) (Q : A -> World -> Prop) :
  stable P -> (forall a, stable (Q a)) ->
  (forall w c, steady w -> P w -> like c0 c ->
     match m (w, c) with
     | (Ok a, (w', c')) => conn_guarantee false (w, c) (w', c') /\ like c0 c' /\ Q a w'
     | (OutOfFuel, _) => True
     | (_, s') => conn_guarantee false (w, c) s'
     end) ->
  handles c0 P (under (BrokerLock.Session r) md (act m)) Q.
Proof.
  intros HP HQ Hm w c Hw HPw Hl [w1 c1] [Hr1 E1] _ [w2 c2] [Hr2 E2]. cbn [fst snd] in *. subst c1 c2.
  assert (Hw2 : steady w2) by by apply Hr2, Hr1.
  assert (HP2 : P w2) by (eapply HP; [apply Hr2 |]; by eapply HP; [apply Hr1 |]).
  specialize (Hm w2 c Hw2 HP2 Hl). rewrite session_owner. change (owner _ []) with false in *.
  destruct (m (w2, c)) as [[a|e| |] [w3 c3]]; [| by split | by split | done].
  destruct Hm as (Hg & Hl3 & HQ3). split; [done |].
  intros [w4 c4] [Hr4 E4]. cbn [fst snd] in *. subst c4. split; [done |].
  rewrite (drop_guard_cons (BrokerLock.Session r) md []) by apply not_elem_of_nil.
  intros [w5 c5] [Hr5 E5]. cbn [fst snd] in *. subst c5. split_and!; [done | | done |].
  - apply Hr5, Hr4, Hg.
  - eapply HQ; [apply Hr5 |]. by eapply HQ; [apply Hr4 |].
Qed.

Lemma take_session_run r w c s :
  sessions w !! r = Some s ->
  take_session r (w, c) =
    (Ok (drain_order (Session.pending_ack s)),
     (w <| sessions := <[r := (drain_pending ((take_control_receiver s).2)).2]> (sessions w) |>,
      c <| c_keep_alive := Session.keep_alive s |> <| c_control := Session.receiver s |>)).
Proof.
  intros Hs. unfold take_session, in_world. unfold mbind at 1, M_bind at 1.
  unfold session_at. unfold mbind at 1, M_bind at 1, get, lift, unwrap. rewrite Hs.
  cbn [take_control_receiver drain_pending]. unfold mbind at 1, M_bind at 1.
  by rewrite (with_session_eq _ _ _ _ Hs).
Qed.

Lemma handles_take c0 r :
  handles c0 (valid r) (under (BrokerLock.Session r) Mode.Write (act (take_session r)))
    (fun pending w => Forall (fun e => publish_wf e.2) pending /\ valid r w).
Proof.
  apply handles_in_session; [apply stable_valid | intros a; apply stable_and; [by intros w w' | apply stable_valid] |].
  intros w c Hw [s Hs] Hl. rewrite (take_session_run r w c s Hs).
  set (s' := (drain_pending ((take_control_receiver s).2)).2).
  destruct (update_calm w r s s' Hs) as [Hstir Hkeep]; [split; [done | by right] |].
  split; [| split; [by destruct Hl | split; [by apply (drained_wf (unpooled w) r); [apply st_world |] |]]].
  - split; [split; [by apply (update_extends w _ r s s') | split; [| by split]] |].
    + eapply steady_kept; [done | done | done |].
      apply (update_world_ok (unpooled w) r s s'); [by apply st_world | done | apply mild_serve].
    + intros ch Hch. right. by exists r, s.
  - exists s'. simpl. by rewrite lookup_insert_eq.
Qed.

Lemma handles_lift {A} c0 P (o : outcome BrokerError A) :
  stable P -> handles c0 P (act (lift o)) (fun a w => o = Ok a /\ P w).
Proof.
  intros HP w c Hw Hp Hl [w1 c1] [Hr E]. simpl in *. subst c1.
  assert (Hg : conn_guarantee false (w1, c) (w1, c)) by (split; [split_and!; by try apply Hr | by left]).
  unfold lift. destruct o as [a|e| |]; [| done ..]. split; [done |].
  intros [w2 c2] [Hr2 E2]. simpl in *. subst c2. split_and!; [done | by apply Hr2, Hr | done | done |].
  eapply HP; [apply Hr2 |]. by eapply HP; [apply Hr |].
Qed.

Lemma handles_pure {A} c0 (φ : Prop) P (p : Handling A) Q :
  (φ -> handles c0 P p Q) -> handles c0 (fun w => φ /\ P w) p Q.
Proof. intros Hp w c Hw [H ?] Hl. by apply Hp. Qed.

Lemma handles_resend c0 r pending :
  Forall (fun e => publish_wf e.2) pending ->
  handles c0 (valid r) (resend_pending_task r pending) (fun _ => valid r).
Proof.
  pose proof (stable_valid r) as Hv.
  induction 1 as [|[id p] pending Hp _ IH]; [by apply (handles_ret c0 tt (fun _ => valid r)) |].
  eapply handles_bind; [by apply handles_lift |]. intros p1. apply handles_pure. intros E1.
  eapply handles_bind; [by apply handles_lift |]. intros p2. apply handles_pure. intros E2.
  assert (publish_wf p2) by (eapply publish_id_wf; [| done]; by eapply publish_dup_wf).
  eapply (handles_bind _ _ _ _ (fun _ => valid r)).
  - apply handles_shared, triple_with_session; [apply outside_nil | intros s; by apply mild_track |].
    intros s. split; [done | by left].
  - intros u. apply handles_then; [apply own_send | done |]. done.
Qed.

(** ** The branches *)

(** A branch that was entered in a good state ends in one, without locks. *)
Definition settled {A} (a : A) (h : locks lock) (s : World * Conn) : Prop :=
  h = [] /\ steady s.1 /\ conn_ok s.1 s.2.

Definition branch_wp (p : Handling flow) : Prop :=
  forall w c, steady w -> conn_ok w c -> handler_wp [] p settled (w, c).

(** A handler and what follows it. *)
Lemma handles_use {A C} P (p : Handling A) Q (k : A -> Handling C) S w c :
  handles c P p Q -> steady w -> P w ->
  (forall a w' c', extends w w' -> steady w' -> like c c' -> Q a w' -> handler_wp [] (k a) S (w', c')) ->
  handler_wp [] (p ≫= k) S (w, c).
Proof.
  intros Hp Hw HP Hk. apply wp_bind; [apply _ |].
  eapply wp_mono; [| apply (wp_frame _ _ _ _ (fun s => extends w s.1)); [..| by apply Hp]].
  - intros a h [w' c'] (He & -> & ? & ? & ?). by apply Hk.
  - intros b [w1 c1] [w2 c2] [(He & _) _] H. by etrans.
  - intros b [w1 c1] [w2 c2] [(He & _) _] H. by etrans.
  - done.
Qed.

Lemma like_refl c : like c c.
Proof. by split. Qed.

(** The variables of the task change at no other's hand. *)
Lemma wp_variable {A C} (f : Conn -> A) (k : A -> Handling C) S w c :
  steady w -> (forall w', extends w w' -> steady w' -> handler_wp [] (k (f c)) S (w', c)) ->
  handler_wp [] (act (variable f) ≫= k) S (w, c).
Proof.
  intros Hw Hk [w1 c1] [Hr E]. cbn [fst snd] in *. subst c1.
  assert (Hw1 : steady w1) by by apply Hr. split; [split; [by split_and! | by left] |]. apply Hk; [apply Hr | done].
Qed.

Lemma wp_local {C} f (k : unit -> Handling C) S w c :
  steady w -> c_control (f c) = c_control c ->
  (forall w', extends w w' -> steady w' -> handler_wp [] (k tt) S (w', f c)) ->
  handler_wp [] (act (local f) ≫= k) S (w, c).
Proof.
  intros Hw Hc Hk [w1 c1] [Hr E]. cbn [fst snd] in *. subst c1.
  assert (Hw1 : steady w1) by by apply Hr. split; [split; [by split_and! |] |].
  - intros ch Hch. left. cbn [snd] in *. congruence.
  - apply Hk; [apply Hr | done].
Qed.

Lemma wp_settle (a : flow) w c : steady w -> conn_ok w c -> handler_wp [] (mret a : Handling flow) settled (w, c).
Proof.
  intros Hw Hc [w1 c1] [Hr E]. cbn [fst snd] in *. subst c1. split_and!; [done | by apply Hr |].
  eapply stable_conn_ok; [apply Hr | done].
Qed.

Lemma conn_ok_like w w' c c' : extends w w' -> like c c' -> conn_ok w c -> conn_ok w' c'.
Proof.
  intros He [Hs Hc] H. unfold conn_ok in *. rewrite Hs, Hc. by apply (stable_conn_ok c w w').
Qed.

(** A handler after which the branch is over. *)
Lemma wp_last {A} P (p : Handling A) Q (a : flow) w c :
  handles c P p Q -> steady w -> conn_ok w c -> P w -> handler_wp [] (p ≫= fun _ => mret a) settled (w, c).
Proof.
  intros Hp Hw Hc HP. eapply handles_use; [exact Hp | done | done |].
  intros x w' c' He Hw' Hl _. apply wp_settle; [done |]. by eapply conn_ok_like.
Qed.

(** A branch that asks for the session of the connection. *)
Lemma branch_with_session (k : option Z -> Handling flow) :
  (forall w c r, steady w -> conn_ok w c -> valid r w -> handler_wp [] (k (Some r)) settled (w, c)) ->
  (forall w c, steady w -> conn_ok w c -> handler_wp [] (k None) settled (w, c)) ->
  branch_wp (act (variable c_session) ≫= k).
Proof.
  intros Hs Hn w c Hw Hc. apply wp_variable; [done |]. intros w' He Hw'.
  apply (stable_conn_ok c w w' He) in Hc. destruct (c_session c) as [r|] eqn:E; [| by apply Hn].
  apply Hs; [done | done |]. unfold conn_ok in Hc. by rewrite E in Hc.
Qed.

Lemma handles_shutdown c0 : handles c0 (fun _ => True) (act (on_stream shutdown)) always.
Proof. apply handles_own_end; [apply own_stream | apply stable_true]. Qed.

Lemma branch_close_task : branch_wp on_close_task.
Proof.
  apply branch_with_session; [| intros; by apply wp_settle]. intros w c r Hw Hc Hv.
  eapply wp_last; [apply handles_shared, triple_lose_client | done ..].
Qed.

Lemma branch_keep_alive_task : branch_wp on_keep_alive_task.
Proof.
  apply branch_with_session; intros.
  - eapply wp_last; [apply handles_shared, triple_lose_client | done ..].
  - eapply wp_last; [apply handles_shutdown | done ..].
Qed.

Lemma branch_control_task m : branch_wp (on_control_task m).
Proof.
  destruct m as [reason|p]; cbn [on_control_task].
  - apply branch_with_session; [| intros; by eapply wp_last; [apply handles_shutdown | ..]].
    intros w c r Hw Hc Hv. eapply handles_use; [apply handles_shared, triple_session_id, outside_nil | done | done |].
    intros id w1 c1 He1 Hw1 Hl1 _. apply (conn_ok_like _ _ _ _ He1 Hl1) in Hc.
    eapply (handles_use (fun _ => True) _ always); [| done | done |].
    + destruct (bool_decide _); [apply handles_nop |]. apply handles_shared, triple_park, stable_true.
    + intros u w2 c2 He2 Hw2 Hl2 _. eapply wp_last; [| done | by eapply conn_ok_like | exact I].
      apply handles_own_end; [apply own_send | apply stable_true].
  - intros w c Hw Hc. eapply wp_last; [| done | done | exact I].
    apply handles_own_end; [apply own_send | apply stable_true].
Qed.

Lemma wp_serve r w c : steady w -> valid r w -> handler_wp [] (serve_task r) settled (w, c).
Proof.
  intros Hw Hv. eapply handles_use; [apply handles_take | done | done |].
  intros pending w1 c1 _ Hw1 _ [Hp Hv1]. eapply handles_use; [by apply handles_resend | done | done |].
  intros u w2 c2 _ Hw2 _ Hv2. apply wp_local; [done | done |]. intros w3 He3 Hw3.
  apply wp_local; [done | done |]. intros w4 He4 Hw4. apply wp_settle; [done |].
  eapply stable_valid; [exact He4 |]. by eapply stable_valid.
Qed.

Lemma branch_packet_task uuid packet : branch_wp (on_packet_task uuid packet).
Proof.
  intros w c Hw Hc. apply wp_variable; [done |]. intros w1 He1 Hw1. apply (stable_conn_ok c w w1 He1) in Hc.
  destruct (negb _).
  - eapply handles_use; [apply handles_pre_connect | done | done |]. intros o w2 c2 He2 Hw2 Hl2 Ho.
    destruct o as [r|]; [by apply wp_serve |]. apply wp_settle; [done | by eapply conn_ok_like].
  - revert w1 c Hw1 Hc He1. cut (branch_wp (session ← act (variable c_session);
      match session with Some r => handle_packet_task packet r ≫= fun _ => mret Continue | None => mret Continue end)).
    { intros H w1 c Hw1 Hc _. by apply H. }
    apply branch_with_session; [| intros; by apply wp_settle]. intros w1 c1 r Hw1 Hc1 Hv.
    eapply wp_last; [apply handles_packet | done ..].
Qed.

Lemma branch_read_task uuid o p : on_read_task uuid o = Some p -> branch_wp p.
Proof.
  destruct o as [[packet|]|e| |]; intros Hp; [apply (inj Some) in Hp; destruct Hp .. | done].
  - apply branch_packet_task.
  - apply branch_close_task.
  - intros w c Hw Hc. apply (wp_bind _ _ _ _ [] on_close_task).
    eapply wp_mono; [| by apply branch_close_task].
    intros a h [w1 c1] (-> & Hw1 & _) [w2 c2] [Hr E]. cbn [fst snd] in *. subst c2.
    split; [| done]. split; [split_and!; by try apply Hr | by left].
  - intros w c Hw Hc [w2 c2] [Hr E]. cbn [fst snd] in *. subst c2.
    split; [| done]. split; [split_and!; by try apply Hr | by left].
Qed.

(** ** The tasks together *)

Abbreviation shared_wp := (wp BrokerLock.Pool pool_ok relies guarantee).
Abbreviation pool_owner := (owner BrokerLock.Pool).

Definition task_ok w (t : Task) : Prop :=
  match t with
  | Waiting c => conn_ok w c
  | Busy c p held => handler_wp held p settled (w, c)
  | Publishing p held => shared_wp held p (fun _ h w => h = [] /\ steady w /\ True) w
  end.

(** A lock that a task holds for writing is held by no other task. *)
Definition exclusive (ts : gmap Z Task) : Prop :=
  forall i j t u l m, i <> j -> ts !! i = Some t -> ts !! j = Some u ->
  (l, Mode.Write) ∈ held_by t -> (l, m) ∉ held_by u.

(** No task is changing the pool. *)
Definition unlocked (ts : gmap Z Task) : Prop :=
  forall i t, ts !! i = Some t -> pool_owner (held_by t) = false.

Context (cfg : Config).

Record tasks_ok (sys : Tasks) : Prop := {
  to_config : config (t_world sys) = cfg;
  to_steady : steady (t_world sys);
  to_exclusive : exclusive (t_tasks sys);
  to_tasks : map_Forall (fun _ t => task_ok (t_world sys) t) (t_tasks sys);
  to_pool : unlocked (t_tasks sys) -> pool_ok (t_world sys);
}.

(** *** Locks *)

Lemma held_in_elem g ts : g ∈ held_in ts <-> exists i t, ts !! i = Some t /\ g ∈ held_by t.
Proof.
  unfold held_in. rewrite list_elem_of_In, in_concat. setoid_rewrite <- list_elem_of_In.
  setoid_rewrite list_elem_of_fmap. split.
  - intros (l & ([i t] & -> & Hin) & Hg). apply elem_of_map_to_list in Hin. eauto.
  - intros (i & t & Hi & Hg). exists (held_by t). split; [| done]. exists (i, t). split; [done |].
    by apply elem_of_map_to_list.
Qed.

Lemma admits_write (held : locks lock) l : admits held l Mode.Write = true <-> forall m, (l, m) ∉ held.
Proof.
  simpl. rewrite andb_true_iff, !negb_true_iff, !bool_decide_eq_false. split; [| auto]. by intros [? ?] [].
Qed.

Lemma admits_any (held : locks lock) l m : admits held l m = true -> (l, Mode.Write) ∉ held.
Proof. destruct m; simpl; rewrite ?andb_true_iff, !negb_true_iff, !bool_decide_eq_false; tauto. Qed.

Lemma owner_elem held : pool_owner held = true <-> (BrokerLock.Pool, Mode.Write) ∈ held.
Proof. apply bool_decide_eq_true. Qed.

Lemma others_elem g i ts : g ∈ others i ts <-> exists j t, j <> i /\ ts !! j = Some t /\ g ∈ held_by t.
Proof.
  unfold others. rewrite held_in_elem. setoid_rewrite lookup_delete_Some. split.
  - intros (j & t & [? ?] & ?). exists j, t. auto.
  - intros (j & t & ? & ? & ?). exists j, t. auto.
Qed.

(** The pool may be locked for writing: nobody is changing it. *)
Lemma admits_unlocked i t ts :
  ts !! i = Some t -> admits (others i ts ++ held_by t) BrokerLock.Pool Mode.Write = true -> unlocked ts.
Proof.
  rewrite admits_write. intros Hi Ha j u Hj. apply not_true_iff_false. rewrite owner_elem. intros Hin.
  apply (Ha Mode.Write), elem_of_app. destruct (decide (j = i)) as [->|Hne]; [right; by simplify_eq |].
  left. apply others_elem. eauto.
Qed.

(** The locks of task [i] change as a step changes them. *)
Lemma exclusive_step i t t' ts :
  exclusive ts -> ts !! i = Some t ->
  (forall g, g ∈ held_by t' -> g ∈ held_by t)
  \/ (exists l m, held_by t' = (l, m) :: held_by t /\ admits (others i ts ++ held_by t) l m = true) ->
  exclusive (<[i := t']> ts).
Proof.
  intros Hex Hi Hh j k u v l m Hjk. rewrite !lookup_insert_Some.
  intros [[<- <-]|[Hj Hu]] [[<- <-]|[Hk Hv]] Hw Hm; [done | | | by eapply (Hex j k)].
  - destruct Hh as [Hh|(l0 & m0 & E & Ha)]; [by eapply (Hex i k); eauto |].
    rewrite E, elem_of_cons in Hw. destruct Hw as [[= <- <-]|Hw]; [| by eapply (Hex i k)].
    rewrite admits_write in Ha. apply (Ha m), elem_of_app. left. apply others_elem. eauto.
  - destruct Hh as [Hh|(l0 & m0 & E & Ha)]; [by eapply (Hex j i); eauto |].
    rewrite E, elem_of_cons in Hm. destruct Hm as [[= <- <-]|Hm]; [| by eapply (Hex j i)].
    apply admits_any in Ha. apply Ha, elem_of_app. left. apply others_elem. eauto.
Qed.

Lemma exclusive_delete i ts : exclusive ts -> exclusive (delete i ts).
Proof.
  intros Hex j k u v l m Hjk. rewrite !lookup_delete_Some. intros [_ Hu] [_ Hv]. by apply (Hex j k).
Qed.

Lemma exclusive_new i t ts : exclusive ts -> held_by t = [] -> exclusive (<[i := t]> ts).
Proof.
  intros Hex Ht j k u v l m Hjk. rewrite !lookup_insert_Some.
  intros [[<- <-]|[Hj Hu]] [[<- <-]|[Hk Hv]]; rewrite ?Ht; try done.
  - intros H. by apply not_elem_of_nil in H.
  - intros _. apply not_elem_of_nil.
  - by apply (Hex j k).
Qed.

(** *** What the others see *)

Lemma task_ok_relies w w' t : relies (pool_owner (held_by t)) w w' -> task_ok w t -> task_ok w' t.
Proof.
  intros Hr. destruct t as [c|c p held|p held]; simpl.
  - apply stable_conn_ok, Hr.
  - apply wp_rely; [apply _ |]. by split.
  - by apply wp_rely; [apply _ |].
Qed.

Lemma tasks_ok_relies w w' (ts : gmap Z Task) :
  (forall i t, ts !! i = Some t -> relies (pool_owner (held_by t)) w w') ->
  map_Forall (fun _ t => task_ok w t) ts -> map_Forall (fun _ t => task_ok w' t) ts.
Proof. intros Hr Hts i t Hi. eapply task_ok_relies; [by eapply Hr | by apply (Hts i)]. Qed.

(** A change that no task notices, whatever it holds. *)
Lemma hushed_ok w w' ts : (forall b, relies b w w') -> tasks_ok (mkTasks w ts) -> tasks_ok (mkTasks w' ts).
Proof.
  intros Hr [Hcfg Hs He Ht Hp]. split; cbn [t_world t_tasks] in *.
  - destruct (Hr true) as [(_ & _ & ->) _]. done.
  - by apply (Hr true).
  - done.
  - eapply tasks_ok_relies; [| exact Ht]. auto.
  - intros Hu. eapply pool_ok_kept; [by apply (Hr true) | auto].
Qed.

(** The tasks after [i] has moved; [None] when it is over. *)
Definition after_task (i : Z) (o : option Task) (ts : gmap Z Task) : gmap Z Task :=
  match o with Some t => <[i := t]> ts | None => delete i ts end.

Lemma after_task_other i j o ts : j <> i -> after_task i o ts !! j = ts !! j.
Proof. intros Hne. destruct o; simpl; [by rewrite lookup_insert_ne | by rewrite lookup_delete_ne]. Qed.

Lemma after_task_own i ts o u : after_task i o ts !! i = Some u -> o = Some u.
Proof. destruct o; simpl; [rewrite lookup_insert_eq | rewrite lookup_delete_eq]; congruence. Qed.

Lemma moved_ok i t o w w' ts :
  tasks_ok (mkTasks w ts) -> ts !! i = Some t -> w' = w \/ guarantee (pool_owner (held_by t)) w w' ->
  exclusive (after_task i o ts) -> (forall u, o = Some u -> task_ok w' u) ->
  (pool_owner (held_by t) = true -> (forall u, o = Some u -> pool_owner (held_by u) = false) -> pool_ok w') ->
  tasks_ok (mkTasks w' (after_task i o ts)).
Proof.
  intros [Hcfg Hs He Ht Hp] Hi Hg He' Ho Hown. cbn [t_world t_tasks] in *.
  assert (Hr : forall j u, j <> i -> ts !! j = Some u -> relies (pool_owner (held_by u)) w w').
  { intros j u Hne Hj. destruct Hg as [->|Hg]; [done |]. eapply guarantee_relies; [| exact Hg].
    apply not_true_iff_false. rewrite andb_true_iff, !owner_elem. intros [H1 H2].
    by apply (He i j t u BrokerLock.Pool Mode.Write). }
  split; cbn [t_world t_tasks].
  - destruct Hg as [->|[(_ & _ & ->) _]]; done.
  - destruct Hg as [->|Hg]; [done | apply Hg].
  - done.
  - intros j u. destruct (decide (j = i)) as [->|Hne].
    + intros Hu. by apply Ho, (after_task_own i ts).
    + rewrite after_task_other by done. intros Hj. eapply task_ok_relies; [by eapply Hr | by apply (Ht j)].
  - intros Hu. destruct (pool_owner (held_by t)) eqn:E.
    + apply Hown; [done |]. intros u ->. apply (Hu i u). apply lookup_insert_eq.
    + assert (Hk : keeps_pool w w') by (destruct Hg as [->|Hg]; [done | by apply Hg]).
      apply (pool_ok_kept w w' Hk), Hp. intros j u Hj. destruct (decide (j = i)) as [->|Hne]; [congruence |].
      apply (Hu j). by rewrite after_task_other.
Qed.

(** Changes outside the pool, the sessions and the topic tree. *)
Lemma aside_relies w w' b :
  sessions w' = sessions w -> session_pool w' = session_pool w -> topic_tree w' = topic_tree w ->
  config w' = config w -> (forall ch, is_Some (channels w !! ch) -> is_Some (channels w' !! ch)) ->
  relies b w w'.
Proof.
  intros Es Ep Et Ec Hch. assert (Hk : keeps_pool w w').
  { split; [done |]. rewrite Es. intros r s Hs. by exists s. }
  split; [by apply extends_same |]. split; [| done]. intros Hw. eapply steady_kept; [done | done | done |].
  destruct (st_world w Hw) as [? ? Ht Hs Hd]. split; simpl in *.
  - by apply pool_ok_none.
  - intros k _ Hk'. simpl. rewrite map_size_empty. unfold is_u32 in Hk'. lia.
  - unfold overgrown in *. simpl in *. by rewrite Et.
  - rewrite Es. intros r s Hr. destruct (Hs r s Hr) as (? & ? & ?). split_and!; [done | simpl; auto | done].
  - by rewrite Es.
Qed.

(** Dropping the receiver of a task that is over. *)
Lemma drop_control_relies c w b : relies b w (drop_control c w).
Proof.
  unfold drop_control. destruct (c_control c) as [ch|]; [| reflexivity].
  destruct (channels w !! ch) as [q|]; [| reflexivity]. apply aside_relies; try done. intros. by apply insert_some.
Qed.

Lemma settle_branch_ok i c p held res w ts :
  tasks_ok (mkTasks w ts) -> ts !! i = Some (Busy c p held) ->
  advance (others i ts) held p (w, c) = Some res -> tasks_ok (settle_branch i ts res).
Proof.
  intros Hok Hi Ha. destruct res as [res [w' c']]. pose proof (to_tasks _ Hok i _ Hi) as Hwp.
  destruct (wp_advance _ _ _ _ _ _ _ _ _ _ _ Hwp Ha) as [Hg Hres].
  { intros Hadm. apply (to_pool _ Hok). by eapply (admits_unlocked i). }
  assert (Hg' : w' = w \/ guarantee (pool_owner held) w w') by (destruct Hg as [[= -> ->]|[? _]]; auto).
  assert (Hend : (pool_owner held = true -> pool_ok w') -> tasks_ok (mkTasks (drop_control c' w') (delete i ts))).
  { intros Hp. eapply hushed_ok; [intros b; apply drop_control_relies |].
    apply (moved_ok i (Busy c p held) None w); [done | done | done | by apply exclusive_delete, Hok | done | auto]. }
  destruct res as [p' held'|[[]|e| |]]; cbn [settle_branch].
  - destruct Hres as [Hwp' Hp]. apply (moved_ok i (Busy c p held) (Some (Busy c' p' held')) w); [done | done | done | | |].
    + eapply exclusive_step; [apply Hok | exact Hi |]. exact (advance_held _ _ _ _ _ _ _ Ha).
    + by intros u [= <-].
    + intros Ho Hu. apply Hp; [done | by apply (Hu (Busy c' p' held'))].
  - destruct Hres as (-> & Hs & Hc). apply (moved_ok i (Busy c p []) (Some (Waiting c')) w); [done | done | done | | |].
    + apply exclusive_new; [apply Hok | done].
    + by intros u [= <-].
    + done.
  - destruct Hres as (-> & _). by apply Hend.
  - by apply Hend.
  - by apply Hend.
  - by apply Hend.
Qed.

Lemma settle_will_ok i p held res w ts :
  tasks_ok (mkTasks w ts) -> ts !! i = Some (Publishing p held) ->
  advance (others i ts) held p w = Some res -> tasks_ok (settle_will i ts res).
Proof.
  intros Hok Hi Ha. destruct res as [res w']. pose proof (to_tasks _ Hok i _ Hi) as Hwp.
  destruct (wp_advance _ _ _ _ _ _ _ _ _ _ _ Hwp Ha) as [Hg Hres].
  { intros Hadm. apply (to_pool _ Hok). by eapply (admits_unlocked i). }
  assert (Hend : (pool_owner held = true -> pool_ok w') -> tasks_ok (mkTasks w' (delete i ts))).
  { intros Hp.
    apply (moved_ok i (Publishing p held) None w); [done | done | done | by apply exclusive_delete, Hok | done | auto]. }
  destruct res as [p' held'|[a|e| |]]; cbn [settle_will]; [| apply Hend ..]; [| | done ..].
  - destruct Hres as [Hwp' Hp].
    apply (moved_ok i (Publishing p held) (Some (Publishing p' held')) w); [done | done | done | | |].
    + eapply exclusive_step; [apply Hok | exact Hi |]. exact (advance_held _ _ _ _ _ _ _ Ha).
    + by intros u [= <-].
    + intros Ho Hu. apply Hp; [done | by apply (Hu (Publishing p' held'))].
  - destruct Hres as (-> & _). done.
Qed.

(** A waiting task enters a branch. *)
Lemma entered_ok i t u w ts :
  tasks_ok (mkTasks w ts) -> ts !! i = Some t -> held_by t = [] -> held_by u = [] -> task_ok w u ->
  tasks_ok (mkTasks w (<[i := u]> ts)).
Proof.
  intros Hok Hi Ht Hu Hwp. apply (moved_ok i t (Some u) w); [done | done | by left | | |].
  - by apply exclusive_new; [apply Hok |].
  - by intros v [= <-].
  - by rewrite Ht.
Qed.

(** A new task. *)
Lemma spawned_ok i u w ts :
  tasks_ok (mkTasks w ts) -> ts !! i = None -> held_by u = [] -> task_ok w u ->
  tasks_ok (mkTasks w (<[i := u]> ts)).
Proof.
  intros [Hcfg Hs He Ht Hp] Hi Hu Hwp. split; cbn [t_world t_tasks] in *.
  - done.
  - done.
  - by apply exclusive_new.
  - by apply map_Forall_insert_2.
  - intros Hun. apply Hp. intros j t Hj. apply (Hun j). rewrite lookup_insert_ne; [done | congruence].
Qed.

Lemma command_ok cmd o w w' ts :
  on_command cmd w = (o, w') ->
  match cmd with
  | BrokerCommand.SetSessionExpiry _ => admits (held_in ts) BrokerLock.Pool Mode.Write = true
  | _ => True
  end -> tasks_ok (mkTasks w ts) -> tasks_ok (mkTasks w' ts).
Proof.
  intros Hr Ha Hok. destruct cmd as [| | |d]; injection Hr as _ <-; try done;
    try (eapply hushed_ok; [intros b | exact Hok]; by apply aside_relies).
  rewrite admits_write in Ha. assert (Hun : unlocked ts).
  { intros i t Hi. apply not_true_iff_false. rewrite owner_elem. intros Hin. apply (Ha Mode.Write), held_in_elem. eauto. }
  destruct Hok as [Hcfg [Hw Hc He] Hex Hts Hp]. cbn [t_world t_tasks] in *.
  assert (Hs : steady (w <| session_pool := pool_set_session_expiry d (session_pool w) |>)) by by split.
  split; cbn [t_world t_tasks]; [done | done | done | |].
  - eapply tasks_ok_relies; [| exact Hts]. intros i t Hi. rewrite (Hun i t Hi). 
    split; [by apply extends_same | by split].
  - intros _. by destruct (Hp Hun).
Qed.

Lemma fine_step_ok sys sys' : fine_step sys sys' -> tasks_ok sys -> tasks_ok sys'.
Proof.
  intros Hstep Hok. destruct sys as [w ts].
  destruct Hstep as [i t Hi|i c fuel u1 u2 o s p Hi Hr Hp|i c fuel uuid s Hi Hr|i c ch q m q' Hi Hch Hq Hr|i c Hi|i c p held res Hi Ha
    |token deadline will Hd Hc|i token deadline will Hd Hc Hi|i p held res Hi Ha|d Hd|cmd o w' Hr Ha];
    cbn [t_world t_tasks] in *.
  - by apply spawned_ok.
  - eapply entered_ok; [done | exact Hi | done | done |]. apply (branch_read_task _ _ _ Hp); [apply Hok |].
    apply (to_tasks _ Hok i _ Hi).
  - eapply entered_ok; [done | exact Hi | done | done |]. apply (to_tasks _ Hok i _ Hi).
  - assert (Hok' : tasks_ok (mkTasks (w <| channels := <[ch := q']> (channels w) |>) ts)).
    { eapply hushed_ok; [intros b | exact Hok]. apply aside_relies; try done. intros. by apply insert_some. }
    eapply entered_ok; [done | exact Hi | done | done |]. apply branch_control_task; [apply Hok' |].
    apply (to_tasks _ Hok' i _ Hi).
  - eapply entered_ok; [done | exact Hi | done | done |]. apply branch_keep_alive_task; [apply Hok |].
    apply (to_tasks _ Hok i _ Hi).
  - by eapply settle_branch_ok.
  - eapply hushed_ok; [intros b | exact Hok]. by apply aside_relies.
  - assert (Hok' : tasks_ok (mkTasks (w <| delayed_wills := delete token (delayed_wills w) |>) ts)).
    { eapply hushed_ok; [intros b | exact Hok]. by apply aside_relies. }
    apply spawned_ok; [done | done | done |]. by apply triple_publish_will; [apply Hok' |].
  - by eapply settle_will_ok.
  - eapply hushed_ok; [intros b | exact Hok]. by apply aside_relies.
  - by eapply command_ok.
Qed.

Lemma fine_reachable_ok sys : fine_reachable cfg sys -> tasks_ok sys.
Proof.
  intros Hr. assert (H : forall s s', rtc fine_step s s' -> tasks_ok s -> tasks_ok s').
  { induction 1 as [|s1 s2 s3 H12 _ IH]; [done |]. intros Hok. by apply IH, (fine_step_ok s1). }
  apply (H _ _ Hr). destruct (start_ok cfg) as [Hw _]. split; cbn [t_world t_tasks].
  - done.
  - by apply world_ok_steady.
  - intros i j t u l m _ Hi. simpl in Hi. by rewrite lookup_empty in Hi.
  - apply map_Forall_empty.
  - intros _. apply Hw.
Qed.

(** C8: in every state that the tasks of the broker reach when they interrupt
    each other at every lock, channel and stream they wait for: a lock that one
    task holds for writing is held by no other; no more sessions are connected
    than the configured limit allows, also while a task is changing the pool;
    every entry of the pool leads to the session of that client; whenever no task
    is changing the pool, its counters are the sizes of its maps and every
    session is filed under its connection state; every session hands out valid
    packet identifiers, has a channel of its own and waits only for well-formed
    packets; the topic tree is well formed unless it has outgrown its index type;
    and a task that waits for a connected client has a session. *)
Theorem interleaved_invariant sys :
  fine_reachable cfg sys ->
  let w := t_world sys in
  let p := session_pool w in
  (forall i j t u l m, i <> j -> t_tasks sys !! i = Some t -> t_tasks sys !! j = Some u ->
    (l, Mode.Write) ∈ held_by t -> (l, m) ∉ held_by u)
  /\ (forall k, Config.max_active_sessions cfg = Some k -> is_u32 k ->
       Z.of_nat (size (SessionPool.active p)) <= k)
  /\ (forall id r b, pool_view p id = Some (r, b) ->
       exists s, sessions w !! r = Some s /\ Session.id s = id)
  /\ ((forall i t, t_tasks sys !! i = Some t -> (BrokerLock.Pool, Mode.Write) ∉ held_by t) ->
       SessionPool.active_sessions p = u32 (Z.of_nat (size (SessionPool.active p)))
       /\ SessionPool.inactive_sessions p = u32 (Z.of_nat (size (SessionPool.inactive p)))
       /\ (forall id r, SessionPool.active p !! id = Some r -> SessionPool.inactive p !! id = None)
       /\ forall id r b, pool_view p id = Some (r, b) ->
            exists s, sessions w !! r = Some s /\ Session.id s = id /\ Session.connected s = b)
  /\ (forall r s, sessions w !! r = Some s ->
       valid_packet_id (Session.next_packet_id s) /\ is_Some (channels w !! Session.sender s)
       /\ map_Forall (fun _ p => publish_wf p) (Session.pending_ack s)
       /\ forall r' s', sessions w !! r' = Some s' -> Session.sender s' = Session.sender s -> r' = r)
  /\ (4294967296 < len (topic_tree w) \/ tree_ok (topic_tree w))
  /\ (forall i c, t_tasks sys !! i = Some (Waiting c) -> c_connected c = true ->
       exists r s, c_session c = Some r /\ sessions w !! r = Some s).
Proof.
  intros Hr w p. destruct (fine_reachable_ok sys Hr) as [Hcfg [[_ _ Ht Hs Hd] Hcap He] Hex Hts Hp].
  split_and!; try done.
  - intros k Hk. apply Hcap. by rewrite Hcfg.
  - intros Hno. destruct Hp as [Ha Hi Hdis Hf]; [| by split_and!].
    intros i t Hi. apply not_true_iff_false. rewrite owner_elem. by eapply Hno.
  - intros r s Hrs. destruct (Hs r s Hrs) as (? & ? & ?). split_and!; try done.
    intros r' s' Hrs' E. by apply (Hd r' r s' s).
  - intros i c Hi Hcon. specialize (Hts i _ Hi). simpl in Hts. unfold conn_ok in Hts.
    destruct (c_session c) as [r|]; [| congruence]. destruct Hts as [s Hsr]. eauto.
Qed.
End concurrent.
