(* ===== verification/BrokerRaces.v ===== *)
(** * The tasks of the broker do not race *)
(** Along every interleaving each task stays disciplined ([BrokerLocks]), so that
    with mutual exclusion ([BrokerConcurrent]) what a task has locked is not
    changed by a step of another task.  The file ends with the relation between
    the interrupted tasks and the atomic handlers of [Broker]. *)

From S2P Require Import Prelude Bytes Codec Fixed Property MacroFacts Subscriptions.
From S2P Require Import Acks Publish Connect Packet Topic Stream Runtime Sessions Tasks Broker.
From S2P Require Import BrokerLogic BrokerTasks BrokerLocks BrokerInterleaved BrokerRely BrokerExclusion BrokerConcurrent.

Section races.
Context {B : Buf} {HI : HashIter} {T : Transport} {R : Runtime} {D : DrainOrder}.

Abbreviation disciplined_handler := (disciplined (E := BrokerError) (fun s : World * Conn => s.1) snd).
Abbreviation disciplined_shared := (disciplined (E := Empty_set) (fun w : World => w) (fun _ => tt)).

Definition task_disciplined (t : Task) : Prop :=
  match t with
  | Waiting _ => True
  | Busy _ p held => disciplined_handler held p
  | Publishing p held => disciplined_shared held p
  end.

(** ** Steps of a disciplined program *)

Section step.
Context {S C E A : Type} (world : S -> World) (own : S -> C).

Lemma disciplined_advance others held (p : prog lock S E A) s p' held' s' :
  disciplined world own held p -> advance others held p s = Some (Running p' held', s') ->
  disciplined world own held' p'.
Proof.
  destruct p as [a|X m k|l m k|l m k]; simpl; intros Hd Ha.
  - done.
  - destruct Hd as [_ Hk]. destruct (m s) as [[x|e| |] s1]; simplify_eq. apply Hk.
  - destruct (admits _ l m); by simplify_eq.
  - by simplify_eq.
Qed.

Lemma advance_untouched others held (p : prog lock S E A) s res s' :
  disciplined world own held p -> advance others held p s = Some (res, s') ->
  untouched held (world s) (world s').
Proof.
  destruct p as [a|X m k|l m k|l m k]; simpl; intros Hd Ha.
  - by simplify_eq.
  - destruct Hd as [Hm _]. destruct (Hm s s eq_refl) as (_ & _ & _ & Hu); [by split |].
    destruct (m s) as [[x|e| |] s1]; by simplify_eq.
  - destruct (admits _ l m); by simplify_eq.
  - by simplify_eq.
Qed.
End step.

(** ** Every reachable task *)

Lemma settle_branch_disciplined i c p held res ts w :
  map_Forall (fun _ t => task_disciplined t) ts -> disciplined_handler held p ->
  advance (others i ts) held p (w, c) = Some res ->
  map_Forall (fun _ t => task_disciplined t) (t_tasks (settle_branch i ts res)).
Proof.
  intros Hts Hp Ha. destruct res as [[p' held'|[[]|e| |]] [w' c']]; cbn [settle_branch t_tasks];
    try (by apply map_Forall_delete); apply map_Forall_insert_2; try done.
  by eapply disciplined_advance.
Qed.

Lemma settle_will_disciplined i p held res ts w :
  map_Forall (fun _ t => task_disciplined t) ts -> disciplined_shared held p ->
  advance (others i ts) held p w = Some res ->
  map_Forall (fun _ t => task_disciplined t) (t_tasks (settle_will i ts res)).
Proof.
  intros Hts Hp Ha. destruct res as [[p' held'|o] w']; cbn [settle_will t_tasks];
    [| by apply map_Forall_delete]. apply map_Forall_insert_2; [| done]. by eapply disciplined_advance.
Qed.

Lemma fine_step_disciplined sys sys' :
  fine_step sys sys' -> map_Forall (fun _ t => task_disciplined t) (t_tasks sys) ->
  map_Forall (fun _ t => task_disciplined t) (t_tasks sys').
Proof.
  intros Hstep Hts.
  destruct Hstep as [i t Hi|i c fuel u1 u2 o s p Hi Hr Hp|i c fuel uuid s Hi Hr|i c ch q m q' Hi Hch Hq Hr|i c Hi|i c p held res Hi Ha
    |token deadline will Hd Hc|i token deadline will Hd Hc Hi|i p held res Hi Ha|d Hd|cmd o w' Hr Ha];
    cbn [t_tasks]; try done; try (apply map_Forall_insert_2; [| done]); try done.
  - by eapply clean_on_read.
  - apply clean_on_control.
  - apply clean_on_timer.
  - eapply settle_branch_disciplined; [done | apply (Hts i _ Hi) | done].
  - apply clean_publish_will.
  - eapply settle_will_disciplined; [done | apply (Hts i _ Hi) | done].
Qed.

Lemma fine_reachable_disciplined cfg sys :
  fine_reachable cfg sys -> map_Forall (fun _ t => task_disciplined t) (t_tasks sys).
Proof.
  assert (H : forall s s', rtc fine_step s s' -> map_Forall (fun _ t => task_disciplined t) (t_tasks s) ->
    map_Forall (fun _ t => task_disciplined t) (t_tasks s')).
  { induction 1 as [|s1 s2 s3 H12 _ IH]; [done |]. intros Hs. by eapply IH, fine_step_disciplined. }
  intros Hr. apply (H _ _ Hr). apply map_Forall_empty.
Qed.

(** The state after the next step of a task, [None] while it waits. *)
Definition task_moves (i : Z) (sys : Tasks) (t : Task) : option World :=
  match t with
  | Waiting _ => None
  | Busy c p held => (fun res => res.2.1) <$> advance (others i (t_tasks sys)) held p (t_world sys, c)
  | Publishing p held => snd <$> advance (others i (t_tasks sys)) held p (t_world sys)
  end.

Lemma task_moves_untouched i sys t w' :
  task_disciplined t -> task_moves i sys t = Some w' -> untouched (held_by t) (t_world sys) w'.
Proof.
  destruct t as [c|c p held|p held]; simpl; [done | |]; intros Hd Hm.
  - destruct (advance _ held p _) as [[res [w1 c1]]|] eqn:Ha; [| done]. injection Hm as <-.
    by apply (advance_untouched _ _ _ _ _ _ _ _ Hd Ha).
  - destruct (advance _ held p _) as [[res w1]|] eqn:Ha; [| done]. injection Hm as <-.
    by apply (advance_untouched _ _ _ _ _ _ _ _ Hd Ha).
Qed.

(** ** The tasks and the atomic handlers *)

(** C9: the model whose tasks are interrupted at every [await] refines the code
    the atomic model describes.  (1) Every state that the broker reaches when no
    branch is interrupted it also reaches with interruptions, with all tasks at
    their [select!].  (2) Every program a task enters - the branch of a read,
    whatever the read returned, of a control message and of the timer, and the
    publication of a delayed will - is, when nothing interrupts it, the handler
    of the atomic model; it takes no lock that it holds and gives back every
    lock ([balanced]); and each of its pieces between two waits reads the pool,
    the topic tree or a session only under the lock of that object, in the sense
    that outcome and effect are the same in any two states that agree on what is
    locked, and changes them only under a lock for writing ([disciplined]).
    (3) Therefore the tasks do not race: in every reachable state of the
    interleaved model, a step of one task leaves unchanged whatever another task
    has locked. *)
Theorem atomic_runs_included cfg :
  (forall sys, reachable cfg sys -> fine_reachable cfg (at_rest sys))
  /\ (forall fuel uuid1 uuid2 w c o s p,
       read fuel uuid1 (c_stream c) = (o, s) -> on_read_task uuid2 o = Some p ->
       run p (w, c <| c_stream := s |>) = on_read fuel uuid1 uuid2 (w, c)
       /\ balanced [] p /\ disciplined_handler [] p)
  /\ (forall m, behaves (on_control_task m) (on_control m)
       /\ balanced [] (on_control_task m) /\ disciplined_handler [] (on_control_task m))
  /\ (behaves on_keep_alive_task on_keep_alive
       /\ balanced [] on_keep_alive_task /\ disciplined_handler [] on_keep_alive_task)
  /\ (forall will, behaves (publish_will_task will) (publish_will will)
       /\ balanced [] (publish_will_task will) /\ disciplined_shared [] (publish_will_task will))
  /\ (forall sys i j t u l m w', fine_reachable cfg sys -> i <> j ->
       t_tasks sys !! i = Some t -> t_tasks sys !! j = Some u -> (l, m) ∈ held_by u ->
       task_moves i sys t = Some w' -> kept l (t_world sys) w').
Proof.
  split; [apply runs_included |]. split.
  { intros fuel u1 u2 w c o s p Hr Hp. split; [by eapply on_read_behaves |].
    split; eapply clean_on_read; exact Hp. }
  split; [intros m; split; [apply on_control_behaves | split; apply clean_on_control] |].
  split; [split; [apply on_keep_alive_behaves | split; apply clean_on_timer] |].
  split; [intros will; split; [apply publish_will_behaves | split; apply clean_publish_will] |].
  intros sys i j t u l m w' Hr Hij Hi Hj Hl Hm.
  apply (task_moves_untouched i sys t w' (fine_reachable_disciplined cfg sys Hr i t Hi) Hm).
  intros Hw. by apply (to_exclusive _ _ (fine_reachable_ok cfg sys Hr) i j t u l m Hij Hi Hj Hw).
Qed.
End races.
