(* ===== verification/BrokerDeadlock.v ===== *)
(** * A takeover that never ends *)
(** [handle_connect] holds the lock of the pool while it waits for room in the
    control channel of the connection it displaces.  When the task of that
    connection is itself waiting for the pool, neither goes on, and no other
    task gets the pool again. *)

From S2P Require Import Prelude Bytes Codec Fixed Property MacroFacts Subscriptions.
From S2P Require Import Acks Publish Connect Packet Topic Stream Runtime Sessions Tasks Broker.
From S2P Require Import BrokerLogic BrokerTasks BrokerLocks BrokerRely BrokerExclusion BrokerConcurrent.

Section deadlock.
Context {B : Buf} {HI : HashIter} {T : Transport} {R : Runtime} {D : DrainOrder}.
Context (cfg : Config).
Implicit Types w : World.

(** The channel a task listens on. *)
Definition listening (t : Task) : option Z :=
  match t with Waiting c => c_control c | Busy c _ _ => c_control c | Publishing _ _ => None end.

(** The channel [ch] of session [r] is full, and its receiver is with a task. *)
Definition jammed (r ch : Z) w : Prop :=
  (exists s q, sessions w !! r = Some s /\ Session.sender s = ch /\ channels w !! ch = Some q /\ stuffed q)
  /\ forall r' s', sessions w !! r' = Some s' -> Session.receiver s' <> Some ch.

(** A program that waits for room in the channel of session [r], as
    [send_control] does, and one that waits for the pool. *)
Definition sending (r : Z) (p : prog lock (World * Conn) BrokerError flow) : Prop :=
  match p with
  | Do m _ => forall ch w c, jammed r ch w -> (m (w, c)).1 = OutOfFuel
  | _ => False
  end.

Definition wants_pool (p : prog lock (World * Conn) BrokerError flow) : bool :=
  match p with Lock l _ _ => bool_decide (l = BrokerLock.Pool) | _ => false end.

Lemma jammed_send r ch m w : jammed r ch w -> (send_control r m w).1 = OutOfFuel.
Proof.
  intros [(s & q & Hs & Hse & Hq & Hfull & Hopen) _]. subst ch.
  unfold send_control. unfold mbind at 1, M_bind at 1. rewrite (try_send_outcome r m w s q Hs Hq).
  pose proof (chan_try_send_law m q) as Hlaw. destruct (Z.ltb_spec 0 (chan_free q)); [lia |]. rewrite Hlaw.
  rewrite (session_at_run _ _ _ _ Hs), bind_get. unfold lift, unwrap. rewrite Hq.
  unfold mbind, M_bind. by rewrite Hopen.
Qed.

Lemma sending_send r m (k : unit -> prog lock (World * Conn) BrokerError flow) :
  sending r (Do (in_world (send_control r m)) k).
Proof.
  intros ch w c Hjam. unfold in_world. pose proof (jammed_send r ch m w Hjam) as Hsend.
  destruct (send_control r m w) as [o w1]. simpl in *. by subst o.
Qed.

(** Task [i] has the pool and sends to session [r], whose messages task [j]
    alone receives; task [j] waits for the pool. *)
Record embraced (i j r ch : Z) (sys : Tasks) : Prop := {
  em_sender : exists c p held,
    t_tasks sys !! i = Some (Busy c p held) /\ sending r p /\ (BrokerLock.Pool, Mode.Write) ∈ held;
  em_receiver : exists c p held,
    t_tasks sys !! j = Some (Busy c p held) /\ wants_pool p = true /\ c_control c = Some ch;
  em_channel : jammed r ch (t_world sys);
  em_alone n t : n <> j -> t_tasks sys !! n = Some t -> listening t <> Some ch;
}.

Lemma jammed_guarantee r ch w w' : guarantee false w w' -> jammed r ch w -> jammed r ch w'.
Proof.
  intros (_ & _ & [Hc Hst Hrec] & Hk) [(s & q & Hs & Hse & Hq & Hfull) Hno].
  destruct (Hk eq_refl) as [_ Hkeep]. destruct (Hkeep r s Hs) as (s' & Hs' & _ & _ & Hse'). split.
  - exists s', q. split_and!; [done | congruence | by apply Hst | apply Hfull ..].
  - intros r' t Ht Hch. destruct (Hrec r' t ch Ht Hch) as [Hn|(t0 & Ht0 & Hr)]; [congruence | by eapply Hno].
Qed.

Lemma jammed_same r ch w w' :
  sessions w' = sessions w -> channels w' !! ch = channels w !! ch -> jammed r ch w -> jammed r ch w'.
Proof. intros Es Ec. unfold jammed. by rewrite Es, Ec. Qed.

Lemma drop_control_jammed c r ch w : c_control c <> Some ch -> jammed r ch w -> jammed r ch (drop_control c w).
Proof.
  intros Hne. unfold drop_control. destruct (c_control c) as [ch'|]; [| done].
  destruct (channels w !! ch') as [q|]; [| done]. apply jammed_same; [done |]. simpl.
  rewrite lookup_insert_ne; [done | congruence].
Qed.

(** The two tasks are where they were. *)
Definition still (i j r ch : Z) (sys sys' : Tasks) : Prop :=
  embraced i j r ch sys' /\ t_tasks sys' !! i = t_tasks sys !! i /\ t_tasks sys' !! j = t_tasks sys !! j.

(** Task [n], neither of the two, has moved. *)
Lemma embraced_after i j r ch n o w w' ts :
  n <> i -> n <> j -> embraced i j r ch (mkTasks w ts) -> jammed r ch w' ->
  (forall u, o = Some u -> listening u <> Some ch) ->
  still i j r ch (mkTasks w ts) (mkTasks w' (after_task n o ts)).
Proof.
  intros Hi Hj [(c & p & held & Hs & Hown) (c' & p' & held' & Hr & Hch) _ Ha] Hjam Ho.
  cbn [t_tasks t_world] in *. split; [| cbn [t_tasks]; by rewrite !after_task_other].
  split; cbn [t_tasks t_world].
  - exists c, p, held. by rewrite after_task_other.
  - exists c', p', held'. by rewrite after_task_other.
  - done.
  - intros n' t Hn'. destruct (decide (n' = n)) as [->|Hne].
    + intros Ht. by apply Ho, (after_task_own n ts).
    + rewrite after_task_other by done. by apply Ha.
Qed.

Lemma embraced_world i j r ch w w' ts :
  sessions w' = sessions w -> channels w' !! ch = channels w !! ch ->
  embraced i j r ch (mkTasks w ts) -> still i j r ch (mkTasks w ts) (mkTasks w' ts).
Proof. intros Es Ec [Hs Hr Hc Ha]. split; [| done]. split; [done | done | by eapply jammed_same | done]. Qed.

(** The two tasks have no step. *)
Lemma sender_waits i j r ch w ts c p held others :
  embraced i j r ch (mkTasks w ts) -> ts !! i = Some (Busy c p held) -> advance others held p (w, c) = None.
Proof.
  intros [(c' & p' & held' & Hs & Hp & _) _ Hjam _] Hi. cbn [t_tasks t_world] in *. simplify_eq.
  destruct p' as [a|X m k|l m k|l m k]; try done. specialize (Hp ch w c' Hjam). simpl.
  destruct (m (w, c')) as [o s]. simpl in Hp. by subst o.
Qed.

Lemma receiver_waits i j r ch w ts c p held :
  i <> j -> embraced i j r ch (mkTasks w ts) -> ts !! j = Some (Busy c p held) ->
  advance (others j ts) held p (w, c) = None.
Proof.
  intros Hij [(c' & p' & held' & Hs & _ & Hown) (c2 & p2 & held2 & Hr & Hp & _) _ _] Hj.
  cbn [t_tasks t_world] in *. simplify_eq. destruct p2 as [a|X m k|l m k|l m k]; try done.
  simpl in Hp. apply bool_decide_eq_true in Hp as ->. simpl.
  destruct (admits _ _ _) eqn:Ha; [| done]. apply admits_any in Ha. destruct Ha.
  apply elem_of_app. left. apply others_elem. eauto.
Qed.

Lemma embraced_distinct i j r ch sys : embraced i j r ch sys -> i <> j.
Proof.
  intros [(c & p & held & Hs & Hp & _) (c' & p' & held' & Hr & Hp' & _) _ _] ->. simplify_eq. by destruct p.
Qed.

(** Another task does not own the pool. *)
Lemma embraced_owner i j r ch w ts n t :
  tasks_ok cfg (mkTasks w ts) -> embraced i j r ch (mkTasks w ts) -> n <> i -> ts !! n = Some t ->
  forall m, (BrokerLock.Pool, m) ∉ held_by t.
Proof.
  intros Hok [(c & p & held & Hs & _ & Hown) _ _ _] Hne Hn m'. cbn [t_tasks t_world] in *.
  eapply (to_exclusive _ _ Hok i n (Busy c p held)); [done | exact Hs | exact Hn | exact Hown].
Qed.

Lemma not_owner held : (BrokerLock.Pool, Mode.Write) ∉ held -> owner BrokerLock.Pool held = false.
Proof. intros H. by apply bool_decide_eq_false. Qed.

Lemma branch_embraced i j r ch w ts n c p held res :
  tasks_ok cfg (mkTasks w ts) -> embraced i j r ch (mkTasks w ts) -> ts !! n = Some (Busy c p held) ->
  advance (others n ts) held p (w, c) = Some res -> n <> i -> n <> j ->
  still i j r ch (mkTasks w ts) (settle_branch n ts res).
Proof.
  intros Hok Hem Hn Ha Hi Hj. destruct res as [res [w' c']]. pose proof (to_tasks _ _ Hok n _ Hn) as Hwp.
  destruct (wp_advance _ _ _ _ _ _ _ _ _ _ _ Hwp Ha) as [Hg _].
  { intros Hadm. apply (to_pool _ _ Hok). by eapply (admits_unlocked n). }
  pose proof (not_owner _ (embraced_owner i j r ch w ts n _ Hok Hem Hi Hn Mode.Write)) as Hown.
  pose proof (em_alone _ _ _ _ _ Hem n _ Hj Hn) as Hc. simpl in Hc. pose proof (em_channel _ _ _ _ _ Hem) as Hjam.
  assert (Hmoved : jammed r ch w' /\ c_control c' <> Some ch).
  { destruct Hg as [[= -> ->]|[Hg Hl]]; [done |]. change (held_by _) with held in Hown. rewrite Hown in Hg.
    split; [by eapply jammed_guarantee |]. intros Hch. destruct (Hl ch Hch) as [?|(r' & s & Hs & Hr)]; [done |].
    by apply (proj2 Hjam r' s). }
  destruct Hmoved as [Hjam' Hc'].
  assert (Hend : still i j r ch (mkTasks w ts) (mkTasks (drop_control c' w') (delete n ts))).
  { apply (embraced_after i j r ch n None w); [done | done | done | by apply drop_control_jammed | done]. }
  destruct res as [p' held'|[[]|e| |]]; cbn [settle_branch]; try exact Hend.
  - apply (embraced_after i j r ch n (Some (Busy c' p' held')) w); try done. by intros u [= <-].
  - apply (embraced_after i j r ch n (Some (Waiting c')) w); try done. by intros u [= <-].
Qed.

Lemma will_embraced i j r ch w ts n p held res :
  tasks_ok cfg (mkTasks w ts) -> embraced i j r ch (mkTasks w ts) -> ts !! n = Some (Publishing p held) ->
  advance (others n ts) held p w = Some res -> n <> i -> n <> j ->
  still i j r ch (mkTasks w ts) (settle_will n ts res).
Proof.
  intros Hok Hem Hn Ha Hi Hj. destruct res as [res w']. pose proof (to_tasks _ _ Hok n _ Hn) as Hwp.
  destruct (wp_advance _ _ _ _ _ _ _ _ _ _ _ Hwp Ha) as [Hg _].
  { intros Hadm. apply (to_pool _ _ Hok). by eapply (admits_unlocked n). }
  pose proof (not_owner _ (embraced_owner i j r ch w ts n _ Hok Hem Hi Hn Mode.Write)) as Hown.
  change (held_by _) with held in Hown. rewrite Hown in Hg.
  assert (Hjam : jammed r ch w').
  { destruct Hg as [->|Hg]; [| eapply jammed_guarantee; [exact Hg |]]; apply (em_channel _ _ _ _ _ Hem). }
  destruct res as [p' held'|o]; cbn [settle_will].
  - apply (embraced_after i j r ch n (Some (Publishing p' held')) w); try done. by intros u [= <-].
  - by apply (embraced_after i j r ch n None w).
Qed.

(** A waiting task is none of the two. *)
Lemma waiting_other i j r ch sys n c :
  embraced i j r ch sys -> t_tasks sys !! n = Some (Waiting c) -> n <> i /\ n <> j.
Proof.
  intros [(c1 & p & held & Hs & _) (c2 & p' & held' & Hr & _) _ _] Hn. split; intros ->; congruence.
Qed.

Lemma new_other i j r ch sys n : embraced i j r ch sys -> t_tasks sys !! n = None -> n <> i /\ n <> j.
Proof.
  intros [(c1 & p & held & Hs & _) (c2 & p' & held' & Hr & _) _ _] Hn. split; intros ->; congruence.
Qed.

Lemma fine_step_embraced i j r ch sys sys' :
  tasks_ok cfg sys -> embraced i j r ch sys -> fine_step sys sys' -> still i j r ch sys sys'.
Proof.
  intros Hok Hem Hstep. destruct sys as [w ts]. pose proof (embraced_distinct _ _ _ _ _ Hem) as Hij.
  pose proof (em_channel _ _ _ _ _ Hem) as Hjam. cbn [t_world] in Hjam.
  destruct Hstep as [n t Hn|n c fuel u1 u2 o s p Hn Hr Hp|n c fuel uuid s Hn Hr|n c ch' q m q' Hn Hch Hq Hr|n c Hn|n c p held res Hn Ha
    |token deadline will Hd Hc|n token deadline will Hd Hc Hn|n p held res Hn Ha|d Hd|cmd o w' Hr Ha];
    cbn [t_world t_tasks] in *.
  - destruct (new_other _ _ _ _ _ n Hem Hn). eapply (embraced_after i j r ch n (Some _)); try done. by intros u [= <-].
  - destruct (waiting_other _ _ _ _ _ n c Hem Hn) as [Hi Hj]. pose proof (em_alone _ _ _ _ _ Hem n _ Hj Hn).
    eapply (embraced_after i j r ch n (Some _)); try done. by intros u [= <-].
  - destruct (waiting_other _ _ _ _ _ n c Hem Hn) as [Hi Hj]. pose proof (em_alone _ _ _ _ _ Hem n _ Hj Hn).
    eapply (embraced_after i j r ch n (Some _)); try done. by intros u [= <-].
  - destruct (waiting_other _ _ _ _ _ n c Hem Hn) as [Hi Hj]. pose proof (em_alone _ _ _ _ _ Hem n _ Hj Hn) as Hne.
    simpl in Hne. eapply (embraced_after i j r ch n (Some _) w); try done; [| by intros u [= <-]].
    eapply jammed_same; [..| exact Hjam]; [done |]. simpl. rewrite lookup_insert_ne; [done | congruence].
  - destruct (waiting_other _ _ _ _ _ n c Hem Hn) as [Hi Hj]. pose proof (em_alone _ _ _ _ _ Hem n _ Hj Hn).
    eapply (embraced_after i j r ch n (Some _)); try done. by intros u [= <-].
  - destruct (decide (n = i)) as [->|Hi]; [rewrite (sender_waits _ _ _ _ _ _ _ _ _ _ Hem Hn) in Ha; done |].
    destruct (decide (n = j)) as [->|Hj]; [rewrite (receiver_waits _ _ _ _ _ _ _ _ _ Hij Hem Hn) in Ha; done |].
    by eapply branch_embraced.
  - by apply (embraced_world i j r ch w).
  - destruct (new_other _ _ _ _ _ n Hem Hn). eapply (embraced_after i j r ch n (Some _) w); try done.
    by intros u [= <-].
  - eapply will_embraced; [done | done | done | done | |]; intros ->;
      destruct Hem as [(c1 & p1 & h1 & H1 & _) (c2 & p2 & h2 & H2 & _) _ _]; cbn [t_tasks] in *; congruence.
  - by apply (embraced_world i j r ch w).
  - apply (embraced_world i j r ch w); [.. | exact Hem]; destruct cmd; by injection Hr as _ <-.
Qed.

Lemma steps_embraced i j r ch sys sys' :
  rtc fine_step sys sys' -> tasks_ok cfg sys -> embraced i j r ch sys ->
  still i j r ch sys sys' /\ tasks_ok cfg sys'.
Proof.
  induction 1 as [s|s1 s2 s3 H12 _ IH]; intros Hok Hem; [by split; [split |] |].
  destruct (fine_step_embraced i j r ch s1 s2 Hok Hem H12) as (Hem2 & Ei & Ej).
  destruct IH as [(Hem3 & Ei3 & Ej3) Hok3]; [by eapply fine_step_ok | done |].
  split; [split_and!; [done | congruence ..] | done].
Qed.

(** C10: a takeover can lock the broker up for good.  [handle_connect] sends the
    old connection a message while it holds the pool; if that connection's
    channel is full and its task waits for the pool, as every task does that
    routes a message, then in every state the broker reaches afterwards both
    tasks are where they were and no other task holds the pool: no client
    connects, no message is routed and no session is parked any more. *)
Theorem takeover_deadlock i j r ch sys :
  fine_reachable cfg sys -> embraced i j r ch sys ->
  forall sys', rtc fine_step sys sys' ->
  t_tasks sys' !! i = t_tasks sys !! i /\ t_tasks sys' !! j = t_tasks sys !! j
  /\ forall n t m, n <> i -> t_tasks sys' !! n = Some t -> (BrokerLock.Pool, m) ∉ held_by t.
Proof.
  intros Hr Hem sys' Hsteps. apply fine_reachable_ok in Hr.
  destruct (steps_embraced i j r ch sys sys' Hsteps Hr Hem) as [(Hem' & Ei & Ej) Hok].
  split_and!; [done | done |]. intros n t m Hn Ht. destruct sys' as [w' ts']. by eapply embraced_owner.
Qed.
End deadlock.
