(* ===== verification/BrokerSchedules.v ===== *)
(** * Schedules of a small broker *)
(** An executable scheduler for the interrupted tasks of the broker, and runs on
    which their theorems are applied. *)

From S2P Require Import Prelude Bytes Codec Fixed Property Macro MacroFacts Subscriptions.
From S2P Require Import Acks Publish Connect Packet Topic Stream Runtime Sessions Tasks Broker.
From S2P Require Import BrokerLogic BrokerFacts BrokerSamples BrokerTasks BrokerInterleaved.
From S2P Require Import BrokerLocks BrokerRely BrokerExclusion BrokerConcurrent BrokerRaces BrokerDeadlock.

(** ** The scheduler *)

Section scheduler.
Context {B : Buf} {HI : HashIter} {T : Transport} {R : Runtime} {D : DrainOrder}.

Inductive choice :=
| Arrive (i : Z) (t : t_state)
| Receive (i : Z) (fuel : nat)
| Move (i : Z).

Definition choose_step (ch : choice) (sys : Tasks) : option Tasks :=
  match ch with
  | Arrive i t =>
      if decide (t_tasks sys !! i = None) then
        Some (mkTasks (t_world sys)
          (<[i := Waiting (Conn_new (PacketStream_new t (Some INIT_STREAM_BUFFER_SIZE) None))]> (t_tasks sys)))
      else None
  | Receive i fuel =>
      match t_tasks sys !! i with
      | Some (Waiting c) =>
          let '(o, s) := read fuel [] (c_stream c) in
          p ← on_read_task [] o;
          Some (mkTasks (t_world sys) (<[i := Busy (c <| c_stream := s |>) p []]> (t_tasks sys)))
      | _ => None
      end
  | Move i =>
      match t_tasks sys !! i with
      | Some (Busy c p held) =>
          res ← advance (others i (t_tasks sys)) held p (t_world sys, c);
          Some (settle_branch i (t_tasks sys) res)
      | _ => None
      end
  end.

Lemma choose_step_fine ch sys sys' : choose_step ch sys = Some sys' -> fine_step sys sys'.
Proof.
  destruct ch as [i t|i fuel|i]; cbn [choose_step].
  - case_decide as Hi; [| done]. intros [= <-]. by apply fine_accept.
  - destruct (t_tasks sys !! i) as [[c| |]|] eqn:Hi; try done.
    destruct (read fuel [] (c_stream c)) as [o s] eqn:Hr. destruct (on_read_task [] o) as [p|] eqn:Hp; [| done].
    intros Hs. apply (inj Some) in Hs. subst sys'. by eapply fine_read.
  - destruct (t_tasks sys !! i) as [[|c p held|]|] eqn:Hi; try done.
    destruct (advance _ held p _) as [res|] eqn:Ha; [| done].
    intros Hs. apply (inj Some) in Hs. subst sys'. by eapply fine_advance.
Qed.

Fixpoint drive (chs : list choice) (sys : Tasks) : option Tasks :=
  match chs with
  | [] => Some sys
  | ch :: chs => sys' ← choose_step ch sys; drive chs sys'
  end.

Lemma drive_fine chs : forall sys sys', drive chs sys = Some sys' -> rtc fine_step sys sys'.
Proof.
  induction chs as [|ch chs IH]; intros sys sys'; simpl; [by intros [= ->] |].
  destruct (choose_step ch sys) as [s1|] eqn:E; [| done]. simpl. intros H.
  eapply rtc_l; [by apply (choose_step_fine ch) | by apply IH].
Qed.
End scheduler.

(** ** A takeover of a busy client *)

(** A broker whose control channels hold one message. *)
Definition narrow : Config := Config.mk DEFAULT_KEEP_ALIVE MAX_KEEP_ALIVE DEFAULT_SESSION_EXPIRY
  DEFAULT_MAX_TOPIC_NAME_LEN DEFAULT_MAX_TOPIC_MEM 1 (Some 3).

Definition own_news : Subscribe :=
  (Subscribe_new_with_packet_id 9) <| Subscribe.filter := [SubscriptionFilter_new room1 QoSLevel.AtMostOnce] |>.
Definition remark : Publish := plain_publish (FixedHeader_new PacketType.Publish) room1 None [42].

(** [anna] connects, subscribes to a topic and publishes to it twice; somebody
    else then connects under her name. *)
Definition anna_sends : t_state := mkChunked
  (wire_bytes (Packet.Connect (hello_of anna)) ++ wire_bytes (Packet.Subscribe own_news)
   ++ wire_bytes (Packet.Publish remark) ++ wire_bytes (Packet.Publish remark)) 63 [].
Definition rival_sends : t_state := mkChunked (wire_bytes (Packet.Connect (Connect_new anna))) 63 [].

Definition moves (i : Z) (n : nat) : list choice := replicate n (Move i).

(** Her second message waits for the pool while the first fills her channel; the
    rival has the pool and is about to tell her that her session is taken over. *)
Definition schedule : list choice :=
  [Arrive 1 anna_sends; Receive 1 10] ++ moves 1 24
  ++ [Receive 1 10] ++ moves 1 10
  ++ [Receive 1 10] ++ moves 1 17
  ++ [Receive 1 10] ++ moves 1 9
  ++ [Arrive 2 rival_sends; Receive 2 10] ++ moves 2 10.

Definition standoff : Tasks := default (fine_start narrow) (drive schedule (fine_start narrow)).

Lemma standoff_reachable : fine_reachable narrow standoff.
Proof. apply (drive_fine schedule). apply some_default. vm_compute. reflexivity. Qed.

(** The parts of a task in a branch. *)
Definition branch_of (i : Z) (sys : Tasks) : Conn * prog lock (World * Conn) BrokerError flow * locks lock :=
  match t_tasks sys !! i with
  | Some (Busy c p held) => (c, p, held)
  | _ => (dialled_conn, mret Continue, [])
  end.

Definition in_branch (i : Z) (sys : Tasks) : bool :=
  match t_tasks sys !! i with Some (Busy _ _ _) => true | _ => false end.

Lemma branch_task i sys :
  in_branch i sys = true ->
  t_tasks sys !! i = Some (Busy (branch_of i sys).1.1 (branch_of i sys).1.2 (branch_of i sys).2).
Proof. unfold in_branch, branch_of. by destruct (t_tasks sys !! i) as [[| |]|]. Qed.

Lemma rival_sending : sending 0 (branch_of 2 standoff).1.2.
Proof.
  vm_cast_no_check (sending_send 0 (SessionControl.Disconnect Reason.SessionTakeOver) (fun _ => mret Continue)).
Qed.

Lemma rival_busy : in_branch 2 standoff = true.
Proof. vm_compute. reflexivity. Qed.
Lemma anna_busy : in_branch 1 standoff = true.
Proof. vm_compute. reflexivity. Qed.

Lemma rival_owns : (BrokerLock.Pool, Mode.Write) ∈ (branch_of 2 standoff).2.
Proof.
  assert (H : bool_decide ((BrokerLock.Pool, Mode.Write) ∈ (branch_of 2 standoff).2) = true)
    by (vm_compute; reflexivity).
  by apply bool_decide_eq_true in H.
Qed.

Lemma standoff_jammed : jammed 0 0 (t_world standoff).
Proof.
  split.
  - exists (default alice (sessions (t_world standoff) !! 0)).
    exists (default (Queue [] 0 true) (channels (t_world standoff) !! 0)).
    split; [apply some_default; vm_compute; reflexivity |]. split; [vm_compute; reflexivity |].
    split; [apply some_default; vm_compute; reflexivity |]. split; [| vm_compute; reflexivity].
    apply Z.leb_le. vm_compute. reflexivity.
  - intros r s Hs.
    assert (H : bool_decide (map_Forall (fun _ s => Session.receiver s <> Some 0) (sessions (t_world standoff))) = true)
      by (vm_compute; reflexivity).
    apply bool_decide_eq_true in H. by apply (H r).
Qed.

Lemma standoff_embraced : embraced 2 1 0 0 standoff.
Proof.
  split.
  - exists (branch_of 2 standoff).1.1, (branch_of 2 standoff).1.2, (branch_of 2 standoff).2.
    split; [exact (branch_task 2 standoff rival_busy) |]. split; [exact rival_sending | exact rival_owns].
  - exists (branch_of 1 standoff).1.1, (branch_of 1 standoff).1.2, (branch_of 1 standoff).2.
    split; [exact (branch_task 1 standoff anna_busy) |]. split; vm_compute; reflexivity.
  - apply standoff_jammed.
  - intros n t Hn Ht.
    assert (H : bool_decide (map_Forall (fun n t => n = 1 \/ listening t <> Some 0) (t_tasks standoff)) = true)
      by (vm_compute; reflexivity).
    apply bool_decide_eq_true in H. destruct (H n t Ht) as [E|Hl]; [destruct (Hn E) | exact Hl].
Qed.

Lemma takeover_deadlock_witness :
  fine_reachable narrow standoff /\ in_branch 1 standoff = true /\ in_branch 2 standoff = true
  /\ forall sys', rtc fine_step standoff sys' ->
     t_tasks sys' !! 2 = t_tasks standoff !! 2 /\ t_tasks sys' !! 1 = t_tasks standoff !! 1
     /\ forall n t m, n <> 2 -> t_tasks sys' !! n = Some t -> (BrokerLock.Pool, m) ∉ held_by t.
Proof.
  split; [exact standoff_reachable |]. split; [exact anna_busy |]. split; [exact rival_busy |].
  exact (takeover_deadlock narrow 2 1 0 0 standoff standoff_reachable standoff_embraced).
Defined.

(** While the rival has the pool. *)
Lemma interleaved_invariant_witness :
  (BrokerLock.Pool, Mode.Write) ∈ (branch_of 2 standoff).2
  /\ Z.of_nat (size (SessionPool.active (session_pool (t_world standoff)))) <= 3
  /\ exists s, sessions (t_world standoff) !! 0 = Some s /\ Session.id s = anna.
Proof.
  split; [exact rival_owns |].
  destruct (interleaved_invariant narrow standoff standoff_reachable) as (_ & Hk & He & _).
  split; [apply (Hk 3); [reflexivity | unfold is_u32; lia] |].
  apply (He anna 0 true). vm_compute. reflexivity.
Defined.

(** [anna] searches the topic tree for her second message; the rival arrives and
    takes a step. *)
Definition overlap : Tasks :=
  default (fine_start narrow) (drive ([Arrive 1 anna_sends; Receive 1 10] ++ moves 1 24
    ++ [Receive 1 10] ++ moves 1 10 ++ [Receive 1 10] ++ moves 1 17 ++ [Receive 1 10] ++ moves 1 7
    ++ [Arrive 2 rival_sends; Receive 2 10]) (fine_start narrow)).

Lemma overlap_reachable : fine_reachable narrow overlap.
Proof.
  eapply drive_fine. unfold overlap. apply some_default. vm_compute. reflexivity.
Qed.

Definition after_move (i : Z) (sys : Tasks) : World :=
  default (t_world sys) (t_tasks sys !! i ≫= task_moves i sys).

Lemma atomic_runs_included_witness :
  SessionPool.active (session_pool (shared welcomed)) !! anna = Some 0
  /\ fine_reachable limited (at_rest welcomed)
  /\ (branch_of 1 overlap).2 = [(BrokerLock.Tree, Mode.Read)]
  /\ topic_tree (after_move 2 overlap) = topic_tree (t_world overlap).
Proof.
  split; [vm_compute; reflexivity |].
  split; [exact (proj1 (atomic_runs_included limited) welcomed welcomed_reachable) |].
  split; [vm_compute; reflexivity |].
  destruct (atomic_runs_included narrow) as (_ & _ & _ & _ & _ & Hrace).
  refine (Hrace overlap 2 1 _ _ BrokerLock.Tree Mode.Read (after_move 2 overlap) overlap_reachable _
    (branch_task 2 overlap _) (branch_task 1 overlap _) _ _).
  - done.
  - vm_compute. reflexivity.
  - vm_compute. reflexivity.
  - assert (H : bool_decide ((BrokerLock.Tree, Mode.Read) ∈ (branch_of 1 overlap).2) = true)
      by (vm_compute; reflexivity).
    by apply bool_decide_eq_true in H.
  - unfold after_move. apply some_default. vm_compute. reflexivity.
Defined.
