(* ===== verification/EndToEnd.v ===== *)
(** * The client and the broker together *)
(** A message on its way through both programs: the session of the client writes
    it, the connection task of the broker reads and routes it, and the answer
    comes back.  Each side runs on a transport of its own; the network is what
    puts the bytes one side has written into the stream of the other. *)

From S2P Require Import Prelude Bytes Runtime Codec Fixed Property Macro MacroFacts Subscriptions.
From S2P Require Import Acks Publish Connect Packet Topic Stream Sessions Broker ClientSession ClientFacts.

(** A connection that does not fail. *)
Definition steady (T : Transport) : Prop :=
  reliable (T := T) /\ forall bs t, exists t', t_write_all bs t = (Ok tt, t').

(** A packet is at the front of a stream that can hold it. *)
Record arrived {B : Buf} {HI : HashIter} {T : Transport} (fuel : nat) (p : Packet) (rest : list Z)
    (s : PacketStream) : Prop := {
  ar_ok : stream_ok s;
  ar_wire : wire s = wire_bytes p ++ rest;
  ar_fits : len (wire_bytes p) <= max_buffer_size s;
  ar_fuel : (length (wire_bytes p) < fuel)%nat;
}.

Section stream_runs.
Context {B : Buf} {HI : HashIter} {T : Transport}.

Lemma steady_write s p :
  steady T -> packet_ok p ->
  exists t, write p s = (Ok tt, s <| stream := t |>)
    /\ t_outgoing t = t_outgoing (stream s) ++ wire_bytes p /\ t_incoming t = t_incoming (stream s).
Proof.
  intros [_ Hw] Hp. pose proof (write_run s p Hp) as H. revert H. unfold write.
  rewrite (encode_packet_bytes p Hp []), bind_get. cbn [app].
  destruct (Hw (packet_bytes (packet_header p) (packet_body p)) (stream s)) as [t E]. rewrite E.
  intros (t' & Et & H1 & H2). exists t. injection Et as ->. done.
Qed.
End stream_runs.

Section end_to_end.
Context {B : Buf} {HI : HashIter} (Tc Tb : Transport) {R : Runtime} {V : Build}.

(** ** The broker's side *)

(** The task of a connected client reads a PUBLISH of QoS 1: it answers with
    PUBACK, and routes the message. *)
Lemma broker_acknowledges fuel uuid1 uuid2 (w w1 : World) (k : @Conn Tb) r s p id rest :
  steady Tb -> c_connected k = true -> c_session k = Some r -> sessions w !! r = Some s ->
  sendable (Packet.Publish p) -> publish_qos p = Ok QoSLevel.AtLeastOnce ->
  Publish.packet_id p = Some id -> is_u16 id ->
  arrived fuel (Packet.Publish p) rest (c_stream k) ->
  route_publish p (Session.id s) w = (Ok tt, w1) ->
  exists k1, on_read fuel uuid1 uuid2 (w, k) = (Ok Continue, (w1, k1))
    /\ wire (c_stream k1) = rest
    /\ t_outgoing (stream (c_stream k1)) = t_outgoing (stream (c_stream k))
         ++ wire_bytes (Packet.PubAck (new_puback_with_packet_id id)).
Proof.
  intros Hst Hcn Hse Hs Hp Hq Hid Hu [Hok Hw Hmax Hfuel] Hroute.
  destruct (read_reliable fuel uuid1 (c_stream k) _ rest (proj1 Hst) Hok Hp Hw Hmax Hfuel)
    as (s1 & E & _ & _ & Hw1 & Ho1).
  destruct (steady_write s1 (Packet.PubAck (new_puback_with_packet_id id)) Hst
    (proj1 (responses_ok id Hu))) as (t & Ew & Ho & Hi).
  exists (k <| c_stream := s1 <| stream := t |> |>). split_and!.
  - unfold on_read. rewrite E. unfold on_packet, variable, gets, mbind, M_bind. cbn [received]. cbn.
    rewrite Hcn. cbn. rewrite Hse. cbn.
    unfold in_world, session_at, get, lift, mbind, M_bind. cbn. rewrite Hs. cbn.
    rewrite Hq. cbn. rewrite bool_decide_true by done. rewrite Hid. unfold send, on_stream. cbn.
    rewrite Ew. cbn. by rewrite Hroute.
  - unfold wire, buffered in *. cbn. rewrite Hi. done.
  - cbn. by rewrite Ho, Ho1.
Qed.

(** ** The client's side *)

(** PUBACK for a message in flight. *)
Lemma client_completes fuel uuid (c : @ClientSession Tc) id e rest :
  steady Tc -> is_u16 id ->
  SessionState.pending_qos_send (ClientSession.state c) !! id = Some e ->
  QoSPacketState.next e = QoSPacket.PubAck ->
  0 <= SessionState.qos_send_remaining (ClientSession.state c) < usize_max ->
  let ack := Packet.PubAck (new_puback_with_packet_id id) in
  arrived fuel ack rest (ClientSession.packet_stream c) ->
  exists c1 c2, read_next fuel uuid c = (Ok (Some (received ack)), c1)
    /\ ClientSession.handle_packet (received ack) c1 = (Ok (Some (received ack)), c2)
    /\ ledger c2 = (ledger c) <| sending := delete id (sending (ledger c)) |>
                              <| send_quota := send_quota (ledger c) + 1 |>
    /\ wire (ClientSession.packet_stream c2) = rest.
Proof.
  intros Hst Hu He Hn Hq ack [Hok Hw Hmax Hfuel].
  assert (Hp : sendable ack) by (apply (response_sendable Packet.PubAck PacketType.PubAck); [by left | done]).
  destruct (read_reliable fuel uuid (ClientSession.packet_stream c) ack rest (proj1 Hst) Hok Hp Hw Hmax Hfuel)
    as (s1 & E & _ & _ & Hw1 & _).
  set (c1 := c <| ClientSession.packet_stream := s1 |>).
  assert (El : ledger c1 = ledger c) by done.
  pose proof (handle_puback_conforms id c1 Hq) as H. unfold complete in H.
  rewrite El, sending_lookup, He in H. cbn [fmap option_fmap option_map] in H. rewrite Hn in H.
  rewrite bool_decide_true in H by done. cbn in H.
  destruct (handle_puback id c1) as [[[]|?| |] c2] eqn:E2; [| by destruct H | done | done].
  destruct H as [Hl Ho]. exists c1, c2. split_and!.
  - unfold read_next, on_packet_stream. by rewrite E.
  - cbn. unfold mbind, M_bind. by rewrite E2.
  - done.
  - destruct Ho as (t & -> & [_ Hin]). unfold wire, buffered, transport in *. cbn in *. by rewrite Hin.
Qed.

(** A PUBLISH that is sent over a connection that does not fail. *)
Lemma client_publishes p q (c : @ClientSession Tc) :
  steady Tc -> publish_qos p = Ok q -> q <> QoSLevel.AtMostOnce -> opt_ok is_u16 (Publish.packet_id p) ->
  (forall id, is_u16 id -> packet_ok (Packet.Publish (numbered p id))) ->
  is_u16 (SessionState.last_packet_id (ClientSession.state c)) ->
  send_full c = false -> id_available c p = true ->
  exists id e c1, is_u16 id /\ sending (ledger c) !! id = None
    /\ write_next (Packet.Publish p) c = (Ok tt, c1)
    /\ outgoing c1 = outgoing c ++ wire_bytes (Packet.Publish (numbered p id))
    /\ SessionState.pending_qos_send (ClientSession.state c1) !! id = Some e
    /\ QoSPacketState.next e = awaits q
    /\ ledger c1 = (ledger c) <| sending := <[id := awaits q]> (sending (ledger c)) |>.
Proof.
  intros Hst Hq Hne Hid Hok Hl Hf Ha.
  destruct (choose_packet_id_run p q c Hq Hne Hid Hl Hf Ha) as (id & c1 & Hu & Hnone & Hdef & Hrun & Hc1).
  destruct (track_send_run q (numbered p id) id c1 Hne eq_refl) as (e & He & Hpk & Htrack).
  assert (Ec : ClientSession.packet_stream c1 = ClientSession.packet_stream c /\ ledger c1 = ledger c)
    by (destruct Hc1 as [-> | ->]; done). destruct Ec as [Es El].
  set (c2 := snd (put_send id e c1)).
  destruct (steady_write (ClientSession.packet_stream c2) (Packet.Publish (numbered p id)) Hst (Hok id Hu))
    as (t & Ew & Ho & Hi).
  exists id, e, (c2 <| ClientSession.packet_stream := (ClientSession.packet_stream c2) <| stream := t |> |>).
  rewrite sending_lookup, Hnone. split_and!; try done.
  - cbn [write_next]. rewrite (write_publish_run p q c Hq Hne), Hf, (bind_ok _ _ _ _ _ Hrun).
    unfold mbind, M_bind. rewrite Htrack. change (put_send id e c1) with (Ok (E := MqttError) tt, c2). cbv beta iota.
    unfold send_packet, on_packet_stream. by rewrite Ew.
  - unfold outgoing, transport. cbn. rewrite Ho. cbn. by rewrite Es.
  - cbn. apply lookup_insert_eq.
  - rewrite <- El. unfold ledger, phases. cbn. by rewrite fmap_insert, He.
Qed.

(** ** The handshake *)

(** The session after a CONNACK that accepts it: the server's values replace
    those the client has asked for. *)
Definition accepted (a : ConnAck) (st : SessionState) : SessionState :=
  let st := match ConnAck.server_keep_alive a with
            | Some k => st <| SessionState.keep_alive := secs k |>
            | None => st
            end in
  let st := match ConnAck.session_expiry_interval a with
            | Some e => st <| SessionState.session_expiry := secs e |>
            | None => st
            end in
  match ConnAck.receive_maximum a with
  | Some m => st <| SessionState.qos_send_remaining := m |>
  | None => st
  end.

Lemma handle_connack_run (a : ConnAck) (c : @ClientSession Tc) :
  is_Some (SessionState.client_id (ClientSession.state c)) ->
  handle_connack a c
  = if bool_decide (ConnAck.reason a = Reason.Success) then
      (Ok a, c <| ClientSession.connected := true |>
               <| ClientSession.state := accepted a (ClientSession.state c) |>)
    else (Err (MqttError.new (ErrorKind.Protocol (ConnAck.reason a))),
          c <| ClientSession.connected := false |>).
Proof.
  intros Hid. unfold handle_connack, set_session_connected. run_session.
  rewrite (bool_decide_true _ Hid). destruct (bool_decide (ConnAck.reason a = _)); [| done]. cbn.
  unfold accepted. destruct c as [? ? ? [] ?].
  by destruct (ConnAck.server_keep_alive a), (ConnAck.session_expiry_interval a), (ConnAck.receive_maximum a).
Qed.

Lemma encode_connect (x : Connect) b : encode (Packet.Connect x) b = encode x b.
Proof. reflexivity. Qed.

(** C20: the handshake of the client.  Over a connection that does not fail, a
    session that is still usable sends the CONNECT its settings ask for, and the
    CONNACK that comes first decides: if it reports success the session is
    connected and takes over the keep alive, the session expiry and the receive
    maximum of the server; if not, the reason is reported and the session is not
    connected.  What follows the CONNACK stays in the stream, and the messages in
    flight are kept. *)
Theorem handshake_completes (fuel rf : nat) (uuid uuid' : rstring) (elapsed : nat -> Z) (wait : Z)
    (cred : option (rstring * rstring)) (clean : bool) (will : option WillMessage)
    (a : ConnAck) (rest : list Z) (c : @ClientSession Tc) :
  let st := ClientSession.state c in
  let p := Packet.Connect (connect_packet uuid cred clean will st) in
  steady Tc -> ClientSession.usable c = true -> is_Some (SessionState.client_id st) ->
  packet_ok p -> sendable (Packet.ConnAck a) ->
  arrived rf (Packet.ConnAck a) rest (ClientSession.packet_stream c) -> elapsed 0%nat < wait ->
  exists c', connect (S fuel) rf uuid uuid' elapsed wait cred clean will c
    = (if bool_decide (ConnAck.reason a = Reason.Success) then Ok a
       else Err (MqttError.new (ErrorKind.Protocol (ConnAck.reason a))), c')
    /\ ClientSession.connected c' = bool_decide (ConnAck.reason a = Reason.Success)
    /\ ClientSession.state c'
       = (if bool_decide (ConnAck.reason a = Reason.Success) then accepted a st else st)
    /\ outgoing c' = outgoing c ++ wire_bytes p /\ wire (ClientSession.packet_stream c') = rest.
Proof.
  intros st p Hst Hu Hid Hp Ha [Hok Hw Hmax Hfuel] Hwait.
  destruct (steady_write (ClientSession.packet_stream c) p Hst Hp) as (t & Ew & Ho & Hi).
  set (c1 := c <| ClientSession.packet_stream := (ClientSession.packet_stream c) <| stream := t |> |>).
  assert (Hok1 : stream_ok (ClientSession.packet_stream c1)) by (destruct Hok; by split).
  assert (Hw1 : wire (ClientSession.packet_stream c1) = wire_bytes (Packet.ConnAck a) ++ rest).
  { rewrite <- Hw. unfold wire, buffered. cbn. by rewrite Hi. }
  destruct (read_reliable rf uuid' (ClientSession.packet_stream c1) _ rest (proj1 Hst) Hok1 Ha Hw1 Hmax Hfuel)
    as (s2 & Er & _ & _ & Hw2 & Ho2).
  set (c2 := c1 <| ClientSession.packet_stream := s2 |>).
  assert (Hrun : connect (S fuel) rf uuid uuid' elapsed wait cred clean will c = handle_connack a c2).
  { unfold connect. unfold gets at 1. rewrite (bind_ok _ _ c true c) by (by rewrite Hu). cbn [negb].
    rewrite (bind_ok _ _ c (connect_packet uuid cred clean will st) c) by done.
    rewrite (bind_ok _ _ c tt c).
    - rewrite (bind_ok _ _ c (inr tt) c1).
      + cbn [await_connack]. rewrite (proj2 (Z.ltb_lt _ _) Hwait).
        rewrite (bind_ok _ _ c1 (inr (Some (Packet.ConnAck a))) c2); [done |].
        unfold attempt, read_next, on_packet_stream. by rewrite Er.
      + unfold attempt, send_packet, on_packet_stream. fold p. by rewrite Ew.
    - unfold lift. rewrite <- (encode_connect _ []). fold p. by rewrite (encode_packet_bytes p Hp []). }
  rewrite Hrun, handle_connack_run by done.
  assert (Hout : outgoing c2 = outgoing c ++ wire_bytes p).
  { unfold outgoing, transport. cbn. rewrite Ho2. exact Ho. }
  destruct (bool_decide (ConnAck.reason a = Reason.Success)); eexists; split_and!;
    reflexivity || exact Hout || exact Hw2.
Qed.

(** ** QoS 1 *)

(** C17: QoS 1 from the client through the broker and back.  A message the client
    publishes goes out under an identifier that is free; the broker's task, when
    those bytes have arrived, reads that message, routes it and answers with a
    PUBACK of the same identifier; the client, when the answer has arrived, shows
    it and has forgotten the message: its tables are as before, and it may send
    one more. *)
Theorem qos1_end_to_end (p : Publish) (c : @ClientSession Tc) :
  steady Tc -> publish_qos p = Ok QoSLevel.AtLeastOnce -> opt_ok is_u16 (Publish.packet_id p) ->
  (forall id, is_u16 id -> sendable (Packet.Publish (numbered p id))) ->
  is_u16 (SessionState.last_packet_id (ClientSession.state c)) ->
  send_full c = false -> id_available c p = true ->
  0 <= SessionState.qos_send_remaining (ClientSession.state c) < usize_max ->
  exists id c1,
    let sent := numbered p id in
    let ack := Packet.PubAck (new_puback_with_packet_id id) in
    write_next (Packet.Publish p) c = (Ok tt, c1)
    /\ outgoing c1 = outgoing c ++ wire_bytes (Packet.Publish sent)
    /\ (forall fuel uuid1 uuid2 w w1 (k : @Conn Tb) r s rest,
         steady Tb -> c_connected k = true -> c_session k = Some r -> sessions w !! r = Some s ->
         arrived fuel (Packet.Publish sent) rest (c_stream k) ->
         route_publish sent (Session.id s) w = (Ok tt, w1) ->
         exists k1, on_read fuel uuid1 uuid2 (w, k) = (Ok Continue, (w1, k1))
           /\ wire (c_stream k1) = rest
           /\ t_outgoing (stream (c_stream k1)) = t_outgoing (stream (c_stream k)) ++ wire_bytes ack)
    /\ (forall fuel uuid (c1' : @ClientSession Tc) rest,
         ClientSession.state c1' = ClientSession.state c1 ->
         arrived fuel ack rest (ClientSession.packet_stream c1') ->
         exists c2 c3, read_next fuel uuid c1' = (Ok (Some (received ack)), c2)
           /\ ClientSession.handle_packet (received ack) c2 = (Ok (Some (received ack)), c3)
           /\ ledger c3 = (ledger c) <| send_quota := send_quota (ledger c) + 1 |>
           /\ wire (ClientSession.packet_stream c3) = rest).
Proof.
  intros Hst Hq Hid Hsend Hl Hf Ha Hquota.
  destruct (client_publishes p QoSLevel.AtLeastOnce c Hst Hq ltac:(done) Hid (fun id H => proj1 (Hsend id H)) Hl Hf Ha)
    as (id & e & c1 & Hu & Hfree & Hw & Ho & He & Hn & Hlg).
  exists id, c1. cbv zeta. split_and!; [done | done | |].
  - intros fuel uuid1 uuid2 w w1 k r s rest Hb Hcn Hse Hs Harr Hroute.
    by apply (broker_acknowledges fuel uuid1 uuid2 w w1 k r s (numbered p id) id rest); auto.
  - intros fuel uuid c1' rest Hstate Harr.
    assert (El : ledger c1' = ledger c1) by (unfold ledger; by rewrite Hstate).
    destruct (client_completes fuel uuid c1' id e rest Hst Hu) as (c2 & c3 & E2 & E3 & Hl3 & Hw3);
      [by rewrite Hstate | done | | done |].
    + rewrite Hstate. change (0 <= send_quota (ledger c1) < usize_max). rewrite Hlg. exact Hquota.
    + exists c2, c3. split_and!; [done | done | | done]. rewrite Hl3, El, Hlg. cbn.
      rewrite delete_insert_id by done. reflexivity.
Qed.

(** The subscriber's client reads a PUBLISH of QoS 1 and acknowledges it. *)
Lemma client_receives fuel uuid (c : @ClientSession Tc) p id rest :
  steady Tc -> SessionState.auto_ack (ClientSession.state c) = true ->
  publish_qos p = Ok QoSLevel.AtLeastOnce -> Publish.packet_id p = Some id -> is_u16 id ->
  0 < SessionState.qos_recv_remaining (ClientSession.state c) <= usize_max ->
  sendable (Packet.Publish p) -> arrived fuel (Packet.Publish p) rest (ClientSession.packet_stream c) ->
  exists c1 c2, read_next fuel uuid c = (Ok (Some (Packet.Publish p)), c1)
    /\ ClientSession.handle_packet (Packet.Publish p) c1 = (Ok (Some (Packet.Publish p)), c2)
    /\ ledger c2 = (ledger c) <| receiving := delete id (receiving (ledger c)) |>
    /\ outgoing c2 = outgoing c ++ wire_bytes (Packet.PubAck (new_puback_with_packet_id id))
    /\ wire (ClientSession.packet_stream c2) = rest.
Proof.
  intros Hst Ha Hq Hid Hu Hr Hp [Hok Hw Hmax Hfuel].
  destruct (read_reliable fuel uuid (ClientSession.packet_stream c) _ rest (proj1 Hst) Hok Hp Hw Hmax Hfuel)
    as (s1 & E & _ & _ & Hw1 & Ho1).
  set (c1 := c <| ClientSession.packet_stream := s1 |>).
  pose proof (recv_qos1_conforms p id c1 Ha Hid Hu Hr) as H.
  assert (E2 : exists c2, recv_qos1 p c1 = (Ok tt, c2)).
  { destruct (steady_write s1 (Packet.PubAck (new_puback_with_packet_id id)) Hst
      (proj1 (responses_ok id Hu))) as (t & Ew & _).
    unfold recv_qos1. run_session. rewrite (proj2 (Z.eqb_neq _ _)) by lia. rewrite Hid. simpl.
    rewrite overflowing_ok by lia. simpl. rewrite Ha. simpl. unfold attempt, send_packet, on_packet_stream. cbn.
    rewrite Ew. cbn. rewrite overflowing_ok by lia. by eexists. }
  destruct E2 as [c2 E2]. rewrite E2 in H. destruct H as [Hl (t & Es & [Hout Hin])].
  exists c1, c2. split_and!.
  - unfold read_next, on_packet_stream. by rewrite E.
  - cbn [ClientSession.handle_packet]. unfold handle_recv_publish. rewrite Hq. cbn [or_panic].
    unfold lift, mbind, M_bind. by rewrite E2.
  - exact Hl.
  - unfold outgoing, transport. rewrite Es. cbn. rewrite Hout. unfold outgoing, transport. cbn.
    by rewrite Ho1, app_nil_r.
  - rewrite Es. unfold wire, buffered, transport in *. cbn in *. by rewrite Hin.
Qed.

(** The broker's task of the subscriber reads the acknowledgement. *)
Lemma broker_forgets fuel uuid1 uuid2 (w : World) (k : @Conn Tb) r s id rest :
  steady Tb -> c_connected k = true -> c_session k = Some r -> sessions w !! r = Some s -> is_u16 id ->
  let ack := Packet.PubAck (new_puback_with_packet_id id) in
  arrived fuel ack rest (c_stream k) ->
  exists k1, on_read fuel uuid1 uuid2 (w, k)
      = (Ok Continue, (w <| sessions := <[r := s <| Session.pending_ack := delete id (Session.pending_ack s) |>]>
                                          (sessions w) |>, k1))
    /\ wire (c_stream k1) = rest.
Proof.
  intros Hst Hcn Hse Hs Hu ack [Hok Hw Hmax Hfuel].
  assert (Hp : sendable ack) by (apply (response_sendable Packet.PubAck PacketType.PubAck); [by left | done]).
  destruct (read_reliable fuel uuid1 (c_stream k) ack rest (proj1 Hst) Hok Hp Hw Hmax Hfuel)
    as (s1 & E & _ & _ & Hw1 & _).
  exists (k <| c_stream := s1 |>). split; [| done].
  unfold on_read. rewrite E. unfold on_packet, variable, gets, mbind, M_bind. cbn [received ack]. cbn.
  rewrite Hcn. cbn. rewrite Hse. cbn.
  unfold in_world, with_session, session_at, get, lift, modify, mbind, M_bind. cbn. by rewrite Hs.
Qed.

(** C18: QoS 1 from the broker to a subscriber and back.  The task that serves a
    subscriber writes the copy of a message that routing has put into its channel;
    the subscriber's client, when those bytes have arrived, shows that message to
    the application and acknowledges its identifier, and nothing stays behind in
    its tables; the broker, when the acknowledgement has arrived, stops waiting
    for that message, and for no other. *)
Theorem qos1_delivered (p : Publish) (id : Z) :
  steady Tb -> steady Tc -> sendable (Packet.Publish p) ->
  publish_qos p = Ok QoSLevel.AtLeastOnce -> Publish.packet_id p = Some id -> is_u16 id ->
  let ack := Packet.PubAck (new_puback_with_packet_id id) in
  (forall (w : World) (k : @Conn Tb), exists k1,
     on_control (SessionControl.Deliver p) (w, k) = (Ok Continue, (w, k1))
     /\ t_outgoing (stream (c_stream k1)) = t_outgoing (stream (c_stream k)) ++ wire_bytes (Packet.Publish p)
     /\ t_incoming (stream (c_stream k1)) = t_incoming (stream (c_stream k)))
  /\ (forall fuel uuid (c : @ClientSession Tc) rest,
       SessionState.auto_ack (ClientSession.state c) = true ->
       0 < SessionState.qos_recv_remaining (ClientSession.state c) <= usize_max ->
       arrived fuel (Packet.Publish p) rest (ClientSession.packet_stream c) ->
       exists c1 c2, read_next fuel uuid c = (Ok (Some (Packet.Publish p)), c1)
         /\ ClientSession.handle_packet (Packet.Publish p) c1 = (Ok (Some (Packet.Publish p)), c2)
         /\ ledger c2 = (ledger c) <| receiving := delete id (receiving (ledger c)) |>
         /\ outgoing c2 = outgoing c ++ wire_bytes ack
         /\ wire (ClientSession.packet_stream c2) = rest)
  /\ (forall fuel uuid1 uuid2 (w : World) (k : @Conn Tb) r s rest,
       c_connected k = true -> c_session k = Some r -> sessions w !! r = Some s ->
       arrived fuel ack rest (c_stream k) ->
       exists k1, on_read fuel uuid1 uuid2 (w, k)
           = (Ok Continue, (w <| sessions := <[r := s <| Session.pending_ack := delete id (Session.pending_ack s) |>]>
                                               (sessions w) |>, k1))
         /\ wire (c_stream k1) = rest).
Proof.
  intros Hb Hc Hp Hq Hid Hu ack. split_and!.
  - intros w k. destruct (steady_write (c_stream k) (Packet.Publish p) Hb (proj1 Hp)) as (t & Ew & Ho & Hi).
    exists (k <| c_stream := (c_stream k) <| stream := t |> |>). split_and!; [| exact Ho | exact Hi].
    cbn [on_control]. unfold send, on_stream, mbind, M_bind. by rewrite Ew.
  - intros. by apply client_receives.
  - intros. by eapply broker_forgets.
Qed.

(** The broker has no QoS 2.  It routes a PUBLISH of QoS 2 but answers
    nothing, and it ignores PUBREC, PUBREL and PUBCOMP: the entry of a client that
    publishes at QoS 2 waits for a PUBREC that never comes, and a client that has
    received a message at QoS 2 and sent its PUBREC waits for a PUBREL that never
    comes. *)
Theorem qos2_unanswered (p : Publish) (w w1 : World) (k : @Conn Tb) (r : Z) (s : Session) (resp : PubResp) :
  publish_qos p = Ok QoSLevel.ExactlyOnce -> sessions w !! r = Some s ->
  route_publish p (Session.id s) w = (Ok tt, w1) ->
  Broker.handle_packet (Packet.Publish p) r (w, k) = (Ok tt, (w1, k))
  /\ Broker.handle_packet (Packet.PubRec resp) r (w, k) = (Ok tt, (w, k))
  /\ Broker.handle_packet (Packet.PubRel resp) r (w, k) = (Ok tt, (w, k))
  /\ Broker.handle_packet (Packet.PubComp resp) r (w, k) = (Ok tt, (w, k)).
Proof.
  intros Hq Hs Hroute. split_and!; try done. cbn [Broker.handle_packet].
  unfold in_world, session_at, get, lift, mbind, M_bind. cbn. rewrite Hs. cbn. rewrite Hq. cbn. rewrite bool_decide_false by done. cbn.
  by rewrite Hroute.
Qed.
End end_to_end.
