(* ===== verification/ClientSamples.v ===== *)
(** * A small client *)
(** Concrete runs of the client on which its theorems are applied. *)

From S2P Require Import Prelude Bytes Runtime Codec Fixed Property Macro MacroFacts Subscriptions.
From S2P Require Import Acks Publish Connect Packet Topic Stream Sessions Broker BrokerLogic BrokerFacts.
From S2P Require Import BrokerSamples ClientSession Connection Client ClientFacts ClientInvariant ClientRuns EndToEnd.

#[export] Instance checked_build : Build := true.

Lemma chunked_steady : steady chunked_transport.
Proof. split; [apply chunked_reliable | by eexists]. Qed.

(** ** A session *)

(** A session in the middle of its work: a message of QoS 2 was sent. *)
Definition sent_twice : QoSPacketState := new_qos2 hello.

Definition busy_state (auto : bool) : SessionState :=
  (SessionState_new []) <| SessionState.auto_ack := auto |>
    <| SessionState.pending_qos_send := <[3 := sent_twice]> ∅ |>.

Definition session_with (auto : bool) (incoming : list Z) : ClientSession (H := chunked_transport) :=
  new_from_state (T := chunked_transport) (busy_state auto) (mkChunked incoming 63 []) 0.

Definition busy : ClientSession (H := chunked_transport) := session_with true [].

Lemma busy_quotas : quotas_ok busy.
Proof. split; simpl; unfold u16_max, usize_max; lia. Qed.

Definition pubrec3 : PubResp := new_pubrec_with_packet_id 3.


(** A message of QoS 1 without an identifier. *)
Definition note : Publish :=
  plain_publish (header_set_qos QoSLevel.AtLeastOnce (FixedHeader_new PacketType.Publish)) room1 None [42].

Lemma note_ok id : is_u16 id -> packet_ok (Packet.Publish (numbered note id)).
Proof.
  intros H. apply (plain_ok _ room1 (Some id) [42]); [| done | simpl; lia].
  split; [done | simpl; unfold u16_max; lia].
Qed.

Lemma publish_sent_witness :
  exists id e, is_u16 id /\ sending (ledger busy) !! id = None /\ id = id
    /\ let c' := snd (write_next (Packet.Publish note) busy) in
       SessionState.pending_qos_send (ClientSession.state c')
         = <[id := e]> (SessionState.pending_qos_send (ClientSession.state busy))
       /\ QoSPacketState.packet e = Some (Packet.Publish (numbered note id))
       /\ ledger c' = (ledger busy) <| sending := <[id := QoSPacket.PubAck]> (sending (ledger busy)) |>
       /\ match fst (write_next (Packet.Publish note) busy) with
          | Ok _ => only_wrote (wire_bytes (Packet.Publish (numbered note id))) busy c'
          | Err e => e = transport_err
          | _ => False
          end.
Proof.
  apply (publish_sent note QoSLevel.AtLeastOnce busy); [done | done | done | apply note_ok |].
  unfold is_u16. simpl. lia.
Defined.

(** A message of QoS 2 is received. *)
Definition parcel : Publish :=
  plain_publish (header_set_qos QoSLevel.ExactlyOnce (FixedHeader_new PacketType.Publish)) room1 (Some 9) [42].

Lemma qos2_duplicate_shown_witness :
  let c1 := snd (handle_packet (Packet.Publish parcel) busy) in
  match handle_packet (Packet.Publish parcel) c1 with
  | (Ok o', c2) => Some (Packet.Publish parcel) = Some (Packet.Publish parcel)
      /\ o' = Some (Packet.Publish parcel) /\ recv_quota (ledger c2) = recv_quota (ledger busy) - 2
  | (Err e, _) => e = transport_err
  | _ => False
  end.
Proof.
  intros c1. apply (qos2_duplicate_shown parcel 9 busy c1 (Some (Packet.Publish parcel)));
    [done | done | done | unfold is_u16; lia | simpl; unfold u16_max, usize_max; lia |].
  unfold c1. vm_compute. reflexivity.
Defined.

Lemma manual_qos2_fails_witness :
  let c := session_with false [] in
  exists c1, handle_packet (Packet.PubRec pubrec3) c = (Ok (Some (Packet.PubRec pubrec3)), c1)
    /\ sending (ledger c1) !! 3 = None
    /\ handle_packet (Packet.PubComp (new_pubcomp_with_packet_id 3)) c1 = (Err protocol_error, c1).
Proof.
  apply (manual_qos2_fails pubrec3 (new_pubcomp_with_packet_id 3) (session_with false [])); [done | done |].
  vm_compute. reflexivity.
Defined.

(** ** Through the broker *)

Lemma note_sendable id : is_u16 id -> sendable (Packet.Publish (numbered note id)).
Proof.
  intros H. destruct (plain_fit (header_set_qos QoSLevel.AtLeastOnce (FixedHeader_new PacketType.Publish))
    room1 (Some id) [42]) as [Hf Hx].
  split; [by apply note_ok |]. split; [| split].
  - split_and!; try done. exists QoSLevel.AtLeastOnce. by split.
  - exact Hx.
  - change (numbered note id) with (plain_publish
      (header_set_qos QoSLevel.AtLeastOnce (FixedHeader_new PacketType.Publish)) room1 (Some id) [42]).
    rewrite plain_body. simpl. lia.
Qed.

(** A connection of the broker that serves [anna], with the message at its front. *)
Definition anna_at (bs : list Z) : Conn (T := chunked_transport) :=
  (Conn_new (PacketStream_new (T := chunked_transport) (mkChunked bs 63 []) (Some INIT_STREAM_BUFFER_SIZE) None))
    <| c_session := Some (ref_of anna) |> <| c_connected := true |>.

Lemma qos1_end_to_end_witness :
  exists id c1,
    write_next (Packet.Publish note) busy = (Ok tt, c1)
    /\ outgoing c1 = outgoing busy ++ wire_bytes (Packet.Publish (numbered note id)).
Proof.
  destruct (qos1_end_to_end chunked_transport chunked_transport note busy) as (id & c1 & H1 & H2 & _).
  - apply chunked_steady.
  - done.
  - done.
  - apply note_sendable.
  - unfold is_u16. simpl. lia.
  - vm_compute. reflexivity.
  - done.
  - simpl. unfold u16_max, usize_max. lia.
  - by exists id, c1.
Defined.

(** The message under the identifier 7, at the front of a subscriber's stream. *)
Definition parcel7 : Publish := numbered note 7.
Definition subscriber : ClientSession (H := chunked_transport) :=
  session_with true (wire_bytes (Packet.Publish parcel7) ++ [0xd0; 0]).

Lemma qos1_delivered_witness :
  exists c1 c2, read_next 200 [] subscriber = (Ok (Some (Packet.Publish parcel7)), c1)
    /\ ClientSession.handle_packet (Packet.Publish parcel7) c1 = (Ok (Some (Packet.Publish parcel7)), c2)
    /\ ledger c2 = ledger subscriber
    /\ outgoing c2 = wire_bytes (Packet.PubAck (new_puback_with_packet_id 7))
    /\ wire (ClientSession.packet_stream c2) = [0xd0; 0].
Proof.
  destruct (qos1_delivered chunked_transport chunked_transport parcel7 7) as (_ & H & _).
  - apply chunked_steady.
  - apply chunked_steady.
  - apply note_sendable. unfold is_u16. lia.
  - reflexivity.
  - reflexivity.
  - unfold is_u16. lia.
  - destruct (H 200%nat [] subscriber [0xd0; 0]) as (c1 & c2 & H1 & H2 & H3 & H4 & H5).
    + reflexivity.
    + simpl. unfold u16_max, usize_max. lia.
    + split; [| reflexivity | by vm_compute | vm_compute; lia].
      apply stream_okb_sound. vm_compute. reflexivity.
    + exists c1, c2. split_and!; [exact H1 | exact H2 | exact H3 | exact H4 | exact H5].
Defined.

(** A message of QoS 2 is published to the broker. *)
Lemma qos2_unanswered_witness :
  let w1 := snd (route_publish parcel anna office) in
  Broker.handle_packet (Packet.Publish parcel) (ref_of anna) (office, anna_at []) = (Ok tt, (w1, anna_at []))
  /\ Broker.handle_packet (Packet.PubRec pubrec3) (ref_of anna) (office, anna_at []) = (Ok tt, (office, anna_at []))
  /\ Broker.handle_packet (Packet.PubRel pubrec3) (ref_of anna) (office, anna_at []) = (Ok tt, (office, anna_at []))
  /\ Broker.handle_packet (Packet.PubComp pubrec3) (ref_of anna) (office, anna_at []) = (Ok tt, (office, anna_at [])).
Proof.
  intros w1. apply (qos2_unanswered chunked_transport parcel office w1 (anna_at []) (ref_of anna)
    (session_of anna) pubrec3); [done | vm_compute; reflexivity |].
  assert (E : fst (route_publish parcel anna office) = Ok tt) by (vm_compute; reflexivity).
  change (Session.id (session_of anna)) with anna. unfold w1.
  destruct (route_publish parcel anna office) as [r w']. by rewrite <- E.
Defined.

(** The server grants a keep alive of 30 seconds and ten messages in flight. *)
Definition welcome : ConnAck :=
  dflt <| ConnAck.server_keep_alive := Some 30 |> <| ConnAck.receive_maximum := Some 10 |>.

Lemma welcome_sendable : sendable (Packet.ConnAck welcome).
Proof.
  split_and!.
  - split; [| by vm_compute].
    repeat first [apply props_ok_empty | split]; simpl; unfold u16_max, is_u16, is_u32; try lia; done.
  - split_and!; try done; by vm_compute.
  - by vm_compute.
  - by vm_compute.
Qed.

Definition dialling : ClientSession (H := chunked_transport) :=
  session_with true (wire_bytes (Packet.ConnAck welcome) ++ [0xd0; 0]).

Lemma handshake_completes_witness :
  exists c', connect 1 20 [] [] (fun _ => 0) (secs 5) None true None dialling = (Ok welcome, c')
    /\ ClientSession.connected c' = true /\ wire (ClientSession.packet_stream c') = [0xd0; 0].
Proof.
  destruct (handshake_completes chunked_transport 0 20 [] [] (fun _ => 0) (secs 5) None true None welcome
    [0xd0; 0] dialling) as (c' & E & C & _ & _ & Hw).
  - apply chunked_steady.
  - reflexivity.
  - by eexists.
  - split; [| by vm_compute].
    repeat first [apply props_ok_empty | split]; simpl; unfold u16_max, is_u16, is_u32; try lia; done.
  - apply welcome_sendable.
  - split; [| reflexivity | by vm_compute | vm_compute; lia].
    apply stream_okb_sound. vm_compute. reflexivity.
  - reflexivity.
  - exists c'. split; [exact E | split; [exact C | exact Hw]].
Defined.

(** ** A run of the client *)

(** The broker accepts the connection and sends two messages. *)
Definition script : list Z :=
  wire_bytes (Packet.ConnAck dflt) ++ wire_bytes hello ++ wire_bytes hello.

#[export] Instance loopback : Network := {|
  tcp := chunked_transport;
  client_tls := chunked_transport;
  server_tls := chunked_transport;
  SocketAddr := unit;
  ServerName := unit;
  RootCertStore := unit;
  to_socket_addrs _ := Some [tt];
  tcp_connect _ _ := Some (Some (mkChunked script 63 []));
  server_name _ := Some tt;
  tls_connect _ _ t := Some t;
|}.

Definition no_channels : Channels := Channels.mk ∅ 0.
Definition builder : ClientBuilder :=
  ClientBuilder.with_channel_size 1 (ClientBuilder.new [] MqttConnection.new).

Lemma builder_fine : builder_ok no_channels builder.
Proof. split; [apply state_ok_new | done]. Qed.

Definition built : outcome BuilderError MqttClient * Channels := ClientBuilder.build builder no_channels.
Definition the_client : MqttClient :=
  match fst built with
  | Ok c => c
  | _ => MqttClient.mk None ∅ false (PacketChannel.mk 0 None) (PacketChannel.mk 0 None) None 0 None None
  end.

Definition present {A} (o : option A) : bool := match o with Some _ => true | None => false end.

Definition run0 : ClientSystem := launched (snd built) the_client 0.

Lemma built_ok : built = (Ok the_client, snd built).
Proof.
  assert (E : match fst built with Ok _ => true | _ => false end = true) by (vm_compute; reflexivity).
  unfold the_client. destruct built as [[c|e| |] s]; done.
Qed.

(** The task of a system, and the system after one of its branches. *)
Definition task_of (sys : ClientSystem) : option Task :=
  match ClientSystem.run sys with Some (Looping t) => Some t | _ => None end.

Definition run1 : ClientSystem :=
  default run0 (settle_app (MqttClient.start 0 true (ClientSystem.channels run0, ClientSystem.client run0))
    (fun '(h, t) => Some (Connecting h t)) run0).

Definition dial (sys : ClientSystem) : option ClientSystem :=
  match ClientSystem.run sys with
  | Some (Connecting h t) =>
      settle_connect [] t (connect 2 9 [] [] (fun _ => 0) (Handshake.max_connect_wait h)
        (Handshake.credentials h) (Handshake.clean_start h) (Handshake.will_message h) (Task.session t)) sys
  | _ => None
  end.

Definition branch (m : Task -> outcome MqttError Pass * (Channels * Task)) (sys : ClientSystem)
    : option ClientSystem :=
  match task_of sys with Some t => settle_pass [] (m t) sys | None => None end.

Definition read_branch (sys : ClientSystem) : option ClientSystem :=
  branch (fun t => on_read_next 9 [] (ClientSystem.channels sys, t)) sys.

Definition run2 : ClientSystem := default run1 (dial run1).
Definition run3 : ClientSystem := default run2 (read_branch run2).
Definition run4 : ClientSystem := default run3 (read_branch run3).

Definition task_at (sys : ClientSystem) : Task :=
  default (Task.mk (new_from_state (busy_state true) (MqttStream.TcpStream (mkChunked [] 0 [])) 0)
             ∅ 0 0 None 0 false 0) (task_of sys).

Lemma looping sys : present (task_of sys) = true -> ClientSystem.run sys = Some (Looping (task_at sys)).
Proof. unfold task_at, task_of. by destruct (ClientSystem.run sys) as [[]|]. Qed.

Lemma read_step sys sys' :
  present (task_of sys) && negb (present (Task.pending_forward (task_at sys)))
    && present (read_branch sys) = true ->
  sys' = default sys (read_branch sys) -> client_step sys sys'.
Proof.
  intros [[Ht Hp]%andb_true_iff Hs]%andb_true_iff ->.
  apply (cs_read sys (task_at sys) 9 [] []); [by apply looping | by destruct (Task.pending_forward _) |].
  rewrite <- (some_default (read_branch sys) sys Hs). unfold read_branch, branch, task_at.
  by destruct (task_of sys).
Qed.

Lemma step_start : client_step run0 run1.
Proof. apply (cs_start run0 true). apply some_default. vm_compute. reflexivity. Qed.

Lemma dial_step sys sys' :
  match dial sys with Some _ => true | None => false end = true ->
  sys' = default sys (dial sys) -> client_step sys sys'.
Proof.
  intros Hs ->. pose proof (some_default (dial sys) sys Hs) as E. revert E.
  generalize (default sys (dial sys)). intros sys' E. unfold dial in E.
  destruct (ClientSystem.run sys) as [[h t|t|r]|] eqn:Er; try done.
  exact (cs_connect sys h t 2 9 [] [] [] (fun _ => 0) sys' Er E).
Qed.

Lemma step_dial : client_step run1 run2.
Proof. apply dial_step; [vm_compute; reflexivity | reflexivity]. Qed.

Lemma step_read1 : client_step run2 run3.
Proof. apply read_step; [vm_compute; reflexivity | reflexivity]. Qed.

Lemma step_read2 : client_step run3 run4.
Proof. apply read_step; [vm_compute; reflexivity | reflexivity]. Qed.

Lemma client_invariant_witness :
  client_reachable no_channels builder 0 run4 /\ client_ok run4.
Proof.
  assert (H : client_reachable no_channels builder 0 run4).
  { exists (snd built), the_client. split; [exact built_ok |].
    eapply rtc_l; [apply step_start |]. eapply rtc_l; [apply step_dial |].
    eapply rtc_l; [apply step_read1 |]. eapply rtc_l; [apply step_read2 | apply rtc_refl]. }
  split; [exact H |]. exact (client_invariant no_channels builder 0 run4 builder_fine H).
Defined.

Lemma client_starts_once_witness :
  exists e, fst (MqttClient.start 9 false
    (no_channels, snd (snd (MqttClient.start 0 true (snd built, the_client))))) = Err e.
Proof.
  apply (client_starts_once (snd built) the_client 0 true).
  assert (E : present (MqttClient.connection the_client) = true) by (vm_compute; reflexivity).
  by destruct (MqttClient.connection the_client).
Defined.

Lemma run_ok0 : client_ok run0.
Proof.
  destruct (build_run no_channels builder the_client (snd built) builder_fine built_ok) as [Hi Hk].
  split; [exact Hk | exact Hi | done].
Qed.

Lemma run_ok3 : client_ok run3.
Proof.
  apply (client_step_ok _ _ step_read1), (client_step_ok _ _ step_dial), (client_step_ok _ _ step_start).
  apply run_ok0.
Qed.

(** The second message finds the channel full: it is held back, behind the first. *)
Lemma read_branch_run sys :
  present (task_of sys) && present (read_branch sys) = true ->
  settle_pass [] (on_read_next 9 [] (ClientSystem.channels sys, task_at sys)) sys
  = Some (default sys (read_branch sys)).
Proof.
  intros [Ht Hs]%andb_true_iff. rewrite <- (some_default (read_branch sys) sys Hs).
  unfold read_branch, branch, task_at. by destruct (task_of sys).
Qed.

Lemma consumer_fifo_witness :
  present (Task.pending_forward (task_at run4)) = true
  /\ (length (backlog (ClientSystem.channels run4) (task_at run4) 1) =? 2)%nat = true
  /\ exists packet c1 o c2,
       read_next 9 [] (Task.session (task_at run3)) = (Ok (Some packet), c1)
       /\ ClientSession.handle_packet packet c1 = (Ok o, c2)
       /\ backlog (ClientSystem.channels run4) (task_at run4) 1
          = backlog (ClientSystem.channels run3) (task_at run3) 1 ++ shown_to (task_at run3) o 1.
Proof.
  split; [vm_compute; reflexivity |]. split; [vm_compute; reflexivity |].
  destruct (consumer_fifo run3 (task_at run3) 1 run_ok3) as (Hread & _ & _).
  - apply looping. vm_compute. reflexivity.
  - assert (E : (MqttClient.packet_producer (ClientSystem.client run3) =? 0) = true) by (vm_compute; reflexivity).
    apply Z.eqb_eq in E. rewrite E. lia.
  - apply (Hread 9%nat [] [] run4 (task_at run4)).
    + assert (E : present (Task.pending_forward (task_at run3)) = false) by (vm_compute; reflexivity).
      by destruct (Task.pending_forward (task_at run3)).
    + exact (read_branch_run run3 ltac:(vm_compute; reflexivity)).
    + apply looping. vm_compute. reflexivity.
Defined.

(** The application takes the first message. *)
Definition emptied (s : Channels) : Channels :=
  s <| Channels.store := <[1 := Queue [] 1 false]> (Channels.store s) |>.

Definition make_room (sys : ClientSystem) : ClientSystem :=
  sys <| ClientSystem.channels := emptied (ClientSystem.channels sys) |>.

Lemma make_room_ok sys : client_ok sys -> client_ok (make_room sys).
Proof. intros H. apply client_ok_channels; [done | apply extends_put]. Qed.

Definition run5 : ClientSystem := make_room run4.

Lemma run_ok5 : client_ok run5.
Proof. exact (make_room_ok run4 (client_step_ok run3 run4 step_read2 run_ok3)). Qed.

Definition held_back : Packet :=
  default hello (Task.pending_forward (task_at run5)).

Definition forward_branch (sys : ClientSystem) : option ClientSystem :=
  branch (fun t => on_forward (ClientSystem.channels sys, t)) sys.

Definition run6 : ClientSystem := default run5 (forward_branch run5).

Lemma forward_branch_run sys sys' :
  present (task_of sys) && present (Task.pending_forward (task_at sys)) && present (forward_branch sys) = true ->
  sys' = default sys (forward_branch sys) -> forwards sys sys'.
Proof.
  intros [[Ht Hp]%andb_true_iff Hs]%andb_true_iff ->.
  exists (task_at sys), []. split; [by apply looping |].
  split; [by destruct (Task.pending_forward (task_at sys)) |].
  rewrite <- (some_default (forward_branch sys) sys Hs). unfold forward_branch, branch, task_at.
  by destruct (task_of sys).
Qed.

Lemma run5_holding : holding run5 held_back 1.
Proof.
  exists (task_at run5), (Queue [] 1 false). split; [apply looping; vm_compute; reflexivity |].
  split; [apply some_default; vm_compute; reflexivity |].
  split; [apply Z.eqb_eq; vm_compute; reflexivity |].
  split; [apply lookup_insert_eq |]. split; [reflexivity | simpl; lia].
Qed.

Lemma run5_forwards : forwards run5 run6.
Proof. apply forward_branch_run; [vm_compute; reflexivity | reflexivity]. Qed.

Lemma forwards_step sys sys' : forwards sys sys' -> client_step sys sys'.
Proof. intros (t & uuid & Hl & Hp & H). by apply (cs_forward sys t uuid). Qed.

(** Time may stand still. *)
Lemma idle_step sys : client_step sys sys.
Proof.
  assert (E : sys <| ClientSystem.clock := ClientSystem.clock sys + 0 |> = sys)
    by (destruct sys; cbn; by rewrite Z.add_0_r).
  rewrite <- E at 2. by apply cs_tick.
Qed.

(** The packet is handed over, and then nothing happens for ever. *)
Definition then_idle (sys sys' : ClientSystem) (n : nat) : ClientSystem :=
  match n with O => sys | S _ => sys' end.

Lemma then_idle_runs sys sys' : forwards sys sys' -> client_run (then_idle sys sys').
Proof. intros H [|n]; [by apply forwards_step | apply idle_step]. Qed.

Lemma then_idle_fair sys sys' :
  forwards sys sys' -> (forall p i, ~ holding sys' p i) -> fair_forwarding (then_idle sys sys').
Proof.
  intros H Hn [|n] _.
  - exists 0%nat. split; [lia | by left].
  - exists (S n). split; [lia | by right].
Qed.

Definition forwarding_run : nat -> ClientSystem := then_idle run5 run6.

Lemma nothing_held sys p i : present (Task.pending_forward (task_at sys)) = false -> ~ holding sys p i.
Proof.
  intros E (t & ch & Hl & Hp & _). unfold task_at, task_of in E. rewrite Hl in E. cbn in E. by rewrite Hp in E.
Qed.

Lemma run6_free p i : ~ holding run6 p i.
Proof. apply nothing_held. vm_compute. reflexivity. Qed.

Lemma held_packet_forwarded_witness :
  holding run5 held_back 1
  /\ exists m, (0 <= m)%nat
       /\ (handed_over (forwarding_run m) (forwarding_run (S m)) held_back 1 \/ given_up (forwarding_run m) 1).
Proof.
  split; [exact run5_holding |].
  apply (held_packet_forwarded forwarding_run 0 held_back 1).
  - exact run_ok5.
  - exact (then_idle_runs run5 run6 run5_forwards).
  - exact (then_idle_fair run5 run6 run5_forwards run6_free).
  - assert (E : (MqttClient.packet_producer (ClientSystem.client run5) =? 0) = true) by (vm_compute; reflexivity).
    apply Z.eqb_eq in E. change (1 <> MqttClient.packet_producer (ClientSystem.client run5)). rewrite E. lia.
  - exact run5_holding.
Defined.
