(* ===== verification/ExampleSamples.v ===== *)
(** * The example programs at work *)
(** Concrete runs of the programs of vaux-client/examples on which their theorems
    are applied. *)

From S2P Require Import Prelude Bytes Runtime Codec Fixed Property Macro MacroFacts Subscriptions.
From S2P Require Import Acks Publish Connect Packet Topic Stream Broker BrokerFacts BrokerSamples.
From S2P Require Import ClientSession Connection Client ClientSamples Relay ClientExamples.

(** ** The relay *)

(** A relay that expects one message: the publisher has sent it, and the
    subscriber's acknowledgement is there. *)
Definition relay_stream (bs : list Z) : PacketStream (T := chunked_transport) :=
  PacketStream_new (T := chunked_transport) (mkChunked bs 63 []) None (Some MAX_RELAY_BUFFER).

Definition relay0 : Relay (T := chunked_transport) :=
  relay_start (T := chunked_transport) 1
    (relay_stream (wire_bytes (Packet.PubAck (new_puback_with_packet_id 1))))
    (relay_stream (wire_bytes (Packet.Publish reading))).

Abbreviation read_of s := (read (T := chunked_transport) 10%nat (@nil Z) s).

Definition reading_stream (r : Relay (T := chunked_transport)) : PacketStream (T := chunked_transport) :=
  match pub_task r with Reading s => s | Sending s _ => s | PubOver => relay_stream [] end.

Definition taken : PubTask (T := chunked_transport) :=
  default PubOver (on_published (T := chunked_transport) (read_of (reading_stream relay0)).1
    (read_of (reading_stream relay0)).2).
Definition relay1 : Relay (T := chunked_transport) := relay0 <| pub_task := taken |>.
Definition sending_publish : Publish := match taken with Sending _ p => p | _ => reading end.
Definition queued : chan Publish := default (forward relay1) (chan_try_send sending_publish (forward relay1)).
Definition relay2 : Relay (T := chunked_transport) :=
  relay1 <| pub_task := Reading (reading_stream relay1) |> <| forward := queued |>.
Definition emptied_queue : chan Publish := (default (reading, queued) (chan_recv queued)).2.
Definition passed_on := on_forward (T := chunked_transport) sending_publish (next_id relay2) (received relay2)
  (sub_stream relay2).
Definition relay3 : Relay (T := chunked_transport) :=
  settle_relay passed_on.1 (fun id r => r <| next_id := id |>)
    (relay2 <| sub_stream := passed_on.2 |> <| forward := emptied_queue |>).
Definition answer := on_subscriber (T := chunked_transport) (read_of (sub_stream relay3)).1
  (received relay3) (read_of (sub_stream relay3)).2.
Definition relay4 : Relay (T := chunked_transport) :=
  settle_relay answer.1 (fun n r => r <| received := n |>) (relay3 <| sub_stream := answer.2 |>).

(** What the two clients are read to have sent. *)
Definition published := from_publisher (read_of (reading_stream relay0)).1.
Definition confirmed := from_subscriber (read_of (sub_stream relay3)).1.

Definition relay_trace : list relay_event :=
  ((([] ++ [published]) ++ [Queued sending_publish]) ++ [Forwarded sending_publish]) ++ [confirmed].

Lemma taken_sending : taken = Sending (reading_stream relay1) sending_publish.
Proof. vm_compute. reflexivity. Qed.

Lemma step_taken : relay_step (T := chunked_transport) 1 relay0 published relay1.
Proof.
  refine (relay_published (T := chunked_transport) 1 relay0 10 [] (reading_stream relay0)
    (read_of (reading_stream relay0)).1 (read_of (reading_stream relay0)).2 taken eq_refl eq_refl _ _).
  - apply surjective_pairing.
  - apply some_default. vm_compute. reflexivity.
Qed.

Lemma step_queued : relay_step (T := chunked_transport) 1 relay1 (Queued sending_publish) relay2.
Proof.
  refine (relay_queue (T := chunked_transport) 1 relay1 (reading_stream relay1) sending_publish queued eq_refl
    taken_sending _).
  apply some_default. vm_compute. reflexivity.
Qed.

Lemma step_forwarded : relay_step (T := chunked_transport) 1 relay2 (Forwarded sending_publish) relay3.
Proof.
  refine (relay_forward (T := chunked_transport) 1 relay2 sending_publish emptied_queue passed_on.1 passed_on.2
    eq_refl eq_refl _ _ _).
  - vm_compute. reflexivity.
  - unfold passed_on. exact (surjective_pairing _).
  - vm_compute. discriminate.
Qed.

Lemma step_counted : relay_step (T := chunked_transport) 1 relay3 confirmed relay4.
Proof.
  refine (relay_subscriber (T := chunked_transport) 1 relay3 10 [] (read_of (sub_stream relay3)).1
    (read_of (sub_stream relay3)).2 answer.1 answer.2 _ _ _ _ _).
  - vm_compute. reflexivity.
  - vm_compute. reflexivity.
  - exact (surjective_pairing (read_of (sub_stream relay3))).
  - unfold answer. exact (surjective_pairing _).
  - vm_compute. discriminate.
Qed.

Lemma relay_ran : relay_run (T := chunked_transport) 1 relay0 relay_trace relay4.
Proof.
  refine (relay_snoc 1 relay0 _ relay3 _ relay4 _ step_counted).
  refine (relay_snoc 1 relay0 _ relay2 _ relay3 _ step_forwarded).
  refine (relay_snoc 1 relay0 _ relay1 _ relay2 _ step_queued).
  exact (relay_snoc 1 relay0 [] relay0 _ relay1 (relay_nil 1 relay0) step_taken).
Qed.

Lemma relay_faithful_witness :
  forwards relay_trace `prefix_of` takes relay_trace
  /\ t_outgoing (stream (sub_stream relay4)) = [] ++ to_subscriber 0 relay_trace
  /\ t_outgoing (stream (reading_stream relay4)) = [] ++ to_publisher relay_trace
  /\ received relay4 = 1 /\ Publish.packet_id <$> takes relay_trace = [Some 5]
  /\ to_publisher relay_trace = wire_bytes (Packet.PubAck (new_puback_with_packet_id 5)).
Proof.
  destruct (relay_faithful 1 (sub_stream relay0) (reading_stream relay0) relay_trace relay4
    ltac:(lia) relay_ran) as (Hf & Hs & _ & Hp & _).
  split; [exact Hf |]. split; [apply Hs; vm_compute; exact I |].
  split; [apply Hp; vm_compute; reflexivity |].
  split; [vm_compute; reflexivity |]. split; vm_compute; reflexivity.
Defined.

(** ** The subscriber *)

Definition attentive (auto_ack : bool) : SubscribeArgs.Args :=
  SubscribeArgs.mk auto_ack QoSLevel.AtLeastOnce (str "localhost") 1883 true.

Definition subscriber_task : Task :=
  Task.mk (new_from_state (busy_state true) (MqttStream.TcpStream (mkChunked [] 0 [])) 0) ∅ 1 0 None 0 false 0.

(** Bytes that are no text, without a payload format. *)
Definition noise : Publish := plain_publish (FixedHeader_new PacketType.Publish) room1 None [255].

Lemma subscribe_acks_discarded_witness :
  on_received (attentive true) (Packet.Publish reading)
    = Ok (Some (Packet.PubAck (new_puback_with_packet_id 5)))
  /\ on_received (attentive false) (Packet.Publish reading) = Ok None
  /\ on_inbound (Some (Packet.PubAck (new_puback_with_packet_id 5))) (Channels.mk ∅ 0, subscriber_task)
     = (Ok Again, (Channels.mk ∅ 0, subscriber_task))
  /\ on_received (attentive true) (Packet.Publish noise) = Panic.
Proof.
  split; [vm_compute; reflexivity |]. split; [vm_compute; reflexivity |]. split.
  - destruct (subscribe_acks_discarded (attentive true) (Packet.Publish reading) (Channels.mk ∅ 0) subscriber_task
      eq_refl) as (_ & _ & _ & H).
    apply H. vm_compute. reflexivity.
  - destruct (subscribe_acks_discarded (attentive true) (Packet.Publish noise) (Channels.mk ∅ 0) subscriber_task
      eq_refl) as (H & _).
    apply H. exists noise. split; [reflexivity |]. left. split; [discriminate |].
    intros text E. injection E as <-. vm_compute. reflexivity.
Defined.
